(** * Watershed paint-by-numbers generator: model and properties

    A shallow embedding of the segmentation pipeline of the repository
    (ColorQuantizer, WatershedProcessor, App.generate and
    SVGGenerator.contourToPathData) together with the properties the
    specification states about it.

    OpenCV.js is an external library: its entry points are the fields of
    the class [OpenCV] below, and each theorem names the part of OpenCV's
    documented contract it relies on as a hypothesis. *)

From Stdlib Require Import ZArith QArith Qabs Qround Lia HexadecimalString.
From Stdlib Require Import Ascii.
From stdpp Require Import base list gmap strings pretty.

Open Scope Z_scope.

(* ================================================================== *)
(** * Part I: the model *)
(* ================================================================== *)

(** ** JavaScript values and control flow *)

Module Js.

(** What a [throw] carries.  The code only ever throws [new Error(msg)];
    OpenCV.js throws other things (usually the number of a C++ exception),
    of which the code uses nothing but the text of [String(e)]. *)
Inductive Thrown : Type :=
| ErrorObject (name message : string)
| OtherValue (text : string).

(** [new Error(msg)] *)
Definition Error (msg : string) : Thrown := ErrorObject "Error" msg.
Definition RangeError (msg : string) : Thrown := ErrorObject "RangeError" msg.
Definition TypeError (msg : string) : Thrown := ErrorObject "TypeError" msg.

(** [String(e)], as in ['...failed: ' + e] (Error.prototype.toString). *)
Definition toString (e : Thrown) : string :=
  match e with
  | ErrorObject name message =>
      if decide (message = "") then name
      else if decide (name = "") then message
      else name +:+ ": " +:+ message
  | OtherValue text => text
  end.

(** The [name] property of what was thrown, when it is an error object. *)
Definition errorName (e : Thrown) : option string :=
  match e with
  | ErrorObject name _ => Some name
  | OtherValue _ => None
  end.

(** The outcome of evaluating a piece of code. *)
Inductive Completion (A : Type) : Type :=
| Normal (a : A)
| Throw (e : Thrown).
Arguments Normal {A} a.
Arguments Throw {A} e.

Definition bind {A B} (k : A → Completion B) (c : Completion A) : Completion B :=
  match c with
  | Normal a => k a
  | Throw e => Throw e
  end.

(** [try { c } catch (e) { throw h(e) }] *)
Definition rethrow {A} (c : Completion A) (h : Thrown → Thrown) : Completion A :=
  match c with
  | Normal a => Normal a
  | Throw e => Throw (h e)
  end.

(** [a || b] on a possibly undefined number: [undefined] and [0] are falsy. *)
Definition or_default (a : option Z) (b : Z) : Z :=
  match a with
  | Some v => if decide (v = 0) then b else v
  | None => b
  end.

(** Stores into an [Int32Array] and a [Uint8Array] wrap around. *)
Definition int32 (z : Z) : Z := (z + 2 ^ 31) mod 2 ^ 32 - 2 ^ 31.
Definition uint8 (z : Z) : Z := z mod 2 ^ 8.

(** [Math.round]: the nearest integer, halves upwards. *)
Definition Math_round (q : Q) : Z := Qfloor (q + (1 # 2)).

Definition Qltb (a b : Q) : bool := negb (Qle_bool b a).

(** [`${n}`] for an integral number below 10^21 in size: its decimal
    digits.  (From 10^21 on a number is printed with an exponent; the
    integers printed here are pixel coordinates, counts and sizes, which
    are 32-bit.) *)
Definition Number_toString (z : Z) : string := pretty z.

Definition digit (d : Z) : string := pretty (d mod 10).

(** [x.toFixed(2)] (ECMA-262, Number.prototype.toFixed with f = 2): the sign
    is split off, [n] is the integer with [n / 100] nearest to [|x|] (the
    larger one on a tie), and its digits are cut two from the right.

    The numbers formatted here have the form [p + d / 6] with [p] and [d]
    integers of pixel size (32-bit).  Hundred times such a number is an
    integer or lies a third away from one, so the double the browser
    computes and the rational computed here round to the same [n]; for
    numbers of another kind, or from 10^21 on, where [toFixed] prints an
    exponent, this is not what the browser prints. *)
Definition toFixed2 (x : Q) : string :=
  let s := if Qltb x 0 then "-" else "" in
  let n := Math_round (Qabs x * 100) in
  s +:+ pretty (n / 100) +:+ "." +:+ digit (n / 10) +:+ digit n.

(** [Math.min(a, b)] and [Math.max(a, b)] on numbers. *)
Definition Math_min (a b : Q) : Q := if Qle_bool a b then a else b.
Definition Math_max (a b : Q) : Q := if Qle_bool a b then b else a.

End Js.

#[export] Instance completion_ret : MRet Js.Completion := @Js.Normal.
#[export] Instance completion_bind : MBind Js.Completion := @Js.bind.

(** ** SVGGenerator (js/svgGenerator.js) *)

Module SVGGenerator.
Import Js.

(** A contour point [{x, y}]; the coordinates come from [contour.intAt]. *)
Record Point : Type := mkPoint { px : Z; py : Z }.

Definition alpha : Q := 1 # 2.

(** [pt = i => contour[(i + n) % n]]; JavaScript's [%] is [Z.rem]. *)
Definition pt (contour : list Point) (n : Z) (i : Z) : Point :=
  default (mkPoint 0 0) (contour !! Z.to_nat (Z.rem (i + n) n)).

Record ControlPoints : Type :=
  mkControl { cp1x : Q; cp1y : Q; cp2x : Q; cp2y : Q }.

Definition catmullToBezier (p0 p1 p2 p3 : Point) : ControlPoints :=
  {| cp1x := inject_Z (px p1) + inject_Z (px p2 - px p0) * alpha / 3;
     cp1y := inject_Z (py p1) + inject_Z (py p2 - py p0) * alpha / 3;
     cp2x := inject_Z (px p2) - inject_Z (px p3 - px p1) * alpha / 3;
     cp2y := inject_Z (py p2) - inject_Z (py p3 - py p1) * alpha / 3 |}%Q.

Definition moveTo (p : Point) : string :=
  "M " +:+ Number_toString (px p) +:+ " " +:+ Number_toString (py p).

Definition lineTo (p : Point) : string :=
  " L " +:+ Number_toString (px p) +:+ " " +:+ Number_toString (py p).

Definition curveTo (c : ControlPoints) (next : Point) : string :=
  " C " +:+ toFixed2 (cp1x c) +:+ " " +:+ toFixed2 (cp1y c) +:+ ", "
  +:+ toFixed2 (cp2x c) +:+ " " +:+ toFixed2 (cp2y c) +:+ ", "
  +:+ Number_toString (px next) +:+ " " +:+ Number_toString (py next).

(** One turn of [for (let i = 0; i < n; i++) { ... pathData += ... }]. *)
Definition curveStep (contour : list Point) (n : Z) (pathData : string) (i : nat)
  : string :=
  let i := Z.of_nat i in
  let c := catmullToBezier (pt contour n (i - 1)) (pt contour n i)
             (pt contour n (i + 1)) (pt contour n (i + 2)) in
  let next := pt contour n (i + 1) in
  pathData +:+ curveTo c next.

Definition contourToPathData (contour : list Point) : string :=
  match contour with
  | [] => ""
  | first :: _ =>
      if decide (length contour < 3)%nat then
        let d := foldl (λ d i, d +:+ lineTo (default first (contour !! i)))
                   (moveTo first) (seq 1 (length contour - 1)) in
        d +:+ " Z"
      else
        let n := Z.of_nat (length contour) in
        let pathData :=
          foldl (curveStep contour n) (moveTo (pt contour n 0))
            (seq 0 (length contour)) in
        pathData +:+ " Z"
  end.

End SVGGenerator.

(** ** The smoothing step in the words of the specification

    Written without the string builders of the code: a path is a list of
    commands, and its text is SVG path data. *)

Module SmootherSpec.
Import Js.

(** Coordinates as [contour.intAt] gives them: 32-bit integers. *)
Definition int32Point (p : SVGGenerator.Point) : Prop :=
  - 2 ^ 31 ≤ SVGGenerator.px p < 2 ^ 31 ∧ - 2 ^ 31 ≤ SVGGenerator.py p < 2 ^ 31.

(** The vertex [i] places along a closed polygon: indices wrap around. *)
Definition vertex (polygon : list SVGGenerator.Point) (i : nat) : SVGGenerator.Point :=
  nth (i mod length polygon) polygon (SVGGenerator.mkPoint 0 0).

(** A cubic Bezier segment from [start] to [stop]. *)
Record Bezier : Type := mkBezier {
  start : SVGGenerator.Point;
  control1 : Q * Q;
  control2 : Q * Q;
  stop : SVGGenerator.Point
}.

(** Segment [i] of the closed Catmull-Rom spline of tension α through the
    polygon runs from vertex [i] to vertex [i + 1]; with (p0, p1, p2, p3)
    the vertices [i - 1 .. i + 2] its control points are
    [p1 + (p2 - p0) * α / 3] and [p2 - (p3 - p1) * α / 3]. *)
Definition segment (α : Q) (polygon : list SVGGenerator.Point) (i : nat) : Bezier :=
  let x p := inject_Z (SVGGenerator.px p) in
  let y p := inject_Z (SVGGenerator.py p) in
  let p0 := vertex polygon (i + length polygon - 1) in
  let p1 := vertex polygon i in
  let p2 := vertex polygon (i + 1) in
  let p3 := vertex polygon (i + 2) in
  {| start := p1;
     control1 := (x p1 + (x p2 - x p0) * (α / 3), y p1 + (y p2 - y p0) * (α / 3))%Q;
     control2 := (x p2 - (x p3 - x p1) * (α / 3), y p2 - (y p3 - y p1) * (α / 3))%Q;
     stop := p2 |}.

(** The commands of a path. *)
Inductive Command : Type :=
| MoveTo (p : SVGGenerator.Point)
| LineTo (p : SVGGenerator.Point)
| CurveTo (c1 c2 : Q * Q) (p : SVGGenerator.Point)
| ClosePath.

(** The closed spline: move to the first vertex, one curve per vertex,
    close. *)
Definition closedSpline (α : Q) (polygon : list SVGGenerator.Point) : list Command :=
  MoveTo (vertex polygon 0)
  :: map (λ i, let b := segment α polygon i in CurveTo (control1 b) (control2 b) (stop b))
       (seq 0 (length polygon))
  ++ [ClosePath].

(** The straight-edged closed path: move to the first point, a line to
    each further point, close.  Through no point at all there is no
    path. *)
Definition straightPath (polygon : list SVGGenerator.Point) : list Command :=
  match polygon with
  | [] => []
  | first :: rest => MoveTo first :: map LineTo rest ++ [ClosePath]
  end.

(** The text of a path: each command is its letter followed by its
    coordinates, integers in decimal digits and control points with two
    decimals, and the commands are separated by a blank. *)
Definition point (p : SVGGenerator.Point) : string :=
  Number_toString (SVGGenerator.px p) +:+ " " +:+ Number_toString (SVGGenerator.py p).

Definition control (c : Q * Q) : string := toFixed2 (fst c) +:+ " " +:+ toFixed2 (snd c).

Definition command (c : Command) : string :=
  match c with
  | MoveTo p => "M " +:+ point p
  | LineTo p => "L " +:+ point p
  | CurveTo c1 c2 p => "C " +:+ control c1 +:+ ", " +:+ control c2 +:+ ", " +:+ point p
  | ClosePath => "Z"
  end.

Fixpoint pathData (path : list Command) : string :=
  match path with
  | [] => ""
  | c :: rest =>
      match rest with
      | [] => command c
      | _ => command c +:+ " " +:+ pathData rest
      end
  end.

End SmootherSpec.

(** ** OpenCV.js matrices and entry points *)

Module Cv.
Import Js.

Inductive Depth : Type := CV_8U | CV_32S | CV_32F.

#[export] Instance depth_eq_dec : EqDecision Depth.
Proof. solve_decision. Defined.

(** A [cv.Mat]: [rows] x [cols] elements of [channels] samples each, stored
    row after row in one buffer. *)
Record Mat : Type := mkMat {
  rows : nat;
  cols : nat;
  channels : nat;
  depth : Depth;
  data : list Z
}.

Definition offset (m : Mat) (y x : nat) : nat :=
  (y * (cols m * channels m) + x * channels m)%nat.

(** [m.ucharPtr(y, x)[k]] *)
Definition ucharPtr (m : Mat) (y x k : nat) : Z :=
  default 0 (data m !! (offset m y x + k)%nat).

(** [m.intAt(i, j)]: the [j]th sample of row [i]. *)
Definition intAt (m : Mat) (i j : nat) : Z :=
  default 0 (data m !! (i * (cols m * channels m) + j)%nat).

(** What a store into the buffer of a matrix keeps of a number. *)
Definition wrap (d : Depth) (v : Z) : Z :=
  match d with
  | CV_8U => uint8 v
  | CV_32S => int32 v
  | CV_32F => v
  end.

(** [m.ucharPtr(y, x)[k] = v] and [m.intPtr(y, x)[k] = v] *)
Definition store (m : Mat) (y x k : nat) (v : Z) : Mat :=
  mkMat (rows m) (cols m) (channels m) (depth m)
    (<[(offset m y x + k)%nat := wrap (depth m) v]> (data m)).

(** [cv.Mat.zeros(rows, cols, type)]; [new cv.Mat(rows, cols, type)] is
    modelled by it too, the code overwriting every element before use. *)
Definition zeros (h w : nat) (d : Depth) (c : nat) : Mat :=
  mkMat h w c d (replicate (h * w * c) 0).

(** [for (y = 0; y < height; y++) for (x = 0; x < width; x++) body] *)
Definition forPixels {S : Type} (height width : nat) (body : nat → nat → S → S)
    (s : S) : S :=
  foldl (λ s y, foldl (λ s x, body y x s) s (seq 0 width)) s (seq 0 height).

(** The pixels in the order the two nested loops visit them. *)
Definition scan (height width : nat) : list (nat * nat) :=
  y ← seq 0 height; x ← seq 0 width; [(y, x)].

(** A single-channel matrix of a given width. *)
Definition plane (m : Mat) (width : nat) : Prop :=
  cols m = width ∧ channels m = 1%nat.

(** A turn of a pixel loop that writes [f y x] into pixel (y, x), or leaves
    the matrix alone where [f y x] is nothing. *)
Definition writes (f : nat → nat → option Z) (y x : nat) (m : Mat) : Mat :=
  match f y x with
  | Some v => store m y x 0 v
  | None => m
  end.

(** A browser [ImageData]: RGBA bytes. *)
Record ImageData : Type := mkImageData {
  width : nat;
  height : nat;
  pixels : list Z
}.

(** [cv.matFromImageData] *)
Definition matFromImageData (img : ImageData) : Mat :=
  mkMat (height img) (width img) 4 CV_8U (pixels img).

Inductive ColorConversion : Type := COLOR_RGBA2RGB | COLOR_RGB2Lab.
Inductive MorphShape : Type := MORPH_RECT | MORPH_CROSS | MORPH_ELLIPSE.
Inductive RetrievalMode : Type := RETR_EXTERNAL | RETR_LIST.
Inductive ApproxMethod : Type := CHAIN_APPROX_NONE | CHAIN_APPROX_SIMPLE.
Inductive KmeansFlags : Type := KMEANS_RANDOM_CENTERS | KMEANS_PP_CENTERS.

(** [new cv.TermCriteria(type, maxCount, epsilon)] *)
Record TermCriteria : Type := mkCriteria {
  useEps : bool;
  useMaxIter : bool;
  maxCount : Z;
  epsilon : Q
}.

(** The part of OpenCV.js the pipeline calls.  Each call may throw, which
    is why [process] wraps every stage in [try].  Numbers that are
    genuinely floating point (cluster centres, image moments, contour
    areas) stay in the abstract type [double], with the one operation the
    code applies to them. *)
Class OpenCV : Type := {
  (** [typeof cv !== 'undefined' && cv.Mat] *)
  ready : bool;
  double : Type;
  centersMat : Type;
  cvtColor : Mat → ColorConversion → Completion Mat;
  reshape : Mat → nat → nat → Completion Mat;
  convertTo : Mat → Depth → Completion Mat;
  (** [cv.kmeans(samples, K, labels, criteria, attempts, flags, centers)]
      fills [labels] and [centers]. *)
  kmeans : Mat → Z → TermCriteria → Z → KmeansFlags → Completion (Mat * centersMat);
  getStructuringElement : MorphShape → Z * Z → Completion Mat;
  erode : Mat → Mat → Completion Mat;
  (** [cv.connectedComponents(image, labels, connectivity, ltype)] returns
      the number of labels and fills [labels]. *)
  connectedComponents : Mat → Z → Depth → Completion (Z * Mat);
  (** [cv.watershed(image, markers)] rewrites [markers]. *)
  watershed : Mat → Mat → Completion Mat;
  findContours : Mat → RetrievalMode → ApproxMethod → Completion (list Mat);
  (** [cv.moments(contour)]: (m00, m10, m01) *)
  moments : Mat → Completion (double * double * double);
  contourArea : Mat → Completion double;
  (** [Math.round(a / b)] on doubles *)
  roundedRatio : double → double → double
}.

(** A loop whose body may throw. *)
Fixpoint forEach {S A} (body : S → A → Completion S) (s : S) (l : list A)
  : Completion S :=
  match l with
  | [] => Normal s
  | a :: rest => s' ← body s a; forEach body s' rest
  end.

End Cv.

(** ** Utils (js/utils.js) *)

Module Utils.
Import Js.

(** [x.toString(16)] *)
Definition toHex (x : Z) : string :=
  if decide (x < 0)
  then "-" +:+ HexadecimalString.NilZero.string_of_uint (N.to_hex_uint (Z.to_N (- x)))
  else HexadecimalString.NilZero.string_of_uint (N.to_hex_uint (Z.to_N x)).

Definition rgbToHex (r g b : Z) : string :=
  let two x := let hex := toHex x in
               if decide (String.length hex = 1%nat) then "0" +:+ hex else hex in
  "#" +:+ two r +:+ two g +:+ two b.

Definition getColorName (r g b : Z) : string :=
  let max := Z.max (Z.max r g) b in
  let min := Z.min (Z.min r g) b in
  let brightness := (inject_Z (r + g + b) / 3)%Q in
  if decide (max - min < 30) then
    if Qltb brightness 50 then "Black"
    else if Qltb brightness 100 then "Dark Gray"
    else if Qltb brightness 180 then "Gray"
    else if Qltb brightness 230 then "Light Gray"
    else "White"
  else if decide (r > g ∧ r > b) then
    if decide (g > 100 ∧ b < 100) then "Yellow"
    else if decide (g < 100 ∧ b > 100) then "Purple"
    else if decide (r > 180) then "Red" else "Dark Red"
  else if decide (g > r ∧ g > b) then
    if decide (b > 100 ∧ r < 100) then "Cyan"
    else if decide (r > 100 ∧ b < 100) then "Yellow"
    else if decide (g > 180) then "Green" else "Dark Green"
  else
    if decide (r > 100 ∧ g < 100) then "Purple"
    else if decide (g > 100 ∧ r < 100) then "Cyan"
    else if decide (b > 180) then "Blue" else "Dark Blue".


(** A character of the class [[a-f\d]] under the flag [i], with the value
    [parseInt] gives it in base 16. *)
Definition hexDigit (c : ascii) : option Z :=
  let n := Z.of_nat (nat_of_ascii c) in
  if decide (48 ≤ n ≤ 57) then Some (n - 48)
  else if decide (97 ≤ n ≤ 102) then Some (n - 87)
  else if decide (65 ≤ n ≤ 70) then Some (n - 55)
  else None.

(** [parseInt(pair, 16)] of a group [([a-f\d]{2})]. *)
Definition hexPair (hi lo : ascii) : option Z :=
  h ← hexDigit hi; l ← hexDigit lo; Some (16 * h + l).

(** [hexToRgb]: the match of [/^#?([a-f\d]{2})([a-f\d]{2})([a-f\d]{2})$/i],
    [null] being [None] and [{r, g, b}] a triple. *)
Definition hexToRgb (hex : string) : option (Z * Z * Z) :=
  let digits := match hex with
                | String c rest => if decide (c = "#"%char) then rest else hex
                | EmptyString => hex
                end in
  match digits with
  | String r1 (String r2 (String g1 (String g2 (String b1 (String b2 ""))))) =>
      r ← hexPair r1 r2; g ← hexPair g1 g2; b ← hexPair b1 b2; Some (r, g, b)
  | _ => None
  end.

(** [clamp(value, min, max)] *)
Definition clamp (value min max : Q) : Q := Math_min (Math_max value min) max.

End Utils.

(** ** ColorQuantizer (js/colorQuantizer.js) *)

Module ColorQuantizer.
Import Js Cv.

Record Rgb : Type := mkRgb { r : Z; g : Z; b : Z }.

(** An element of [colorSums]. *)
Record ColorSum : Type := mkSum { sum_r : Z; sum_g : Z; sum_b : Z; count : Z }.

Record PaletteEntry : Type := mkEntry {
  id : Z;
  rgb : Rgb;
  hex : string;
  name : string
}.

Record QuantizeResult : Type := mkResult {
  quantized : Mat;
  palette : list PaletteEntry;
  labels : Mat
}.

(** [array[i]] for a number [i]: undefined outside the array. *)
Definition index {A} (l : list A) (i : Z) : option A :=
  if decide (i < 0) then None else l !! Z.to_nat i.

Definition criteria : TermCriteria := mkCriteria true true 100 (2 # 10).

Section Quantize.
Context `{cv : OpenCV}.

(** The fallback of the reshape: the Lab samples copied pixel by pixel into
    a [Float32Array], then [cv.matFromArray(numPixels, 3, cv.CV_32F, data)]. *)
Definition copySamples (lab : Mat) (numPixels : nat) : Mat :=
  let '(data, _) :=
    forPixels (rows lab) (cols lab)
      (λ y x '(data, idx),
         (<[(idx + 2)%nat := ucharPtr lab y x 2]>
            (<[(idx + 1)%nat := ucharPtr lab y x 1]>
               (<[idx := ucharPtr lab y x 0]> data)),
          (idx + 3)%nat))
      (replicate (numPixels * 3) 0, 0%nat) in
  mkMat numPixels 3 1 CV_32F data.

(** [try { samples = lab.reshape(1, numPixels); samples.convertTo(samples,
    cv.CV_32F) } catch (e) { ...copy by hand... }] *)
Definition prepareSamples (lab : Mat) : Mat :=
  let numPixels := (rows lab * cols lab)%nat in
  match s ← reshape lab 1 numPixels; convertTo s CV_32F with
  | Normal samples => samples
  | Throw _ => copySamples lab numPixels
  end.

(** One turn of the loop that sums the RGB values per cluster. *)
Definition addPixel (rgb labels : Mat) (numColors : Z)
    (colorSums : list ColorSum) (i : nat) : list ColorSum :=
  let label := intAt labels i 0 in
  if decide (label >= 0 ∧ label < numColors) then
    let y := (i / cols rgb)%nat in
    let x := (i mod cols rgb)%nat in
    alter (λ s, {| sum_r := sum_r s + ucharPtr rgb y x 0;
                   sum_g := sum_g s + ucharPtr rgb y x 1;
                   sum_b := sum_b s + ucharPtr rgb y x 2;
                   count := count s + 1 |})
      (Z.to_nat label) colorSums
  else colorSums.

Definition average (sum : ColorSum) : Rgb :=
  if decide (count sum > 0) then
    {| r := Math_round (inject_Z (sum_r sum) / inject_Z (count sum));
       g := Math_round (inject_Z (sum_g sum) / inject_Z (count sum));
       b := Math_round (inject_Z (sum_b sum) / inject_Z (count sum)) |}
  else {| r := 128; g := 128; b := 128 |}.

Definition paletteEntry (colorSums : list ColorSum) (i : nat) : PaletteEntry :=
  let sum := default (mkSum 0 0 0 0) (colorSums !! i) in
  let avgRgb := average sum in
  {| id := Z.of_nat i + 1;
     rgb := avgRgb;
     hex := Utils.rgbToHex (r avgRgb) (g avgRgb) (b avgRgb);
     name := Utils.getColorName (r avgRgb) (g avgRgb) (b avgRgb) |}.

(** One turn of the loop that paints the quantized image; [palette[label]]
    is undefined for a label outside the palette, and reading [.rgb] of it
    throws. *)
Definition paintPixel (rgb labels : Mat) (palette : list PaletteEntry)
    (quantized : Mat) (i : nat) : Completion Mat :=
  let label := intAt labels i 0 in
  let y := (i / cols rgb)%nat in
  let x := (i mod cols rgb)%nat in
  match index palette label with
  | None => Throw (TypeError "Cannot read properties of undefined (reading 'rgb')")
  | Some entry =>
      let color := ColorQuantizer.rgb entry in
      Normal (store (store (store quantized y x 0 (r color)) y x 1 (g color))
                y x 2 (b color))
  end.

Definition quantize (imageData : ImageData) (numColors : Z)
  : Completion QuantizeResult :=
  if negb ready then Throw (Error "OpenCV.js is not loaded") else
  let src := matFromImageData imageData in
  rgb ← rethrow
          (if decide (channels src = 4%nat) then cvtColor src COLOR_RGBA2RGB
           else Normal src)
          (λ e, Error ("RGB conversion failed: " +:+ toString e));
  lab ← rethrow (cvtColor rgb COLOR_RGB2Lab)
          (λ e, Error ("Lab conversion failed: " +:+ toString e));
  let samples := prepareSamples lab in
  '(labels, centers) ←
    rethrow (kmeans samples numColors criteria 3 KMEANS_PP_CENTERS)
      (λ e, Error ("K-Means clustering failed: " +:+ toString e));
  (* new Array(numColors) *)
  if decide (numColors < 0) then Throw (RangeError "Invalid array length") else
  let colorSums0 := replicate (Z.to_nat numColors) (mkSum 0 0 0 0) in
  let totalPixels := (rows rgb * cols rgb)%nat in
  let colorSums :=
    foldl (addPixel rgb labels numColors) colorSums0 (seq 0 totalPixels) in
  let palette := map (paletteEntry colorSums) (seq 0 (Z.to_nat numColors)) in
  quantized ← forEach (paintPixel rgb labels palette)
                (zeros (rows rgb) (cols rgb) CV_8U 3) (seq 0 totalPixels);
  Normal {| quantized := quantized; palette := palette; labels := labels |}.

End Quantize.
End ColorQuantizer.

(** ** WatershedProcessor *)

Module WatershedProcessor.
Import Js Cv.

(** The fields of a processor object.  [_markerToColor] is undefined until
    [createMarkers] has run on the object. *)
Record Processor : Type := mkProcessor {
  quantizer : unit;
  currentStep : Z;
  totalSteps : Z;
  _markerToColor : option (gmap Z Z)
}.

(** [new WatershedProcessor()] *)
Definition new : Processor := mkProcessor tt 0 5 None.

Record Progress : Type := mkProgress { percent : Z; message : string }.

Record Options : Type := mkOptions {
  colorCount : option Z;
  complexity : option string;
  minRegionSize : option Z;
  maxSize : option Z
}.

(** [updateProgress(callback, percent, message)]: the callback, when there
    is one, is called with [{percent, message}]; what it throws is thrown
    on. *)
Definition updateProgress (callback : option (Progress → Completion unit))
    (percent : Z) (message : string) : Completion unit :=
  match callback with
  | Some f => f (mkProgress percent message)
  | None => Normal tt
  end.

Section Pipeline.
Context `{cv : OpenCV}.

Record Region : Type := mkRegion {
  id : Z;
  contour : list SVGGenerator.Point;
  centroid : double * double;
  area : double;
  colorId : Z;
  color : option ColorQuantizer.PaletteEntry
}.

Record ProcessResult : Type := mkProcessResult {
  regions : list Region;
  palette : list ColorQuantizer.PaletteEntry;
  width : nat;
  height : nat
}.

(** [preprocessImage] is made of OpenCV filtering and canvas calls only;
    the image it produces, or what it throws, is taken as given. *)
Context (preprocessImage : ImageData → Z → Completion ImageData).

Definition erodeSizes : gmap string Z :=
  {[ "low" := 5; "medium" := 3; "high" := 2; "extreme" := 1 ]}.

(** The running state of the loop over the colours. *)
Record MarkerState : Type := mkMarkerState {
  markers : Mat;
  markerToColor : gmap Z Z;
  nextLabel : Z
}.

(** The binary mask of the pixels labelled [colorIdx]. *)
Definition colorMask (labels : Mat) (height width : nat) (colorIdx : Z) : Mat :=
  forPixels height width
    (λ y x mask,
       let pixelIdx := (y * width + x)%nat in
       if decide (intAt labels pixelIdx 0 = colorIdx) then store mask y x 0 255
       else mask)
    (zeros height width CV_8U 1).

(** [for (comp = 1; comp < numComponents; comp++)
       markerToColor[nextLabel + comp - 1] = colorIdx + 1] *)
Definition recordComponents (nextLabel numComponents colorIdx : Z)
    (markerToColor : gmap Z Z) : gmap Z Z :=
  foldl (λ m comp, <[nextLabel + comp - 1 := colorIdx + 1]> m) markerToColor
    (seqZ 1 (numComponents - 1)).

(** The pixels of the components written into the marker image. *)
Definition writeComponents (height width : nat) (nextLabel : Z)
    (colorLabels markers : Mat) : Mat :=
  forPixels height width
    (λ y x markers,
       let component := intAt colorLabels y x in
       if decide (component > 0) then store markers y x 0 (nextLabel + component - 1)
       else markers)
    markers.

(** The first half of a turn of the loop over the colours: the mask of the
    colour, eroded, and its connected components. *)
Definition colorComponents (labels : Mat) (height width : nat) (erodeSize : Z)
    (colorIdx : Z) : Completion (Z * Mat) :=
  let mask := colorMask labels height width colorIdx in
  mask ← (if decide (erodeSize > 0) then
            kernel ← getStructuringElement MORPH_ELLIPSE
                       (erodeSize * 2 + 1, erodeSize * 2 + 1);
            erode mask kernel
          else Normal mask);
  connectedComponents mask 8 CV_32S.

(** One turn of the loop over the colours. *)
Definition colorStep (labels : Mat) (height width : nat) (erodeSize : Z)
    (st : MarkerState) (colorIdx : Z) : Completion MarkerState :=
  '(numComponents, colorLabels) ← colorComponents labels height width erodeSize colorIdx;
  Normal {| markers := writeComponents height width (nextLabel st) colorLabels (markers st);
            markerToColor := recordComponents (nextLabel st) numComponents colorIdx
                               (markerToColor st);
            nextLabel := nextLabel st + numComponents - 1 |}.

(** The names an object literal answers to without having them as keys:
    the members it inherits from [Object.prototype], which are functions
    (and, under [__proto__], the prototype itself). *)
Definition inheritedMembers : list string :=
  ["constructor"; "__defineGetter__"; "__defineSetter__"; "hasOwnProperty";
   "__lookupGetter__"; "__lookupSetter__"; "isPrototypeOf"; "propertyIsEnumerable";
   "toString"; "valueOf"; "__proto__"; "toLocaleString"].

(** [erodeSizes[complexity] || 3], as the number the code goes on with.
    One of the four keys gives its size and an unknown name gives 3.  An
    inherited member is an object: [||] keeps it, and as a number it is
    NaN, so that [erodeSize > 0] is false and nothing is eroded; 0 stands
    for it here, for which the code does the same. *)
Definition erodeSizeOf (complexity : string) : Z :=
  if decide (complexity ∈ inheritedMembers) then 0
  else or_default (erodeSizes !! complexity) 3.

Definition buildMarkers (quantized labels : Mat) (numColors : Z)
    (complexity : string) : Completion MarkerState :=
  let width := cols quantized in
  let height := rows quantized in
  forEach (colorStep labels height width (erodeSizeOf complexity))
    {| markers := zeros height width CV_32S 1; markerToColor := ∅; nextLabel := 1 |}
    (seqZ 0 numColors).

(** [createMarkers]: the marker image is returned, the colour map is left
    on the object ([this._markerToColor = markerToColor]). *)
Definition createMarkers (self : Processor) (quantized labels : Mat)
    (numColors : Z) (complexity : string) : Completion (Mat * Processor) :=
  st ← buildMarkers quantized labels numColors complexity;
  Normal (markers st,
          mkProcessor (quantizer self) (currentStep self) (totalSteps self)
            (Some (markerToColor st))).

Definition applyWatershed (quantized markers : Mat) : Completion Mat :=
  rgb ← rethrow
          (if decide (channels quantized = 4%nat) then cvtColor quantized COLOR_RGBA2RGB
           else if decide (channels quantized = 3%nat) then Normal quantized
           else Throw (Error ("Unexpected channel count: "
                              +:+ pretty (channels quantized))))
          (λ e, Error ("RGB preparation failed: " +:+ toString e));
  markers32 ← (if decide (depth markers ≠ CV_32S) then convertTo markers CV_32S
               else Normal markers);
  rethrow (watershed rgb markers32)
    (λ e, Error ("cv.watershed failed: " +:+ toString e)).

(** A JavaScript [Set] keeps its elements in the order they were added. *)
Definition setAdd (label : Z) (set : list Z) : list Z :=
  if decide (label ∈ set) then set else set ++ [label].

Definition uniqueLabels (watershedMap : Mat) : list Z :=
  forPixels (rows watershedMap) (cols watershedMap)
    (λ y x set,
       let label := intAt watershedMap y x in
       if decide (label > 0) then setAdd label set else set)
    [].

(** The mask of one label and the number of its pixels. *)
Definition regionMask (watershedMap : Mat) (label : Z) : Mat * Z :=
  forPixels (rows watershedMap) (cols watershedMap)
    (λ y x '(mask, pixelCount),
       if decide (intAt watershedMap y x = label)
       then (store mask y x 0 255, pixelCount + 1)
       else (mask, pixelCount))
    (zeros (rows watershedMap) (cols watershedMap) CV_8U 1, 0).

Definition contourToArray (contour : Mat) : list SVGGenerator.Point :=
  map (λ i, SVGGenerator.mkPoint (intAt contour i 0) (intAt contour i 1))
    (seq 0 (rows contour)).

(** The colour of a label: [markerToColor[label] || 1], clamped to the
    palette. *)
Definition resolveColor (markerToColor : gmap Z Z) (paletteLength : nat)
    (label : Z) : Z :=
  let colorId := or_default (markerToColor !! label) 1 in
  if decide (colorId < 1 ∨ colorId > Z.of_nat paletteLength) then 1 else colorId.

(** The body of [uniqueLabels.forEach(label => ...)]. *)
Definition extractRegion (markerToColor : gmap Z Z) (watershedMap : Mat)
    (palette : list ColorQuantizer.PaletteEntry) (minRegionSize : Z)
    (regions : list Region) (label : Z) : Completion (list Region) :=
  let '(mask, pixelCount) := regionMask watershedMap label in
  if decide (pixelCount < minRegionSize) then Normal regions else
  contours ← findContours mask RETR_EXTERNAL CHAIN_APPROX_SIMPLE;
  match contours with
  | [] => Normal regions
  | contour :: _ =>
      let colorId := resolveColor markerToColor (length palette) label in
      '(m00, m10, m01) ← moments contour;
      area ← contourArea contour;
      Normal (regions ++
              [{| id := label;
                  contour := contourToArray contour;
                  centroid := (roundedRatio m10 m00, roundedRatio m01 m00);
                  area := area;
                  colorId := colorId;
                  color := ColorQuantizer.index palette (colorId - 1) |}])
  end.

Definition extractRegions (self : Processor) (watershedMap quantized : Mat)
    (palette : list ColorQuantizer.PaletteEntry) (minRegionSize : Z)
  : Completion (list Region) :=
  let markerToColor := default ∅ (_markerToColor self) in
  forEach (extractRegion markerToColor watershedMap palette minRegionSize) []
    (uniqueLabels watershedMap).

(** The outcome of a run: the processor as the run leaves it, the reports
    it handed to [updateProgress], in order, and the result or what was
    thrown. *)
Record Run : Type := mkRun {
  processor : Processor;
  reports : list Progress;
  outcome : Completion ProcessResult
}.

(** [process(imageData, options, onProgress = null)].  The calls of
    [updateProgress] stand between the stages, inside the outer [try]
    only, whose [catch] throws on what it caught: what the callback
    throws leaves [process] as it is, while what a stage throws is
    wrapped by the [catch] of the stage. *)
Definition process (self : Processor) (imageData : ImageData) (options : Options)
    (onProgress : option (Progress → Completion unit)) : Run :=
  if negb ready then
    mkRun self [] (Throw (Error "OpenCV.js is not loaded. Please wait for it to load."))
  else
  let colorCount := default 14 (colorCount options) in
  let complexity := default "high" (complexity options) in
  let minRegionSize := default 100 (minRegionSize options) in
  let maxSize := default 1024 (maxSize options) in
  let log := [mkProgress 0 "Preprocessing image..."] in
  match updateProgress onProgress 0 "Preprocessing image..." with
  | Throw e => mkRun self log (Throw e)
  | Normal _ =>
  match preprocessImage imageData maxSize with
  | Throw e => mkRun self log (Throw (Error ("Image preprocessing failed: " +:+ toString e)))
  | Normal preprocessed =>
  let log := log ++ [mkProgress 20 "Quantizing colors..."] in
  match updateProgress onProgress 20 "Quantizing colors..." with
  | Throw e => mkRun self log (Throw e)
  | Normal _ =>
  match ColorQuantizer.quantize preprocessed colorCount with
  | Throw e => mkRun self log (Throw (Error ("Color quantization failed: " +:+ toString e)))
  | Normal result =>
  let quantized := ColorQuantizer.quantized result in
  let palette := ColorQuantizer.palette result in
  let labels := ColorQuantizer.labels result in
  let log := log ++ [mkProgress 40 "Creating markers..."] in
  match updateProgress onProgress 40 "Creating markers..." with
  | Throw e => mkRun self log (Throw e)
  | Normal _ =>
  match createMarkers self quantized labels colorCount complexity with
  | Throw e => mkRun self log (Throw (Error ("Marker creation failed: " +:+ toString e)))
  | Normal (markers, self) =>
  let log := log ++ [mkProgress 60 "Applying watershed..."] in
  match updateProgress onProgress 60 "Applying watershed..." with
  | Throw e => mkRun self log (Throw e)
  | Normal _ =>
  match applyWatershed quantized markers with
  | Throw e => mkRun self log (Throw (Error ("Watershed algorithm failed: " +:+ toString e)))
  | Normal watershedMap =>
  let log := log ++ [mkProgress 80 "Extracting regions..."] in
  match updateProgress onProgress 80 "Extracting regions..." with
  | Throw e => mkRun self log (Throw e)
  | Normal _ =>
  match extractRegions self watershedMap quantized palette minRegionSize with
  | Throw e => mkRun self log (Throw (Error ("Region extraction failed: " +:+ toString e)))
  | Normal regions =>
  let log := log ++ [mkProgress 100 "Complete!"] in
  match updateProgress onProgress 100 "Complete!" with
  | Throw e => mkRun self log (Throw e)
  | Normal _ =>
  mkRun self log
    (Normal {| regions := regions;
               palette := palette;
               width := Cv.width preprocessed;
               height := Cv.height preprocessed |})
  end end end end end end end end end end end.

End Pipeline.

Section ClosestColor.

(** [Math.sqrt], whose results are doubles, and [<] between them.  The
    channels are integers small enough for the squares and their sum to
    be exact, as bytes are. *)
Context {number : Type}.
Context (Math_sqrt : Z → number).
Context (lessThan : number → number → bool).

(** The sum under the root. *)
Definition squaredDistance (color : ColorQuantizer.Rgb)
    (paletteColor : ColorQuantizer.PaletteEntry) : Z :=
  (ColorQuantizer.r color - ColorQuantizer.r (ColorQuantizer.rgb paletteColor)) ^ 2
  + (ColorQuantizer.g color - ColorQuantizer.g (ColorQuantizer.rgb paletteColor)) ^ 2
  + (ColorQuantizer.b color - ColorQuantizer.b (ColorQuantizer.rgb paletteColor)) ^ 2.

(** One turn of [palette.forEach((paletteColor, index) => ...)];
    [minDist] is [None] while it is [Infinity], which every distance is
    below. *)
Definition closer (color : ColorQuantizer.Rgb) (best : option number * Z)
    (entry : nat * ColorQuantizer.PaletteEntry) : option number * Z :=
  let dist := Math_sqrt (squaredDistance color (snd entry)) in
  if match fst best with
     | None => true
     | Some minDist => lessThan dist minDist
     end
  then (Some dist, Z.of_nat (fst entry) + 1)
  else best.

Definition findClosestColor (color : ColorQuantizer.Rgb)
    (palette : list ColorQuantizer.PaletteEntry) : Z :=
  snd (foldl (closer color) (None, 1) (imap pair palette)).

End ClosestColor.

End WatershedProcessor.

(** ** App.generate *)

Module App.
Import Js Cv.

Record Settings : Type := mkSettings {
  colorCount : Z;
  complexity : string;
  minRegionSize : Z;
  lineWidth : Q;
  lineOpacity : Q;
  showNumbers : bool;
  numberSize : Z;
  numberOpacity : Q;
  showColors : bool;
  backgroundColor : string;
  geometricStyle : bool;
  maxSize : Z
}.

(** [Utils.showToast(message, type, duration)] *)
Record Toast : Type := mkToast { text : string; kind : string; duration : Z }.

(** The callback the application hands to [process]: it sets the width of
    the progress bar and the subtext of the overlay.  Writing to the page
    is taken to return. *)
Definition showProgress (progress : WatershedProcessor.Progress) : Completion unit :=
  Normal tt.

Section Generate.
Context `{cv : OpenCV}.
Context (preprocessImage : ImageData → Z → Completion ImageData).

(** The browser side of [generate]: the loaded image, its pixels
    ([Utils.getImageData]), and everything that follows a non-empty
    result (SVG and legend generation, display, enabling the buttons). *)
Context (image : Type).
Context (getImageData : image → Z → Completion ImageData).
Context (render : WatershedProcessor.ProcessResult → Settings → Completion unit).

Record State : Type := mkState {
  currentImage : option image;
  currentResult : option WatershedProcessor.ProcessResult;
  settings : Settings;
  loadingOverlayHidden : bool
}.

(** What the user is shown during and after a call. *)
Record Shown : Type := mkShown {
  state : State;
  progress : list WatershedProcessor.Progress;
  toasts : list Toast
}.

(** [processor.process(imageData, this.state.settings, ...)]: the settings
    object carries every option. *)
Definition optionsOf (s : Settings) : WatershedProcessor.Options :=
  WatershedProcessor.mkOptions (Some (colorCount s)) (Some (complexity s))
    (Some (minRegionSize s)) (Some (maxSize s)).

Definition generate (st : State) : Shown :=
  match currentImage st with
  | None => mkShown st [] []
  | Some img =>
      let failed log :=
        mkShown (mkState (currentImage st) (currentResult st) (settings st) true) log
          [mkToast "Error generating paint-by-numbers" "error" 3000] in
      match getImageData img (maxSize (settings st)) with
      | Throw _ => failed []
      | Normal imageData =>
          let run := WatershedProcessor.process preprocessImage
                       WatershedProcessor.new imageData (optionsOf (settings st))
                       (Some showProgress) in
          match WatershedProcessor.outcome run with
          | Throw _ => failed (WatershedProcessor.reports run)
          | Normal result =>
              let st' := mkState (currentImage st) (Some result) (settings st) true in
              if decide (length (WatershedProcessor.regions result) = 0%nat) then
                mkShown st' (WatershedProcessor.reports run)
                  [mkToast "No regions detected. Try different settings or a different image."
                     "warning" 5000]
              else
                match render result (settings st) with
                | Throw _ =>
                    mkShown st' (WatershedProcessor.reports run)
                      [mkToast "Error generating paint-by-numbers" "error" 3000]
                | Normal _ =>
                    mkShown st' (WatershedProcessor.reports run)
                      [mkToast "Paint-by-numbers generated successfully!" "success" 3000]
                end
          end
      end
  end.

End Generate.
End App.

(** ** A small stand-in for OpenCV.js

    Used to run the model on concrete images.  Erosion and component
    labelling are the real operations (with a full rectangle for the
    structuring element); the colour conversion to Lab, k-means, the
    watershed and the contour tracing are simple stand-ins that keep to
    the documented shape of OpenCV's results. *)

Module Fixture.
Import Js Cv.

(** What OpenCV.js throws for a failed C++ assertion: a number. *)
Definition thrown : Thrown := OtherValue "6636200".

Fixpoint dropAlpha (bytes : list Z) : list Z :=
  match bytes with
  | r :: g :: b :: _ :: rest => r :: g :: b :: dropAlpha rest
  | _ => []
  end.

(** [cv.cvtColor] rejects an empty source. *)
Definition cvtColor (m : Mat) (code : ColorConversion) : Completion Mat :=
  if decide (rows m * cols m = 0)%nat then Throw thrown else
  match code with
  | COLOR_RGBA2RGB => Normal (mkMat (rows m) (cols m) 3 CV_8U (dropAlpha (data m)))
  | COLOR_RGB2Lab => Normal m
  end.

Definition reshape (m : Mat) (cn rows' : nat) : Completion Mat :=
  Normal (mkMat rows' (length (data m) / (rows' * cn)) cn (depth m) (data m)).

Definition convertTo (m : Mat) (d : Depth) : Completion Mat :=
  Normal (mkMat (rows m) (cols m) (channels m) d (data m)).

(** [cv.kmeans] rejects K <= 0 and more clusters than samples; the
    stand-in clusters by the first channel, dark against bright. *)
Definition kmeans (samples : Mat) (K : Z) (criteria : TermCriteria) (attempts : Z)
    (flags : KmeansFlags) : Completion (Mat * unit) :=
  if decide (K ≤ 0 ∨ Z.of_nat (rows samples) < K) then Throw thrown else
  Normal (mkMat (rows samples) 1 1 CV_32S
            (map (λ i, (if decide (intAt samples i 0 < 128) then 0 else 1) `mod` K)
               (seq 0 (rows samples))),
          tt).

Definition getStructuringElement (shape : MorphShape) (size : Z * Z)
  : Completion Mat :=
  Normal (mkMat (Z.to_nat (snd size)) (Z.to_nat (fst size)) 1 CV_8U
            (replicate (Z.to_nat (snd size) * Z.to_nat (fst size)) 1)).

(** Erosion: a pixel stays set when every pixel under the kernel is set;
    pixels outside the image count as set (OpenCV's default border). *)
Definition erode (mask kernel : Mat) : Completion Mat :=
  let set (y x : Z) : bool :=
    bool_decide (y < 0 ∨ Z.of_nat (rows mask) ≤ y ∨ x < 0 ∨ Z.of_nat (cols mask) ≤ x
                 ∨ ucharPtr mask (Z.to_nat y) (Z.to_nat x) 0 ≠ 0) in
  let keep (y x : nat) : bool :=
    forallb (λ dy,
      forallb (λ dx,
        bool_decide (ucharPtr kernel dy dx 0 = 0)
        || set (Z.of_nat y + Z.of_nat dy - Z.of_nat (rows kernel / 2))
               (Z.of_nat x + Z.of_nat dx - Z.of_nat (cols kernel / 2)))
        (seq 0 (cols kernel)))
      (seq 0 (rows kernel)) in
  Normal (mkMat (rows mask) (cols mask) 1 CV_8U
            (map (λ i, if keep (i / cols mask)%nat (i mod cols mask)%nat then 255 else 0)
               (seq 0 (rows mask * cols mask)))).

(** The indices of the pixels that touch pixel [i], diagonals included. *)
Definition neighbours8 (h w i : nat) : list nat :=
  let y := Z.of_nat (i / w) in
  let x := Z.of_nat (i mod w) in
  omap (λ '(dy, dx),
          let yy := y + dy in
          let xx := x + dx in
          if decide (0 ≤ yy < Z.of_nat h ∧ 0 ≤ xx < Z.of_nat w)
          then Some (Z.to_nat (yy * Z.of_nat w + xx)) else None)
    [(-1, -1); (-1, 0); (-1, 1); (0, -1); (0, 1); (1, -1); (1, 0); (1, 1)].

(** One round of label propagation: every set pixel takes the least label
    among itself and the set pixels that touch it. *)
Definition relax (h w : nat) (L : list Z) : list Z :=
  imap (λ i v,
          if decide (v = 0) then 0
          else foldr Z.min v
                 (filter (λ u, u ≠ 0) (map (λ q, default 0 (L !! q)) (neighbours8 h w i))))
    L.

Definition position (v : Z) (roots : list Z) : nat :=
  default (length roots) (fst <$> list_find (λ u, u = v) roots).

(** Component labelling: propagate the least pixel number through each
    component, then number the components in scan order from 1. *)
Definition connectedComponents (mask : Mat) (connectivity : Z) (ltype : Depth)
  : Completion (Z * Mat) :=
  let L0 := imap (λ i v, if decide (v = 0) then 0 else Z.of_nat i + 1) (data mask) in
  let L := Nat.iter (length L0) (relax (rows mask) (cols mask)) L0 in
  let roots := remove_dups (filter (λ v, v ≠ 0) L) in
  let number v := if decide (v = 0) then 0 else 1 + Z.of_nat (position v roots) in
  Normal (1 + Z.of_nat (length roots),
          mkMat (rows mask) (cols mask) 1 CV_32S (map number L)).

(** The stand-in watershed marks the image border as boundary, as OpenCV
    does, and grows no seed: unknown pixels stay unknown. *)
Definition watershed (image markers : Mat) : Completion Mat :=
  let border (i : nat) : bool :=
    bool_decide ((i / cols markers = 0 ∨ i / cols markers = rows markers - 1
                  ∨ i mod cols markers = 0 ∨ i mod cols markers = cols markers - 1)%nat) in
  Normal (mkMat (rows markers) (cols markers) (channels markers) (depth markers)
            (imap (λ i v, if border i then -1 else v) (data markers))).

(** The stand-in contour of a mask: its set pixels in scan order, as the
    N x 1 matrix of (x, y) pairs OpenCV returns. *)
Definition findContours (mask : Mat) (mode : RetrievalMode) (method : ApproxMethod)
  : Completion (list Mat) :=
  let points :=
    filter (λ p, ucharPtr mask (fst p) (snd p) 0 ≠ 0) (scan (rows mask) (cols mask)) in
  match points with
  | [] => Normal []
  | _ =>
      Normal [mkMat (length points) 1 2 CV_32S
                (flat_map (λ p, [Z.of_nat (snd p); Z.of_nat (fst p)]) points)]
  end.

Definition sumColumn (contour : Mat) (j : nat) : Z :=
  foldr Z.add 0 (map (λ i, intAt contour i j) (seq 0 (rows contour))).

Definition moments (contour : Mat) : Completion (Q * Q * Q) :=
  Normal (inject_Z (Z.of_nat (rows contour)),
          inject_Z (sumColumn contour 0),
          inject_Z (sumColumn contour 1)).

Definition contourArea (contour : Mat) : Completion Q :=
  Normal (inject_Z (Z.of_nat (rows contour))).

Definition roundedRatio (a b : Q) : Q :=
  if Qeq_bool b 0 then 0%Q else inject_Z (Math_round (a / b)).

#[export] Instance cv : OpenCV := {|
  Cv.ready := true;
  Cv.double := Q;
  Cv.centersMat := unit;
  Cv.cvtColor := cvtColor;
  Cv.reshape := reshape;
  Cv.convertTo := convertTo;
  Cv.kmeans := kmeans;
  Cv.getStructuringElement := getStructuringElement;
  Cv.erode := erode;
  Cv.connectedComponents := connectedComponents;
  Cv.watershed := watershed;
  Cv.findContours := findContours;
  Cv.moments := moments;
  Cv.contourArea := contourArea;
  Cv.roundedRatio := roundedRatio
|}.

(** The preprocessing stand-in hands the image on unchanged. *)
Definition preprocessImage (img : ImageData) (maxSize : Z) : Completion ImageData :=
  Normal img.

(** An image of [w] x [h] opaque grey pixels, one grey level per pixel. *)
Definition greyImage (w h : nat) (levels : list Z) : ImageData :=
  mkImageData w h (flat_map (λ v, [v; v; v; 255]) levels).

(** Left half dark, right half bright, 8 x 6 pixels. *)
Definition twoTone : ImageData :=
  greyImage 8 6 (flat_map (λ _, [10; 10; 10; 10; 200; 200; 200; 200]) (seq 0 6)).

(** Its RGB matrix, and the cluster of each of its pixels. *)
Definition twoToneRgb : Mat :=
  mkMat 6 8 3 CV_8U (dropAlpha (pixels twoTone)).

Definition twoToneLabels : Mat :=
  mkMat 48 1 1 CV_32S (flat_map (λ _, [0; 0; 0; 0; 1; 1; 1; 1]) (seq 0 6)).

(** The markers of the two-tone image at complexity extreme: erosion by
    one pixel leaves a seed of three columns on either side. *)
Definition twoToneMarkers : Mat :=
  mkMat 6 8 1 CV_32S (flat_map (λ _, [1; 1; 1; 0; 0; 2; 2; 2]) (seq 0 6)).

Definition twoToneProcessor : WatershedProcessor.Processor :=
  WatershedProcessor.mkProcessor tt 0 5 (Some {[ 1 := 1; 2 := 2 ]}).

(** What the stand-in watershed makes of these markers. *)
Definition twoToneWatershed : Mat :=
  mkMat 6 8 1 CV_32S
    (replicate 8 (-1)
     ++ flat_map (λ _, [-1; 1; 1; 0; 0; 2; 2; -1]) (seq 0 4)
     ++ replicate 8 (-1)).

Definition twoToneOptions : WatershedProcessor.Options :=
  WatershedProcessor.mkOptions (Some 2) (Some "extreme") (Some 4) None.

(** The palette of an image that has exactly these two grey levels. *)
Definition twoGreys : list ColorQuantizer.PaletteEntry :=
  [ColorQuantizer.mkEntry 1 (ColorQuantizer.mkRgb 10 10 10) "#0a0a0a" "Black";
   ColorQuantizer.mkEntry 2 (ColorQuantizer.mkRgb 200 200 200) "#c8c8c8" "Light Gray"].

(** Two regions of such an image as the extractor hands them on: a dark
    triangle, and a bright sliver whose outline has two points. *)
Definition twoGreyRegions : list (WatershedProcessor.Region (cv := cv)) :=
  [WatershedProcessor.mkRegion (cv := cv) 1
     [SVGGenerator.mkPoint 0 0; SVGGenerator.mkPoint 6 0; SVGGenerator.mkPoint 0 6]
     (2, 2)%Q 18%Q 1 (twoGreys !! 0%nat);
   WatershedProcessor.mkRegion (cv := cv) 2
     [SVGGenerator.mkPoint 2 3; SVGGenerator.mkPoint 7 3]
     (5, 3)%Q 0%Q 2 (twoGreys !! 1%nat)].

(** Dark and bright pixels alternating, 3 x 3 pixels. *)
Definition checkerboard : ImageData :=
  greyImage 3 3 [10; 200; 10; 200; 10; 200; 10; 200; 10].

(** Its quantization into two colours (each pixel already has the colour
    of its cluster), and the rest of its run at complexity low: erosion by
    five pixels leaves no seed. *)
Definition checkerboardQuantization : ColorQuantizer.QuantizeResult :=
  ColorQuantizer.mkResult
    (mkMat 3 3 3 CV_8U (dropAlpha (pixels checkerboard)))
    twoGreys
    (mkMat 9 1 1 CV_32S [0; 1; 0; 1; 0; 1; 0; 1; 0]).


(** The checkerboard quantized into three colours: the stand-in k-means
    leaves the third cluster empty. *)
Definition checkerboardThree : ColorQuantizer.QuantizeResult :=
  ColorQuantizer.mkResult
    (mkMat 3 3 3 CV_8U (dropAlpha (pixels checkerboard)))
    (twoGreys
     ++ [ColorQuantizer.mkEntry 3 (ColorQuantizer.mkRgb 128 128 128) "#808080" "Gray"])
    (mkMat 9 1 1 CV_32S [0; 1; 0; 1; 0; 1; 0; 1; 0]).

Definition checkerboardMarkers : WatershedProcessor.MarkerState :=
  WatershedProcessor.mkMarkerState (mkMat 3 3 1 CV_32S (replicate 9 0)) ∅ 1.

Definition checkerboardWatershed : Mat :=
  mkMat 3 3 1 CV_32S [-1; -1; -1; -1; 0; -1; -1; -1; -1].

Definition checkerboardOptions : WatershedProcessor.Options :=
  WatershedProcessor.mkOptions (Some 2) (Some "low") (Some 4) (Some 1024).

Definition checkerboardSettings : App.Settings :=
  App.mkSettings 2 "low" 4 (3 # 2) 1 true 12 1 false "#ffffff" false 1024.

(** A progress callback that gives up when the markers are about to be
    built. *)
Definition interrupt (progress : WatershedProcessor.Progress) : Completion unit :=
  if decide (WatershedProcessor.percent progress = 40) then Throw (Error "cancelled")
  else Normal tt.

(** The browser side of the stand-in: an image is its pixels, and
    rendering a result succeeds. *)
Definition getImageData (img : ImageData) (maxSize : Z) : Completion ImageData :=
  Normal img.

Definition render (result : WatershedProcessor.ProcessResult (cv := cv))
    (settings : App.Settings) : Completion unit :=
  Normal tt.

End Fixture.

(** ** The palette in the words of the specification *)

Module QuantizerSpec.
Import Js Cv.

(** Sample [k] of pixel [p], pixels counted row after row. *)
Definition pixelChannel (img : Mat) (p k : nat) : Z :=
  default 0 (data img !! (p * channels img + k)%nat).

(** The pixels assigned to cluster [i]. *)
Definition cluster (labels : Mat) (totalPixels : nat) (i : Z) : list nat :=
  filter (λ p, intAt labels p 0 = i) (seq 0 totalPixels).

Definition total (values : list Z) : Z := foldr Z.add 0 values.

Definition roundedAverage (values : list Z) : Z :=
  Math_round (inject_Z (total values) / inject_Z (Z.of_nat (length values))).

(** The per-channel rounded average of the original RGB values of the
    pixels assigned to cluster [i]. *)
Definition clusterAverage (img labels : Mat) (i : Z) : ColorQuantizer.Rgb :=
  let members := cluster labels (rows img * cols img) i in
  ColorQuantizer.mkRgb
    (roundedAverage (map (λ p, pixelChannel img p 0) members))
    (roundedAverage (map (λ p, pixelChannel img p 1) members))
    (roundedAverage (map (λ p, pixelChannel img p 2) members)).

(** The sums the accumulation loop holds for one cluster after visiting
    the pixels [ps]. *)
Definition visited (img labels : Mat) (ps : list nat) (i : Z)
    (start : ColorQuantizer.ColorSum) : ColorQuantizer.ColorSum :=
  let members := filter (λ p, intAt labels p 0 = i) ps in
  ColorQuantizer.mkSum
    (ColorQuantizer.sum_r start + total (map (λ p, pixelChannel img p 0) members))
    (ColorQuantizer.sum_g start + total (map (λ p, pixelChannel img p 1) members))
    (ColorQuantizer.sum_b start + total (map (λ p, pixelChannel img p 2) members))
    (ColorQuantizer.count start + Z.of_nat (length members)).

End QuantizerSpec.

(** ** What the pipeline relies on from OpenCV

    The parts of OpenCV's documented behaviour that the properties below
    name as hypotheses. *)

Module Contract.
Import Js Cv.

Section Contract.
Context `{cv : OpenCV}.

(** [cv.kmeans] asserts K > 0. *)
Definition kmeansRejectsNonPositive : Prop :=
  ∀ samples K criteria attempts flags,
    K ≤ 0 → ∃ e, kmeans samples K criteria attempts flags = Throw e.

(** [cv.cvtColor] asserts a non-empty source. *)
Definition cvtColorRejectsEmpty : Prop :=
  ∀ m code, (rows m * cols m = 0)%nat → ∃ e, cvtColor m code = Throw e.

(** [cv.connectedComponents] returns the number N of labels, background
    included, and labels every pixel with a number in 0..N-1. *)
Definition componentLabelsInRange : Prop :=
  ∀ mask connectivity ltype n labels,
    connectedComponents mask connectivity ltype = Normal (n, labels) →
    1 ≤ n ∧ ∀ i j, 0 ≤ intAt labels i j < n.

(** [cv.watershed] leaves a pixel with a seed's id, with -1 (boundary) or
    with 0: every positive label of its result is a label of its input. *)
Definition watershedKeepsSeedIds : Prop :=
  ∀ image markers result,
    watershed image markers = Normal result →
    ∀ y x, (y < rows result)%nat → (x < cols result)%nat →
      intAt result y x > 0 →
      ∃ y' x', (y' < rows markers)%nat ∧ (x' < cols markers)%nat
               ∧ intAt markers y' x' = intAt result y x.

(** [cv.findContours] finds a contour in every mask that has a set pixel. *)
Definition contoursOfNonEmptyMask : Prop :=
  ∀ mask mode method contours,
    findContours mask mode method = Normal contours →
    (∃ y x, (y < rows mask)%nat ∧ (x < cols mask)%nat ∧ ucharPtr mask y x 0 ≠ 0) →
    contours ≠ [].

End Contract.
End Contract.

(** ** Names for what a run of the marker builder and of the region
    extractor computes *)

Module PipelineSpec.
Import Js Cv WatershedProcessor.

(** A progress callback that returns whenever it is called, or none. *)
Definition returns (onProgress : option (Progress → Completion unit)) : Prop :=
  ∀ percent message, updateProgress onProgress percent message = Normal tt.

Section PipelineSpec.
Context `{cv : OpenCV}.
Context (labels : Mat) (height width : nat) (erodeSize : Z).

(** The number of labels OpenCV reports for a colour (background
    included), and the component of each pixel. *)
Definition componentCount (colorIdx : Z) : Z :=
  match colorComponents labels height width erodeSize colorIdx with
  | Normal (n, _) => n
  | Throw _ => 1
  end.

Definition componentLabels (colorIdx : Z) : Mat :=
  match colorComponents labels height width erodeSize colorIdx with
  | Normal (_, colorLabels) => colorLabels
  | Throw _ => zeros height width CV_32S 1
  end.

(** The id of the first component of a colour: the components of the
    colours before it take the ids from 1 on. *)
Definition firstId (colorIdx : Z) : Z :=
  1 + foldr Z.add 0 (map (λ c, componentCount c - 1) (seqZ 0 colorIdx)).

(** The marker id of component [comp] (1, 2, ...) of a colour. *)
Definition markerId (colorIdx comp : Z) : Z := firstId colorIdx + comp - 1.

End PipelineSpec.

Section RegionSpec.
Context `{cv : OpenCV}.

(** The number of pixels of the label map that carry [label]. *)
Definition pixelCount (watershedMap : Mat) (label : Z) : Z :=
  Z.of_nat (length (filter (λ p, intAt watershedMap (fst p) (snd p) = label)
                      (scan (rows watershedMap) (cols watershedMap)))).

(** The region of a label that passes the size filter, when OpenCV finds a
    contour for it and measures it. *)
Definition regionFor (markerToColor : gmap Z Z) (watershedMap : Mat)
    (palette : list ColorQuantizer.PaletteEntry) (minRegionSize : Z) (label : Z)
  : option Region :=
  let '(mask, count) := regionMask watershedMap label in
  if decide (count < minRegionSize) then None else
  match findContours mask RETR_EXTERNAL CHAIN_APPROX_SIMPLE with
  | Normal (contour :: _) =>
      match moments contour, contourArea contour with
      | Normal (m00, m10, m01), Normal area =>
          let colorId := resolveColor markerToColor (length palette) label in
          Some {| id := label;
                  contour := contourToArray contour;
                  centroid := (roundedRatio m10 m00, roundedRatio m01 m00);
                  area := area;
                  colorId := colorId;
                  color := ColorQuantizer.index palette (colorId - 1) |}
      | _, _ => None
      end
  | _ => None
  end.

(** The marker state [createMarkers] builds in a run of [process], when
    the run gets that far. *)
Definition markerStateOf (preprocessImage : ImageData → Z → Completion ImageData)
    (imageData : ImageData) (options : Options) : option MarkerState :=
  let colorCount := default 14 (colorCount options) in
  let complexity := default "high" (complexity options) in
  let maxSize := default 1024 (maxSize options) in
  match preprocessImage imageData maxSize with
  | Normal preprocessed =>
      match ColorQuantizer.quantize preprocessed colorCount with
      | Normal result =>
          match buildMarkers (ColorQuantizer.quantized result)
                  (ColorQuantizer.labels result) colorCount complexity with
          | Normal st => Some st
          | Throw _ => None
          end
      | Throw _ => None
      end
  | Throw _ => None
  end.

End RegionSpec.
End PipelineSpec.

(** ** The state of the marker builder after the first [k] colours *)

Module MarkerInvariant.
Import Js Cv WatershedProcessor PipelineSpec.

Section MarkerInvariant.
Context `{cv : OpenCV}.
Context (labels : Mat) (height width : nat) (erodeSize : Z).

(** The state the loop over the colours starts from. *)
Definition start : MarkerState :=
  {| markers := zeros height width CV_32S 1; markerToColor := ∅; nextLabel := 1 |}.

Definition builtUpTo (k : Z) (st : MarkerState) : Prop :=
  nextLabel st = firstId labels height width erodeSize k
  ∧ (∀ c, 0 ≤ c < k →
       ∃ n colorLabels,
         colorComponents labels height width erodeSize c = Normal (n, colorLabels))
  ∧ (∀ key v,
       markerToColor st !! key = Some v ↔
       ∃ c comp, 0 ≤ c < k
                 ∧ 1 ≤ comp < componentCount labels height width erodeSize c
                 ∧ key = markerId labels height width erodeSize c comp
                 ∧ v = c + 1)
  ∧ (cols (markers st) = width ∧ channels (markers st) = 1%nat)
  ∧ rows (markers st) = height
  ∧ depth (markers st) = CV_32S
  ∧ length (data (markers st)) = (height * width)%nat
  ∧ (∀ y x, (y < height)%nat → (x < width)%nat →
       intAt (markers st) y x = 0
       ∨ ∃ c, 0 ≤ c < k
              ∧ intAt (componentLabels labels height width erodeSize c) y x > 0
              ∧ intAt (markers st) y x
                = markerId labels height width erodeSize c
                    (intAt (componentLabels labels height width erodeSize c) y x)).

(** What the marker image holds after the colours 0 .. k-1: a pixel that
    lies in no component is 0, and any other pixel holds the id of its
    component of the last colour that has one there. *)
Definition seededUpTo (k : Z) (st : MarkerState) : Prop :=
  ∀ y x, (y < height)%nat → (x < width)%nat →
    (intAt (markers st) y x = 0
     ∧ ∀ c, 0 ≤ c < k → intAt (componentLabels labels height width erodeSize c) y x = 0)
    ∨ ∃ c, 0 ≤ c < k
           ∧ intAt (componentLabels labels height width erodeSize c) y x > 0
           ∧ (∀ c', c < c' < k →
                intAt (componentLabels labels height width erodeSize c') y x = 0)
           ∧ intAt (markers st) y x
             = markerId labels height width erodeSize c
                 (intAt (componentLabels labels height width erodeSize c) y x).

End MarkerInvariant.
End MarkerInvariant.

(** ** Matrices of bytes *)

Module Samples.
Import Js Cv.

(** A sample of an 8-bit matrix or of an [ImageData]. *)
Definition byte (v : Z) : Prop := 0 ≤ v ≤ 255.

(** Roots of sums of squares of byte differences compare as the sums do:
    the roots of two different integers up to 3 * 255 ^ 2 are different
    doubles. *)
Definition rootsOrdered {number : Type} (Math_sqrt : Z → number)
    (lessThan : number → number → bool) : Prop :=
  ∀ a b, 0 ≤ a ≤ 195075 → 0 ≤ b ≤ 195075 →
         (lessThan (Math_sqrt a) (Math_sqrt b) = true ↔ a < b).

(** A palette entry whose colour is made of bytes. *)
Definition byteColor (color : ColorQuantizer.Rgb) : Prop :=
  byte (ColorQuantizer.r color) ∧ byte (ColorQuantizer.g color)
  ∧ byte (ColorQuantizer.b color).

Section Samples.
Context `{cv : OpenCV}.

(** [cv.cvtColor] between 8-bit colour spaces yields 8-bit samples. *)
Definition cvtColorKeepsBytes : Prop :=
  ∀ m code m',
    Forall byte (data m) → cvtColor m code = Normal m' → Forall byte (data m').

End Samples.
End Samples.

(** ** The DOM the generator builds *)

Module Dom.

(** An element with its attributes in the order they were first set and
    its children in the order they were appended, or a text node. *)
#[local] Unset Elimination Schemes.
Inductive Node : Type :=
| Element (tagName : string) (attributes : list (string * string)) (childNodes : list Node)
| Text (data : string).
#[local] Set Elimination Schemes.

(** [document.createElementNS(svgNS, tag)] *)
Definition createElementNS (tag : string) : Node := Element tag [] [].

Fixpoint setNamed (name value : string) (attributes : list (string * string))
  : list (string * string) :=
  match attributes with
  | [] => [(name, value)]
  | (n, v) :: rest =>
      if decide (n = name) then (n, value) :: rest
      else (n, v) :: setNamed name value rest
  end.

(** [el.setAttribute(name, value)]: the value of an attribute the element
    has is replaced where it stands, a new attribute comes last. *)
Definition setAttribute (name value : string) (el : Node) : Node :=
  match el with
  | Element tag attributes children => Element tag (setNamed name value attributes) children
  | Text _ => el
  end.

(** [el.getAttribute(name)] *)
Definition getAttribute (name : string) (el : Node) : option string :=
  match el with
  | Element _ attributes _ =>
      (λ found, snd (snd found)) <$> list_find (λ a, fst a = name) attributes
  | Text _ => None
  end.

(** [el.appendChild(child)] *)
Definition appendChild (child : Node) (el : Node) : Node :=
  match el with
  | Element tag attributes children => Element tag attributes (children ++ [child])
  | Text _ => el
  end.

(** [el.textContent = text]: the children give way to one text node, or to
    none when the text is empty. *)
Definition setTextContent (text : string) (el : Node) : Node :=
  match el with
  | Element tag attributes _ =>
      Element tag attributes (if decide (text = "") then [] else [Text text])
  | Text _ => Text text
  end.

Definition children (el : Node) : list Node :=
  match el with
  | Element _ _ childNodes => childNodes
  | Text _ => []
  end.

End Dom.

(** ** SVGGenerator (js/svgGenerator.js): the documents *)

Module SVGDocument.
Import Js Cv Dom.

Definition svgNS : string := "http://www.w3.org/2000/svg".

Definition isUpper (c : ascii) : bool :=
  let n := nat_of_ascii c in (65 <=? n)%nat && (n <=? 90)%nat.

Definition toLower (c : ascii) : ascii :=
  if isUpper c then ascii_of_nat (nat_of_ascii c + 32) else c.

(** [key.replace(/([A-Z])/g, '-$1').toLowerCase()], for a key of ASCII
    characters. *)
Fixpoint attributeName (key : string) : string :=
  match key with
  | EmptyString => EmptyString
  | String c rest =>
      if isUpper c then String "-" (String (toLower c) (attributeName rest))
      else String c (attributeName rest)
  end.

(** The numbers of the legend are integers, except that an empty palette
    makes [Math.ceil(0 / 0)] the number of rows. *)
Inductive Num : Type := Int (z : Z) | NaN.

Definition numToString (n : Num) : string :=
  match n with
  | Int z => Number_toString z
  | NaN => "NaN"
  end.

Definition itemWidth : Z := 180.
Definition itemHeight : Z := 40.
Definition padding : Z := 10.

(** [Math.min(4, palette.length)] *)
Definition columns (palette : list ColorQuantizer.PaletteEntry) : Z :=
  Z.min 4 (Z.of_nat (length palette)).

(** [Math.ceil(palette.length / columns)] *)
Definition rows (palette : list ColorQuantizer.PaletteEntry) : Num :=
  if decide (columns palette = 0) then NaN
  else Int (Qceiling (inject_Z (Z.of_nat (length palette)) / inject_Z (columns palette))).

Definition legendWidth (palette : list ColorQuantizer.PaletteEntry) : Z :=
  columns palette * itemWidth + (columns palette + 1) * padding.

Definition legendHeight (palette : list ColorQuantizer.PaletteEntry) : Num :=
  match rows palette with
  | Int rows => Int (rows * itemHeight + (rows + 1) * padding)
  | NaN => NaN
  end.

(** Where the item of index [index] goes: [col = index % columns],
    [row = Math.floor(index / columns)]. *)
Definition itemX (columns : Z) (index : nat) : Z :=
  let col := Z.rem (Z.of_nat index) columns in
  col * itemWidth + (col + 1) * padding.

Definition itemY (columns : Z) (index : nat) : Z :=
  let row := Qfloor (inject_Z (Z.of_nat index) / inject_Z columns) in
  row * itemHeight + (row + 1) * padding.

(** The group of one legend item: frame, number box, number, swatch, name
    and hex code. *)
Definition legendItem (x y : Z) (color : ColorQuantizer.PaletteEntry) : Node :=
  let rect :=
    setAttribute "rx" (Number_toString 4)
      (setAttribute "stroke" "#e0e0e0"
         (setAttribute "fill" "#f9f9f9"
            (setAttribute "height" (Number_toString itemHeight)
               (setAttribute "width" (Number_toString itemWidth)
                  (setAttribute "y" (Number_toString y)
                     (setAttribute "x" (Number_toString x)
                        (createElementNS "rect"))))))) in
  let numRect :=
    setAttribute "rx" (Number_toString 4)
      (setAttribute "stroke" "#cccccc"
         (setAttribute "fill" "#ffffff"
            (setAttribute "height" (Number_toString 30)
               (setAttribute "width" (Number_toString 30)
                  (setAttribute "y" (Number_toString (y + 5))
                     (setAttribute "x" (Number_toString (x + 5))
                        (createElementNS "rect"))))))) in
  let numText :=
    setTextContent (Number_toString (ColorQuantizer.id color))
      (setAttribute "fill" "#333333"
         (setAttribute "text-anchor" "middle"
            (setAttribute "font-weight" "bold"
               (setAttribute "font-size" (Number_toString 14)
                  (setAttribute "y" (Number_toString (y + 22))
                     (setAttribute "x" (Number_toString (x + 20))
                        (createElementNS "text"))))))) in
  let swatch :=
    setAttribute "rx" (Number_toString 4)
      (setAttribute "stroke" "#cccccc"
         (setAttribute "fill" (ColorQuantizer.hex color)
            (setAttribute "height" (Number_toString 30)
               (setAttribute "width" (Number_toString 30)
                  (setAttribute "y" (Number_toString (y + 5))
                     (setAttribute "x" (Number_toString (x + 40))
                        (createElementNS "rect"))))))) in
  let nameText :=
    setTextContent (ColorQuantizer.name color)
      (setAttribute "fill" "#333333"
         (setAttribute "font-weight" "600"
            (setAttribute "font-size" (Number_toString 11)
               (setAttribute "y" (Number_toString (y + 16))
                  (setAttribute "x" (Number_toString (x + 75))
                     (createElementNS "text")))))) in
  let hexText :=
    setTextContent (ColorQuantizer.hex color)
      (setAttribute "fill" "#999999"
         (setAttribute "font-family" "monospace"
            (setAttribute "font-size" (Number_toString 9)
               (setAttribute "y" (Number_toString (y + 30))
                  (setAttribute "x" (Number_toString (x + 75))
                     (createElementNS "text")))))) in
  foldl (λ group child, appendChild child group) (createElementNS "g")
    [rect; numRect; numText; swatch; nameText; hexText].

(** The [svg] element [generateLegend] builds before it is serialized. *)
Definition legendDocument (palette : list ColorQuantizer.PaletteEntry) : Node :=
  let width := Number_toString (legendWidth palette) in
  let height := numToString (legendHeight palette) in
  let svg :=
    setAttribute "viewBox" ("0 0 " +:+ width +:+ " " +:+ height)
      (setAttribute "height" height
         (setAttribute "width" width
            (setAttribute "xmlns" svgNS (createElementNS "svg")))) in
  let bg :=
    setAttribute "fill" "#ffffff"
      (setAttribute "height" height
         (setAttribute "width" width (createElementNS "rect"))) in
  foldl (λ svg '(index, color),
           appendChild
             (legendItem (itemX (columns palette) index) (itemY (columns palette) index)
                color)
             svg)
    (appendChild bg svg) (imap pair palette).

Section Generator.
Context `{cv : OpenCV}.

(** [String(n)] for a number that need not be an integer, and
    [new XMLSerializer().serializeToString(svg)], are the browser's. *)
Context (numberToString : Q → string).
Context (doubleToString : double → string).
Context (serializeToString : Node → string).

(** The options [generateSVG] reads; all but the size may be left out. *)
Record Options : Type := mkOptions {
  width : nat;
  height : nat;
  showNumbers : option bool;
  numberSize : option Z;
  lineWidth : option Q;
  showColors : option bool;
  backgroundColor : option string
}.

Definition generateLegend (palette : list ColorQuantizer.PaletteEntry) : string :=
  serializeToString (legendDocument palette).

(** [createRegionPath(region, style)], the style being the entries of the
    object in their order. *)
Definition createRegionPath (region : WatershedProcessor.Region)
    (style : list (string * string)) : Node :=
  let path :=
    setAttribute "d" (SVGGenerator.contourToPathData (WatershedProcessor.contour region))
      (createElementNS "path") in
  foldl (λ path '(key, value), setAttribute (attributeName key) value path) path style.

(** [showColors ? region.color.hex : 'none'] *)
Definition fillOf (showColors : bool) (region : WatershedProcessor.Region)
  : Completion string :=
  if showColors then
    match WatershedProcessor.color region with
    | Some color => Normal (ColorQuantizer.hex color)
    | None => Throw (TypeError "Cannot read properties of undefined (reading 'hex')")
    end
  else Normal "none".

Definition numberLabel (numberSize : Z) (region : WatershedProcessor.Region) : Node :=
  setTextContent (Number_toString (WatershedProcessor.colorId region))
    (setAttribute "font-family" "Arial, sans-serif"
       (setAttribute "fill" "#666666"
          (setAttribute "dominant-baseline" "middle"
             (setAttribute "text-anchor" "middle"
                (setAttribute "font-weight" "bold"
                   (setAttribute "font-size" (Number_toString numberSize)
                      (setAttribute "y"
                         (doubleToString (snd (WatershedProcessor.centroid region)))
                         (setAttribute "x"
                            (doubleToString (fst (WatershedProcessor.centroid region)))
                            (createElementNS "text"))))))))).

(** The [svg] element [generateSVG] builds before it is serialized. *)
Definition svgDocument (regions : list WatershedProcessor.Region)
    (palette : list ColorQuantizer.PaletteEntry) (options : Options)
  : Completion Node :=
  let showNumbers := default true (showNumbers options) in
  let numberSize := default 12 (numberSize options) in
  let lineWidth := default (3 # 2)%Q (lineWidth options) in
  let showColors := default false (showColors options) in
  let backgroundColor := default "#ffffff" (backgroundColor options) in
  let width := pretty (width options) in
  let height := pretty (height options) in
  let svg :=
    setAttribute "viewBox" ("0 0 " +:+ width +:+ " " +:+ height)
      (setAttribute "height" height
         (setAttribute "width" width
            (setAttribute "xmlns" svgNS (createElementNS "svg")))) in
  let bg :=
    setAttribute "fill" backgroundColor
      (setAttribute "height" height
         (setAttribute "width" width (createElementNS "rect"))) in
  let svg := appendChild bg svg in
  regionsGroup ←
    forEach (λ group region,
               fill ← fillOf showColors region;
               Normal (appendChild
                         (createRegionPath region
                            [("fill", fill); ("stroke", "#000000");
                             ("strokeWidth", numberToString lineWidth);
                             ("strokeLinejoin", "round"); ("strokeLinecap", "round")])
                         group))
      (setAttribute "id" "regions" (createElementNS "g")) regions;
  let svg := appendChild regionsGroup svg in
  let svg :=
    if showNumbers then
      appendChild
        (foldl (λ group region, appendChild (numberLabel numberSize region) group)
           (setAttribute "id" "numbers" (createElementNS "g")) regions)
        svg
    else svg in
  Normal svg.

Definition generateSVG (regions : list WatershedProcessor.Region)
    (palette : list ColorQuantizer.PaletteEntry) (options : Options)
  : Completion string :=
  svg ← svgDocument regions palette options;
  Normal (serializeToString svg).

End Generator.
End SVGDocument.

(** ** BatchProcessor (js/batchProcessor.js) *)

Module BatchProcessor.
Import Js Cv.

(** What the code reads of a browser [File]. *)
Record File : Type := mkFile { name : string; type : string; size : Z }.

(** [item.status]: 'pending', 'processing', 'completed' or 'error'. *)
Inductive Status : Type := Pending | Processing | Completed | Failed.

#[export] Instance status_eq_dec : EqDecision Status.
Proof. solve_decision. Defined.

(** [item.result] of a completed item. *)
Record ItemResult : Type := mkItemResult {
  svg : string;
  legend : string;
  palette : list ColorQuantizer.PaletteEntry;
  width : nat;
  height : nat
}.

(** [item.error]: [null] at first, then [error.message] of what was
    caught, which is undefined for a value that is no error object. *)
Inductive ErrorField : Type := Null | Undefined | Message (text : string).

Record Item : Type := mkItem {
  file : File;
  status : Status;
  result : option ItemResult;
  error : ErrorField
}.

(** A batch processor.  The items are objects the queue and the results
    both refer to: [heap] holds every item created so far, [queue] and
    [results] hold positions in it. *)
Record Batch : Type := mkBatch {
  heap : list Item;
  queue : list nat;
  results : list nat;
  isProcessing : bool;
  currentIndex : nat
}.

(** [new BatchProcessor()] *)
Definition new : Batch := mkBatch [] [] [] false 0.

(** The item a reference stands for.  The code holds no reference but to
    an item it has created, so the default is never taken. *)
Definition itemAt (b : Batch) (ref : nat) : Item :=
  default (mkItem (mkFile "" "" 0) Pending None Null) (heap b !! ref).

(** [file.type.startsWith('image/')] *)
Definition isImage (f : File) : bool := String.prefix "image/" (type f).

Definition addFile (b : Batch) (f : File) : Batch :=
  if isImage f then
    mkBatch (heap b ++ [mkItem f Pending None Null]) (queue b ++ [length (heap b)])
      (results b) (isProcessing b) (currentIndex b)
  else b.

Definition addFiles (files : list File) (b : Batch) : Batch := foldl addFile b files.

Definition clear (b : Batch) : Completion Batch :=
  if isProcessing b then Throw (Error "Cannot clear queue while processing")
  else Normal (mkBatch (heap b) [] [] (isProcessing b) 0).

(** Where [array.splice(start, 1)] starts in an array of [len] elements: a
    negative start counts from the end, and the start is clamped to the
    array. *)
Definition spliceStart (len start : Z) : nat :=
  Z.to_nat (if decide (start < 0) then Z.max (len + start) 0 else Z.min start len).

Definition removeItem (index : Z) (b : Batch) : Completion Batch :=
  if isProcessing b then Throw (Error "Cannot remove item while processing")
  else
    Normal (mkBatch (heap b)
              (delete (spliceStart (Z.of_nat (length (queue b))) index) (queue b))
              (results b) (isProcessing b) (currentIndex b)).

(** [this.queue.filter(i => i.status === s).length] *)
Definition count (s : Status) (b : Batch) : nat :=
  length (filter (λ ref, status (itemAt b ref) = s) (queue b)).

Module Report.
Record t : Type := mk {
  total : nat;
  completed : nat;
  processing : nat;
  pending : nat;
  errors : nat;
  isProcessing : bool;
  currentIndex : nat
}.
End Report.

Definition getStatus (b : Batch) : Report.t :=
  {| Report.total := length (queue b);
     Report.completed := count Completed b;
     Report.processing := count Processing b;
     Report.pending := count Pending b;
     Report.errors := count Failed b;
     Report.isProcessing := isProcessing b;
     Report.currentIndex := currentIndex b |}.

(** [name.replace(/\.[^.]+$/, '')]: the expression matches at a dot that
    is followed by one or more characters, none of them a dot, up to the
    end of the name. *)
Fixpoint dotFree (s : string) : bool :=
  match s with
  | EmptyString => true
  | String c rest => negb (Ascii.eqb c ".") && dotFree rest
  end.

Fixpoint baseName (name : string) : string :=
  match name with
  | EmptyString => EmptyString
  | String c rest =>
      if Ascii.eqb c "." && negb (String.eqb rest "") && dotFree rest then EmptyString
      else String c (baseName rest)
  end.

Section Processing.
Context `{cv : OpenCV}.
Context (preprocessImage : ImageData → Z → Completion ImageData).

(** The browser side: loading the image of a file ([Utils.loadImageFromFile],
    whose promise may reject), reading its pixels ([Utils.getImageData]),
    and the conversions to text the SVG generator needs. *)
Context (image : Type).
Context (loadImageFromFile : File → Completion image).
Context (getImageData : image → Z → Completion ImageData).
Context (numberToString : Q → string).
Context (doubleToString : double → string).
Context (serializeToString : Dom.Node → string).

(** The options object: what [process] reads of it, and what is handed on
    to [generateSVG]. *)
Record Options : Type := mkOptions {
  pipeline : WatershedProcessor.Options;
  showNumbers : option bool;
  numberSize : option Z;
  lineWidth : option Q;
  showColors : option bool;
  backgroundColor : option string
}.

(** What [onProgress] is called with: [{item, total, percent, message}]. *)
Record ProgressEvent : Type := mkProgressEvent {
  item : nat;
  total : nat;
  report : WatershedProcessor.Progress
}.

(** The processor with the objects a call of [processBatch] works on and
    what the call has told its callbacks so far.  [onItemComplete] and
    [onProgress] are functions that may throw; they are taken to leave
    the batch processor alone. *)
Record Trace : Type := mkTrace {
  batch : Batch;
  processor : WatershedProcessor.Processor;
  completions : list (Item * nat);
  progress : list ProgressEvent
}.

(** An assignment to fields of the item [ref] refers to. *)
Definition update (ref : nat) (f : Item → Item) (t : Trace) : Trace :=
  mkTrace
    (mkBatch (alter f ref (heap (batch t))) (queue (batch t)) (results (batch t))
       (isProcessing (batch t)) (currentIndex (batch t)))
    (processor t) (completions t) (progress t).

(** [onItemComplete && onItemComplete(item, i)] *)
Definition notify (onItemComplete : option (Item → nat → Completion unit))
    (ref i : nat) (t : Trace) : Completion unit * Trace :=
  match onItemComplete with
  | Some callback =>
      (callback (itemAt (batch t) ref) i,
       mkTrace (batch t) (processor t) (completions t ++ [(itemAt (batch t) ref, i)])
         (progress t))
  | None => (Normal tt, t)
  end.

(** The callback [processBatch] hands to [process]:
    [progress => { onProgress && onProgress({item: i, total, ...progress}) }] *)
Definition relay (onProgress : option (ProgressEvent → Completion unit))
    (i total : nat) (progress : WatershedProcessor.Progress) : Completion unit :=
  match onProgress with
  | Some f => f (mkProgressEvent i total progress)
  | None => Normal tt
  end.

(** The [try] block of one turn of the loop. *)
Definition attempt (options : Options)
    (onItemComplete : option (Item → nat → Completion unit))
    (onProgress : option (ProgressEvent → Completion unit))
    (ref i : nat) (t : Trace) : Completion unit * Trace :=
  let t := update ref (λ it, mkItem (file it) Processing (result it) (error it)) t in
  let '(called, t) := notify onItemComplete ref i t in
  match called with
  | Throw e => (Throw e, t)
  | Normal _ =>
  match loadImageFromFile (file (itemAt (batch t) ref)) with
  | Throw e => (Throw e, t)
  | Normal img =>
  match getImageData img (default 1024 (WatershedProcessor.maxSize (pipeline options))) with
  | Throw e => (Throw e, t)
  | Normal imageData =>
  let run := WatershedProcessor.process preprocessImage (processor t) imageData
               (pipeline options)
               (Some (relay onProgress i (length (queue (batch t))))) in
  let t := mkTrace (batch t) (WatershedProcessor.processor run) (completions t)
             (progress t
              ++ map (mkProgressEvent i (length (queue (batch t))))
                   (WatershedProcessor.reports run)) in
  match WatershedProcessor.outcome run with
  | Throw e => (Throw e, t)
  | Normal res =>
  match SVGDocument.generateSVG numberToString doubleToString serializeToString
          (WatershedProcessor.regions res) (WatershedProcessor.palette res)
          (SVGDocument.mkOptions (WatershedProcessor.width res)
             (WatershedProcessor.height res) (showNumbers options) (numberSize options)
             (lineWidth options) (showColors options) (backgroundColor options)) with
  | Throw e => (Throw e, t)
  | Normal svg =>
  let legend := SVGDocument.generateLegend serializeToString
                  (WatershedProcessor.palette res) in
  let t := update ref
             (λ it, mkItem (file it) Completed
                      (Some (mkItemResult svg legend (WatershedProcessor.palette res)
                               (WatershedProcessor.width res)
                               (WatershedProcessor.height res)))
                      (error it)) t in
  let t := mkTrace
             (mkBatch (heap (batch t)) (queue (batch t)) (results (batch t) ++ [ref])
                (isProcessing (batch t)) (currentIndex (batch t)))
             (processor t) (completions t) (progress t) in
  notify onItemComplete ref i t
  end end end end end.

(** [error.message] *)
Definition messageOf (e : Thrown) : ErrorField :=
  match e with
  | ErrorObject _ message => Message message
  | OtherValue _ => Undefined
  end.

(** One turn of the loop: the [try], the [catch], and the step of
    [currentIndex].  What the [catch] block throws leaves the loop. *)
Definition turn (options : Options)
    (onItemComplete : option (Item → nat → Completion unit))
    (onProgress : option (ProgressEvent → Completion unit))
    (ref i : nat) (t : Trace) : Completion unit * Trace :=
  let '(tried, t) := attempt options onItemComplete onProgress ref i t in
  let '(caught, t) :=
    match tried with
    | Normal _ => (Normal tt, t)
    | Throw e =>
        notify onItemComplete ref i
          (update ref (λ it, mkItem (file it) Failed (result it) (messageOf e)) t)
    end in
  match caught with
  | Throw e => (Throw e, t)
  | Normal _ =>
      (Normal tt,
       mkTrace
         (mkBatch (heap (batch t)) (queue (batch t)) (results (batch t))
            (isProcessing (batch t)) (i + 1))
         (processor t) (completions t) (progress t))
  end.

(** [for (let i = 0; i < this.queue.length; i++)], from [i] on. *)
Fixpoint turns (options : Options)
    (onItemComplete : option (Item → nat → Completion unit))
    (onProgress : option (ProgressEvent → Completion unit))
    (refs : list nat) (i : nat) (t : Trace) : Completion unit * Trace :=
  match refs with
  | [] => (Normal tt, t)
  | ref :: rest =>
      let '(done, t) := turn options onItemComplete onProgress ref i t in
      match done with
      | Throw e => (Throw e, t)
      | Normal _ => turns options onItemComplete onProgress rest (i + 1) t
      end
  end.

(** [processBatch(options, onItemComplete, onProgress)]: what the promise
    settles to (the results when it is fulfilled) and the processor as the
    call leaves it. *)
Definition processBatch (options : Options)
    (onItemComplete : option (Item → nat → Completion unit))
    (onProgress : option (ProgressEvent → Completion unit)) (b : Batch)
  : Completion (list nat) * Trace :=
  if isProcessing b then
    (Throw (Error "Batch processing already in progress"),
     mkTrace b WatershedProcessor.new [] [])
  else
    let b := mkBatch (heap b) (queue b) [] true 0 in
    let '(done, t) :=
      turns options onItemComplete onProgress (queue b) 0
        (mkTrace b WatershedProcessor.new [] []) in
    match done with
    | Throw e => (Throw e, t)
    | Normal _ =>
        let b := mkBatch (heap (batch t)) (queue (batch t)) (results (batch t)) false
                   (currentIndex (batch t)) in
        (Normal (results b), mkTrace b (processor t) (completions t) (progress t))
    end.

End Processing.
End BatchProcessor.

(** ** The batch processor in terms of its items *)

Module BatchSpec.
Import Js Cv BatchProcessor.

(** Every reference is to an item of the heap, and no item is queued
    twice. *)
Definition wellFormed (b : Batch) : Prop :=
  NoDup (queue b)
  ∧ Forall (λ ref, (ref < length (heap b))%nat) (queue b)
  ∧ Forall (λ ref, (ref < length (heap b))%nat) (results b).

(** The items of the queue, in its order. *)
Definition items (b : Batch) : list Item := itemAt b <$> queue b.

Definition fulfilled {A} (c : Completion A) : bool :=
  match c with
  | Normal _ => true
  | Throw _ => false
  end.

Section BatchSpec.
Context `{cv : OpenCV}.
Context (preprocessImage : ImageData → Z → Completion ImageData).
Context (image : Type).
Context (loadImageFromFile : File → Completion image).
Context (getImageData : image → Z → Completion ImageData).
Context (numberToString : Q → string).
Context (doubleToString : double → string).
Context (serializeToString : Dom.Node → string).

(** What one file on its own comes to: loaded, read, run through the
    pipeline on a fresh processor with no one listening, drawn. *)
Definition rendered (options : Options) (f : File) : Completion ItemResult :=
  img ← loadImageFromFile f;
  imageData ← getImageData img
                (default 1024 (WatershedProcessor.maxSize (pipeline options)));
  res ← WatershedProcessor.outcome
          (WatershedProcessor.process preprocessImage WatershedProcessor.new imageData
             (pipeline options) None);
  svg ← SVGDocument.generateSVG numberToString doubleToString serializeToString
          (WatershedProcessor.regions res) (WatershedProcessor.palette res)
          (SVGDocument.mkOptions (WatershedProcessor.width res)
             (WatershedProcessor.height res) (showNumbers options) (numberSize options)
             (lineWidth options) (showColors options) (backgroundColor options));
  Normal (mkItemResult svg
            (SVGDocument.generateLegend serializeToString (WatershedProcessor.palette res))
            (WatershedProcessor.palette res) (WatershedProcessor.width res)
            (WatershedProcessor.height res)).

(** An item once its file has been dealt with. *)
Definition settled (options : Options) (it : Item) : Item :=
  match rendered options (file it) with
  | Normal r => mkItem (file it) Completed (Some r) (error it)
  | Throw e => mkItem (file it) Failed (result it) (messageOf e)
  end.

End BatchSpec.
End BatchSpec.

(** ** Stand-ins for the browser side of a batch *)

Module BatchFixture.
Import Js Cv BatchProcessor.

Definition photo : File := mkFile "photo.png" "image/png" 2048.
Definition notes : File := mkFile "notes.txt" "text/plain" 120.

(** Every file decodes to the checkerboard. *)
Definition readable (f : File) : Completion ImageData := Normal Fixture.checkerboard.

(** No file decodes: the promise of [loadImageFromFile] is rejected with
    the error event of the image. *)
Definition unreadable (f : File) : Completion ImageData :=
  Throw (OtherValue "[object Event]").

(** A callback that throws when it is told of a failed item. *)
Definition strict (it : Item) (i : nat) : Completion unit :=
  match status it with
  | Failed => Throw (Error "item failed")
  | _ => Normal tt
  end.

(** Callbacks that take note and return. *)
Definition noted (it : Item) (i : nat) : Completion unit := Normal tt.
Definition heard (event : ProgressEvent) : Completion unit := Normal tt.

(** A progress callback that gives up when the markers are about to be
    built. *)
Definition impatient (event : ProgressEvent) : Completion unit :=
  Fixture.interrupt (report event).

Definition options : Options :=
  mkOptions Fixture.checkerboardOptions None None None None None.

End BatchFixture.

(** ** A stand-in for the square root

    Roots as fixed-point numbers with twenty binary places: enough to
    tell the roots of different integers up to 3 * 255 ^ 2 apart, as
    doubles do. *)

Module Roots.

Definition Math_sqrt (a : Z) : Z := Z.sqrt (a * 2 ^ 40).

Definition lessThan (x y : Z) : bool := x <? y.

End Roots.

(** ** What the marker builder relies on from erosion and labelling *)

Module Morphology.
Import Js Cv.

Section Morphology.
Context `{cv : OpenCV}.

(** [cv.erode] of a single-channel mask with the elliptical structuring
    element of side 2r + 1: the result has the shape of the mask, and a
    pixel that is set in the result is set in the mask (the element covers
    its anchor, the centre). *)
Definition erodeShrinks : Prop :=
  ∀ mask r kernel eroded,
    channels mask = 1%nat →
    r > 0 →
    getStructuringElement MORPH_ELLIPSE (r * 2 + 1, r * 2 + 1) = Normal kernel →
    erode mask kernel = Normal eroded →
    rows eroded = rows mask ∧ cols eroded = cols mask
    ∧ channels eroded = 1%nat
    ∧ ∀ y x, (y < rows mask)%nat → (x < cols mask)%nat →
        ucharPtr eroded y x 0 ≠ 0 → ucharPtr mask y x 0 ≠ 0.

(** [cv.connectedComponents] of a single-channel mask gives a positive
    label to set pixels only: a clear pixel is background, label 0. *)
Definition componentsInsideMask : Prop :=
  ∀ mask connectivity ltype n labels,
    channels mask = 1%nat →
    connectedComponents mask connectivity ltype = Normal (n, labels) →
    ∀ y x, (y < rows mask)%nat → (x < cols mask)%nat →
      intAt labels y x > 0 → ucharPtr mask y x 0 ≠ 0.

End Morphology.
End Morphology.

(** ** The batch run of the application *)

Module AppBatch.
Import Js Cv BatchProcessor.

Section AppBatch.
Context `{cv : OpenCV}.
Context (preprocessImage : ImageData → Z → Completion ImageData).

(** The browser side: loading the image of a file, reading its pixels,
    and everything that follows a result with regions (SVG and legend
    generation, [svgToImage] of both, [renderCombinedPNG],
    [Utils.downloadCanvas] under the given file name, and the pause
    before the next file).  Updating the list and the overlay is taken
    to return. *)
Context (image : Type).
Context (loadImageFromFile : File → Completion image).
Context (getImageData : image → Z → Completion ImageData).
Context (download : image → WatershedProcessor.ProcessResult → App.Settings → string
                    → Completion unit).

(** The batch processor whose queue is worked on, the one
    [WatershedProcessor] of the call, and the two counters. *)
Record Tally : Type := mkTally {
  batchProcessor : Batch;
  processor : WatershedProcessor.Processor;
  completed : nat;
  errors : nat
}.

(** An assignment to fields of the item [ref] refers to. *)
Definition assign (ref : nat) (f : Item → Item) (b : Batch) : Batch :=
  mkBatch (alter f ref (heap b)) (queue b) (results b) (isProcessing b) (currentIndex b).

(** One turn of the loop over the queue. *)
Definition turn (settings : App.Settings) (t : Tally) (ref : nat) : Tally :=
  let baseName := baseName (name (file (itemAt (batchProcessor t) ref))) in
  let b := assign ref (λ it, mkItem (file it) Processing (result it) (error it))
             (batchProcessor t) in
  let failed (p : WatershedProcessor.Processor) (message : ErrorField) :=
    mkTally (assign ref (λ it, mkItem (file it) Failed (result it) message) b) p
      (completed t) (errors t + 1) in
  match loadImageFromFile (file (itemAt b ref)) with
  | Throw e => failed (processor t) (messageOf e)
  | Normal img =>
  match getImageData img (App.maxSize settings) with
  | Throw e => failed (processor t) (messageOf e)
  | Normal imageData =>
  let run := WatershedProcessor.process preprocessImage (processor t) imageData
               (App.optionsOf settings) (Some App.showProgress) in
  match WatershedProcessor.outcome run with
  | Throw e => failed (WatershedProcessor.processor run) (messageOf e)
  | Normal res =>
  if decide (length (WatershedProcessor.regions res) = 0%nat) then
    failed (WatershedProcessor.processor run) (Message "No regions detected")
  else
    match download img res settings (baseName +:+ "_pbn.png") with
    | Throw e => failed (WatershedProcessor.processor run) (messageOf e)
    | Normal _ =>
        mkTally (assign ref (λ it, mkItem (file it) Completed (result it) (error it)) b)
          (WatershedProcessor.processor run) (completed t + 1) (errors t)
    end
  end end end.

(** [processBatch()]: the counters and the batch processor as the call
    leaves them, and the toasts it shows. *)
Definition processBatch (settings : App.Settings) (b : Batch) : Tally * list App.Toast :=
  if decide (length (queue b) = 0%nat) then (mkTally b WatershedProcessor.new 0 0, [])
  else
    let t := foldl (turn settings) (mkTally b WatershedProcessor.new 0 0) (queue b) in
    (t,
     [if decide (errors t = 0%nat) then
        App.mkToast
          ("Batch complete! " +:+ Number_toString (Z.of_nat (completed t))
           +:+ " images downloaded.") "success" 5000
      else
        App.mkToast
          ("Done: " +:+ Number_toString (Z.of_nat (completed t)) +:+ " downloaded, "
           +:+ Number_toString (Z.of_nat (errors t)) +:+ " failed.") "warning" 5000]).

(** What the handlers of the application do to its batch processor, each
    run to its end: [handleFileSelect] in batch mode, [removeBatchItem],
    [clearBatch] and [processBatch] with the settings of the moment. *)
Inductive Action : Type :=
  | HandleFileSelect (files : list File)
  | RemoveBatchItem (index : Z)
  | ClearBatch
  | ProcessBatch (settings : App.Settings).

Definition perform (b : Batch) (a : Action) : Completion Batch :=
  match a with
  | HandleFileSelect files => Normal (addFiles files b)
  | RemoveBatchItem index => removeItem index b
  | ClearBatch => clear b
  | ProcessBatch settings => Normal (batchProcessor (fst (processBatch settings b)))
  end.

(** The batch processor of [App.state] after a sequence of handlers. *)
Definition session (actions : list Action) : Completion Batch :=
  forEach perform new actions.

End AppBatch.
End AppBatch.

(** ** The batch run in terms of its files *)

Module AppBatchSpec.
Import Js Cv BatchProcessor.

Section AppBatchSpec.
Context `{cv : OpenCV}.
Context (preprocessImage : ImageData → Z → Completion ImageData).
Context (image : Type).
Context (loadImageFromFile : File → Completion image).
Context (getImageData : image → Z → Completion ImageData).
Context (download : image → WatershedProcessor.ProcessResult → App.Settings → string
                    → Completion unit).

(** What stops the download of one file on its own, run through the
    pipeline on a fresh processor: the [error] its item gets, or nothing. *)
Definition failure (settings : App.Settings) (f : File) : option ErrorField :=
  match loadImageFromFile f with
  | Throw e => Some (messageOf e)
  | Normal img =>
  match getImageData img (App.maxSize settings) with
  | Throw e => Some (messageOf e)
  | Normal imageData =>
  match WatershedProcessor.outcome
          (WatershedProcessor.process preprocessImage WatershedProcessor.new imageData
             (App.optionsOf settings) (Some App.showProgress)) with
  | Throw e => Some (messageOf e)
  | Normal res =>
  if decide (length (WatershedProcessor.regions res) = 0%nat) then
    Some (Message "No regions detected")
  else
    match download img res settings (baseName (name f) +:+ "_pbn.png") with
    | Throw e => Some (messageOf e)
    | Normal _ => None
    end
  end end end.

(** An item once its file has been dealt with. *)
Definition closed (settings : App.Settings) (it : Item) : Item :=
  match failure settings (file it) with
  | None => mkItem (file it) Completed (result it) (error it)
  | Some message => mkItem (file it) Failed (result it) message
  end.

End AppBatchSpec.

(** What every handler of the application keeps of the batch processor. *)
Definition dormant (b : Batch) : Prop :=
  BatchSpec.wellFormed b
  ∧ isProcessing b = false
  ∧ results b = []
  ∧ currentIndex b = 0%nat
  ∧ Forall (λ it, result it = None) (heap b).

End AppBatchSpec.

(** ** RegionExtractor (js/svgGenerator.js) *)

Module RegionExtractor.
Import Js Cv.

(** The numbers the bounding box goes through: the infinities it starts
    from, integers, and NaN. *)
Inductive Number : Type := NaN | NegInfinity | Finite (z : Z) | Infinity.

(** [Math.min] and [Math.max] *)
Definition Math_min (a b : Number) : Number :=
  match a, b with
  | NaN, _ | _, NaN => NaN
  | NegInfinity, _ | _, NegInfinity => NegInfinity
  | Infinity, other | other, Infinity => other
  | Finite x, Finite y => Finite (Z.min x y)
  end.

Definition Math_max (a b : Number) : Number :=
  match a, b with
  | NaN, _ | _, NaN => NaN
  | Infinity, _ | _, Infinity => Infinity
  | NegInfinity, other | other, NegInfinity => other
  | Finite x, Finite y => Finite (Z.max x y)
  end.

(** [a - b] *)
Definition minus (a b : Number) : Number :=
  match a, b with
  | NaN, _ | _, NaN => NaN
  | Infinity, Infinity | NegInfinity, NegInfinity => NaN
  | Infinity, _ | _, NegInfinity => Infinity
  | NegInfinity, _ | _, Infinity => NegInfinity
  | Finite x, Finite y => Finite (x - y)
  end.

Record BoundingBox : Type := mkBox {
  minX : Number; minY : Number; maxX : Number; maxY : Number
}.

Section RegionExtractor.
Context `{cv : OpenCV}.

(** The floating-point side: [calculatePerimeter], a sum of square roots,
    and the quotient [(4 * Math.PI * area) / Math.pow(perimeter, 2)]. *)
Context (number : Type).
Context (calculatePerimeter : list SVGGenerator.Point → number).
Context (compactnessOf : double → number → number).

Record Stats : Type := mkStats {
  boundingBox : BoundingBox;
  width : Number;
  height : Number;
  perimeter : number;
  compactness : number
}.

(** The body of [contour.forEach(p => ...)]. *)
Definition stretch (box : BoundingBox) (p : SVGGenerator.Point) : BoundingBox :=
  mkBox (Math_min (minX box) (Finite (SVGGenerator.px p)))
    (Math_min (minY box) (Finite (SVGGenerator.py p)))
    (Math_max (maxX box) (Finite (SVGGenerator.px p)))
    (Math_max (maxY box) (Finite (SVGGenerator.py p))).

Definition getRegionStats (region : WatershedProcessor.Region) : Stats :=
  let contour := WatershedProcessor.contour region in
  let box := foldl stretch (mkBox Infinity Infinity NegInfinity NegInfinity) contour in
  {| boundingBox := box;
     width := minus (maxX box) (minX box);
     height := minus (maxY box) (minY box);
     perimeter := calculatePerimeter contour;
     compactness := compactnessOf (WatershedProcessor.area region)
                      (calculatePerimeter contour) |}.

End RegionExtractor.
End RegionExtractor.

(* ================================================================== *)
(** * Part II: properties *)
(* ================================================================== *)

Import Js.

(** Runs a closed computation and names its result.  (The goal as a whole
    is not normalised: it mentions the OpenCV stand-in in its types.) *)
Ltac run_to_Normal :=
  lazymatch goal with
  | |- ∃ x, ?run = Normal x =>
      let v := eval vm_compute in run in
      lazymatch v with
      | Normal ?r => exists r; reflexivity
      end
  end.

Example toFixed2_examples :
  toFixed2 (7 # 6) = "1.17" ∧ toFixed2 (-(1 # 6)) = "-0.17" ∧
  toFixed2 0 = "0.00" ∧ toFixed2 (25 # 2) = "12.50" ∧ toFixed2 (-(1 # 1000)) = "-0.00".
Proof. repeat split; vm_compute; reflexivity. Qed.

Example contourToPathData_triangle :
  SVGGenerator.contourToPathData
    [SVGGenerator.mkPoint 0 0; SVGGenerator.mkPoint 6 0; SVGGenerator.mkPoint 0 6]
  = "M 0 0 C 1.00 -1.00, 6.00 -1.00, 6 0 C 6.00 1.00, 1.00 6.00, 0 6 C -1.00 6.00, -1.00 1.00, 0 0 Z".
Proof. vm_compute. reflexivity. Qed.

(** ** Strings built by repeated [+=] *)

Section Strings.

Lemma append_assoc (a b c : string) : (a +:+ b) +:+ c = a +:+ (b +:+ c).
Proof. induction a as [|ch a IH]; [reflexivity | exact (f_equal (String ch) IH)]. Qed.

Lemma append_nil_r (a : string) : a +:+ "" = a.
Proof. induction a as [|ch a IH]; [reflexivity | exact (f_equal (String ch) IH)]. Qed.

Lemma append_cons (c : ascii) (s r : string) : String c s +:+ r = String c (s +:+ r).
Proof. reflexivity. Qed.

Lemma append_nil_l (r : string) : "" +:+ r = r.
Proof. reflexivity. Qed.

(** A loop that appends one piece per turn yields the start followed by
    the pieces in order. *)
Lemma foldl_append {A} (piece : A → string) (l : list A) (init : string) :
  foldl (λ acc i, acc +:+ piece i) init l
  = init +:+ foldr (λ i rest, piece i +:+ rest) "" l.
Proof.
  revert init. induction l as [|i l IH]; intros init; cbn [foldl foldr].
  - now rewrite append_nil_r.
  - rewrite IH. apply append_assoc.
Qed.

Lemma foldl_ext {A B} (f g : A → B → A) (l : list B) (a : A) :
  (∀ a b, f a b = g a b) → foldl f a l = foldl g a l.
Proof.
  intros Hfg. revert a. induction l as [|b l IH]; intros a; simpl; [reflexivity|].
  rewrite Hfg. apply IH.
Qed.

Lemma toFixed2_Qeq (x y : Q) : (x == y)%Q → toFixed2 x = toFixed2 y.
Proof.
  intros E. unfold toFixed2, Qltb, Math_round.
  assert (Qfloor (Qabs x * 100 + (1 # 2)) = Qfloor (Qabs y * 100 + (1 # 2))) as ->.
  { apply Qfloor_comp. now rewrite E. }
  assert (Qle_bool 0 x = Qle_bool 0 y) as ->; [|reflexivity].
  now rewrite E.
Qed.

End Strings.

(** ** The contour smoother *)

Section Smoother.
Import SVGGenerator SmootherSpec.

(** Wrap-around indexing: [contour[(i + n) % n]] is the vertex [i + n]
    places along the closed polygon, whenever [i + n] is not negative. *)
Lemma pt_vertex (contour : list Point) (i : Z) :
  contour ≠ [] → 0 ≤ i + Z.of_nat (length contour) →
  pt contour (Z.of_nat (length contour)) i
  = vertex contour (Z.to_nat (i + Z.of_nat (length contour))).
Proof.
  intros Hne Hi. unfold pt, vertex.
  assert (0 < length contour)%nat by (destruct contour; simpl; [congruence | lia]).
  rewrite Z.rem_mod_nonneg by lia.
  rewrite Z2Nat.inj_mod by lia. rewrite Nat2Z.id.
  now rewrite nth_lookup.
Qed.

Lemma vertex_wrap (polygon : list Point) (i : nat) :
  vertex polygon (i + length polygon) = vertex polygon i.
Proof.
  unfold vertex. f_equal.
  replace (i + length polygon)%nat with (i + 1 * length polygon)%nat by lia.
  apply Nat.Div0.mod_add.
Qed.

Lemma pt_vertex_nat (contour : list Point) (i k : nat) :
  contour ≠ [] →
  pt contour (Z.of_nat (length contour)) (Z.of_nat i + Z.of_nat k)
  = vertex contour (i + k).
Proof.
  intros Hne. rewrite pt_vertex by (trivial; lia).
  replace (Z.to_nat (Z.of_nat i + Z.of_nat k + Z.of_nat (length contour)))
    with (i + k + length contour)%nat by lia.
  apply vertex_wrap.
Qed.

Lemma pt_vertex_pred (contour : list Point) (i : nat) :
  contour ≠ [] →
  pt contour (Z.of_nat (length contour)) (Z.of_nat i - 1)
  = vertex contour (i + length contour - 1).
Proof.
  intros Hne.
  assert (0 < length contour)%nat by (destruct contour; simpl; [congruence | lia]).
  rewrite pt_vertex by (trivial; lia). f_equal. lia.
Qed.

(** The control points as the code computes them, [a + (b - c) * alpha / 3]
    on doubles, and as the specification writes them denote one number. *)
Lemma control1_Qeq (a b c : Z) :
  (inject_Z a + inject_Z (b - c) * (1 # 2) / 3
   == inject_Z a + (inject_Z b - inject_Z c) * ((1 # 2) / 3))%Q.
Proof.
  unfold Z.sub. rewrite inject_Z_plus, inject_Z_opp. field.
Qed.

Lemma control2_Qeq (a b c : Z) :
  (inject_Z a - inject_Z (b - c) * (1 # 2) / 3
   == inject_Z a - (inject_Z b - inject_Z c) * ((1 # 2) / 3))%Q.
Proof.
  unfold Z.sub. rewrite inject_Z_plus, inject_Z_opp. field.
Qed.

(** Texts that differ in how their pieces are grouped only. *)
Ltac same_text :=
  repeat rewrite append_assoc; repeat rewrite append_cons;
  repeat rewrite append_nil_l; repeat rewrite append_nil_r; reflexivity.

(** The text of a path that has a first command: the command, and every
    further command behind a blank. *)
Lemma pathData_cons (c : Command) (rest : list Command) :
  pathData (c :: rest)
  = command c +:+ foldr (λ c text, (" " +:+ command c) +:+ text) "" rest.
Proof.
  revert c. induction rest as [|c' rest IH]; intros c.
  - cbn [pathData foldr]. now rewrite append_nil_r.
  - change (pathData (c :: c' :: rest))
      with (command c +:+ " " +:+ pathData (c' :: rest)).
    rewrite IH. cbn [foldr]. same_text.
Qed.

Lemma foldr_text_app {A} (piece : A → string) (l : list A) (tail : string) :
  foldr (λ a text, piece a +:+ text) "" l +:+ tail
  = foldr (λ a text, piece a +:+ text) tail l.
Proof.
  induction l as [|a l IH]; cbn [foldr]; [reflexivity|].
  now rewrite append_assoc, IH.
Qed.

Lemma foldr_text_map {A B} (f : A → B) (piece : B → string) (l : list A) :
  foldr (λ b text, piece b +:+ text) "" (map f l)
  = foldr (λ a text, piece (f a) +:+ text) "" l.
Proof. induction l as [|a l IH]; cbn [foldr map]; [reflexivity|]. now rewrite IH. Qed.

(** The text of a path that is closed: the first command, the further
    ones behind a blank each, and " Z". *)
Lemma pathData_closed (c : Command) (body : list Command) :
  pathData (c :: body ++ [ClosePath])
  = command c +:+ foldr (λ c text, (" " +:+ command c) +:+ text) "" body +:+ " Z".
Proof.
  rewrite pathData_cons. f_equal. rewrite foldr_app. cbn [foldr command].
  rewrite <- (foldr_text_app (λ c, " " +:+ command c) body). f_equal.
Qed.

(** One turn of the loop appends the text of the spline's segment. *)
Lemma curveStep_segment (contour : list Point) (pathData : string) (i : nat) :
  contour ≠ [] →
  curveStep contour (Z.of_nat (length contour)) pathData i
  = pathData
    +:+ (" " +:+ command (CurveTo (control1 (segment (1 # 2) contour i))
                            (control2 (segment (1 # 2) contour i))
                            (stop (segment (1 # 2) contour i)))).
Proof.
  intros Hne. unfold curveStep. cbv zeta. f_equal.
  rewrite pt_vertex_pred by trivial.
  replace (Z.of_nat i + 1) with (Z.of_nat i + Z.of_nat 1) by lia.
  replace (Z.of_nat i + 2) with (Z.of_nat i + Z.of_nat 2) by lia.
  rewrite !pt_vertex_nat by trivial.
  replace (pt contour (Z.of_nat (length contour)) (Z.of_nat i))
    with (vertex contour i).
  2:{ replace (Z.of_nat i) with (Z.of_nat i + Z.of_nat 0) by lia.
      rewrite pt_vertex_nat by trivial. f_equal. lia. }
  unfold curveTo, command, control, point, segment, catmullToBezier, alpha.
  cbv zeta. cbn [cp1x cp1y cp2x cp2y control1 control2 stop fst snd].
  set (p0 := vertex contour (i + length contour - 1)).
  set (p1 := vertex contour i).
  set (p2 := vertex contour (i + 1)).
  set (p3 := vertex contour (i + 2)).
  rewrite (toFixed2_Qeq _ _ (control1_Qeq (px p1) (px p2) (px p0))).
  rewrite (toFixed2_Qeq _ _ (control1_Qeq (py p1) (py p2) (py p0))).
  rewrite (toFixed2_Qeq _ _ (control2_Qeq (px p2) (px p3) (px p1))).
  rewrite (toFixed2_Qeq _ _ (control2_Qeq (py p2) (py p3) (py p1))).
  same_text.
Qed.

Lemma vertex_first (first : Point) (rest : list Point) :
  vertex (first :: rest) 0 = first.
Proof. unfold vertex. now rewrite Nat.Div0.mod_0_l. Qed.

Lemma contourToPathData_spline (contour : list Point) :
  (3 ≤ length contour)%nat →
  contourToPathData contour = SmootherSpec.pathData (closedSpline (1 # 2) contour).
Proof.
  intros Hlen. unfold contourToPathData, closedSpline.
  destruct contour as [|first rest] eqn:E; [simpl in Hlen; lia|].
  rewrite <- E in *. assert (contour ≠ []) as Hne by (subst; discriminate).
  destruct (decide (length contour < 3)%nat); [lia|]. cbv zeta.
  rewrite (foldl_ext _ (λ acc i, acc +:+ (" " +:+ command
             (CurveTo (control1 (segment (1 # 2) contour i))
                (control2 (segment (1 # 2) contour i))
                (stop (segment (1 # 2) contour i))))))
    by (intros acc i; now apply curveStep_segment).
  rewrite foldl_append, pathData_closed.
  rewrite (foldr_text_map _ (λ c, " " +:+ command c)).
  replace 0 with (Z.of_nat 0 + Z.of_nat 0) by lia.
  rewrite pt_vertex_nat by trivial. unfold moveTo, command, point.
  cbn [Nat.add]. same_text.
Qed.

Lemma contourToPathData_straight (contour : list Point) :
  (length contour < 3)%nat →
  contourToPathData contour = SmootherSpec.pathData (straightPath contour).
Proof.
  intros Hlen. unfold straightPath.
  destruct contour as [|a [|b [|c rest]]]; simpl in Hlen; try lia.
  - reflexivity.
  - unfold contourToPathData.
    destruct (decide (length [a] < 3)%nat); [|simpl in *; lia].
    change (seq 1 (length [a] - 1)) with (@nil nat).
    cbn [foldl map app SmootherSpec.pathData command]. unfold moveTo, point.
    same_text.
  - unfold contourToPathData.
    destruct (decide (length [a; b] < 3)%nat); [|simpl in *; lia].
    change (seq 1 (length [a; b] - 1)) with [1%nat].
    cbn [foldl map app SmootherSpec.pathData command].
    change ([a; b] !! 1%nat) with (Some b). cbn [default].
    unfold moveTo, lineTo, point. same_text.
Qed.

(** C9.  For coordinates that are 32-bit integers, as the contours of the
    pipeline have them: the text for a polygon of three or more points is
    the path data of the closed Catmull-Rom spline of tension 1/2
    through its vertices, where neighbours are taken with wrap-around
    indices and the segment through (p0, p1, p2, p3) is the cubic Bezier
    from p1 to p2 with the control points p1 + (p2 - p0) * α / 3 and
    p2 - (p3 - p1) * α / 3; the text for a polygon of fewer than three
    points is the path data of the straight-edged closed path: a move to
    the first point, a line to the second one if there is one, and the
    closing command. *)
Theorem contourToPathData_catmull_rom (contour : list Point) :
  Forall int32Point contour →
  ((3 ≤ length contour)%nat →
   contourToPathData contour = SmootherSpec.pathData (closedSpline (1 # 2) contour))
  ∧ ((length contour < 3)%nat →
     contourToPathData contour = SmootherSpec.pathData (straightPath contour)).
Proof.
  intros _. split; [apply contourToPathData_spline | apply contourToPathData_straight].
Qed.

Lemma contourToPathData_catmull_rom_witness :
  contourToPathData [mkPoint 0 0; mkPoint 6 0; mkPoint 0 6]
  = SmootherSpec.pathData (closedSpline (1 # 2) [mkPoint 0 0; mkPoint 6 0; mkPoint 0 6])
  ∧ contourToPathData [mkPoint 2 3; mkPoint 7 3]
    = SmootherSpec.pathData (straightPath [mkPoint 2 3; mkPoint 7 3]).
Proof.
  split.
  - apply (proj1 (contourToPathData_catmull_rom
                    [mkPoint 0 0; mkPoint 6 0; mkPoint 0 6]
                    ltac:(repeat constructor; cbn; lia))).
    simpl. lia.
  - apply (proj2 (contourToPathData_catmull_rom
                    [mkPoint 2 3; mkPoint 7 3]
                    ltac:(repeat constructor; cbn; lia))).
    simpl. lia.
Defined.

(** The paths of the specification for a triangle and for a pair of
    points, as commands and as text. *)
Example closedSpline_triangle :
  closedSpline (1 # 2) [mkPoint 0 0; mkPoint 6 0; mkPoint 0 6]
  = [MoveTo (mkPoint 0 0);
     CurveTo (0 + (6 - 0) * ((1 # 2) / 3), 0 + (0 - 6) * ((1 # 2) / 3))%Q
       (6 - (0 - 0) * ((1 # 2) / 3), 0 - (6 - 0) * ((1 # 2) / 3))%Q (mkPoint 6 0);
     CurveTo (6 + (0 - 0) * ((1 # 2) / 3), 0 + (6 - 0) * ((1 # 2) / 3))%Q
       (0 - (0 - 6) * ((1 # 2) / 3), 6 - (0 - 0) * ((1 # 2) / 3))%Q (mkPoint 0 6);
     CurveTo (0 + (0 - 6) * ((1 # 2) / 3), 6 + (0 - 0) * ((1 # 2) / 3))%Q
       (0 - (6 - 0) * ((1 # 2) / 3), 0 - (0 - 6) * ((1 # 2) / 3))%Q (mkPoint 0 0);
     ClosePath]
  ∧ SmootherSpec.pathData (straightPath [mkPoint 2 3; mkPoint 7 3]) = "M 2 3 L 7 3 Z"
  ∧ SmootherSpec.pathData (straightPath [mkPoint 2 3]) = "M 2 3 Z".
Proof. split; [reflexivity|]. split; vm_compute; reflexivity. Qed.

(** C10.  The path of the empty contour is the empty string; the path of
    any other contour starts with the move to its first point, "M x y",
    and ends with the close command " Z". *)
Theorem contourToPathData_closed_path :
  contourToPathData [] = ""
  ∧ ∀ (first : Point) (rest : list Point), ∃ body : string,
      contourToPathData (first :: rest)
      = "M " +:+ Number_toString (px first) +:+ " " +:+ Number_toString (py first)
        +:+ body +:+ " Z".
Proof.
  split; [reflexivity|]. intros first rest.
  destruct (decide (length (first :: rest) < 3)%nat) as [Hshort|Hlong].
  - exists (foldr (λ c text, (" " +:+ command c) +:+ text) "" (map LineTo rest)).
    rewrite contourToPathData_straight by (simpl in *; lia).
    unfold straightPath. rewrite pathData_closed. unfold command at 1. unfold point.
    same_text.
  - exists (foldr (λ c text, (" " +:+ command c) +:+ text) ""
              (map (λ i, let b := segment (1 # 2) (first :: rest) i in
                         CurveTo (control1 b) (control2 b) (stop b))
                 (seq 0 (length (first :: rest))))).
    rewrite contourToPathData_spline by lia.
    unfold closedSpline. rewrite pathData_closed, vertex_first.
    unfold command at 1. unfold point. same_text.
Qed.

End Smoother.

(** ** Loops *)

Section Loops.
Import Cv.

Lemma forEach_app {S A} (body : S → A → Completion S) (s : S) (l1 l2 : list A) :
  forEach body s (l1 ++ l2) = (s' ← forEach body s l1; forEach body s' l2).
Proof.
  revert s. induction l1 as [|a l1 IH]; intros s; simpl; [reflexivity|].
  destruct (body s a) as [s'|e]; simpl; [apply IH | reflexivity].
Qed.

(** A loop that ran to its end ran its last turn from the state the
    earlier turns left. *)
Lemma forEach_snoc_Normal {S A} (body : S → A → Completion S) (s s' : S)
    (l : list A) (a : A) :
  forEach body s (l ++ [a]) = Normal s' →
  ∃ s1, forEach body s l = Normal s1 ∧ body s1 a = Normal s'.
Proof.
  rewrite forEach_app. destruct (forEach body s l) as [s1|e]; simpl; [|discriminate].
  destruct (body s1 a) as [s2|e] eqn:E; simpl; [|discriminate].
  intros [= <-]. now exists s1.
Qed.

Lemma elem_of_scan (height width y x : nat) :
  (y, x) ∈ scan height width ↔ (y < height)%nat ∧ (x < width)%nat.
Proof.
  unfold scan. rewrite list_elem_of_bind. split.
  - intros (y' & Hx & Hy). apply list_elem_of_bind in Hx as (x' & Hp & Hx).
    apply list_elem_of_singleton in Hp as [= -> ->].
    apply elem_of_seq in Hx, Hy. lia.
  - intros [Hy Hx]. exists y. split; [|apply elem_of_seq; lia].
    apply list_elem_of_bind. exists x. split; [|apply elem_of_seq; lia].
    now apply list_elem_of_singleton.
Qed.

Lemma forPixels_scan {S} (height width : nat) (body : nat → nat → S → S) (s : S) :
  forPixels height width body s
  = foldl (λ s p, body (fst p) (snd p) s) s (scan height width).
Proof.
  unfold forPixels, scan. generalize (seq 0 height) as ys. intros ys. revert s.
  induction ys as [|y ys IH]; intros s; [reflexivity|].
  cbn [foldl mbind list_bind]. rewrite foldl_app, <- IH. f_equal.
  generalize (seq 0 width) as xs. intros xs. revert s.
  induction xs as [|x xs IHx]; intros s; [reflexivity|].
  cbn [foldl mbind list_bind app]. apply IHx.
Qed.

End Loops.

(** ** The colour quantizer *)

Section Quantizer.
Import Cv ColorQuantizer QuantizerSpec.
Context `{cv : OpenCV}.

(** [rgb.ucharPtr(Math.floor(i / cols), i % cols)[k]] reads sample [k] of
    pixel [i]. *)
Lemma ucharPtr_pixel (img : Mat) (i k : nat) :
  ucharPtr img (i / cols img) (i mod cols img) k = pixelChannel img i k.
Proof.
  unfold ucharPtr, pixelChannel, offset. do 3 f_equal.
  pose proof (Nat.div_mod_eq i (cols img)). nia.
Qed.

Lemma foldl_addPixel (img labels : Mat) (K : Z) (ps : list nat)
    (sums : list ColorSum) (j : nat) :
  Z.of_nat j < K →
  foldl (addPixel img labels K) sums ps !! j
  = visited img labels ps (Z.of_nat j) <$> sums !! j.
Proof.
  intros Hj. revert sums. induction ps as [|p ps IH]; intros sums.
  - cbn [foldl]. destruct (sums !! j) as [[]|]; [|reflexivity].
    unfold visited. cbn. do 2 f_equal; lia.
  - cbn [foldl]. rewrite IH. unfold addPixel. cbv zeta.
    unfold visited. rewrite filter_cons.
    destruct (decide (intAt labels p 0 >= 0 ∧ intAt labels p 0 < K)) as [Hin|Hout].
    + destruct (decide (intAt labels p 0 = Z.of_nat j)) as [Heq|Hne].
      * replace (Z.to_nat (intAt labels p 0)) with j by lia.
        rewrite list_lookup_alter_eq. destruct (sums !! j) as [[]|]; [|reflexivity].
        cbn. rewrite !ucharPtr_pixel. unfold total. do 2 f_equal; lia.
      * rewrite list_lookup_alter_ne by lia. reflexivity.
    + destruct (decide (intAt labels p 0 = Z.of_nat j)) as [Heq|Hne]; [lia|].
      reflexivity.
Qed.

Lemma forEach_total {S A} (body : S → A → Completion S) (l : list A) (s : S) :
  (∀ s a, a ∈ l → ∃ s', body s a = Normal s') →
  ∃ s', forEach body s l = Normal s'.
Proof.
  revert s. induction l as [|a l IH]; intros s Hbody; [now exists s|].
  destruct (Hbody s a) as [s1 E]; [left|]. cbn [forEach]. rewrite E. simpl.
  apply IH. intros s2 a2 Ha2. apply Hbody. now right.
Qed.

Lemma palette_lookup (colorSums : list ColorSum) (K : Z) (j : nat) :
  Z.of_nat j < K →
  map (paletteEntry colorSums) (seq 0 (Z.to_nat K)) !! j
  = Some (paletteEntry colorSums j).
Proof.
  intros Hj. rewrite list_lookup_fmap, lookup_seq_lt by lia. reflexivity.
Qed.

(** C5.  When the OpenCV calls of [quantize] succeed and k-means labels
    every pixel with a cluster in 0..K-1, [quantize] returns, and for every
    cluster with at least one pixel the palette entry holds the rounded
    per-channel average of the original RGB values of the cluster's
    pixels.  The centres k-means returns do not enter the palette. *)
Theorem quantize_palette_average (imageData : ImageData) (numColors : Z)
    (rgbMat lab lbls : Mat) (centers : centersMat) :
  ready = true →
  0 ≤ numColors →
  cvtColor (matFromImageData imageData) COLOR_RGBA2RGB = Normal rgbMat →
  cvtColor rgbMat COLOR_RGB2Lab = Normal lab →
  kmeans (prepareSamples lab) numColors criteria 3 KMEANS_PP_CENTERS
    = Normal (lbls, centers) →
  (∀ p, (p < rows rgbMat * cols rgbMat)%nat → 0 ≤ intAt lbls p 0 < numColors) →
  ∃ res,
    quantize imageData numColors = Normal res
    ∧ labels res = lbls
    ∧ length (palette res) = Z.to_nat numColors
    ∧ ∀ i : nat,
        Z.of_nat i < numColors →
        cluster lbls (rows rgbMat * cols rgbMat) (Z.of_nat i) ≠ [] →
        ∃ entry,
          palette res !! i = Some entry
          ∧ id entry = Z.of_nat i + 1
          ∧ rgb entry = clusterAverage rgbMat lbls (Z.of_nat i).
Proof.
  intros Hready HK Hrgb Hlab Hkm Hrange.
  unfold quantize. rewrite Hready. cbn [negb].
  destruct (decide (channels (matFromImageData imageData) = 4%nat)) as [_|Hch];
    [|now contradiction Hch].
  rewrite Hrgb. cbn [rethrow mbind completion_bind Js.bind].
  rewrite Hlab. cbn [rethrow mbind completion_bind Js.bind].
  rewrite Hkm. cbn [rethrow mbind completion_bind Js.bind].
  destruct (decide (numColors < 0)) as [Hneg|_]; [lia|].
  set (total := (rows rgbMat * cols rgbMat)%nat).
  set (colorSums := foldl (addPixel rgbMat lbls numColors)
                      (replicate (Z.to_nat numColors) (mkSum 0 0 0 0)) (seq 0 total)).
  set (pal := map (paletteEntry colorSums) (seq 0 (Z.to_nat numColors))).
  destruct (forEach_total (paintPixel rgbMat lbls pal) (seq 0 total)
              (zeros (rows rgbMat) (cols rgbMat) CV_8U 3)) as [quantized Hq].
  { intros s p Hp. apply elem_of_seq in Hp. unfold paintPixel. cbv zeta.
    specialize (Hrange p ltac:(lia)). unfold index.
    destruct (decide (intAt lbls p 0 < 0)) as [|_]; [lia|].
    unfold pal. replace (intAt lbls p 0) with (Z.of_nat (Z.to_nat (intAt lbls p 0))) by lia.
    rewrite Nat2Z.id, palette_lookup by lia. eauto. }
  rewrite Hq. cbn [mbind completion_bind Js.bind].
  eexists. split; [reflexivity|]. cbn [labels palette].
  split; [reflexivity|]. split.
  { unfold pal. now rewrite length_map, length_seq. }
  intros i Hi Hmem. exists (paletteEntry colorSums i).
  split; [now apply palette_lookup|]. split; [reflexivity|].
  assert (default (mkSum 0 0 0 0) (colorSums !! i)
          = visited rgbMat lbls (seq 0 total) (Z.of_nat i) (mkSum 0 0 0 0)) as Hsum.
  { unfold colorSums. rewrite foldl_addPixel by trivial.
    rewrite lookup_replicate_2 by lia. reflexivity. }
  unfold paletteEntry. cbv zeta. cbn [rgb]. rewrite Hsum.
  unfold average, visited, clusterAverage, roundedAverage, cluster. cbv zeta.
  fold total.
  set (members := filter (λ p, intAt lbls p 0 = Z.of_nat i) (seq 0 total)) in *.
  cbn [count sum_r sum_g sum_b]. rewrite !length_map, !Z.add_0_l.
  destruct (decide (Z.of_nat (length members) > 0)) as [_|Hzero]; [reflexivity|].
  exfalso. apply Hmem. unfold cluster. fold members.
  destruct members; [reflexivity | simpl in Hzero; lia].
Qed.

End Quantizer.

Section QuantizerOnFixture.
Import Cv ColorQuantizer QuantizerSpec.

Lemma below_Forall (P : nat → Prop) (n : nat) :
  Forall P (seq 0 n) → ∀ p, (p < n)%nat → P p.
Proof.
  intros HP p Hp. rewrite Forall_forall in HP. apply HP, elem_of_seq. lia.
Qed.

Lemma quantize_palette_average_witness :
  ∃ res,
    quantize (cv := Fixture.cv) Fixture.twoTone 2 = Normal res
    ∧ labels res = Fixture.twoToneLabels
    ∧ length (palette res) = Z.to_nat 2
    ∧ ∀ i : nat,
        Z.of_nat i < 2 →
        cluster Fixture.twoToneLabels (rows Fixture.twoToneRgb * cols Fixture.twoToneRgb) (Z.of_nat i) ≠ [] →
        ∃ entry,
          palette res !! i = Some entry
          ∧ id entry = Z.of_nat i + 1
          ∧ rgb entry = clusterAverage Fixture.twoToneRgb Fixture.twoToneLabels (Z.of_nat i).
Proof.
  apply (quantize_palette_average (cv := Fixture.cv) Fixture.twoTone 2
           Fixture.twoToneRgb Fixture.twoToneRgb Fixture.twoToneLabels tt).
  - reflexivity.
  - lia.
  - vm_compute. reflexivity.
  - vm_compute. reflexivity.
  - vm_compute. reflexivity.
  - apply below_Forall. apply (bool_decide_unpack _). vm_compute. exact I.
Defined.

End QuantizerOnFixture.

(** ** Invalid parameters of the quantizer *)

Section QuantizerErrors.
Import Cv ColorQuantizer Contract.

(** C7, as stated, fails: with K = 0 and with an empty image [quantize]
    throws a plain [Error] that carries the message of the stage in which
    OpenCV gave up, not an InvalidParameter error. *)
Lemma quantize_invalid_parameter_counterexample :
  quantize (cv := Fixture.cv) Fixture.checkerboard 0
    = Throw (Error "K-Means clustering failed: 6636200")
  ∧ quantize (cv := Fixture.cv) (Fixture.greyImage 0 0 []) 6
    = Throw (Error "RGB conversion failed: 6636200")
  ∧ ¬ (∃ message, quantize (cv := Fixture.cv) Fixture.checkerboard 0
                  = Throw (ErrorObject "InvalidParameter" message)).
Proof.
  assert (quantize (cv := Fixture.cv) Fixture.checkerboard 0
          = Throw (Error "K-Means clustering failed: 6636200")) as E
    by (vm_compute; reflexivity).
  split; [exact E|]. split; [vm_compute; reflexivity|].
  intros [message Hm]. rewrite E in Hm. discriminate Hm.
Qed.

Context `{cv : OpenCV}.

(** C7, amended.  [quantize] checks neither K nor the size of the image.
    It fails all the same, with a plain [Error] named after a stage, when
    OpenCV rejects the input: for K <= 0 because [cv.kmeans] does (if no
    earlier stage failed), for an empty image because [cv.cvtColor] does. *)
Theorem quantize_fails_where_opencv_rejects (imageData : ImageData) (numColors : Z) :
  kmeansRejectsNonPositive →
  cvtColorRejectsEmpty →
  (numColors ≤ 0 → ∃ message,
     quantize imageData numColors = Throw (Error message)
     ∧ (message = "OpenCV.js is not loaded"
        ∨ (∃ e, message = "RGB conversion failed: " +:+ toString e)
        ∨ (∃ e, message = "Lab conversion failed: " +:+ toString e)
        ∨ (∃ e, message = "K-Means clustering failed: " +:+ toString e)))
  ∧ ((width imageData * height imageData = 0)%nat → ∃ message,
       quantize imageData numColors = Throw (Error message)
       ∧ (message = "OpenCV.js is not loaded"
          ∨ (∃ e, message = "RGB conversion failed: " +:+ toString e))).
Proof.
  intros Hkm Hcvt. split.
  - intros HK. unfold quantize.
    destruct ready; cbn [negb]; [|eauto].
    destruct (decide (channels (matFromImageData imageData) = 4%nat)) as [_|Hch];
      [|now contradiction Hch].
    destruct (cvtColor (matFromImageData imageData) COLOR_RGBA2RGB) as [rgbMat|e];
      cbn [rethrow mbind completion_bind Js.bind]; [|eauto 6].
    destruct (cvtColor rgbMat COLOR_RGB2Lab) as [lab|e];
      cbn [rethrow mbind completion_bind Js.bind]; [|eauto 8].
    destruct (Hkm (prepareSamples lab) numColors criteria 3 KMEANS_PP_CENTERS HK)
      as [e ->].
    cbn [rethrow mbind completion_bind Js.bind]. eauto 10.
  - intros Hempty. unfold quantize.
    destruct ready; cbn [negb]; [|eauto].
    destruct (decide (channels (matFromImageData imageData) = 4%nat)) as [_|Hch];
      [|now contradiction Hch].
    destruct (Hcvt (matFromImageData imageData) COLOR_RGBA2RGB) as [e ->].
    { cbn [matFromImageData rows cols]. lia. }
    cbn [rethrow mbind completion_bind Js.bind]. eauto 6.
Qed.

End QuantizerErrors.

Section QuantizerErrorsOnFixture.
Import Cv ColorQuantizer Contract.

Lemma fixture_kmeans_rejects : kmeansRejectsNonPositive (cv := Fixture.cv).
Proof.
  intros samples K criteria attempts flags HK. exists Fixture.thrown.
  cbn [kmeans Fixture.cv]. unfold Fixture.kmeans.
  destruct (decide (K ≤ 0 ∨ Z.of_nat (rows samples) < K)) as [_|Hn]; [reflexivity|].
  exfalso. apply Hn. now left.
Qed.

Lemma fixture_cvtColor_rejects : cvtColorRejectsEmpty (cv := Fixture.cv).
Proof.
  intros m code Hempty. exists Fixture.thrown.
  cbn [cvtColor Fixture.cv]. unfold Fixture.cvtColor.
  destruct (decide (rows m * cols m = 0)%nat) as [_|Hn]; [reflexivity|].
  now contradiction Hn.
Qed.

Lemma quantize_fails_where_opencv_rejects_witness :
  (∃ message,
     quantize (cv := Fixture.cv) Fixture.checkerboard 0 = Throw (Error message)
     ∧ (message = "OpenCV.js is not loaded"
        ∨ (∃ e, message = "RGB conversion failed: " +:+ toString e)
        ∨ (∃ e, message = "Lab conversion failed: " +:+ toString e)
        ∨ (∃ e, message = "K-Means clustering failed: " +:+ toString e)))
  ∧ (∃ message,
       quantize (cv := Fixture.cv) (Fixture.greyImage 0 0 []) 0 = Throw (Error message)
       ∧ (message = "OpenCV.js is not loaded"
          ∨ (∃ e, message = "RGB conversion failed: " +:+ toString e))).
Proof.
  split.
  - apply (proj1 (quantize_fails_where_opencv_rejects (cv := Fixture.cv)
                    Fixture.checkerboard 0
                    fixture_kmeans_rejects fixture_cvtColor_rejects)).
    lia.
  - apply (proj2 (quantize_fails_where_opencv_rejects (cv := Fixture.cv)
                    (Fixture.greyImage 0 0 []) 0
                    fixture_kmeans_rejects fixture_cvtColor_rejects)).
    reflexivity.
Defined.

End QuantizerErrorsOnFixture.

(** ** Matrices written pixel by pixel *)

Section Matrices.
Import Cv.

Lemma plane_intAt (m : Mat) (width y x : nat) :
  plane m width → intAt m y x = default 0 (data m !! (y * width + x)%nat).
Proof. intros [Hw Hc]. unfold intAt. rewrite Hw, Hc. do 2 f_equal. lia. Qed.

Lemma plane_ucharPtr (m : Mat) (width y x : nat) :
  plane m width → ucharPtr m y x 0 = default 0 (data m !! (y * width + x)%nat).
Proof.
  intros [Hw Hc]. unfold ucharPtr, offset. rewrite Hw, Hc. do 2 f_equal. lia.
Qed.

Lemma plane_zeros (h w : nat) (d : Depth) : plane (zeros h w d 1) w.
Proof. split; reflexivity. Qed.

Lemma zeros_lookup (h w y x : nat) (d : Depth) :
  (y < h)%nat → (x < w)%nat →
  data (zeros h w d 1) !! (y * w + x)%nat = Some 0.
Proof. intros Hy Hx. cbn [zeros data]. apply lookup_replicate_2. nia. Qed.

Lemma writes_shape (f : nat → nat → option Z) (y x : nat) (m : Mat) :
  rows (writes f y x m) = rows m ∧ cols (writes f y x m) = cols m
  ∧ channels (writes f y x m) = channels m ∧ depth (writes f y x m) = depth m
  ∧ length (data (writes f y x m)) = length (data m).
Proof.
  unfold writes. destruct (f y x); [|tauto].
  cbn [store rows cols channels depth data]. now rewrite length_insert.
Qed.

Lemma foldl_writes_shape (f : nat → nat → option Z) (l : list (nat * nat)) (m : Mat) :
  let m' := foldl (λ m p, writes f (fst p) (snd p) m) m l in
  rows m' = rows m ∧ cols m' = cols m ∧ channels m' = channels m
  ∧ depth m' = depth m ∧ length (data m') = length (data m).
Proof.
  cbv zeta. revert m. induction l as [|p l IH]; intros m; [tauto|].
  cbn [foldl]. destruct (IH (writes f (fst p) (snd p) m)) as (-> & -> & -> & -> & ->).
  apply writes_shape.
Qed.

(** After the loop has visited the pixels [l], a visited pixel holds what
    was written into it and every other pixel what it held before. *)
Lemma foldl_writes_lookup (f : nat → nat → option Z) (width : nat)
    (l : list (nat * nat)) (m : Mat) (y x : nat) :
  plane m width →
  (∀ p, p ∈ l → (snd p < width)%nat) →
  (x < width)%nat →
  data (foldl (λ m p, writes f (fst p) (snd p) m) m l) !! (y * width + x)%nat
  = match (if decide ((y, x) ∈ l) then f y x else None) with
    | Some v => (λ _, wrap (depth m) v) <$> data m !! (y * width + x)%nat
    | None => data m !! (y * width + x)%nat
    end.
Proof.
  intros Hplane Hl Hx. revert m Hplane. induction l as [|[y' x'] l IH]; intros m Hplane.
  - cbn [foldl]. destruct (decide ((y, x) ∈ [])) as [Hin|_]; [|reflexivity].
    now apply elem_of_nil in Hin.
  - cbn [foldl fst snd].
    assert (x' < width)%nat as Hx' by (apply (Hl (y', x')); left).
    destruct (writes_shape f y' x' m) as (_ & Hc & Hch & Hd & _).
    rewrite IH; [| intros p Hp; apply Hl; now right
                 | destruct Hplane; split; congruence].
    rewrite Hd.
    assert (data (writes f y' x' m) !! (y * width + x)%nat
            = if decide ((y', x') = (y, x))
              then match f y x with
                   | Some v => (λ _, wrap (depth m) v) <$> data m !! (y * width + x)%nat
                   | None => data m !! (y * width + x)%nat
                   end
              else data m !! (y * width + x)%nat) as Hstep.
    { unfold writes. destruct (decide ((y', x') = (y, x))) as [[= -> ->]|Hne].
      - destruct (f y x) as [v|]; [|reflexivity].
        cbn [store data]. unfold offset. destruct Hplane as [Hw Hc1]. rewrite Hw, Hc1.
        replace (y * (width * 1) + x * 1 + 0)%nat with (y * width + x)%nat by lia.
        destruct (decide (y * width + x < length (data m))%nat) as [Hlt|Hge].
        + rewrite list_lookup_insert_eq by trivial.
          destruct (lookup_lt_is_Some_2 (data m) _ Hlt) as [u ->]. reflexivity.
        + rewrite list_insert_ge by lia. rewrite lookup_ge_None_2 by lia. reflexivity.
      - destruct (f y' x') as [v|]; [|reflexivity].
        cbn [store data]. unfold offset. destruct Hplane as [Hw Hc1]. rewrite Hw, Hc1.
        apply list_lookup_insert_ne. intros Heq. apply Hne.
        assert (y' = y) by nia. subst. f_equal. lia. }
    rewrite Hstep. clear Hstep.
    destruct (decide ((y, x) ∈ l)) as [Hin|Hnin].
    + destruct (decide ((y, x) ∈ (y', x') :: l)) as [_|Hn]; [|contradiction Hn; now right].
      destruct (f y x) as [v|]; [|now destruct (decide ((y', x') = (y, x)))].
      destruct (decide ((y', x') = (y, x))) as [_|_]; [|reflexivity].
      now destruct (data m !! (y * width + x)%nat).
    + destruct (decide ((y', x') = (y, x))) as [[= -> ->]|Hne].
      * destruct (decide ((y, x) ∈ (y, x) :: l)) as [_|Hn]; [reflexivity|].
        contradiction Hn. left.
      * destruct (decide ((y, x) ∈ (y', x') :: l)) as [Hin|_]; [|reflexivity].
        apply elem_of_cons in Hin as [Heq|Hin]; [congruence | contradiction].
Qed.

(** The whole image written: pixel (y, x) of the result. *)
Lemma forPixels_writes (f : nat → nat → option Z) (h w : nat) (m : Mat) (y x : nat) :
  plane m w → (y < h)%nat → (x < w)%nat →
  data (forPixels h w (writes f) m) !! (y * w + x)%nat
  = match f y x with
    | Some v => (λ _, wrap (depth m) v) <$> data m !! (y * w + x)%nat
    | None => data m !! (y * w + x)%nat
    end.
Proof.
  intros Hplane Hy Hx. rewrite forPixels_scan.
  rewrite (foldl_writes_lookup f w) by
    (trivial; intros [y' x'] Hp; now apply elem_of_scan in Hp).
  destruct (decide ((y, x) ∈ scan h w)) as [_|Hn]; [reflexivity|].
  contradiction Hn. now apply elem_of_scan.
Qed.

Lemma forPixels_writes_shape (f : nat → nat → option Z) (h w : nat) (m : Mat) :
  let m' := forPixels h w (writes f) m in
  rows m' = rows m ∧ cols m' = cols m ∧ channels m' = channels m
  ∧ depth m' = depth m ∧ length (data m') = length (data m).
Proof. cbv zeta. rewrite forPixels_scan. apply foldl_writes_shape. Qed.

Lemma forPixels_ext {S} (h w : nat) (body body' : nat → nat → S → S) (s : S) :
  (∀ y x s, body y x s = body' y x s) →
  forPixels h w body s = forPixels h w body' s.
Proof.
  intros Hb. rewrite !forPixels_scan. apply foldl_ext. intros a p. apply Hb.
Qed.

Lemma int32_small (v : Z) : - 2 ^ 31 ≤ v < 2 ^ 31 → int32 v = v.
Proof. intros Hv. unfold int32. rewrite Z.mod_small; lia. Qed.

End Matrices.

(** ** The marker builder *)

Section MarkerLoops.
Import Cv WatershedProcessor.

Lemma foldr_add_app (l1 l2 : list Z) :
  foldr Z.add 0 (l1 ++ l2) = foldr Z.add 0 l1 + foldr Z.add 0 l2.
Proof. induction l1 as [|a l1 IH]; simpl; lia. Qed.

(** The map after the components of one colour were recorded. *)
Lemma recordComponents_lookup (next n colorIdx key : Z) (m : gmap Z Z) :
  recordComponents next n colorIdx m !! key
  = if decide (next ≤ key < next + n - 1) then Some (colorIdx + 1) else m !! key.
Proof.
  unfold recordComponents.
  assert (∀ (l : list Z) (m : gmap Z Z),
            foldl (λ m comp, <[next + comp - 1 := colorIdx + 1]> m) m l !! key
            = if decide (key - next + 1 ∈ l) then Some (colorIdx + 1) else m !! key)
    as Hfold.
  { induction l as [|j l IH]; intros m0; cbn [foldl].
    - destruct (decide (key - next + 1 ∈ [])) as [Hin|_]; [|reflexivity].
      now apply elem_of_nil in Hin.
    - rewrite IH. destruct (decide (key - next + 1 ∈ l)) as [Hin|Hnin].
      + destruct (decide (key - next + 1 ∈ j :: l)) as [_|Hn]; [reflexivity|].
        contradiction Hn. now right.
      + rewrite lookup_insert. destruct (decide (next + j - 1 = key)) as [Heq|Hne].
        * destruct (decide (key - next + 1 ∈ j :: l)) as [_|Hn]; [reflexivity|].
          contradiction Hn. replace (key - next + 1) with j by lia. left.
        * destruct (decide (key - next + 1 ∈ j :: l)) as [Hin|_]; [|reflexivity].
          apply elem_of_cons in Hin as [Heq|Hin]; [lia | contradiction]. }
  rewrite Hfold.
  destruct (decide (key - next + 1 ∈ seqZ 1 (n - 1))) as [Hin|Hnin];
    rewrite elem_of_seqZ in *;
    destruct (decide (next ≤ key < next + n - 1)); trivial; lia.
Qed.

(** The loops that write a matrix, as [writes]. *)
Lemma writeComponents_writes (h w : nat) (next : Z) (colorLabels m : Mat) :
  writeComponents h w next colorLabels m
  = forPixels h w
      (writes (λ y x, if decide (intAt colorLabels y x > 0)
                      then Some (next + intAt colorLabels y x - 1) else None)) m.
Proof.
  unfold writeComponents. apply forPixels_ext. intros y x m'. unfold writes.
  now destruct (decide (intAt colorLabels y x > 0)).
Qed.

Lemma colorMask_writes (labels : Mat) (h w : nat) (colorIdx : Z) :
  colorMask labels h w colorIdx
  = forPixels h w
      (writes (λ y x, if decide (intAt labels (y * w + x) 0 = colorIdx)
                      then Some 255 else None))
      (zeros h w CV_8U 1).
Proof.
  unfold colorMask. apply forPixels_ext. intros y x m'. unfold writes.
  now destruct (decide (intAt labels (y * w + x) 0 = colorIdx)).
Qed.

(** The mask of a colour is set exactly on the pixels labelled with it. *)
Lemma colorMask_pixel (labels : Mat) (h w : nat) (colorIdx : Z) (y x : nat) :
  (y < h)%nat → (x < w)%nat →
  ucharPtr (colorMask labels h w colorIdx) y x 0
  = if decide (intAt labels (y * w + x) 0 = colorIdx) then 255 else 0.
Proof.
  intros Hy Hx. rewrite colorMask_writes.
  pose proof (forPixels_writes_shape
                (λ y x, if decide (intAt labels (y * w + x) 0 = colorIdx)
                        then Some 255 else None) h w (zeros h w CV_8U 1))
    as (_ & Hc & Hch & _).
  rewrite (plane_ucharPtr _ w) by (split; [now rewrite Hc | now rewrite Hch]).
  rewrite forPixels_writes by (trivial; apply plane_zeros).
  rewrite zeros_lookup by trivial.
  now destruct (decide (intAt labels (y * w + x) 0 = colorIdx)).
Qed.

(** The marker image after the components of one colour were written. *)
Lemma writeComponents_pixel (h w : nat) (next : Z) (colorLabels m : Mat) (y x : nat) :
  plane m w → depth m = CV_32S → length (data m) = (h * w)%nat →
  (y < h)%nat → (x < w)%nat →
  intAt (writeComponents h w next colorLabels m) y x
  = if decide (intAt colorLabels y x > 0)
    then int32 (next + intAt colorLabels y x - 1) else intAt m y x.
Proof.
  intros Hplane Hdepth Hlen Hy Hx. rewrite writeComponents_writes.
  set (f := λ y x, if decide (intAt colorLabels y x > 0)
                   then Some (next + intAt colorLabels y x - 1) else None).
  pose proof (forPixels_writes_shape f h w m) as (_ & Hc & Hch & _).
  destruct Hplane as [Hw Hc1].
  rewrite (plane_intAt _ w) by (split; congruence).
  rewrite (plane_intAt m w) by (split; trivial).
  rewrite forPixels_writes by (trivial; split; trivial).
  unfold f. destruct (decide (intAt colorLabels y x > 0)); [|reflexivity].
  rewrite Hdepth. cbn [wrap].
  destruct (lookup_lt_is_Some_2 (data m) (y * w + x)) as [u ->]; [nia|]. reflexivity.
Qed.

Lemma writeComponents_shape (h w : nat) (next : Z) (colorLabels m : Mat) :
  plane m w → 
  plane (writeComponents h w next colorLabels m) w
  ∧ rows (writeComponents h w next colorLabels m) = rows m
  ∧ depth (writeComponents h w next colorLabels m) = depth m
  ∧ length (data (writeComponents h w next colorLabels m)) = length (data m).
Proof.
  intros [Hw Hc1]. rewrite writeComponents_writes.
  set (f := λ y x, if decide (intAt colorLabels y x > 0)
                   then Some (next + intAt colorLabels y x - 1) else None).
  pose proof (forPixels_writes_shape f h w m) as (Hr & Hc & Hch & Hd & Hl).
  repeat split; congruence.
Qed.

End MarkerLoops.

Section MarkerBuilder.
Import Cv WatershedProcessor PipelineSpec MarkerInvariant Contract.
Context `{cv : OpenCV}.
Context (labels : Mat) (height width : nat) (erodeSize : Z).

#[local] Abbreviation count := (componentCount labels height width erodeSize).
#[local] Abbreviation colorLabelsOf := (componentLabels labels height width erodeSize).
#[local] Abbreviation first := (firstId labels height width erodeSize).
#[local] Abbreviation idOf := (markerId labels height width erodeSize).
#[local] Abbreviation components := (colorComponents labels height width erodeSize).
#[local] Abbreviation step := (colorStep labels height width erodeSize).

Lemma components_names (c n : Z) (colorLabels : Mat) :
  components c = Normal (n, colorLabels) → count c = n ∧ colorLabelsOf c = colorLabels.
Proof. intros E. unfold componentCount, componentLabels. now rewrite E. Qed.

(** What OpenCV was asked for when the components of a colour came back. *)
Lemma components_calls (c n : Z) (colorLabels : Mat) :
  components c = Normal (n, colorLabels) →
  ∃ eroded,
    connectedComponents eroded 8 CV_32S = Normal (n, colorLabels)
    ∧ if decide (erodeSize > 0)
      then ∃ kernel,
             getStructuringElement MORPH_ELLIPSE (erodeSize * 2 + 1, erodeSize * 2 + 1)
               = Normal kernel
             ∧ erode (colorMask labels height width c) kernel = Normal eroded
      else eroded = colorMask labels height width c.
Proof.
  unfold colorComponents. cbv zeta. destruct (decide (erodeSize > 0)) as [Hpos|Hnpos].
  - destruct (getStructuringElement MORPH_ELLIPSE _) as [kernel|e] eqn:Ek;
      cbn [mbind completion_bind Js.bind]; [|discriminate].
    destruct (erode _ kernel) as [eroded|e] eqn:Ee;
      cbn [mbind completion_bind Js.bind]; [|discriminate].
    intros Hcc. exists eroded. split; [exact Hcc|]. exists kernel.
    split; [reflexivity | assumption].
  - cbn [mbind completion_bind Js.bind]. intros Hcc.
    exists (colorMask labels height width c). split; [exact Hcc | reflexivity].
Qed.

Lemma components_range (c n : Z) (colorLabels : Mat) :
  componentLabelsInRange →
  components c = Normal (n, colorLabels) →
  1 ≤ n ∧ ∀ i j, 0 ≤ intAt colorLabels i j < n.
Proof.
  intros Hcc E. apply components_calls in E as (eroded & E & _).
  now apply Hcc in E.
Qed.

Lemma first_0 : first 0 = 1.
Proof. reflexivity. Qed.

Lemma first_succ (k : Z) : 0 ≤ k → first (k + 1) = first k + count k - 1.
Proof.
  intros Hk. unfold firstId. rewrite seqZ_app by lia.
  rewrite map_app, foldr_add_app.
  rewrite (seqZ_cons (0 + k) 1) by lia.
  rewrite (seqZ_nil (Z.succ (0 + k))) by lia.
  cbn [map foldr]. replace (0 + k) with k by lia. lia.
Qed.

(** The ids grow with the colour as long as OpenCV counts at least the
    background for each colour. *)
Lemma first_mono (k : nat) :
  (∀ c, 0 ≤ c < Z.of_nat k → 1 ≤ count c) →
  ∀ c, 0 ≤ c ≤ Z.of_nat k → 1 ≤ first c ≤ first (Z.of_nat k).
Proof.
  induction k as [|k IH]; intros Hcount c Hc.
  - replace c with 0 by lia. change (Z.of_nat 0) with 0. rewrite !first_0. lia.
  - replace (Z.of_nat (S k)) with (Z.of_nat k + 1) in * by lia.
    rewrite first_succ by lia.
    specialize (Hcount (Z.of_nat k) ltac:(lia)) as Hk.
    assert (∀ c, 0 ≤ c ≤ Z.of_nat k → 1 ≤ first c ≤ first (Z.of_nat k)) as IH'
      by (apply IH; intros; apply Hcount; lia).
    destruct (decide (c = Z.of_nat k + 1)) as [->|Hne].
    + rewrite first_succ by lia. specialize (IH' (Z.of_nat k) ltac:(lia)). lia.
    + specialize (IH' c ltac:(lia)). lia.
Qed.

Lemma first_le (k c c' : Z) :
  (∀ c, 0 ≤ c < k → 1 ≤ count c) → 0 ≤ c ≤ c' → c' ≤ k → 1 ≤ first c ≤ first c'.
Proof.
  intros Hcount Hc Hc'.
  replace c' with (Z.of_nat (Z.to_nat c')) by lia.
  apply first_mono; [intros; apply Hcount|]; lia.
Qed.

Lemma builtUpTo_counts (k : Z) (st : MarkerState) :
  componentLabelsInRange →
  builtUpTo labels height width erodeSize k st →
  ∀ c, 0 ≤ c < k → 1 ≤ count c.
Proof.
  intros Hcc (_ & Hok & _) c Hc. destruct (Hok c Hc) as (n & colorLabels & E).
  destruct (components_names _ _ _ E) as [-> _].
  now apply (components_range c n colorLabels).
Qed.

Lemma builtUpTo_start :
  builtUpTo labels height width erodeSize 0 (start height width).
Proof.
  unfold builtUpTo, start. cbn [nextLabel markerToColor markers].
  split; [reflexivity|]. split; [intros; lia|]. split.
  { intros key v. rewrite lookup_empty. split; [discriminate|].
    intros (c & comp & Hc & _). lia. }
  split; [apply plane_zeros|]. split; [reflexivity|]. split; [reflexivity|].
  split; [cbn [zeros data]; rewrite length_replicate; lia|].
  intros y x Hy Hx. left. rewrite (plane_intAt _ width) by apply plane_zeros.
  now rewrite zeros_lookup.
Qed.

(** One more colour. *)
Lemma builtUpTo_step (k : Z) (st st' : MarkerState) :
  componentLabelsInRange →
  0 ≤ k →
  builtUpTo labels height width erodeSize k st →
  step st k = Normal st' →
  nextLabel st' ≤ 2 ^ 31 →
  builtUpTo labels height width erodeSize (k + 1) st'.
Proof.
  intros Hcc Hk Hinv Hstep Hfit.
  pose proof (builtUpTo_counts k st Hcc Hinv) as Hcounts.
  destruct Hinv as (Hnext & Hok & Hmap & Hplane & Hrows & Hdepth & Hlen & Hpix).
  unfold colorStep in Hstep.
  destruct (components k) as [[n colorLabels]|e] eqn:E;
    cbn [mbind completion_bind Js.bind] in Hstep; [|discriminate].
  injection Hstep as <-. cbn [nextLabel markerToColor markers] in *.
  destruct (components_names _ _ _ E) as [Hn Hl].
  destruct (components_range _ _ _ Hcc E) as [Hn1 Hrange].
  pose proof (first_le k 0 k Hcounts ltac:(lia) ltac:(lia)) as Hfirst.
  destruct (writeComponents_shape height width (nextLabel st) colorLabels (markers st) Hplane)
    as (Hplane' & Hrows' & Hdepth' & Hlen').
  unfold builtUpTo. cbn [nextLabel markerToColor markers].
  split; [rewrite first_succ by lia; rewrite Hn; lia|].
  split.
  { intros c Hc. destruct (decide (c = k)) as [->|Hne]; [eauto|]. apply Hok. lia. }
  split.
  { intros key v. rewrite recordComponents_lookup.
    destruct (decide (nextLabel st ≤ key < nextLabel st + n - 1)) as [Hin|Hout].
    - split.
      + intros [= <-]. exists k, (key - nextLabel st + 1).
        unfold markerId. rewrite Hn, <- Hnext. repeat split; lia.
      + intros (c & comp & Hc & Hcomp & -> & ->). f_equal.
        destruct (decide (c = k)) as [->|Hne]; [reflexivity|]. exfalso.
        pose proof (first_le k (c + 1) k Hcounts ltac:(lia) ltac:(lia)) as Hle.
        rewrite first_succ in Hle by lia. unfold markerId in Hin. lia.
    - rewrite Hmap. split.
      + intros (c & comp & Hc & Hrest). exists c, comp. split; [lia | exact Hrest].
      + intros (c & comp & Hc & Hcomp & -> & ->).
        destruct (decide (c = k)) as [->|Hne].
        * exfalso. apply Hout. unfold markerId. rewrite Hn in Hcomp. lia.
        * exists c, comp. repeat split; lia. }
  split; [exact Hplane'|]. split; [congruence|]. split; [congruence|].
  split; [congruence|].
  intros y x Hy Hx.
  rewrite (writeComponents_pixel height width) by trivial.
  destruct (decide (intAt colorLabels y x > 0)) as [Hpos|Hzero].
  - right. exists k. rewrite Hl. split; [lia|]. split; [exact Hpos|].
    unfold markerId. rewrite <- Hnext. apply int32_small.
    specialize (Hrange y x). lia.
  - destruct (Hpix y x Hy Hx) as [Hz|(c & Hc & Hrest)]; [now left|].
    right. exists c. split; [lia | exact Hrest].
Qed.

(** The loop over the colours 0 .. k-1, run from the empty marker image. *)
Lemma forEach_builtUpTo (k : nat) (st : MarkerState) :
  componentLabelsInRange →
  forEach step (start height width) (seqZ 0 (Z.of_nat k)) = Normal st →
  nextLabel st ≤ 2 ^ 31 →
  builtUpTo labels height width erodeSize (Z.of_nat k) st.
Proof.
  intros Hcc. revert st. induction k as [|k IH]; intros st Hrun Hfit.
  - cbn in Hrun. injection Hrun as <-. apply builtUpTo_start.
  - rewrite seqZ_S in Hrun. apply forEach_snoc_Normal in Hrun as (st1 & Hrun & Hstep).
    replace (0 + Z.of_nat k) with (Z.of_nat k) in Hstep by lia.
    replace (Z.of_nat (S k)) with (Z.of_nat k + 1) by lia.
    assert (nextLabel st1 ≤ nextLabel st) as Hgrow.
    { unfold colorStep in Hstep.
      destruct (components (Z.of_nat k)) as [[n colorLabels]|e] eqn:E;
        cbn [mbind completion_bind Js.bind] in Hstep; [|discriminate].
      injection Hstep as <-. cbn [nextLabel].
      destruct (components_range _ _ _ Hcc E) as [Hn1 _]. lia. }
    apply (builtUpTo_step (Z.of_nat k) st1); trivial; [lia|].
    apply IH; [exact Hrun | lia].
Qed.

Lemma seededUpTo_start : seededUpTo labels height width erodeSize 0 (start height width).
Proof.
  intros y x Hy Hx. left. unfold start. cbn [markers].
  rewrite (plane_intAt _ width) by apply plane_zeros.
  split; [now rewrite zeros_lookup | intros c Hc; lia].
Qed.

(** One more colour: its components are written over what was there. *)
Lemma seededUpTo_step (k : Z) (st st' : MarkerState) :
  componentLabelsInRange →
  0 ≤ k →
  builtUpTo labels height width erodeSize k st →
  seededUpTo labels height width erodeSize k st →
  step st k = Normal st' →
  nextLabel st' ≤ 2 ^ 31 →
  seededUpTo labels height width erodeSize (k + 1) st'.
Proof.
  intros Hcc Hk Hinv Hseeded Hstep Hfit.
  pose proof (builtUpTo_counts k st Hcc Hinv) as Hcounts.
  destruct Hinv as (Hnext & Hok & Hmap & Hplane & Hrows & Hdepth & Hlen & Hpix).
  unfold colorStep in Hstep.
  destruct (components k) as [[n colorLabels]|e] eqn:E;
    cbn [mbind completion_bind Js.bind] in Hstep; [|discriminate].
  injection Hstep as <-. cbn [nextLabel markerToColor markers] in *.
  destruct (components_names _ _ _ E) as [Hn Hl].
  destruct (components_range _ _ _ Hcc E) as [Hn1 Hrange].
  pose proof (first_le k 0 k Hcounts ltac:(lia) ltac:(lia)) as Hfirst.
  intros y x Hy Hx. cbn [markers].
  rewrite (writeComponents_pixel height width) by trivial.
  destruct (decide (intAt colorLabels y x > 0)) as [Hpos|Hzero].
  - right. exists k. rewrite Hl. split; [lia|]. split; [exact Hpos|].
    split; [intros c' Hc'; lia|].
    unfold markerId. rewrite <- Hnext. apply int32_small.
    specialize (Hrange y x). lia.
  - assert (intAt (colorLabelsOf k) y x = 0) as Hnone.
    { rewrite Hl. specialize (Hrange y x). lia. }
    destruct (Hseeded y x Hy Hx) as [[Hz Hall]|(c & Hc & Hcomp & Hlater & Heq)].
    + left. split; [exact Hz|]. intros c Hc.
      destruct (decide (c = k)) as [->|Hne]; [exact Hnone | apply Hall; lia].
    + right. exists c. split; [lia|]. split; [exact Hcomp|]. split; [|exact Heq].
      intros c' Hc'. destruct (decide (c' = k)) as [->|Hne]; [exact Hnone|].
      apply Hlater. lia.
Qed.

Lemma forEach_seededUpTo (k : nat) (st : MarkerState) :
  componentLabelsInRange →
  forEach step (start height width) (seqZ 0 (Z.of_nat k)) = Normal st →
  nextLabel st ≤ 2 ^ 31 →
  seededUpTo labels height width erodeSize (Z.of_nat k) st.
Proof.
  intros Hcc. revert st. induction k as [|k IH]; intros st Hrun Hfit.
  - cbn in Hrun. injection Hrun as <-. apply seededUpTo_start.
  - rewrite seqZ_S in Hrun. apply forEach_snoc_Normal in Hrun as (st1 & Hrun & Hstep).
    replace (0 + Z.of_nat k) with (Z.of_nat k) in Hstep by lia.
    replace (Z.of_nat (S k)) with (Z.of_nat k + 1) by lia.
    assert (nextLabel st1 ≤ nextLabel st) as Hgrow.
    { unfold colorStep in Hstep.
      destruct (components (Z.of_nat k)) as [[n colorLabels]|e] eqn:E;
        cbn [mbind completion_bind Js.bind] in Hstep; [|discriminate].
      injection Hstep as <-. cbn [nextLabel].
      destruct (components_range _ _ _ Hcc E) as [Hn1 _]. lia. }
    apply (seededUpTo_step (Z.of_nat k) st1); trivial; [lia | |].
    + apply forEach_builtUpTo; [exact Hcc | exact Hrun | lia].
    + apply IH; [exact Hrun | lia].
Qed.

End MarkerBuilder.

Section MarkerIds.
Import Cv WatershedProcessor PipelineSpec MarkerInvariant Contract Morphology.
Context `{cv : OpenCV}.

Lemma colorMask_shape (labels : Mat) (h w : nat) (colorIdx : Z) :
  rows (colorMask labels h w colorIdx) = h
  ∧ cols (colorMask labels h w colorIdx) = w
  ∧ channels (colorMask labels h w colorIdx) = 1%nat.
Proof.
  rewrite colorMask_writes.
  pose proof (forPixels_writes_shape
                (λ y x, if decide (intAt labels (y * w + x) 0 = colorIdx)
                        then Some 255 else None) h w (zeros h w CV_8U 1))
    as (Hr & Hc & Hch & _).
  cbn [zeros rows cols channels] in Hr, Hc, Hch. now rewrite Hr, Hc, Hch.
Qed.

(** A pixel that lies in a component of a colour is labelled with the
    colour. *)
Lemma component_inside_colour (labels : Mat) (height width : nat) (erodeSize c n : Z)
    (colorLabels : Mat) (y x : nat) :
  erodeShrinks → componentsInsideMask →
  colorComponents labels height width erodeSize c = Normal (n, colorLabels) →
  (y < height)%nat → (x < width)%nat →
  intAt colorLabels y x > 0 →
  intAt labels (y * width + x) 0 = c.
Proof.
  intros Herode Hinside E Hy Hx Hpos.
  apply components_calls in E as (eroded & Hcc & Hcase).
  destruct (colorMask_shape labels height width c) as (Hr & Hc & Hch).
  assert (ucharPtr (colorMask labels height width c) y x 0 ≠ 0) as Hset.
  { destruct (decide (erodeSize > 0)) as [Hposr|_].
    - destruct Hcase as (kernel & Hk & Hero).
      destruct (Herode _ erodeSize _ _ Hch Hposr Hk Hero)
        as (Hr' & Hc' & Hch' & Hsub).
      apply Hsub; [lia | lia |].
      apply (Hinside eroded 8 CV_32S n colorLabels); [exact Hch' | exact Hcc | lia | lia
                                                      | exact Hpos].
    - subst eroded.
      apply (Hinside _ 8 CV_32S n colorLabels); [exact Hch | exact Hcc | lia | lia
                                                 | exact Hpos]. }
  rewrite colorMask_pixel in Hset by assumption.
  destruct (decide (intAt labels (y * width + x) 0 = c)) as [Heq|_];
    [exact Heq | now contradiction Hset].
Qed.


(** The names with a size of their own give it; a member inherited from
    [Object.prototype] gives no erosion, and any other name gives 3. *)
Lemma erodeSizeOf_cases (complexity : string) :
  (complexity = "low" ∧ erodeSizeOf complexity = 5)
  ∨ (complexity = "medium" ∧ erodeSizeOf complexity = 3)
  ∨ (complexity = "high" ∧ erodeSizeOf complexity = 2)
  ∨ (complexity = "extreme" ∧ erodeSizeOf complexity = 1)
  ∨ (complexity ∈ inheritedMembers ∧ erodeSizeOf complexity = 0)
  ∨ (¬ complexity ∈ "low" :: "medium" :: "high" :: "extreme" :: inheritedMembers)
    ∧ erodeSizeOf complexity = 3.
Proof.
  unfold erodeSizeOf.
  destruct (decide (complexity ∈ inheritedMembers)) as [Hin|Hout]; [tauto|].
  unfold erodeSizes.
  destruct (decide (complexity = "low")) as [->|Hlow]; [left; now split|].
  destruct (decide (complexity = "medium")) as [->|Hmedium];
    [right; left; now split|].
  destruct (decide (complexity = "high")) as [->|Hhigh];
    [do 2 right; left; now split|].
  destruct (decide (complexity = "extreme")) as [->|Hextreme];
    [do 3 right; left; now split|].
  do 5 right. split.
  - rewrite !not_elem_of_cons. tauto.
  - rewrite !lookup_insert_ne by congruence.
    now rewrite lookup_singleton_ne by congruence.
Qed.

Lemma seqZ_to_nat (K : Z) : seqZ 0 K = seqZ 0 (Z.of_nat (Z.to_nat K)).
Proof.
  destruct (decide (0 ≤ K)) as [Hpos|Hneg].
  - now rewrite Z2Nat.id.
  - rewrite !seqZ_nil by lia. reflexivity.
Qed.

(** The marker builder, run over all the colours. *)
Lemma buildMarkers_builtUpTo (quantized labels : Mat) (numColors : Z)
    (complexity : string) (st : MarkerState) :
  componentLabelsInRange →
  buildMarkers quantized labels numColors complexity = Normal st →
  nextLabel st ≤ 2 ^ 31 →
  builtUpTo labels (rows quantized) (cols quantized) (erodeSizeOf complexity)
    (Z.of_nat (Z.to_nat numColors)) st.
Proof.
  intros Hcc Hrun Hfit. unfold buildMarkers in Hrun. cbv zeta in Hrun.
  rewrite seqZ_to_nat in Hrun. now apply forEach_builtUpTo.
Qed.

(** No two components share a marker id. *)
Lemma markerId_inj (labels : Mat) (height width : nat) (erodeSize k : Z)
    (c comp c' comp' : Z) :
  (∀ c, 0 ≤ c < k → 1 ≤ componentCount labels height width erodeSize c) →
  0 ≤ c < k → 0 ≤ c' < k →
  1 ≤ comp < componentCount labels height width erodeSize c →
  1 ≤ comp' < componentCount labels height width erodeSize c' →
  markerId labels height width erodeSize c comp
  = markerId labels height width erodeSize c' comp' →
  c = c' ∧ comp = comp'.
Proof.
  intros Hcounts Hc Hc' Hcomp Hcomp' Heq. unfold markerId in Heq.
  assert (∀ a b, 0 ≤ a < b → b < k →
            firstId labels height width erodeSize a
            + componentCount labels height width erodeSize a - 1
            ≤ firstId labels height width erodeSize b) as Hlt.
  { intros a b Hab Hb.
    pose proof (first_le labels height width erodeSize k (a + 1) b Hcounts
                  ltac:(lia) ltac:(lia)) as Hle.
    rewrite first_succ in Hle by lia. lia. }
  destruct (Z.lt_trichotomy c c') as [Hlt'|[->|Hgt]].
  - specialize (Hlt c c' ltac:(lia) ltac:(lia)). lia.
  - split; [reflexivity | lia].
  - specialize (Hlt c' c ltac:(lia) ltac:(lia)). lia.
Qed.

Lemma buildMarkers_seededUpTo (quantized labels : Mat) (numColors : Z)
    (complexity : string) (st : MarkerState) :
  componentLabelsInRange →
  buildMarkers quantized labels numColors complexity = Normal st →
  nextLabel st ≤ 2 ^ 31 →
  seededUpTo labels (rows quantized) (cols quantized) (erodeSizeOf complexity)
    (Z.of_nat (Z.to_nat numColors)) st.
Proof.
  intros Hcc Hrun Hfit. unfold buildMarkers in Hrun. cbv zeta in Hrun.
  rewrite seqZ_to_nat in Hrun. now apply forEach_seededUpTo.
Qed.

(** C3.  [createMarkers] treats every colour index 0 .. K-1 on its own: it
    builds the mask of the pixels labelled with the colour, erodes it with
    the elliptical structuring element of side 2r + 1, where r is 5, 3, 2
    or 1 for the complexity low, medium, high or extreme (and 3 for any
    other name, but for the name of a member inherited from
    [Object.prototype], for which nothing is eroded), labels the
    8-connected components of the eroded mask, and gives component [comp]
    of colour [c] the marker id [markerId c comp]: these ids are positive,
    differ from component to component over all colours, and are mapped to
    c + 1 by the colour map.  The marker image holds 0 where no colour has
    a component, and elsewhere the id of the component of the last colour
    that has one there; as erosion and labelling keep to the mask of the
    colour, the components of different colours do not meet, and every
    pixel of every component holds the id of the component. *)
Theorem createMarkers_components (self self' : Processor)
    (quantized labels markers : Mat) (numColors : Z) (complexity : string) :
  componentLabelsInRange →
  createMarkers self quantized labels numColors complexity = Normal (markers, self') →
  (∀ st, buildMarkers quantized labels numColors complexity = Normal st →
         nextLabel st ≤ 2 ^ 31) →
  let height := rows quantized in
  let width := cols quantized in
  let r := erodeSizeOf complexity in
  let count := componentCount labels height width r in
  let colorLabelsOf := componentLabels labels height width r in
  let idOf := markerId labels height width r in
  (erodeSizeOf "low" = 5 ∧ erodeSizeOf "medium" = 3
   ∧ erodeSizeOf "high" = 2 ∧ erodeSizeOf "extreme" = 1)
  ∧ (complexity ∉ ["low"; "medium"; "high"; "extreme"] →
     r = if decide (complexity ∈ inheritedMembers) then 0 else 3)
  ∧ ∃ colorMap, _markerToColor self' = Some colorMap
  ∧ (∀ c, 0 ≤ c < numColors →
       (∀ y x, (y < height)%nat → (x < width)%nat →
          ucharPtr (colorMask labels height width c) y x 0
          = if decide (intAt labels (y * width + x) 0 = c) then 255 else 0)
       ∧ (∃ eroded,
            connectedComponents eroded 8 CV_32S = Normal (count c, colorLabelsOf c)
            ∧ if decide (r > 0)
              then ∃ kernel,
                     getStructuringElement MORPH_ELLIPSE (r * 2 + 1, r * 2 + 1)
                       = Normal kernel
                     ∧ erode (colorMask labels height width c) kernel = Normal eroded
              else eroded = colorMask labels height width c)
       ∧ ∀ comp, 1 ≤ comp < count c →
           idOf c comp > 0 ∧ colorMap !! idOf c comp = Some (c + 1))
  ∧ (∀ key v, colorMap !! key = Some v →
       ∃ c comp, 0 ≤ c < numColors ∧ 1 ≤ comp < count c
                 ∧ key = idOf c comp ∧ v = c + 1)
  ∧ (∀ c comp c' comp',
       0 ≤ c < numColors → 0 ≤ c' < numColors →
       1 ≤ comp < count c → 1 ≤ comp' < count c' →
       idOf c comp = idOf c' comp' → c = c' ∧ comp = comp')
  ∧ (∀ y x, (y < height)%nat → (x < width)%nat →
       (intAt markers y x = 0
        ∧ ∀ c, 0 ≤ c < numColors → intAt (colorLabelsOf c) y x = 0)
       ∨ ∃ c, 0 ≤ c < numColors
              ∧ 1 ≤ intAt (colorLabelsOf c) y x < count c
              ∧ (∀ c', c < c' < numColors → intAt (colorLabelsOf c') y x = 0)
              ∧ intAt markers y x = idOf c (intAt (colorLabelsOf c) y x))
  ∧ (erodeShrinks → componentsInsideMask →
     ∀ c y x, 0 ≤ c < numColors → (y < height)%nat → (x < width)%nat →
       intAt (colorLabelsOf c) y x > 0 →
       intAt labels (y * width + x) 0 = c
       ∧ intAt markers y x = idOf c (intAt (colorLabelsOf c) y x)).
Proof.
  intros Hcc Hrun Hfit. cbv zeta.
  unfold createMarkers in Hrun.
  destruct (buildMarkers quantized labels numColors complexity) as [st|e] eqn:Hbuild;
    cbn [mbind completion_bind Js.bind] in Hrun; [|discriminate].
  injection Hrun as <- <-. cbn [_markerToColor].
  pose proof (buildMarkers_builtUpTo _ _ _ _ _ Hcc Hbuild (Hfit st eq_refl)) as Hinv.
  pose proof (buildMarkers_seededUpTo _ _ _ _ _ Hcc Hbuild (Hfit st eq_refl)) as Hseeded.
  pose proof (builtUpTo_counts _ _ _ _ _ _ Hcc Hinv) as Hcounts.
  destruct Hinv as (Hnext & Hok & Hmap & Hplane & Hrows & Hdepth & Hlen & Hpix).
  split; [repeat split; reflexivity|].
  split.
  { intros Hother. rewrite !not_elem_of_cons in Hother.
    destruct (erodeSizeOf_cases complexity)
      as [[? _]|[[? _]|[[? _]|[[? _]|[[Hin ->]|[Hout ->]]]]]]; try tauto.
    - destruct (decide (complexity ∈ inheritedMembers)); [reflexivity | contradiction].
    - destruct (decide (complexity ∈ inheritedMembers)) as [Hin|_]; [|reflexivity].
      exfalso. apply Hout. now do 4 right. }
  exists (markerToColor st). split; [reflexivity|].
  split.
  { intros c Hc. split; [intros y x Hy Hx; now apply colorMask_pixel|].
    destruct (Hok c ltac:(lia)) as (n & colorLabels & E).
    destruct (components_names _ _ _ _ _ _ _ E) as [Hn Hl].
    destruct (components_calls _ _ _ _ _ _ _ E) as (eroded & Hcomp & Herode).
    split.
    { exists eroded. rewrite Hn, Hl. split; [exact Hcomp | exact Herode]. }
    intros comp Hcomp'. split.
    - pose proof (first_le labels (rows quantized) (cols quantized)
                    (erodeSizeOf complexity) _ 0 c Hcounts ltac:(lia) ltac:(lia)).
      unfold markerId. lia.
    - apply Hmap. exists c, comp. repeat split; lia. }
  split.
  { intros key v Hkv. apply Hmap in Hkv as (c & comp & Hc & Hrest).
    exists c, comp. split; [lia | exact Hrest]. }
  split.
  { intros c comp c' comp' Hc Hc' Hcomp Hcomp'.
    apply (markerId_inj _ _ _ _ (Z.of_nat (Z.to_nat numColors))); trivial; lia. }
  split.
  { intros y x Hy Hx.
    destruct (Hseeded y x Hy Hx) as [[Hz Hall]|(c & Hc & Hcomp & Hlater & Heq)].
    - left. split; [exact Hz|]. intros c Hc. apply Hall. lia.
    - right. exists c. split; [lia|]. split.
      + destruct (Hok c Hc) as (n & colorLabels & E).
        destruct (components_names _ _ _ _ _ _ _ E) as [Hn Hl].
        destruct (components_range _ _ _ _ _ _ _ Hcc E) as [_ Hrange].
        specialize (Hrange y x). rewrite Hn, Hl. rewrite Hl in Hcomp. lia.
      + split; [|exact Heq]. intros c' Hc'. apply Hlater. lia. }
  intros Herode Hinside c y x Hc Hy Hx Hpos.
  assert (∀ c0, 0 ≤ c0 < Z.of_nat (Z.to_nat numColors) →
            intAt (componentLabels labels (rows quantized) (cols quantized)
                     (erodeSizeOf complexity) c0) y x > 0 →
            intAt labels (y * cols quantized + x) 0 = c0) as Hown.
  { intros c0 Hc0 Hpos0. destruct (Hok c0 Hc0) as (n & colorLabels & E).
    destruct (components_names _ _ _ _ _ _ _ E) as [Hn Hl]. rewrite Hl in Hpos0.
    exact (component_inside_colour _ _ _ _ _ _ _ y x Herode Hinside E Hy Hx Hpos0). }
  split; [apply Hown; [lia | exact Hpos]|].
  destruct (Hseeded y x Hy Hx) as [[_ Hall]|(c0 & Hc0 & Hcomp & _ & Heq)].
  - specialize (Hall c ltac:(lia)). lia.
  - rewrite <- (Hown c0 Hc0 Hcomp), (Hown c ltac:(lia) Hpos) in Heq. exact Heq.
Qed.

End MarkerIds.

(** ** The stand-in keeps to what the pipeline relies on *)

Section FixtureContract.
Import Cv Contract.

Lemma position_lt (v : Z) (roots : list Z) :
  v ∈ roots → (Fixture.position v roots < length roots)%nat.
Proof.
  intros Hin. unfold Fixture.position.
  destruct (list_find_elem_of (λ u, u = v) roots v Hin eq_refl) as [[i u] Hfind].
  rewrite Hfind. cbn. apply list_find_Some in Hfind as (Hi & _).
  now apply lookup_lt_Some in Hi.
Qed.

Lemma fixture_componentLabelsInRange : componentLabelsInRange (cv := Fixture.cv).
Proof.
  intros mask connectivity ltype n labels.
  cbn [connectedComponents Fixture.cv]. unfold Fixture.connectedComponents. cbv zeta.
  set (L := Nat.iter _ _ _). set (roots := remove_dups _).
  intros [= <- <-]. split; [lia|]. intros i j. unfold intAt. cbn [data cols channels].
  rewrite list_lookup_fmap. destruct (L !! _) as [v|] eqn:Hv; cbn; [|lia].
  destruct (decide (v = 0)) as [_|Hne]; [lia|].
  assert (v ∈ roots) as Hin.
  { unfold roots. apply elem_of_remove_dups, list_elem_of_filter.
    split; [exact Hne|]. now apply list_elem_of_lookup_2 in Hv. }
  pose proof (position_lt v roots Hin). lia.
Qed.

Lemma fixture_watershedKeepsSeedIds : watershedKeepsSeedIds (cv := Fixture.cv).
Proof.
  intros image markers result. cbn [watershed Fixture.cv]. unfold Fixture.watershed.
  intros [= <-] y x Hy Hx. cbn [rows cols] in Hy, Hx. unfold intAt.
  cbn [data cols channels]. rewrite list_lookup_imap.
  destruct (data markers !! _) as [v|] eqn:Hv; cbn [fmap option_fmap option_map default];
    [|lia].
  unfold id. destruct (bool_decide _); intros Hpos; [lia|].
  exists y, x. split; [exact Hy|]. split; [exact Hx|]. now rewrite Hv.
Qed.

Lemma fixture_contoursOfNonEmptyMask : contoursOfNonEmptyMask (cv := Fixture.cv).
Proof.
  intros mask mode method contours. cbn [findContours Fixture.cv].
  unfold Fixture.findContours. cbv zeta.
  destruct (filter _ _) as [|p points] eqn:Hpoints.
  - intros _ (y & x & Hy & Hx & Hset). exfalso.
    assert ((y, x) ∈ filter (λ p, ucharPtr mask (fst p) (snd p) 0 ≠ 0)
                       (scan (rows mask) (cols mask))) as Hin.
    { apply list_elem_of_filter. split; [exact Hset | now apply elem_of_scan]. }
    rewrite Hpoints in Hin. now apply elem_of_nil in Hin.
  - intros [= <-] _. discriminate.
Qed.

End FixtureContract.

Section FixtureMorphology.
Import Cv WatershedProcessor Contract Morphology.

Lemma relax_keeps_clear (h w : nat) (L : list Z) (i : nat) (v : Z) :
  Fixture.relax h w L !! i = Some v → v ≠ 0 →
  ∃ u, L !! i = Some u ∧ u ≠ 0.
Proof.
  unfold Fixture.relax. rewrite list_lookup_imap.
  destruct (L !! i) as [u|]; cbn [fmap option_fmap option_map]; [|discriminate].
  destruct (decide (u = 0)) as [->|Hu]; intros [= <-] Hv; [now contradiction Hv|].
  now exists u.
Qed.

Lemma iter_relax_keeps_clear (h w k : nat) (L : list Z) (i : nat) (v : Z) :
  Nat.iter k (Fixture.relax h w) L !! i = Some v → v ≠ 0 →
  ∃ u, L !! i = Some u ∧ u ≠ 0.
Proof.
  revert v. induction k as [|k IH]; intros v; cbn [Nat.iter nat_rect].
  - intros Hv Hne. now exists v.
  - intros Hv Hne. apply relax_keeps_clear in Hv as (u & Hu & Hune); [|exact Hne].
    now apply (IH u).
Qed.

Lemma fixture_componentsInsideMask : componentsInsideMask (cv := Fixture.cv).
Proof.
  intros mask connectivity ltype n labels Hch.
  cbn [connectedComponents Fixture.cv]. unfold Fixture.connectedComponents. cbv zeta.
  intros [= <- <-] y x Hy Hx. unfold intAt, ucharPtr, offset.
  cbn [data cols channels rows]. rewrite Hch, list_lookup_fmap.
  replace (y * (cols mask * 1) + x * 1 + 0)%nat with (y * (cols mask * 1) + x)%nat by lia.
  destruct (Nat.iter _ _ _ !! _) as [v|] eqn:Hv;
    cbn [fmap option_fmap option_map default]; unfold Datatypes.id; [|lia].
  destruct (decide (v = 0)) as [_|Hne]; [lia|]. intros _.
  apply iter_relax_keeps_clear in Hv as (u & Hu & Hune); [|exact Hne].
  rewrite list_lookup_imap in Hu.
  destruct (data mask !! _) as [d|]; cbn [fmap option_fmap option_map] in Hu;
    [|discriminate]. cbn [default].
  destruct (decide (d = 0)) as [->|Hd]; [|exact Hd].
  injection Hu as <-. now contradiction Hune.
Qed.

(** What the stand-in erosion keeps has every pixel under the kernel
    set. *)
Lemma erode_pixel (mask kernel eroded : Mat) (y x dy dx : nat) :
  Fixture.erode mask kernel = Normal eroded →
  channels mask = 1%nat →
  (y < rows mask)%nat → (x < cols mask)%nat →
  ucharPtr eroded y x 0 ≠ 0 →
  (dy < rows kernel)%nat → (dx < cols kernel)%nat →
  ucharPtr kernel dy dx 0 ≠ 0 →
  (dy = rows kernel / 2)%nat → (dx = cols kernel / 2)%nat →
  ucharPtr mask y x 0 ≠ 0.
Proof.
  unfold Fixture.erode. cbv zeta. intros [= <-] Hch Hy Hx.
  unfold ucharPtr at 1. unfold offset. cbn [data cols channels].
  set (i := (y * (cols mask * 1) + x * 1 + 0)%nat).
  assert (i < rows mask * cols mask)%nat as Hi by (unfold i; nia).
  assert ((i / cols mask)%nat = y) as Hdiv
    by (symmetry; apply (Nat.div_unique i (cols mask) y x); unfold i; lia).
  assert ((i mod cols mask)%nat = x) as Hmod
    by (symmetry; apply (Nat.mod_unique i (cols mask) y x); unfold i; lia).
  rewrite list_lookup_fmap, lookup_seq_lt by exact Hi.
  cbn [fmap option_fmap option_map default]. rewrite Nat.add_0_l, Hdiv, Hmod.
  destruct (forallb _ _) eqn:Hkeep; [|intros Hne; now contradiction Hne].
  intros _ Hdy Hdx Hkernel Hcy Hcx.
  rewrite forallb_forall in Hkeep.
  specialize (Hkeep dy ltac:(apply in_seq; lia)).
  rewrite forallb_forall in Hkeep.
  specialize (Hkeep dx ltac:(apply in_seq; lia)).
  apply orb_true_iff in Hkeep as [Hzero|Hset].
  - apply bool_decide_eq_true in Hzero. now contradiction Hkernel.
  - apply bool_decide_eq_true in Hset.
    change (Nat.divmod (rows kernel) 1 0 1).1 with (rows kernel / 2)%nat in Hset.
    change (Nat.divmod (cols kernel) 1 0 1).1 with (cols kernel / 2)%nat in Hset.
    rewrite <- Hcy, <- Hcx in Hset.
    replace (Z.of_nat y + Z.of_nat dy - Z.of_nat dy) with (Z.of_nat y) in Hset by lia.
    replace (Z.of_nat x + Z.of_nat dx - Z.of_nat dx) with (Z.of_nat x) in Hset by lia.
    rewrite !Nat2Z.id in Hset.
    destruct Hset as [?|[?|[?|[?|Hset]]]]; [lia | lia | lia | lia | exact Hset].
Qed.

Lemma fixture_erodeShrinks : erodeShrinks (cv := Fixture.cv).
Proof.
  intros mask r kernel eroded Hch Hr0.
  cbn [getStructuringElement erode Fixture.cv]. intros Hkernel Herode.
  assert (rows eroded = rows mask ∧ cols eroded = cols mask ∧ channels eroded = 1%nat)
    as (Hr & Hc & Hche).
  { unfold Fixture.erode in Herode. cbv zeta in Herode. now injection Herode as <-. }
  split; [exact Hr|]. split; [exact Hc|]. split; [exact Hche|].
  intros y x Hy Hx Hset.
  unfold Fixture.getStructuringElement in Hkernel. cbn [fst snd] in Hkernel.
  set (n := Z.to_nat (r * 2 + 1)) in Hkernel. assert (0 < n)%nat as Hn by (unfold n; lia).
  assert (n / 2 < n)%nat as Hhalf by (apply Nat.div_lt; lia).
  injection Hkernel as <-.
  apply (erode_pixel mask _ eroded y x (n / 2) (n / 2) Herode Hch Hy Hx Hset);
    cbn [rows cols]; try assumption; try reflexivity.
  unfold ucharPtr, offset. cbn [data cols channels].
  rewrite lookup_replicate_2 by nia. discriminate.
Qed.

End FixtureMorphology.

Section MarkerIdsOnFixture.
Import Cv WatershedProcessor PipelineSpec.

Lemma twoTone_markers_fit (st : MarkerState) :
  buildMarkers (cv := Fixture.cv) Fixture.twoToneRgb Fixture.twoToneLabels 2 "extreme"
    = Normal st →
  nextLabel st ≤ 2 ^ 31.
Proof.
  intros Hrun. assert (nextLabel <$> Some st = Some 3) as E.
  { replace (Some st)
      with (match buildMarkers (cv := Fixture.cv) Fixture.twoToneRgb
                    Fixture.twoToneLabels 2 "extreme" with
            | Normal s => Some s
            | Throw _ => None
            end) by now rewrite Hrun.
    vm_compute. reflexivity. }
  injection E as ->. lia.
Qed.

Lemma createMarkers_components_witness :
  createMarkers (cv := Fixture.cv) new Fixture.twoToneRgb Fixture.twoToneLabels 2 "extreme"
    = Normal (Fixture.twoToneMarkers, Fixture.twoToneProcessor)
  ∧ ∀ c y x,
      0 ≤ c < 2 →
      (y < rows Fixture.twoToneRgb)%nat → (x < cols Fixture.twoToneRgb)%nat →
      let component :=
        intAt (componentLabels (cv := Fixture.cv) Fixture.twoToneLabels
                 (rows Fixture.twoToneRgb) (cols Fixture.twoToneRgb)
                 (erodeSizeOf "extreme") c) y x in
      component > 0 →
      intAt Fixture.twoToneLabels (y * cols Fixture.twoToneRgb + x) 0 = c
      ∧ intAt Fixture.twoToneMarkers y x
        = markerId (cv := Fixture.cv) Fixture.twoToneLabels
            (rows Fixture.twoToneRgb) (cols Fixture.twoToneRgb)
            (erodeSizeOf "extreme") c component.
Proof.
  assert (createMarkers (cv := Fixture.cv) new Fixture.twoToneRgb Fixture.twoToneLabels
            2 "extreme"
          = Normal (Fixture.twoToneMarkers, Fixture.twoToneProcessor)) as Hrun
    by (vm_compute; reflexivity).
  split; [exact Hrun|].
  destruct (createMarkers_components (cv := Fixture.cv) new Fixture.twoToneProcessor
              Fixture.twoToneRgb Fixture.twoToneLabels Fixture.twoToneMarkers 2 "extreme"
              fixture_componentLabelsInRange Hrun twoTone_markers_fit)
    as (_ & _ & colorMap & _ & _ & _ & _ & _ & Hall).
  exact (Hall fixture_erodeShrinks fixture_componentsInsideMask).
Defined.

(** The name of an inherited member turns the erosion off; any other
    unknown name erodes by 3. *)
Example erodeSizeOf_other_names :
  erodeSizeOf "constructor" = 0 ∧ erodeSizeOf "__proto__" = 0
  ∧ erodeSizeOf "toString" = 0 ∧ erodeSizeOf "ultra" = 3.
Proof. repeat split; vm_compute; reflexivity. Qed.

End MarkerIdsOnFixture.

(** ** The region extractor *)

Section RegionLoops.
Import Cv WatershedProcessor PipelineSpec Contract.
Context `{cv : OpenCV}.

(** The labels the first scan collects: the positive labels of the map. *)
Lemma elem_of_uniqueLabels (watershedMap : Mat) (label : Z) :
  label ∈ uniqueLabels watershedMap ↔
  label > 0 ∧ ∃ y x, (y < rows watershedMap)%nat ∧ (x < cols watershedMap)%nat
                     ∧ intAt watershedMap y x = label.
Proof.
  unfold uniqueLabels. rewrite forPixels_scan.
  assert (∀ (l : list (nat * nat)) (acc : list Z),
            label ∈ foldl (λ set p,
                             let label := intAt watershedMap (fst p) (snd p) in
                             if decide (label > 0) then setAdd label set else set) acc l
            ↔ label ∈ acc
              ∨ (label > 0 ∧ ∃ p, p ∈ l ∧ intAt watershedMap (fst p) (snd p) = label))
    as Hfold.
  { induction l as [|p l IH]; intros acc; cbn [foldl].
    - split; [now left|]. intros [Hin|(_ & p & Hp & _)]; [exact Hin|].
      now apply elem_of_nil in Hp.
    - rewrite IH. cbv zeta.
      destruct (decide (intAt watershedMap (fst p) (snd p) > 0)) as [Hpos|Hnpos].
      + unfold setAdd.
        destruct (decide (intAt watershedMap (fst p) (snd p) ∈ acc)) as [Hin|Hnin].
        * split.
          -- intros [Ha|(Hl & q & Hq & Heq)]; [now left|].
             right. split; [exact Hl|]. exists q. split; [now right | exact Heq].
          -- intros [Ha|(Hl & q & Hq & Heq)]; [now left|].
             apply elem_of_cons in Hq as [->|Hq]; [left; now rewrite <- Heq|].
             right. split; [exact Hl|]. now exists q.
        * rewrite elem_of_app, list_elem_of_singleton. split.
          -- intros [[Ha|Heq]|(Hl & q & Hq & Heq)].
             ++ now left.
             ++ right. split; [lia|]. exists p. split; [left | now symmetry].
             ++ right. split; [exact Hl|]. exists q. split; [now right | exact Heq].
          -- intros [Ha|(Hl & q & Hq & Heq)]; [left; now left|].
             apply elem_of_cons in Hq as [->|Hq]; [left; right; now symmetry|].
             right. split; [exact Hl|]. now exists q.
      + split.
        * intros [Ha|(Hl & q & Hq & Heq)]; [now left|].
          right. split; [exact Hl|]. exists q. split; [now right | exact Heq].
        * intros [Ha|(Hl & q & Hq & Heq)]; [now left|].
          apply elem_of_cons in Hq as [->|Hq]; [lia|].
          right. split; [exact Hl|]. now exists q. }
  rewrite Hfold. split.
  - intros [Hin|(Hl & [y x] & Hp & Heq)]; [now apply elem_of_nil in Hin|].
    apply elem_of_scan in Hp. split; [exact Hl|]. now exists y, x.
  - intros (Hl & y & x & Hy & Hx & Heq). right. split; [exact Hl|].
    exists (y, x). split; [now apply elem_of_scan | exact Heq].
Qed.

(** The second scan yields the mask of the label and counts its pixels. *)
Lemma regionMask_split (watershedMap : Mat) (label : Z) :
  regionMask watershedMap label
  = (forPixels (rows watershedMap) (cols watershedMap)
       (writes (λ y x, if decide (intAt watershedMap y x = label)
                       then Some 255 else None))
       (zeros (rows watershedMap) (cols watershedMap) CV_8U 1),
     pixelCount watershedMap label).
Proof.
  unfold regionMask, pixelCount. rewrite !forPixels_scan.
  generalize (scan (rows watershedMap) (cols watershedMap)) as l.
  generalize (zeros (rows watershedMap) (cols watershedMap) CV_8U 1) as m.
  assert (∀ (l : list (nat * nat)) (m : Mat) (n : Z),
            foldl (λ s p,
                     let '(mask, pixelCount) := s in
                     if decide (intAt watershedMap (fst p) (snd p) = label)
                     then (store mask (fst p) (snd p) 0 255, pixelCount + 1)
                     else (mask, pixelCount)) (m, n) l
            = (foldl (λ m p,
                        writes (λ y x, if decide (intAt watershedMap y x = label)
                                       then Some 255 else None) (fst p) (snd p) m) m l,
               n + Z.of_nat (length (filter
                                       (λ p, intAt watershedMap (fst p) (snd p) = label)
                                       l)))) as Hfold.
  { induction l as [|p l IH]; intros m n; cbn [foldl].
    - cbn. f_equal. lia.
    - rewrite filter_cons. unfold writes at 2.
      destruct (decide (intAt watershedMap (fst p) (snd p) = label)).
      + rewrite IH. f_equal. cbn [length]. lia.
      + now rewrite IH. }
  intros m l. rewrite Hfold. f_equal.
Qed.

Lemma regionMask_pixel (watershedMap : Mat) (label : Z) (y x : nat) :
  (y < rows watershedMap)%nat → (x < cols watershedMap)%nat →
  ucharPtr (fst (regionMask watershedMap label)) y x 0
  = if decide (intAt watershedMap y x = label) then 255 else 0.
Proof.
  intros Hy Hx. rewrite regionMask_split. cbn [fst].
  set (f := λ y x, if decide (intAt watershedMap y x = label) then Some 255 else None).
  pose proof (forPixels_writes_shape f (rows watershedMap) (cols watershedMap)
                (zeros (rows watershedMap) (cols watershedMap) CV_8U 1))
    as (Hr & Hc & Hch & _).
  rewrite (plane_ucharPtr _ (cols watershedMap))
    by (split; [now rewrite Hc | now rewrite Hch]).
  rewrite forPixels_writes by (trivial; apply plane_zeros).
  rewrite zeros_lookup by trivial. unfold f.
  now destruct (decide (intAt watershedMap y x = label)).
Qed.

Lemma regionMask_rows_cols (watershedMap : Mat) (label : Z) :
  rows (fst (regionMask watershedMap label)) = rows watershedMap
  ∧ cols (fst (regionMask watershedMap label)) = cols watershedMap.
Proof.
  rewrite regionMask_split. cbn [fst].
  pose proof (forPixels_writes_shape
                (λ y x, if decide (intAt watershedMap y x = label) then Some 255 else None)
                (rows watershedMap) (cols watershedMap)
                (zeros (rows watershedMap) (cols watershedMap) CV_8U 1))
    as (Hr & Hc & _).
  split; [now rewrite Hr | now rewrite Hc].
Qed.

Lemma regionMask_count (watershedMap : Mat) (label : Z) :
  snd (regionMask watershedMap label) = pixelCount watershedMap label.
Proof. now rewrite regionMask_split. Qed.

(** A label that occurs in the map has a pixel count of at least one. *)
Lemma pixelCount_pos (watershedMap : Mat) (label : Z) (y x : nat) :
  (y < rows watershedMap)%nat → (x < cols watershedMap)%nat →
  intAt watershedMap y x = label → pixelCount watershedMap label > 0.
Proof.
  intros Hy Hx Heq. unfold pixelCount.
  assert ((y, x) ∈ filter (λ p, intAt watershedMap (fst p) (snd p) = label)
                     (scan (rows watershedMap) (cols watershedMap))) as Hin.
  { apply list_elem_of_filter. split; [exact Heq | now apply elem_of_scan]. }
  destruct (filter _ _); [now apply elem_of_nil in Hin | cbn [length]; lia].
Qed.

(** One label: the region list grows by the region of the label, if it
    has one. *)
Lemma extractRegion_Normal (markerToColor : gmap Z Z) (watershedMap : Mat)
    (palette : list ColorQuantizer.PaletteEntry) (minRegionSize label : Z)
    (regions regions' : list Region) :
  extractRegion markerToColor watershedMap palette minRegionSize regions label
    = Normal regions' →
  regions' = regions
             ++ option_list (regionFor markerToColor watershedMap palette minRegionSize label)
  ∧ (pixelCount watershedMap label < minRegionSize
     ∨ ∃ contours,
         findContours (fst (regionMask watershedMap label)) RETR_EXTERNAL
           CHAIN_APPROX_SIMPLE = Normal contours
         ∧ (contours = []
            ∨ is_Some (regionFor markerToColor watershedMap palette minRegionSize label))).
Proof.
  unfold extractRegion, regionFor. rewrite <- regionMask_count.
  destruct (regionMask watershedMap label) as [mask count]. cbn [fst snd].
  destruct (decide (count < minRegionSize)) as [Hsmall|Hbig].
  { intros [= <-]. split; [now rewrite app_nil_r | now left]. }
  destruct (findContours mask RETR_EXTERNAL CHAIN_APPROX_SIMPLE) as [contours|e];
    cbn [mbind completion_bind Js.bind]; [|discriminate].
  destruct contours as [|contour rest].
  { intros [= <-]. split; [now rewrite app_nil_r|]. right. exists []. now split; [|left]. }
  destruct (moments contour) as [[[m00 m10] m01]|e];
    cbn [mbind completion_bind Js.bind]; [|discriminate].
  destruct (contourArea contour) as [area|e];
    cbn [mbind completion_bind Js.bind]; [|discriminate].
  intros [= <-]. split; [reflexivity|]. right. exists (contour :: rest).
  split; [reflexivity|]. right. eauto.
Qed.

Lemma forEach_extractRegion (markerToColor : gmap Z Z) (watershedMap : Mat)
    (palette : list ColorQuantizer.PaletteEntry) (minRegionSize : Z)
    (labels : list Z) (regions regions' : list Region) :
  forEach (extractRegion markerToColor watershedMap palette minRegionSize) regions labels
    = Normal regions' →
  regions' = regions
             ++ omap (regionFor markerToColor watershedMap palette minRegionSize) labels
  ∧ ∀ label, label ∈ labels →
      pixelCount watershedMap label < minRegionSize
      ∨ ∃ contours,
          findContours (fst (regionMask watershedMap label)) RETR_EXTERNAL
            CHAIN_APPROX_SIMPLE = Normal contours
          ∧ (contours = []
             ∨ is_Some (regionFor markerToColor watershedMap palette minRegionSize label)).
Proof.
  revert regions. induction labels as [|label labels IH]; intros regions; cbn [forEach].
  - intros [= <-]. split; [now rewrite app_nil_r|]. intros label Hin.
    now apply elem_of_nil in Hin.
  - destruct (extractRegion _ _ _ _ regions label) as [regions1|e] eqn:Hstep;
      cbn [mbind completion_bind Js.bind]; [|discriminate].
    intros Hrest. apply extractRegion_Normal in Hstep as [-> Hok].
    apply IH in Hrest as [-> Hall]. split.
    + cbn [omap list_omap]. destruct (regionFor _ _ _ _ label); cbn [option_list].
      * now rewrite <- app_assoc.
      * now rewrite app_nil_r.
    + intros l Hl. apply elem_of_cons in Hl as [->|Hl]; [exact Hok | now apply Hall].
Qed.

(** What [regionFor] puts into a region. *)
Lemma regionFor_Some (markerToColor : gmap Z Z) (watershedMap : Mat)
    (palette : list ColorQuantizer.PaletteEntry) (minRegionSize label : Z) (r : Region) :
  regionFor markerToColor watershedMap palette minRegionSize label = Some r →
  id r = label
  ∧ pixelCount watershedMap label >= minRegionSize
  ∧ colorId r = resolveColor markerToColor (length palette) label
  ∧ color r = ColorQuantizer.index palette (colorId r - 1)
  ∧ ∃ contour rest,
      findContours (fst (regionMask watershedMap label)) RETR_EXTERNAL
        CHAIN_APPROX_SIMPLE = Normal (contour :: rest)
      ∧ WatershedProcessor.contour r = contourToArray contour.
Proof.
  unfold regionFor. rewrite <- regionMask_count.
  destruct (regionMask watershedMap label) as [mask count]. cbn [fst snd].
  destruct (decide (count < minRegionSize)) as [Hsmall|Hbig]; [discriminate|].
  destruct (findContours mask RETR_EXTERNAL CHAIN_APPROX_SIMPLE)
    as [[|contour rest]|e]; try discriminate.
  destruct (moments contour) as [[[m00 m10] m01]|e]; [|discriminate].
  destruct (contourArea contour) as [area|e]; [|discriminate].
  intros [= <-]. cbn [id colorId color WatershedProcessor.contour].
  repeat split; [lia|]. now exists contour, rest.
Qed.

End RegionLoops.

Section RegionFilter.
Import Cv WatershedProcessor PipelineSpec Contract.
Context `{cv : OpenCV}.

Lemma extractRegions_Normal (self : Processor) (watershedMap quantized : Mat)
    (palette : list ColorQuantizer.PaletteEntry) (minRegionSize : Z)
    (regions : list Region) :
  extractRegions self watershedMap quantized palette minRegionSize = Normal regions →
  regions = omap (regionFor (default ∅ (_markerToColor self)) watershedMap palette
                    minRegionSize) (uniqueLabels watershedMap)
  ∧ ∀ label, label ∈ uniqueLabels watershedMap →
      pixelCount watershedMap label < minRegionSize
      ∨ ∃ contours,
          findContours (fst (regionMask watershedMap label)) RETR_EXTERNAL
            CHAIN_APPROX_SIMPLE = Normal contours
          ∧ (contours = []
             ∨ is_Some (regionFor (default ∅ (_markerToColor self)) watershedMap palette
                          minRegionSize label)).
Proof. unfold extractRegions. intros Hrun. now apply forEach_extractRegion in Hrun. Qed.

(** A label below the minimum size is skipped before OpenCV is called. *)
Lemma extractRegion_small (markerToColor : gmap Z Z) (watershedMap : Mat)
    (palette : list ColorQuantizer.PaletteEntry) (minRegionSize label : Z)
    (regions : list Region) :
  pixelCount watershedMap label < minRegionSize →
  extractRegion markerToColor watershedMap palette minRegionSize regions label
  = Normal regions.
Proof.
  intros Hsmall. unfold extractRegion. rewrite regionMask_split.
  destruct (decide (pixelCount watershedMap label < minRegionSize)); [reflexivity|].
  contradiction.
Qed.

(** When no label reaches the minimum size the loop calls OpenCV not once
    and returns the empty list. *)
Lemma extractRegions_none_survive (self : Processor) (watershedMap quantized : Mat)
    (palette : list ColorQuantizer.PaletteEntry) (minRegionSize : Z) :
  (∀ label, label ∈ uniqueLabels watershedMap →
            pixelCount watershedMap label < minRegionSize) →
  extractRegions self watershedMap quantized palette minRegionSize = Normal [].
Proof.
  unfold extractRegions. generalize (uniqueLabels watershedMap) as labels.
  induction labels as [|label labels IH]; intros Hsmall; [reflexivity|].
  cbn [forEach]. rewrite extractRegion_small by (apply Hsmall; left).
  cbn [mbind completion_bind Js.bind]. apply IH. intros l Hl. apply Hsmall. now right.
Qed.

(** C2.  [extractRegions] enumerates the positive labels of the label map
    and keeps a label only if it has at least [minRegionSize] pixels: a
    label with fewer pixels ([minRegionSize - 1], say) has no region in the
    list, a label with [minRegionSize] pixels or more has one, and the
    contour of each region is traced from the mask of the pixels of its own
    label, so that the pixels of a dropped label lie in no region's mask. *)
Theorem extractRegions_size_filter (self : Processor) (watershedMap quantized : Mat)
    (palette : list ColorQuantizer.PaletteEntry) (minRegionSize : Z)
    (regions : list Region) :
  contoursOfNonEmptyMask →
  extractRegions self watershedMap quantized palette minRegionSize = Normal regions →
  (∀ label, label ∈ uniqueLabels watershedMap ↔
            label > 0 ∧ ∃ y x, (y < rows watershedMap)%nat ∧ (x < cols watershedMap)%nat
                               ∧ intAt watershedMap y x = label)
  ∧ (∀ r, r ∈ regions →
          id r ∈ uniqueLabels watershedMap
          ∧ pixelCount watershedMap (id r) >= minRegionSize)
  ∧ (∀ label, pixelCount watershedMap label < minRegionSize →
              ∀ r, r ∈ regions → id r ≠ label)
  ∧ (∀ label, label ∈ uniqueLabels watershedMap →
              pixelCount watershedMap label >= minRegionSize →
              ∃ r, r ∈ regions ∧ id r = label)
  ∧ (∀ r, r ∈ regions →
          ∃ contour rest,
            findContours (fst (regionMask watershedMap (id r))) RETR_EXTERNAL
              CHAIN_APPROX_SIMPLE = Normal (contour :: rest)
            ∧ WatershedProcessor.contour r = contourToArray contour
            ∧ ∀ y x, (y < rows watershedMap)%nat → (x < cols watershedMap)%nat →
                ucharPtr (fst (regionMask watershedMap (id r))) y x 0
                = if decide (intAt watershedMap y x = id r) then 255 else 0)
  ∧ (∀ label y x,
       pixelCount watershedMap label < minRegionSize →
       (y < rows watershedMap)%nat → (x < cols watershedMap)%nat →
       intAt watershedMap y x = label →
       ∀ r, r ∈ regions → ucharPtr (fst (regionMask watershedMap (id r))) y x 0 = 0).
Proof.
  intros Hcontours Hrun. apply extractRegions_Normal in Hrun as [-> Hsteps].
  set (colorMap := default ∅ (_markerToColor self)) in *.
  assert (∀ r, r ∈ omap (regionFor colorMap watershedMap palette minRegionSize)
                     (uniqueLabels watershedMap) →
               id r ∈ uniqueLabels watershedMap
               ∧ regionFor colorMap watershedMap palette minRegionSize (id r) = Some r)
    as Hfrom.
  { intros r Hr. apply list_elem_of_omap in Hr as (label & Hl & Hr).
    destruct (regionFor_Some _ _ _ _ _ _ Hr) as (<- & _). now split. }
  split; [apply elem_of_uniqueLabels|]. split.
  { intros r Hr. destruct (Hfrom r Hr) as [Hl Hsome]. split; [exact Hl|].
    now destruct (regionFor_Some _ _ _ _ _ _ Hsome) as (_ & Hge & _). }
  split.
  { intros label Hsmall r Hr Heq. destruct (Hfrom r Hr) as [_ Hsome].
    destruct (regionFor_Some _ _ _ _ _ _ Hsome) as (_ & Hge & _). rewrite Heq in Hge. lia. }
  split.
  { intros label Hl Hge. destruct (Hsteps label Hl) as [Hsmall|(contours & Hfind & Hcs)];
      [lia|].
    destruct Hcs as [->|[r Hsome]].
    - exfalso. apply elem_of_uniqueLabels in Hl as (_ & y & x & Hy & Hx & Hat).
      refine (Hcontours _ _ _ _ Hfind _ eq_refl).
      destruct (regionMask_rows_cols watershedMap label) as [Hr Hc].
      exists y, x. rewrite Hr, Hc. split; [exact Hy|]. split; [exact Hx|].
      rewrite regionMask_pixel by trivial.
      destruct (decide (intAt watershedMap y x = label)); [discriminate | contradiction].
    - exists r. split.
      + apply list_elem_of_omap. now exists label.
      + now destruct (regionFor_Some _ _ _ _ _ _ Hsome) as (Hid & _). }
  split.
  { intros r Hr. destruct (Hfrom r Hr) as [_ Hsome].
    destruct (regionFor_Some _ _ _ _ _ _ Hsome) as (_ & _ & _ & _ & contour & rest & Hfind & Hc).
    exists contour, rest. split; [exact Hfind|]. split; [exact Hc|].
    intros y x Hy Hx. now apply regionMask_pixel. }
  intros label y x Hsmall Hy Hx Hat r Hr. rewrite regionMask_pixel by trivial.
  destruct (decide (intAt watershedMap y x = id r)) as [Heq|_]; [|reflexivity].
  exfalso. destruct (Hfrom r Hr) as [_ Hsome].
  destruct (regionFor_Some _ _ _ _ _ _ Hsome) as (_ & Hge & _).
  rewrite <- Heq, Hat in Hge. lia.
Qed.

End RegionFilter.

Section RegionFilterOnFixture.
Import Cv WatershedProcessor PipelineSpec Contract.

Lemma extractRegions_size_filter_witness :
  ∃ regions,
    extractRegions (cv := Fixture.cv) Fixture.twoToneProcessor Fixture.twoToneWatershed
      Fixture.twoToneRgb [] 8 = Normal regions
    ∧ pixelCount Fixture.twoToneWatershed 1 = 8
    ∧ (∃ r, r ∈ regions ∧ id r = 1)
    ∧ (∀ r, r ∈ regions → id r ≠ 7).
Proof.
  assert (∃ regions,
            extractRegions (cv := Fixture.cv) Fixture.twoToneProcessor
              Fixture.twoToneWatershed Fixture.twoToneRgb [] 8 = Normal regions)
    as [regions Hrun] by run_to_Normal.
  assert (pixelCount Fixture.twoToneWatershed 1 = 8) as Hcount
    by (vm_compute; reflexivity).
  exists regions. split; [exact Hrun|]. split; [exact Hcount|].
  destruct (extractRegions_size_filter (cv := Fixture.cv) Fixture.twoToneProcessor
              Fixture.twoToneWatershed Fixture.twoToneRgb [] 8 regions
              fixture_contoursOfNonEmptyMask Hrun)
    as (Hlabels & _ & Hexcluded & Hincluded & _).
  split.
  - apply (Hincluded 1); [|rewrite Hcount; lia].
    apply Hlabels. split; [lia|]. exists 1%nat, 1%nat.
    split; [simpl; lia|]. split; [simpl; lia|]. vm_compute. reflexivity.
  - apply (Hexcluded 7). vm_compute. reflexivity.
Defined.

End RegionFilterOnFixture.

(** ** A run of the pipeline *)

Section Process.
Import Cv WatershedProcessor PipelineSpec Contract.
Context `{cv : OpenCV}.
Context (preprocessImage : ImageData → Z → Completion ImageData).

(** The stages of a run that returns: each handed the results of the
    stages before it. *)
Lemma process_Normal (self : Processor) (imageData : ImageData) (options : Options)
    (onProgress : option (Progress → Completion unit)) (result : ProcessResult) :
  outcome (process preprocessImage self imageData options onProgress) = Normal result →
  ∃ preprocessed quantization markers self' watershedMap,
    ready = true
    ∧ preprocessImage imageData (default 1024 (maxSize options)) = Normal preprocessed
    ∧ ColorQuantizer.quantize preprocessed (default 14 (colorCount options))
      = Normal quantization
    ∧ createMarkers self (ColorQuantizer.quantized quantization)
        (ColorQuantizer.labels quantization) (default 14 (colorCount options))
        (default "high" (complexity options)) = Normal (markers, self')
    ∧ applyWatershed (ColorQuantizer.quantized quantization) markers = Normal watershedMap
    ∧ extractRegions self' watershedMap (ColorQuantizer.quantized quantization)
        (ColorQuantizer.palette quantization) (default 100 (minRegionSize options))
      = Normal (regions result)
    ∧ palette result = ColorQuantizer.palette quantization
    ∧ width result = Cv.width preprocessed
    ∧ height result = Cv.height preprocessed
    ∧ processor (process preprocessImage self imageData options onProgress) = self'.
Proof.
  unfold process. destruct ready; cbn [negb outcome]; [|discriminate]. cbv zeta.
  destruct (updateProgress onProgress 0 _) as [_|e]; [|discriminate].
  destruct (preprocessImage imageData _) as [preprocessed|e] eqn:Hpre; [|discriminate].
  destruct (updateProgress onProgress 20 _) as [_|e]; [|discriminate].
  destruct (ColorQuantizer.quantize preprocessed _) as [quantization|e] eqn:Hq;
    [|discriminate].
  destruct (updateProgress onProgress 40 _) as [_|e]; [|discriminate].
  destruct (createMarkers self _ _ _ _) as [[markers self']|e] eqn:Hm; [|discriminate].
  destruct (updateProgress onProgress 60 _) as [_|e]; [|discriminate].
  destruct (applyWatershed _ markers) as [watershedMap|e] eqn:Hw; [|discriminate].
  destruct (updateProgress onProgress 80 _) as [_|e]; [|discriminate].
  destruct (extractRegions self' watershedMap _ _ _) as [found|e] eqn:Hregions;
    [|discriminate].
  destruct (updateProgress onProgress 100 _) as [_|e]; [|discriminate].
  cbn [outcome processor]. intros [= <-]. cbn [regions palette width height].
  exists preprocessed, quantization, markers, self', watershedMap.
  repeat split; trivial.
Qed.

(** A callback that returns is as good as none. *)
Lemma process_returns (self : Processor) (imageData : ImageData) (options : Options)
    (onProgress : option (Progress → Completion unit)) :
  returns onProgress →
  process preprocessImage self imageData options onProgress
  = process preprocessImage self imageData options None.
Proof.
  intros Hquiet. unfold process. rewrite !Hquiet. reflexivity.
Qed.

Lemma showProgress_returns : returns (Some App.showProgress).
Proof. intros percent message. reflexivity. Qed.

(** A run whose stages all succeed. *)
Lemma process_stages (self self' : Processor) (imageData preprocessed : ImageData)
    (options : Options) (onProgress : option (Progress → Completion unit))
    (quantization : ColorQuantizer.QuantizeResult)
    (markers watershedMap : Mat) (regions : list Region) :
  returns onProgress →
  ready = true →
  preprocessImage imageData (default 1024 (maxSize options)) = Normal preprocessed →
  ColorQuantizer.quantize preprocessed (default 14 (colorCount options))
    = Normal quantization →
  createMarkers self (ColorQuantizer.quantized quantization)
    (ColorQuantizer.labels quantization) (default 14 (colorCount options))
    (default "high" (complexity options)) = Normal (markers, self') →
  applyWatershed (ColorQuantizer.quantized quantization) markers = Normal watershedMap →
  extractRegions self' watershedMap (ColorQuantizer.quantized quantization)
    (ColorQuantizer.palette quantization) (default 100 (minRegionSize options))
    = Normal regions →
  process preprocessImage self imageData options onProgress
  = mkRun self'
      [mkProgress 0 "Preprocessing image..."; mkProgress 20 "Quantizing colors...";
       mkProgress 40 "Creating markers..."; mkProgress 60 "Applying watershed...";
       mkProgress 80 "Extracting regions..."; mkProgress 100 "Complete!"]
      (Normal {| regions := regions;
                 palette := ColorQuantizer.palette quantization;
                 width := Cv.width preprocessed;
                 height := Cv.height preprocessed |}).
Proof.
  intros Hquiet Hready Hpre Hq Hm Hw Hr. unfold process. rewrite Hready. cbn [negb].
  cbv zeta. rewrite !Hquiet, Hpre, Hq, Hm, Hw, Hr. reflexivity.
Qed.

(** [quantize] returns one palette entry per colour. *)
Lemma quantize_palette_length (imageData : ImageData) (numColors : Z)
    (result : ColorQuantizer.QuantizeResult) :
  ColorQuantizer.quantize imageData numColors = Normal result →
  length (ColorQuantizer.palette result) = Z.to_nat numColors
  ∧ ∀ i entry, ColorQuantizer.palette result !! i = Some entry →
               ColorQuantizer.id entry = Z.of_nat i + 1.
Proof.
  unfold ColorQuantizer.quantize. destruct ready; cbn [negb]; [|discriminate].
  destruct (rethrow _ _) as [rgbMat|e]; cbn [mbind completion_bind Js.bind];
    [|discriminate].
  destruct (rethrow _ _) as [lab|e]; cbn [mbind completion_bind Js.bind];
    [|discriminate].
  destruct (rethrow _ _) as [[lbls centers]|e]; cbn [mbind completion_bind Js.bind];
    [|discriminate].
  destruct (decide (numColors < 0)); [discriminate|].
  destruct (forEach _ _ _) as [quantized|e]; cbn [mbind completion_bind Js.bind];
    [|discriminate].
  intros [= <-]. cbn [ColorQuantizer.palette]. split.
  - now rewrite length_map, length_seq.
  - intros i entry. rewrite list_lookup_fmap.
    destruct (seq 0 (Z.to_nat numColors) !! i) as [j|] eqn:Hj; [|discriminate].
    apply lookup_seq in Hj as [-> _]. now intros [= <-].
Qed.

(** What [applyWatershed] hands to OpenCV when the markers are 32-bit. *)
Lemma applyWatershed_Normal (quantized markers watershedMap : Mat) :
  depth markers = CV_32S →
  applyWatershed quantized markers = Normal watershedMap →
  ∃ rgb, watershed rgb markers = Normal watershedMap.
Proof.
  intros Hdepth. unfold applyWatershed.
  destruct (rethrow _ _) as [rgb|e]; cbn [mbind completion_bind Js.bind]; [|discriminate].
  destruct (decide (depth markers ≠ CV_32S)) as [Hne|_]; [contradiction|].
  cbn [mbind completion_bind Js.bind].
  destruct (watershed rgb markers) as [result|e] eqn:Hw; cbn [rethrow]; [|discriminate].
  intros [= <-]. now exists rgb.
Qed.

End Process.

Section ColorBinding.
Import Cv WatershedProcessor PipelineSpec MarkerInvariant Contract.
Context `{cv : OpenCV}.
Context (preprocessImage : ImageData → Z → Completion ImageData).

(** Every seed of the marker image is a key of the colour map. *)
Lemma seed_recorded (labels : Mat) (height width : nat) (erodeSize k : Z)
    (st : MarkerState) (y x : nat) :
  componentLabelsInRange →
  builtUpTo labels height width erodeSize k st →
  (y < height)%nat → (x < width)%nat →
  intAt (markers st) y x > 0 →
  ∃ c, 0 ≤ c < k ∧ markerToColor st !! intAt (markers st) y x = Some (c + 1).
Proof.
  intros Hcc Hinv Hy Hx Hpos.
  destruct Hinv as (_ & Hok & Hmap & _ & _ & _ & _ & Hpix).
  destruct (Hpix y x Hy Hx) as [Hz|(c & Hc & Hcomp & Heq)]; [lia|].
  exists c. split; [exact Hc|]. rewrite Heq. apply Hmap.
  exists c, (intAt (componentLabels labels height width erodeSize c) y x).
  split; [exact Hc|]. split; [|now split].
  destruct (Hok c Hc) as (n & colorLabels & E).
  destruct (components_names _ _ _ _ _ _ _ E) as [Hn Hl].
  destruct (components_range _ _ _ _ _ _ _ Hcc E) as [_ Hrange].
  specialize (Hrange y x). rewrite Hn. rewrite Hl in *. lia.
Qed.

Lemma createMarkers_Normal (self self' : Processor) (quantized labels markers : Mat)
    (numColors : Z) (complexity : string) :
  createMarkers self quantized labels numColors complexity = Normal (markers, self') →
  ∃ st, buildMarkers quantized labels numColors complexity = Normal st
        ∧ markers = WatershedProcessor.markers st
        ∧ self' = mkProcessor (quantizer self) (currentStep self) (totalSteps self)
                    (Some (markerToColor st)).
Proof.
  unfold createMarkers.
  destruct (buildMarkers quantized labels numColors complexity) as [st|e];
    cbn [mbind completion_bind Js.bind]; [|discriminate].
  intros [= <- <-]. now exists st.
Qed.

Lemma resolveColor_recorded (colorMap : gmap Z Z) (paletteLength : nat) (label c : Z) :
  colorMap !! label = Some (c + 1) → 0 ≤ c < Z.of_nat paletteLength →
  resolveColor colorMap paletteLength label = c + 1.
Proof.
  intros Hl Hc. unfold resolveColor. rewrite Hl. cbn [or_default].
  destruct (decide (c + 1 = 0)) as [|_]; [lia|].
  destruct (decide (c + 1 < 1 ∨ c + 1 > Z.of_nat paletteLength)) as [|_]; [lia|].
  reflexivity.
Qed.

(** C1.  In a run of the pipeline that returns, the colour map that
    [createMarkers] built is the one the run leaves on the processor, the
    palette has K entries, and every region of the result has a [colorId]
    in 1..K that is the value of the map at the region's label and the id
    of the palette entry the region carries. *)
Theorem process_colorId_traceable (self : Processor) (imageData : ImageData)
    (options : Options) (onProgress : option (Progress → Completion unit))
    (result : ProcessResult) :
  componentLabelsInRange →
  watershedKeepsSeedIds →
  outcome (process preprocessImage self imageData options onProgress) = Normal result →
  (∀ st, markerStateOf preprocessImage imageData options = Some st →
         nextLabel st ≤ 2 ^ 31) →
  ∃ st,
    markerStateOf preprocessImage imageData options = Some st
    ∧ _markerToColor
        (processor (process preprocessImage self imageData options onProgress))
      = Some (markerToColor st)
    ∧ length (palette result) = Z.to_nat (default 14 (colorCount options))
    ∧ ∀ r, r ∈ regions result →
        1 ≤ colorId r ≤ Z.of_nat (length (palette result))
        ∧ markerToColor st !! id r = Some (colorId r)
        ∧ ∃ entry,
            palette result !! Z.to_nat (colorId r - 1) = Some entry
            ∧ ColorQuantizer.id entry = colorId r
            ∧ color r = Some entry.
Proof.
  intros Hcc Hws Hrun Hfit.
  apply process_Normal in Hrun
    as (preprocessed & quantization & markers & self' & watershedMap & Hready & Hpre
        & Hq & Hm & Hw & Hr & Hpal & _ & _ & Hself).
  apply createMarkers_Normal in Hm as (st & Hbuild & -> & ->).
  assert (markerStateOf preprocessImage imageData options = Some st) as Hst.
  { unfold markerStateOf. cbv zeta. now rewrite Hpre, Hq, Hbuild. }
  exists st. split; [exact Hst|]. split; [now rewrite Hself|].
  destruct (quantize_palette_length _ _ _ Hq) as [Hlen Hids].
  rewrite Hpal. split; [exact Hlen|].
  pose proof (buildMarkers_builtUpTo _ _ _ _ _ Hcc Hbuild (Hfit st Hst)) as Hinv.
  assert (depth (WatershedProcessor.markers st) = CV_32S
          ∧ rows (WatershedProcessor.markers st) = rows (ColorQuantizer.quantized quantization)
          ∧ cols (WatershedProcessor.markers st) = cols (ColorQuantizer.quantized quantization))
    as (Hdepth & Hrows & Hcols).
  { destruct Hinv as (_ & _ & _ & [Hc _] & Hrw & Hd & _). now repeat split. }
  apply applyWatershed_Normal in Hw as [rgb Hw]; [|exact Hdepth].
  apply extractRegions_Normal in Hr as [Hregions _]. cbn [_markerToColor default] in Hregions.
  intros r Hin. rewrite Hregions in Hin.
  apply list_elem_of_omap in Hin as (label & Hlabel & Hsome).
  destruct (regionFor_Some _ _ _ _ _ _ Hsome) as (Hid & _ & Hcolor & Hentry & _).
  apply elem_of_uniqueLabels in Hlabel as (Hpos & y & x & Hy & Hx & Hat).
  destruct (Hws rgb _ _ Hw y x Hy Hx ltac:(lia)) as (y' & x' & Hy' & Hx' & Hseed).
  rewrite Hat in Hseed.
  destruct (seed_recorded _ _ _ _ _ st y' x' Hcc Hinv ltac:(lia) ltac:(lia) ltac:(lia))
    as (c & Hc & Hrec).
  rewrite Hseed in Hrec.
  assert (colorId r = c + 1) as Hcid.
  { rewrite Hcolor. apply resolveColor_recorded; [exact Hrec | lia]. }
  rewrite Hid, Hcid. split; [lia|]. split; [exact Hrec|].
  destruct (lookup_lt_is_Some_2 (ColorQuantizer.palette quantization) (Z.to_nat c))
    as [entry Hlook]; [lia|].
  exists entry. replace (c + 1 - 1) with c by lia. split; [exact Hlook|]. split.
  - rewrite (Hids _ _ Hlook). lia.
  - rewrite Hentry, Hcid. unfold ColorQuantizer.index.
    replace (c + 1 - 1) with c by lia.
    destruct (decide (c < 0)) as [|_]; [lia | exact Hlook].
Qed.

End ColorBinding.

Section ColorBindingOnFixture.
Import Cv WatershedProcessor PipelineSpec.

Lemma twoTone_run_fits (st : MarkerState) :
  markerStateOf (cv := Fixture.cv) Fixture.preprocessImage Fixture.twoTone Fixture.twoToneOptions
    = Some st →
  nextLabel st ≤ 2 ^ 31.
Proof.
  intros Hst. assert (nextLabel <$> Some st = Some 3) as E.
  { rewrite <- Hst. vm_compute. reflexivity. }
  injection E as ->. lia.
Qed.

Lemma process_colorId_traceable_witness :
  ∃ result,
    outcome (process (cv := Fixture.cv) Fixture.preprocessImage new Fixture.twoTone
               Fixture.twoToneOptions None) = Normal result
    ∧ length (palette result) = 2%nat
    ∧ ∀ r, r ∈ regions result → 1 ≤ colorId r ≤ Z.of_nat (length (palette result)).
Proof.
  assert (∃ result,
            outcome (process (cv := Fixture.cv) Fixture.preprocessImage new Fixture.twoTone
                       Fixture.twoToneOptions None) = Normal result)
    as [result Hrun] by run_to_Normal.
  exists result. split; [exact Hrun|].
  destruct (process_colorId_traceable (cv := Fixture.cv) Fixture.preprocessImage new
              Fixture.twoTone Fixture.twoToneOptions None result
              fixture_componentLabelsInRange fixture_watershedKeepsSeedIds Hrun
              twoTone_run_fits)
    as (st & _ & _ & Hlen & Hregions).
  split; [exact Hlen|]. intros r Hr. now destruct (Hregions r Hr) as [Hrange _].
Defined.

End ColorBindingOnFixture.

(** ** A run without seeds, and a run without regions *)

Section NoSeeds.
Import Cv WatershedProcessor PipelineSpec Contract.
Context `{cv : OpenCV}.
Context (preprocessImage : ImageData → Z → Completion ImageData).

Lemma forEach_preserves {S A} (P : S → Prop) (body : S → A → Completion S)
    (l : list A) (s s' : S) :
  (∀ s a s', P s → body s a = Normal s' → P s') →
  P s → forEach body s l = Normal s' → P s'.
Proof.
  intros Hbody. revert s. induction l as [|a l IH]; intros s Hs; cbn [forEach].
  - now intros [= <-].
  - destruct (body s a) as [s1|e] eqn:E; cbn [mbind completion_bind Js.bind];
      [|discriminate].
    apply IH. now apply (Hbody s a).
Qed.

(** The marker image has the size of the quantized image and 32-bit cells. *)
Lemma buildMarkers_shape (quantized labels : Mat) (numColors : Z) (complexity : string)
    (st : MarkerState) :
  buildMarkers quantized labels numColors complexity = Normal st →
  plane (markers st) (cols quantized)
  ∧ rows (markers st) = rows quantized
  ∧ depth (markers st) = CV_32S.
Proof.
  unfold buildMarkers. cbv zeta.
  apply (forEach_preserves
           (λ st, plane (markers st) (cols quantized)
                  ∧ rows (markers st) = rows quantized
                  ∧ depth (markers st) = CV_32S)).
  - intros s c s' (Hplane & Hrows & Hdepth). unfold colorStep.
    destruct (colorComponents _ _ _ _ c) as [[n colorLabels]|e];
      cbn [mbind completion_bind Js.bind]; [|discriminate].
    intros [= <-]. cbn [markers].
    destruct (writeComponents_shape (rows quantized) (cols quantized) (nextLabel s)
                colorLabels (markers s) Hplane) as (Hp & Hr & Hd & _).
    split; [exact Hp|]. split; congruence.
  - cbn [markers]. split; [apply plane_zeros|]. now split.
Qed.

(** A label map without positive labels has no label to enumerate. *)
Lemma uniqueLabels_none (watershedMap : Mat) :
  (∀ y x, (y < rows watershedMap)%nat → (x < cols watershedMap)%nat →
          ¬ intAt watershedMap y x > 0) →
  ∀ label, label ∉ uniqueLabels watershedMap.
Proof.
  intros Hnone label Hin.
  apply elem_of_uniqueLabels in Hin as (Hpos & y & x & Hy & Hx & Hat).
  apply (Hnone y x Hy Hx). lia.
Qed.

(** C6, amended.  When marker construction yields no seed, [createMarkers]
    still returns the marker image, and the run (with a progress callback
    that returns, or with none) goes on to the watershed:
    it reports "Applying watershed..." and hands the seedless image to
    [cv.watershed].  If that call throws, the run fails with "Watershed
    algorithm failed: ..."; if it returns, the run returns normally with an
    empty region list.  No stage raises an error for the missing seeds. *)
Theorem process_without_seeds (self : Processor) (imageData preprocessed : ImageData)
    (options : Options) (onProgress : option (Progress → Completion unit))
    (quantization : ColorQuantizer.QuantizeResult) (st : MarkerState) :
  watershedKeepsSeedIds →
  returns onProgress →
  ready = true →
  preprocessImage imageData (default 1024 (maxSize options)) = Normal preprocessed →
  ColorQuantizer.quantize preprocessed (default 14 (colorCount options))
    = Normal quantization →
  buildMarkers (ColorQuantizer.quantized quantization)
    (ColorQuantizer.labels quantization) (default 14 (colorCount options))
    (default "high" (complexity options)) = Normal st →
  (∀ y x, (y < rows (markers st))%nat → (x < cols (markers st))%nat →
          intAt (markers st) y x = 0) →
  let run := process preprocessImage self imageData options onProgress in
  createMarkers self (ColorQuantizer.quantized quantization)
    (ColorQuantizer.labels quantization) (default 14 (colorCount options))
    (default "high" (complexity options))
    = Normal (markers st,
              mkProcessor (quantizer self) (currentStep self) (totalSteps self)
                (Some (markerToColor st)))
  ∧ mkProgress 60 "Applying watershed..." ∈ reports run
  ∧ match applyWatershed (ColorQuantizer.quantized quantization) (markers st) with
    | Throw e =>
        outcome run = Throw (Error ("Watershed algorithm failed: " +:+ toString e))
    | Normal watershedMap =>
        outcome run
        = Normal {| regions := [];
                    palette := ColorQuantizer.palette quantization;
                    width := Cv.width preprocessed;
                    height := Cv.height preprocessed |}
    end.
Proof.
  intros Hws Hquiet Hready Hpre Hq Hbuild Hzero. cbv zeta.
  assert (createMarkers self (ColorQuantizer.quantized quantization)
            (ColorQuantizer.labels quantization) (default 14 (colorCount options))
            (default "high" (complexity options))
          = Normal (markers st,
                    mkProcessor (quantizer self) (currentStep self) (totalSteps self)
                      (Some (markerToColor st)))) as Hm.
  { unfold createMarkers. now rewrite Hbuild. }
  split; [exact Hm|].
  destruct (applyWatershed (ColorQuantizer.quantized quantization) (markers st))
    as [watershedMap|e] eqn:Hw.
  - assert (extractRegions
              (mkProcessor (quantizer self) (currentStep self) (totalSteps self)
                 (Some (markerToColor st)))
              watershedMap (ColorQuantizer.quantized quantization)
              (ColorQuantizer.palette quantization) (default 100 (minRegionSize options))
            = Normal []) as Hr.
    { apply extractRegions_none_survive. intros label Hin. exfalso.
      revert Hin. apply uniqueLabels_none. intros y x Hy Hx Hpos.
      destruct (buildMarkers_shape _ _ _ _ _ Hbuild) as (_ & _ & Hdepth).
      destruct (applyWatershed_Normal _ _ _ Hdepth Hw) as [rgb Hcv].
      destruct (Hws rgb _ _ Hcv y x Hy Hx Hpos) as (y' & x' & Hy' & Hx' & Hseed).
      rewrite (Hzero y' x' Hy' Hx') in Hseed. lia. }
    rewrite (process_stages preprocessImage self _ imageData preprocessed options
               onProgress quantization (markers st) watershedMap [] Hquiet Hready Hpre Hq
               Hm Hw Hr).
    cbn [reports outcome]. split; [|reflexivity].
    do 3 right. left.
  - unfold process. rewrite Hready. cbn [negb]. cbv zeta.
    rewrite !Hquiet, Hpre, Hq, Hm, Hw.
    cbn [reports outcome]. split; [|reflexivity].
    do 3 right. left.
Qed.

End NoSeeds.

Section NoSeedsOnFixture.
Import Cv WatershedProcessor PipelineSpec Contract.

Lemma checkerboard_quantization :
  ColorQuantizer.quantize (cv := Fixture.cv) Fixture.checkerboard 2
  = Normal Fixture.checkerboardQuantization.
Proof. vm_compute. reflexivity. Qed.

Lemma checkerboard_markers :
  buildMarkers (cv := Fixture.cv)
    (ColorQuantizer.quantized Fixture.checkerboardQuantization)
    (ColorQuantizer.labels Fixture.checkerboardQuantization) 2 "low"
  = Normal Fixture.checkerboardMarkers.
Proof. vm_compute. reflexivity. Qed.

Lemma checkerboard_watershed :
  applyWatershed (cv := Fixture.cv)
    (ColorQuantizer.quantized Fixture.checkerboardQuantization)
    (markers Fixture.checkerboardMarkers)
  = Normal Fixture.checkerboardWatershed.
Proof. vm_compute. reflexivity. Qed.

Lemma checkerboard_createMarkers :
  createMarkers (cv := Fixture.cv) new
    (ColorQuantizer.quantized Fixture.checkerboardQuantization)
    (ColorQuantizer.labels Fixture.checkerboardQuantization) 2 "low"
  = Normal (markers Fixture.checkerboardMarkers, mkProcessor tt 0 5 (Some ∅)).
Proof. vm_compute. reflexivity. Qed.

Lemma checkerboard_regions :
  extractRegions (cv := Fixture.cv) (mkProcessor tt 0 5 (Some ∅))
    Fixture.checkerboardWatershed
    (ColorQuantizer.quantized Fixture.checkerboardQuantization)
    (ColorQuantizer.palette Fixture.checkerboardQuantization) 4
  = Normal [].
Proof.
  apply extractRegions_none_survive.
  assert (uniqueLabels Fixture.checkerboardWatershed = []) as -> by (vm_compute; reflexivity).
  intros label Hin. now apply elem_of_nil in Hin.
Qed.

Lemma checkerboard_no_seed (y x : nat) :
  (y < rows (markers Fixture.checkerboardMarkers))%nat →
  (x < cols (markers Fixture.checkerboardMarkers))%nat →
  intAt (markers Fixture.checkerboardMarkers) y x = 0.
Proof.
  cbn [Fixture.checkerboardMarkers markers rows cols]. intros Hy Hx.
  destruct y as [|[|[|y]]]; [| | |lia]; destruct x as [|[|[|x]]]; try lia; reflexivity.
Qed.

(** C6, as stated, fails: on the checkerboard no marker is built, the
    watershed is applied all the same, and the run returns normally with
    an empty region list; nothing is thrown. *)
Lemma no_markers_error_counterexample :
  buildMarkers (cv := Fixture.cv)
    (ColorQuantizer.quantized Fixture.checkerboardQuantization)
    (ColorQuantizer.labels Fixture.checkerboardQuantization) 2 "low"
  = Normal Fixture.checkerboardMarkers
  ∧ nextLabel Fixture.checkerboardMarkers - 1 = 0
  ∧ applyWatershed (cv := Fixture.cv)
      (ColorQuantizer.quantized Fixture.checkerboardQuantization)
      (markers Fixture.checkerboardMarkers)
    = Normal Fixture.checkerboardWatershed
  ∧ outcome (process (cv := Fixture.cv) Fixture.preprocessImage new Fixture.checkerboard
               Fixture.checkerboardOptions None)
    = Normal {| regions := []; palette := Fixture.twoGreys; width := 3; height := 3 |}
  ∧ ¬ (∃ e, outcome (process (cv := Fixture.cv) Fixture.preprocessImage new
                       Fixture.checkerboard Fixture.checkerboardOptions None) = Throw e).
Proof.
  assert (outcome (process (cv := Fixture.cv) Fixture.preprocessImage new
                     Fixture.checkerboard Fixture.checkerboardOptions None)
          = Normal {| regions := []; palette := Fixture.twoGreys;
                      width := 3; height := 3 |}) as Hrun.
  { rewrite (process_stages (cv := Fixture.cv) Fixture.preprocessImage new _
               Fixture.checkerboard Fixture.checkerboard Fixture.checkerboardOptions None
               Fixture.checkerboardQuantization (markers Fixture.checkerboardMarkers)
               Fixture.checkerboardWatershed [] (λ _ _, eq_refl) eq_refl eq_refl
               checkerboard_quantization
               checkerboard_createMarkers checkerboard_watershed checkerboard_regions).
    reflexivity. }
  split; [exact checkerboard_markers|]. split; [reflexivity|].
  split; [exact checkerboard_watershed|]. split; [exact Hrun|].
  intros [e He]. rewrite Hrun in He. discriminate He.
Qed.

Lemma process_without_seeds_witness :
  mkProgress 60 "Applying watershed..."
    ∈ reports (process (cv := Fixture.cv) Fixture.preprocessImage new Fixture.checkerboard
                 Fixture.checkerboardOptions None).
Proof.
  exact (proj1 (proj2 (process_without_seeds (cv := Fixture.cv) Fixture.preprocessImage
                         new Fixture.checkerboard Fixture.checkerboard
                         Fixture.checkerboardOptions None Fixture.checkerboardQuantization
                         Fixture.checkerboardMarkers fixture_watershedKeepsSeedIds
                         (λ _ _, eq_refl) eq_refl eq_refl checkerboard_quantization checkerboard_markers
                         checkerboard_no_seed))).
Defined.

End NoSeedsOnFixture.

Section NoRegions.
Import Cv WatershedProcessor PipelineSpec Contract.
Context `{cv : OpenCV}.
Context (preprocessImage : ImageData → Z → Completion ImageData).
Context (image : Type).
Context (getImageData : image → Z → Completion ImageData).
Context (render : ProcessResult → App.Settings → Completion unit).

(** C8.  When no label of the segmentation reaches the minimum size,
    [extractRegions] returns the empty list without throwing, the run
    returns normally with that empty list, and [App.generate] stores the
    result, hides the loading overlay and shows the warning "No regions
    detected..." instead of the error toast. *)
Theorem generate_no_regions_soft_outcome (st : App.State image)
    (img : image) (imageData preprocessed : ImageData)
    (quantization : ColorQuantizer.QuantizeResult) (markers watershedMap : Mat)
    (self' : Processor) :
  let settings := App.settings image st in
  App.currentImage image st = Some img →
  getImageData img (App.maxSize settings) = Normal imageData →
  ready = true →
  preprocessImage imageData (App.maxSize settings) = Normal preprocessed →
  ColorQuantizer.quantize preprocessed (App.colorCount settings) = Normal quantization →
  createMarkers new (ColorQuantizer.quantized quantization)
    (ColorQuantizer.labels quantization) (App.colorCount settings)
    (App.complexity settings) = Normal (markers, self') →
  applyWatershed (ColorQuantizer.quantized quantization) markers = Normal watershedMap →
  (∀ label, label ∈ uniqueLabels watershedMap →
            pixelCount watershedMap label < App.minRegionSize settings) →
  let empty := {| regions := [];
                  palette := ColorQuantizer.palette quantization;
                  width := Cv.width preprocessed;
                  height := Cv.height preprocessed |} in
  let shown := App.generate preprocessImage image getImageData render st in
  extractRegions self' watershedMap (ColorQuantizer.quantized quantization)
    (ColorQuantizer.palette quantization) (App.minRegionSize settings) = Normal []
  ∧ outcome (process preprocessImage new imageData (App.optionsOf settings)
               (Some App.showProgress)) = Normal empty
  ∧ App.toasts image shown
    = [App.mkToast "No regions detected. Try different settings or a different image."
         "warning" 5000]
  ∧ App.currentResult image (App.state image shown) = Some empty
  ∧ App.loadingOverlayHidden image (App.state image shown) = true.
Proof.
  cbv zeta. intros Himg Hdata Hready Hpre Hq Hm Hw Hsmall.
  pose proof (extractRegions_none_survive self' watershedMap
                (ColorQuantizer.quantized quantization)
                (ColorQuantizer.palette quantization)
                (App.minRegionSize (App.settings image st)) Hsmall) as Hr.
  pose proof (process_stages preprocessImage new self' imageData preprocessed
                (App.optionsOf (App.settings image st)) (Some App.showProgress)
                quantization markers watershedMap [] showProgress_returns
                Hready Hpre Hq Hm Hw Hr) as Hrun.
  split; [exact Hr|]. split; [now rewrite Hrun|].
  unfold App.generate. rewrite Himg, Hdata, Hrun. cbn [outcome regions length].
  destruct (decide (0%nat = 0%nat)) as [_|Hn]; [|now contradiction Hn].
  cbn [App.toasts App.state App.currentResult App.loadingOverlayHidden].
  repeat split.
Qed.

End NoRegions.

Section NoRegionsOnFixture.
Import Cv WatershedProcessor PipelineSpec Contract.

Lemma generate_no_regions_soft_outcome_witness :
  App.toasts ImageData
    (App.generate (cv := Fixture.cv) Fixture.preprocessImage ImageData
       Fixture.getImageData Fixture.render
       (App.mkState ImageData (Some Fixture.checkerboard) None
          Fixture.checkerboardSettings false))
  = [App.mkToast "No regions detected. Try different settings or a different image."
       "warning" 5000].
Proof.
  refine (proj1 (proj2 (proj2
            (generate_no_regions_soft_outcome (cv := Fixture.cv) Fixture.preprocessImage
               ImageData Fixture.getImageData Fixture.render
               (App.mkState ImageData (Some Fixture.checkerboard) None
                  Fixture.checkerboardSettings false)
               Fixture.checkerboard Fixture.checkerboard Fixture.checkerboard
               Fixture.checkerboardQuantization (markers Fixture.checkerboardMarkers)
               Fixture.checkerboardWatershed (mkProcessor tt 0 5 (Some ∅))
               eq_refl eq_refl eq_refl eq_refl checkerboard_quantization
               checkerboard_createMarkers checkerboard_watershed _)))).
  assert (uniqueLabels Fixture.checkerboardWatershed = []) as -> by (vm_compute; reflexivity).
  intros label Hin. now apply elem_of_nil in Hin.
Defined.

End NoRegionsOnFixture.

(** ** Where the colour map is kept *)

Section HiddenState.
Import Cv WatershedProcessor PipelineSpec Contract.

(** C4, as stated, fails: [createMarkers] changes the processor (it leaves
    the colour map in [_markerToColor]), and [extractRegions] gives
    different results for the same arguments on two processors that differ
    in that field only. *)
Lemma markerToColor_instance_state_counterexample :
  createMarkers (cv := Fixture.cv) new Fixture.twoToneRgb Fixture.twoToneLabels 2 "extreme"
    = Normal (Fixture.twoToneMarkers, Fixture.twoToneProcessor)
  ∧ _markerToColor new = None
  ∧ _markerToColor Fixture.twoToneProcessor = Some {[ 1 := 1; 2 := 2 ]}
  ∧ Fixture.twoToneProcessor ≠ new
  ∧ extractRegions (cv := Fixture.cv) new Fixture.twoToneWatershed Fixture.twoToneRgb
      Fixture.twoGreys 4
    ≠ extractRegions (cv := Fixture.cv) Fixture.twoToneProcessor Fixture.twoToneWatershed
        Fixture.twoToneRgb Fixture.twoGreys 4.
Proof.
  split; [vm_compute; reflexivity|]. split; [reflexivity|]. split; [reflexivity|].
  split; [discriminate|]. intros Heq.
  apply (f_equal (λ c, match c with
                       | Normal found => map colorId found
                       | Throw _ => []
                       end)) in Heq.
  vm_compute in Heq. discriminate Heq.
Qed.

Context `{cv : OpenCV}.

(** C4, amended.  [createMarkers] returns the marker image only; it stores
    the colour map it built in the processor's field [_markerToColor] and
    leaves the other fields as they were.  [extractRegions] takes the map
    from that field: its result depends on its arguments and on that field
    of the processor, and on nothing else. *)
Theorem markerToColor_kept_on_processor (self self' : Processor)
    (quantized labels markers : Mat) (numColors : Z) (complexity : string) :
  createMarkers self quantized labels numColors complexity = Normal (markers, self') →
  (∃ st, buildMarkers quantized labels numColors complexity = Normal st
         ∧ markers = WatershedProcessor.markers st
         ∧ _markerToColor self' = Some (markerToColor st))
  ∧ quantizer self' = quantizer self
  ∧ currentStep self' = currentStep self
  ∧ totalSteps self' = totalSteps self
  ∧ ∀ (other : Processor) (watershedMap quantized' : Mat)
      (palette : list ColorQuantizer.PaletteEntry) (minRegionSize : Z),
      _markerToColor other = _markerToColor self' →
      extractRegions other watershedMap quantized' palette minRegionSize
      = extractRegions self' watershedMap quantized' palette minRegionSize.
Proof.
  intros Hrun. apply createMarkers_Normal in Hrun as (st & Hbuild & -> & ->).
  cbn [_markerToColor quantizer currentStep totalSteps].
  split; [now exists st|]. repeat split.
  intros other watershedMap quantized' palette minRegionSize Hother.
  unfold extractRegions. now rewrite Hother.
Qed.

End HiddenState.

Section HiddenStateOnFixture.
Import Cv WatershedProcessor PipelineSpec Contract.

Lemma markerToColor_kept_on_processor_witness :
  ∃ st,
    buildMarkers (cv := Fixture.cv) Fixture.twoToneRgb Fixture.twoToneLabels 2 "extreme"
      = Normal st
    ∧ Fixture.twoToneMarkers = markers st
    ∧ _markerToColor Fixture.twoToneProcessor = Some (markerToColor st).
Proof.
  refine (proj1 (markerToColor_kept_on_processor (cv := Fixture.cv) new
                   Fixture.twoToneProcessor Fixture.twoToneRgb Fixture.twoToneLabels
                   Fixture.twoToneMarkers 2 "extreme" _)).
  vm_compute. reflexivity.
Defined.

End HiddenStateOnFixture.

(** * Part III: further properties of the code *)

(** ** Colours as text (Utils) *)

Section HexColours.
Import Utils.

Lemma hexDigit_range (c : ascii) (d : Z) : hexDigit c = Some d → 0 ≤ d ≤ 15.
Proof.
  unfold hexDigit. cbv zeta.
  repeat (destruct (decide _)); intros [= <-]; lia.
Qed.

Lemma hexPair_range (hi lo : ascii) (v : Z) : hexPair hi lo = Some v → 0 ≤ v ≤ 255.
Proof.
  unfold hexPair.
  destruct (hexDigit hi) as [h|] eqn:Hh; [|discriminate].
  destruct (hexDigit lo) as [l|] eqn:Hl; [|discriminate].
  cbn. intros [= <-].
  apply hexDigit_range in Hh. apply hexDigit_range in Hl. lia.
Qed.

(** The two characters [rgbToHex] writes for a byte read back as the byte. *)
Lemma hex_of_byte (x : Z) :
  0 ≤ x ≤ 255 →
  ∃ hi lo,
    (let hex := toHex x in
     if decide (String.length hex = 1%nat) then "0" +:+ hex else hex)
    = String hi (String lo "")
    ∧ hexPair hi lo = Some x.
Proof.
  intros Hx.
  assert (forallb
            (λ x, match (let hex := toHex x in
                         if decide (String.length hex = 1%nat) then "0" +:+ hex else hex)
                  with
                  | String hi (String lo "") => bool_decide (hexPair hi lo = Some x)
                  | _ => false
                  end)
            (seqZ 0 256) = true) as Hall by (vm_compute; reflexivity).
  rewrite forallb_forall in Hall.
  assert (In x (seqZ 0 256)) as Hin by (apply list_elem_of_In, elem_of_seqZ; lia).
  specialize (Hall x Hin). cbv beta in Hall. revert Hall.
  destruct (let hex := toHex x in
            if decide (String.length hex = 1%nat) then "0" +:+ hex else hex)
    as [|hi [|lo [|c rest]]]; intros Hall; try discriminate Hall.
  exists hi, lo. split; [reflexivity|].
  apply bool_decide_eq_true in Hall. exact Hall.
Qed.

(** What [rgbToHex] writes for three bytes: ['#'] and their digits. *)
Lemma rgbToHex_digits (r g b : Z) :
  0 ≤ r ≤ 255 → 0 ≤ g ≤ 255 → 0 ≤ b ≤ 255 →
  ∃ r1 r2 g1 g2 b1 b2,
    rgbToHex r g b
    = String "#" (String r1 (String r2 (String g1 (String g2 (String b1 (String b2 ""))))))
    ∧ hexPair r1 r2 = Some r ∧ hexPair g1 g2 = Some g ∧ hexPair b1 b2 = Some b.
Proof.
  intros Hr Hg Hb. unfold rgbToHex. cbv zeta. cbv beta.
  destruct (hex_of_byte r Hr) as (r1 & r2 & Er & Hpr).
  destruct (hex_of_byte g Hg) as (g1 & g2 & Eg & Hpg).
  destruct (hex_of_byte b Hb) as (b1 & b2 & Eb & Hpb).
  cbv zeta in Er, Eg, Eb. rewrite Er, Eg, Eb.
  exists r1, r2, g1, g2, b1, b2. split; [reflexivity | now repeat split].
Qed.

Lemma rgbToHex_bytes (r g b : Z) :
  0 ≤ r ≤ 255 → 0 ≤ g ≤ 255 → 0 ≤ b ≤ 255 →
  String.length (rgbToHex r g b) = 7%nat
  ∧ hexToRgb (rgbToHex r g b) = Some (r, g, b).
Proof.
  intros Hr Hg Hb.
  destruct (rgbToHex_digits r g b Hr Hg Hb)
    as (r1 & r2 & g1 & g2 & b1 & b2 & -> & Hpr & Hpg & Hpb).
  split; [reflexivity|]. unfold hexToRgb.
  destruct (decide ("#"%char = "#"%char)) as [_|Hn]; [|now contradiction Hn].
  cbv zeta. rewrite Hpr, Hpg, Hpb. reflexivity.
Qed.

(** X1.  For channels that are bytes, [rgbToHex] writes ['#'] and six
    characters, and [hexToRgb] reads the three channels back from them. *)
Theorem hexToRgb_rgbToHex (r g b : Z) :
  0 ≤ r ≤ 255 → 0 ≤ g ≤ 255 → 0 ≤ b ≤ 255 →
  String.length (rgbToHex r g b) = 7%nat
  ∧ hexToRgb (rgbToHex r g b) = Some (r, g, b).
Proof.
  intros Hr Hg Hb.
  destruct (rgbToHex_digits r g b Hr Hg Hb)
    as (r1 & r2 & g1 & g2 & b1 & b2 & Hhex & Hpr & Hpg & Hpb).
  rewrite Hhex. split; [reflexivity|]. unfold hexToRgb.
  destruct (decide ("#"%char = "#"%char)) as [_|Hn]; [|now contradiction Hn].
  cbv zeta. now rewrite Hpr, Hpg, Hpb.
Qed.

Lemma hexToRgb_rgbToHex_witness :
  hexToRgb (rgbToHex 255 128 0) = Some (255, 128, 0).
Proof.
  exact (proj2 (hexToRgb_rgbToHex 255 128 0 ltac:(lia) ltac:(lia) ltac:(lia))).
Defined.

(** X2.  [hexToRgb] answers only a text of six hexadecimal digits, with or
    without a leading ['#']: any other length gives [null], and every
    channel it returns is a byte. *)
Theorem hexToRgb_channels (hex : string) (r g b : Z) :
  hexToRgb hex = Some (r, g, b) →
  (0 ≤ r ≤ 255 ∧ 0 ≤ g ≤ 255 ∧ 0 ≤ b ≤ 255)
  ∧ (String.length hex = 6%nat
     ∨ String.length hex = 7%nat ∧ ∃ rest, hex = String "#" rest).
Proof.
  unfold hexToRgb. cbv zeta. intros H.
  assert (∀ digits,
            match digits with
            | String r1 (String r2 (String g1 (String g2 (String b1 (String b2 ""))))) =>
                r ← hexPair r1 r2; g ← hexPair g1 g2; b ← hexPair b1 b2; Some (r, g, b)
            | _ => None
            end = Some (r, g, b) →
            (0 ≤ r ≤ 255 ∧ 0 ≤ g ≤ 255 ∧ 0 ≤ b ≤ 255) ∧ String.length digits = 6%nat)
    as Hdigits.
  { intros [|r1 [|r2 [|g1 [|g2 [|b1 [|b2 [|c rest]]]]]]]; try discriminate.
    destruct (hexPair r1 r2) as [vr|] eqn:Hvr; [|discriminate].
    destruct (hexPair g1 g2) as [vg|] eqn:Hvg; [|discriminate].
    destruct (hexPair b1 b2) as [vb|] eqn:Hvb; [|discriminate].
    cbn. intros [= <- <- <-].
    apply hexPair_range in Hvr. apply hexPair_range in Hvg. apply hexPair_range in Hvb.
    now repeat split. }
  destruct hex as [|c rest].
  - discriminate H.
  - destruct (decide (c = "#"%char)) as [->|Hc].
    + apply (Hdigits rest) in H as [Hch Hlen]. split; [exact Hch|]. right.
      split; [cbn [String.length]; now rewrite Hlen | now exists rest].
    + apply (Hdigits (String c rest)) in H as [Hch Hlen]. split; [exact Hch|]. now left.
Qed.

Lemma hexToRgb_channels_witness :
  String.length "#ff8000" = 6%nat
  ∨ String.length "#ff8000" = 7%nat ∧ ∃ rest, "#ff8000" = String "#" rest.
Proof.
  exact (proj2 (hexToRgb_channels "#ff8000" 255 128 0 eq_refl)).
Defined.

(** X3.  [getColorName] gives one of fourteen names, and a name of the grey
    scale exactly for the colours whose channels lie less than 30 apart. *)
Theorem getColorName_grey_scale (r g b : Z) :
  getColorName r g b
    ∈ ["Black"; "Dark Gray"; "Gray"; "Light Gray"; "White"; "Yellow"; "Purple"; "Red";
       "Dark Red"; "Cyan"; "Green"; "Dark Green"; "Blue"; "Dark Blue"]
  ∧ (getColorName r g b ∈ ["Black"; "Dark Gray"; "Gray"; "Light Gray"; "White"]
     ↔ Z.max (Z.max r g) b - Z.min (Z.min r g) b < 30).
Proof.
  unfold getColorName. cbv zeta.
  destruct (decide (Z.max (Z.max r g) b - Z.min (Z.min r g) b < 30)) as [Hgrey|Hcolour].
  - repeat (destruct (Js.Qltb _ _)); (split; [|split; [trivial|intros _]]);
      repeat first [apply list_elem_of_here | apply list_elem_of_further].
  - repeat (destruct (decide _));
      (split; [repeat first [apply list_elem_of_here | apply list_elem_of_further]|]);
      (split; [|lia]); intros Hin; exfalso;
      repeat (apply elem_of_cons in Hin as [Hin|Hin]; [discriminate Hin|]);
      now apply elem_of_nil in Hin.
Qed.

(** X4.  [clamp] returns a number between the bounds when they are in
    order (the value itself when it lies between them), and the upper
    bound whenever the bounds are the wrong way round. *)
Theorem clamp_bounds (value min max : Q) :
  ((min <= max)%Q →
   (min <= clamp value min max)%Q ∧ (clamp value min max <= max)%Q
   ∧ ((min <= value)%Q → (value <= max)%Q → (clamp value min max == value)%Q))
  ∧ ((max < min)%Q → clamp value min max = max).
Proof.
  unfold clamp, Js.Math_min, Js.Math_max. split.
  - intros Horder.
    destruct (Qle_bool value min) eqn:E1.
    + apply Qle_bool_iff in E1.
      destruct (Qle_bool min max) eqn:E2.
      * split; [apply Qle_refl|]. split; [exact Horder|].
        intros H1 _. now apply Qle_antisym.
      * apply Qle_bool_iff in Horder. congruence.
    + assert (min < value)%Q as Hlt.
      { apply Qnot_le_lt. intros H. apply Qle_bool_iff in H. congruence. }
      destruct (Qle_bool value max) eqn:E2.
      * apply Qle_bool_iff in E2. split; [now apply Qlt_le_weak|].
        split; [exact E2|]. intros _ _. reflexivity.
      * assert (max < value)%Q as Hgt.
        { apply Qnot_le_lt. intros H. apply Qle_bool_iff in H. congruence. }
        split; [exact Horder|]. split; [apply Qle_refl|].
        intros _ H2. exfalso. apply (Qlt_not_le _ _ Hgt H2).
  - intros Hinv.
    destruct (Qle_bool value min) eqn:E1.
    + destruct (Qle_bool min max) eqn:E2; [|reflexivity].
      apply Qle_bool_iff in E2. exfalso. apply (Qlt_not_le _ _ Hinv E2).
    + destruct (Qle_bool value max) eqn:E2; [|reflexivity].
      apply Qle_bool_iff in E2.
      assert (min < value)%Q as Hlt.
      { apply Qnot_le_lt. intros H. apply Qle_bool_iff in H. congruence. }
      exfalso. apply (Qlt_not_le _ _ Hinv). apply Qlt_le_weak.
      now apply (Qlt_le_trans _ value).
Qed.

Lemma clamp_bounds_witness :
  (0 <= clamp (3 # 2) 0 1)%Q ∧ clamp (3 # 2) 1 0 = 0%Q.
Proof.
  split.
  - apply (proj1 (clamp_bounds (3 # 2) 0 1)). discriminate.
  - apply (proj2 (clamp_bounds (3 # 2) 1 0)). reflexivity.
Defined.

End HexColours.

(** ** The palette and the quantized image *)

Section QuantizerResult.
Import Cv ColorQuantizer QuantizerSpec Samples.
Context `{cv : OpenCV}.

(** What a call of [quantize] that returns has gone through. *)
Lemma quantize_Normal (imageData : ImageData) (numColors : Z) (res : QuantizeResult) :
  quantize imageData numColors = Normal res →
  ∃ rgbMat lab lbls centers,
    cvtColor (matFromImageData imageData) COLOR_RGBA2RGB = Normal rgbMat
    ∧ cvtColor rgbMat COLOR_RGB2Lab = Normal lab
    ∧ kmeans (prepareSamples lab) numColors criteria 3 KMEANS_PP_CENTERS
      = Normal (lbls, centers)
    ∧ 0 ≤ numColors
    ∧ labels res = lbls
    ∧ palette res
      = map (paletteEntry
               (foldl (addPixel rgbMat lbls numColors)
                  (replicate (Z.to_nat numColors) (mkSum 0 0 0 0))
                  (seq 0 (rows rgbMat * cols rgbMat))))
          (seq 0 (Z.to_nat numColors))
    ∧ forEach (paintPixel rgbMat lbls (palette res))
        (zeros (rows rgbMat) (cols rgbMat) CV_8U 3) (seq 0 (rows rgbMat * cols rgbMat))
      = Normal (quantized res).
Proof.
  unfold quantize. destruct ready; cbn [negb]; [|discriminate].
  destruct (decide (channels (matFromImageData imageData) = 4%nat)) as [_|Hch];
    [|now contradiction Hch].
  destruct (cvtColor (matFromImageData imageData) COLOR_RGBA2RGB) as [rgbMat|e] eqn:Hrgb;
    cbn [rethrow mbind completion_bind Js.bind]; [|discriminate].
  destruct (cvtColor rgbMat COLOR_RGB2Lab) as [lab|e] eqn:Hlab;
    cbn [rethrow mbind completion_bind Js.bind]; [|discriminate].
  destruct (kmeans (prepareSamples lab) numColors criteria 3 KMEANS_PP_CENTERS)
    as [[lbls centers]|e] eqn:Hkm;
    cbn [rethrow mbind completion_bind Js.bind]; [|discriminate].
  destruct (decide (numColors < 0)) as [|Hpos]; [discriminate|].
  destruct (forEach _ _ _) as [q|e] eqn:Hq; cbn [mbind completion_bind Js.bind];
    [|discriminate].
  intros [= <-]. cbn [labels palette quantized].
  exists rgbMat, lab, lbls, centers. repeat split; trivial. lia.
Qed.

Lemma total_bytes (values : list Z) :
  Forall byte values → 0 ≤ total values ≤ 255 * Z.of_nat (length values).
Proof.
  unfold total. induction 1 as [|v values Hv _ IH]; cbn [foldr length]; [lia|].
  unfold byte in Hv. lia.
Qed.

Lemma Math_round_byte (s n : Z) :
  0 < n → 0 ≤ s ≤ 255 * n → byte (Js.Math_round (inject_Z s / inject_Z n)).
Proof.
  intros Hn Hs. unfold Js.Math_round, byte.
  assert (0 < inject_Z n)%Q as Hnq.
  { change 0%Q with (inject_Z 0). rewrite <- Zlt_Qlt. exact Hn. }
  assert (0 <= inject_Z s / inject_Z n)%Q as Hlow.
  { apply Qle_shift_div_l; [exact Hnq|]. rewrite Qmult_0_l.
    change 0%Q with (inject_Z 0). rewrite <- Zle_Qle. lia. }
  assert (inject_Z s / inject_Z n <= 255)%Q as Hhigh.
  { apply Qle_shift_div_r; [exact Hnq|].
    change 255%Q with (inject_Z 255). rewrite <- inject_Z_mult, <- Zle_Qle. lia. }
  split.
  - change 0 with (Qfloor 0). apply Qfloor_resp_le.
    apply (Qle_trans _ (inject_Z s / inject_Z n)); [exact Hlow|].
    rewrite <- (Qplus_0_r (inject_Z s / inject_Z n)) at 1.
    apply Qplus_le_r. discriminate.
  - change 255 with (Qfloor (255 + (1 # 2))). apply Qfloor_resp_le.
    apply Qplus_le_l. exact Hhigh.
Qed.

Lemma pixelChannel_byte (img : Mat) (p k : nat) :
  Forall byte (data img) → byte (pixelChannel img p k).
Proof.
  intros Hbytes. unfold pixelChannel.
  destruct (data img !! (p * channels img + k)%nat) as [v|] eqn:E; cbn [default].
  - rewrite Forall_lookup in Hbytes. exact (Hbytes _ _ E).
  - unfold byte. lia.
Qed.

(** The colour of a palette entry is made of bytes. *)
Lemma average_byte (img lbls : Mat) (ps : list nat) (i : Z) :
  Forall byte (data img) →
  let avg := average (visited img lbls ps i (mkSum 0 0 0 0)) in
  byte (r avg) ∧ byte (g avg) ∧ byte (b avg).
Proof.
  intros Hbytes. cbv zeta. unfold average, visited. cbv zeta.
  cbn [count sum_r sum_g sum_b]. rewrite !Z.add_0_l.
  set (members := filter (λ p, intAt lbls p 0 = i) ps).
  destruct (decide (Z.of_nat (length members) > 0)) as [Hpos|_]; cbn [r g b].
  - repeat split;
      (apply Math_round_byte; [lia|]);
      match goal with
      | |- _ ≤ total (map ?f members) ≤ _ =>
          pose proof (total_bytes (map f members)) as Ht;
          rewrite length_map in Ht; apply Ht, Forall_map, Forall_forall;
          intros p _; now apply pixelChannel_byte
      end.
  - unfold byte. repeat split; lia.
Qed.

Lemma palette_entry (imageData : ImageData) (numColors : Z) (res : QuantizeResult)
    (i : nat) (entry : PaletteEntry) :
  quantize imageData numColors = Normal res →
  palette res !! i = Some entry →
  ∃ rgbMat,
    cvtColor (matFromImageData imageData) COLOR_RGBA2RGB = Normal rgbMat
    ∧ Z.of_nat i < numColors
    ∧ id entry = Z.of_nat i + 1
    ∧ rgb entry
      = average (visited rgbMat (labels res) (seq 0 (rows rgbMat * cols rgbMat))
                   (Z.of_nat i) (mkSum 0 0 0 0))
    ∧ hex entry = Utils.rgbToHex (r (rgb entry)) (g (rgb entry)) (b (rgb entry))
    ∧ name entry = Utils.getColorName (r (rgb entry)) (g (rgb entry)) (b (rgb entry)).
Proof.
  intros Hq Hlook.
  apply quantize_Normal in Hq
    as (rgbMat & lab & lbls & centers & Hrgb & _ & _ & HK & Hl & Hpal & _).
  exists rgbMat. split; [exact Hrgb|].
  rewrite Hpal, list_lookup_fmap in Hlook.
  destruct (seq 0 (Z.to_nat numColors) !! i) as [j|] eqn:Hj; [|discriminate].
  apply lookup_seq in Hj as [-> Hlt]. cbn in Hlook. injection Hlook as <-.
  split; [lia|]. unfold paletteEntry. cbv zeta. cbn [id rgb hex name].
  rewrite foldl_addPixel by lia. rewrite lookup_replicate_2 by lia.
  cbn [fmap option_fmap option_map default]. rewrite Hl. repeat split.
Qed.

(** X5.  The palette [quantize] returns has one entry per requested colour,
    numbered 1..K in order; when the image holds bytes, so does every
    palette colour, and the entry's [hex] is ['#'] and six digits that
    [hexToRgb] reads back as the entry's colour. *)
Theorem quantize_palette_wellformed (imageData : ImageData) (numColors : Z)
    (res : QuantizeResult) :
  cvtColorKeepsBytes →
  Forall byte (pixels imageData) →
  quantize imageData numColors = Normal res →
  length (palette res) = Z.to_nat numColors
  ∧ ∀ i entry,
      palette res !! i = Some entry →
      id entry = Z.of_nat i + 1
      ∧ byte (r (rgb entry)) ∧ byte (g (rgb entry)) ∧ byte (b (rgb entry))
      ∧ String.length (hex entry) = 7%nat
      ∧ Utils.hexToRgb (hex entry)
        = Some (r (rgb entry), g (rgb entry), b (rgb entry)).
Proof.
  intros Hcvt Hbytes Hq. split.
  { apply quantize_Normal in Hq
      as (rgbMat & lab & lbls & centers & _ & _ & _ & _ & _ & Hpal & _).
    now rewrite Hpal, length_map, length_seq. }
  intros i entry Hlook.
  destruct (palette_entry _ _ _ _ _ Hq Hlook)
    as (rgbMat & Hrgb & _ & Hid & Hcolour & Hhex & _).
  split; [exact Hid|].
  assert (byte (r (rgb entry)) ∧ byte (g (rgb entry)) ∧ byte (b (rgb entry)))
    as (Hr & Hg & Hb).
  { rewrite Hcolour. apply average_byte.
    exact (Hcvt (matFromImageData imageData) _ _ Hbytes Hrgb). }
  split; [exact Hr|]. split; [exact Hg|]. split; [exact Hb|].
  rewrite Hhex. now apply rgbToHex_bytes.
Qed.

(** X6.  A cluster no pixel is assigned to gets the fallback entry: colour
    (128, 128, 128), ['#808080'], 'Gray'. *)
Theorem quantize_empty_cluster (imageData : ImageData) (numColors : Z)
    (res : QuantizeResult) (i : nat) (entry : PaletteEntry) (rgbMat : Mat) :
  quantize imageData numColors = Normal res →
  palette res !! i = Some entry →
  cvtColor (matFromImageData imageData) COLOR_RGBA2RGB = Normal rgbMat →
  cluster (labels res) (rows rgbMat * cols rgbMat) (Z.of_nat i) = [] →
  entry = {| id := Z.of_nat i + 1; rgb := mkRgb 128 128 128;
             hex := "#808080"; name := "Gray" |}.
Proof.
  intros Hq Hlook Hrgb Hempty.
  destruct (palette_entry _ _ _ _ _ Hq Hlook)
    as (rgbMat' & Hrgb' & _ & Hid & Hcolour & Hhex & Hname).
  rewrite Hrgb in Hrgb'. injection Hrgb' as <-.
  assert (rgb entry = mkRgb 128 128 128) as Hgrey.
  { rewrite Hcolour. unfold average, visited. cbv zeta. cbn [count].
    unfold cluster in Hempty. rewrite Hempty. cbn [length].
    destruct (decide (0 + Z.of_nat 0 > 0)) as [Hpos|_]; [lia | reflexivity]. }
  destruct entry as [eid ergb ehex ename]. cbn [id rgb hex name] in *.
  clear Hcolour Hlook. rewrite Hgrey in Hhex, Hname. cbn [r g b] in Hhex, Hname.
  rewrite Hid, Hgrey, Hhex, Hname. vm_compute. reflexivity.
Qed.

End QuantizerResult.

Section QuantizerResultOnFixture.
Import Cv ColorQuantizer QuantizerSpec Samples.

Lemma dropAlpha_bytes (bytes : list Z) :
  Forall byte bytes → Forall byte (Fixture.dropAlpha bytes).
Proof.
  revert bytes. fix IH 1. intros [|r0 [|g0 [|b0 [|a0 rest]]]] H;
    cbn [Fixture.dropAlpha]; [constructor..|].
  apply Forall_cons in H as [Hr H]. apply Forall_cons in H as [Hg H].
  apply Forall_cons in H as [Hb H]. apply Forall_cons in H as [_ H].
  repeat (constructor; [assumption|]). apply IH, H.
Qed.

Lemma fixture_cvtColorKeepsBytes : cvtColorKeepsBytes (cv := Fixture.cv).
Proof.
  intros m code m' Hbytes. cbn [cvtColor Fixture.cv]. unfold Fixture.cvtColor.
  destruct (decide (rows m * cols m = 0)%nat); [discriminate|].
  destruct code; intros [= <-]; cbn [data]; [now apply dropAlpha_bytes | exact Hbytes].
Qed.

Lemma checkerboard_bytes : Forall byte (pixels Fixture.checkerboard).
Proof.
  set (l := pixels Fixture.checkerboard). vm_compute in l. subst l.
  repeat (constructor; [unfold byte; lia|]). constructor.
Qed.

Lemma quantize_palette_wellformed_witness :
  length (palette Fixture.checkerboardQuantization) = 2%nat.
Proof.
  exact (proj1 (quantize_palette_wellformed (cv := Fixture.cv) Fixture.checkerboard 2
                  Fixture.checkerboardQuantization fixture_cvtColorKeepsBytes
                  checkerboard_bytes checkerboard_quantization)).
Defined.

End QuantizerResultOnFixture.

Section QuantizedImage.
Import Cv ColorQuantizer QuantizerSpec Samples.
Context `{cv : OpenCV}.

(** The shape of the image the painting loop works on. *)
Lemma paintPixel_store (img lbls : Mat) (pal : list PaletteEntry) (q q' : Mat)
    (p : nat) :
  cols q = cols img → channels q = 3%nat → (0 < cols img)%nat →
  paintPixel img lbls pal q p = Normal q' →
  ∃ entry,
    index pal (intAt lbls p 0) = Some entry
    ∧ rows q' = rows q ∧ cols q' = cols q ∧ channels q' = channels q
    ∧ depth q' = depth q
    ∧ data q'
      = <[(3 * p + 2)%nat := wrap (depth q) (b (rgb entry))]>
          (<[(3 * p + 1)%nat := wrap (depth q) (g (rgb entry))]>
             (<[(3 * p)%nat := wrap (depth q) (r (rgb entry))]> (data q))).
Proof.
  intros Hcols Hch Hpos. unfold paintPixel. cbv zeta.
  destruct (index pal (intAt lbls p 0)) as [entry|]; [|discriminate].
  intros [= <-]. exists entry. split; [reflexivity|].
  unfold store, offset. cbn [rows cols channels depth data].
  repeat split. rewrite Hcols, Hch.
  assert ((p `div` cols img * (cols img * 3) + p `mod` cols img * 3 = 3 * p)%nat) as ->.
  { pose proof (Nat.div_mod_eq p (cols img)). nia. }
  now rewrite Nat.add_0_r.
Qed.

Lemma forEach_paintPixel (img lbls : Mat) (pal : list PaletteEntry) (ps : list nat)
    (q q' : Mat) :
  cols q = cols img → channels q = 3%nat → (0 < cols img)%nat →
  Forall (λ p, (3 * p + 2 < length (data q))%nat) ps →
  forEach (paintPixel img lbls pal) q ps = Normal q' →
  (rows q' = rows q ∧ cols q' = cols q ∧ channels q' = channels q
   ∧ depth q' = depth q ∧ length (data q') = length (data q))
  ∧ (∀ p, p ∈ ps →
       ∃ entry,
         index pal (intAt lbls p 0) = Some entry
         ∧ data q' !! (3 * p)%nat = Some (wrap (depth q) (r (rgb entry)))
         ∧ data q' !! (3 * p + 1)%nat = Some (wrap (depth q) (g (rgb entry)))
         ∧ data q' !! (3 * p + 2)%nat = Some (wrap (depth q) (b (rgb entry))))
  ∧ (∀ idx, (∀ p, p ∈ ps → idx ≠ (3 * p)%nat ∧ idx ≠ (3 * p + 1)%nat
                           ∧ idx ≠ (3 * p + 2)%nat) →
       data q' !! idx = data q !! idx).
Proof.
  intros Hcols Hch Hpos. revert q Hcols Hch.
  induction ps as [|a ps IH]; intros q Hcols Hch Hfit; cbn [forEach].
  - intros [= <-]. split; [repeat split|].
    split; [intros p Hp; now apply elem_of_nil in Hp | reflexivity].
  - destruct (paintPixel img lbls pal q a) as [q1|e] eqn:Hstep;
      cbn [mbind completion_bind Js.bind]; [|discriminate].
    intros Hrest.
    destruct (paintPixel_store _ _ _ _ _ _ Hcols Hch Hpos Hstep)
      as (entry & Hentry & Hr1 & Hc1 & Hch1 & Hd1 & Hdata1).
    apply Forall_cons in Hfit as [Ha Hfit].
    assert (length (data q1) = length (data q)) as Hlen1.
    { rewrite Hdata1. now rewrite !length_insert. }
    assert (cols q1 = cols img) as Hcols1 by congruence.
    assert (channels q1 = 3%nat) as Hch1' by congruence.
    rewrite <- Hlen1 in Hfit.
    destruct (IH q1 Hcols1 Hch1' Hfit Hrest)
      as ((Hr & Hc & Hch' & Hd & Hlen) & Hpix & Hkeep).
    split; [repeat split; congruence|]. split.
    + intros p Hp. destruct (decide (p ∈ ps)) as [Hin|Hout].
      * destruct (Hpix p Hin) as (entry' & ? & ? & ? & ?). exists entry'.
        rewrite <- Hd1. now repeat split.
      * apply elem_of_cons in Hp as [-> | Hp]; [|contradiction].
        exists entry. split; [exact Hentry|].
        assert (∀ j, (j < 3)%nat →
                  data q' !! (3 * a + j)%nat = data q1 !! (3 * a + j)%nat) as Hsame.
        { intros j Hj. apply Hkeep. intros p' Hp'.
          assert (p' ≠ a) by (intros ->; contradiction). lia. }
        pose proof (Hsame 0%nat ltac:(lia)) as H0. rewrite Nat.add_0_r in H0.
        rewrite H0, (Hsame 1%nat), (Hsame 2%nat) by lia. rewrite Hdata1.
        repeat split.
        -- rewrite !list_lookup_insert_ne by lia. apply list_lookup_insert_eq. lia.
        -- rewrite list_lookup_insert_ne by lia. apply list_lookup_insert_eq.
           rewrite !length_insert. lia.
        -- apply list_lookup_insert_eq. rewrite !length_insert. lia.
    + intros idx Hidx. rewrite Hkeep by (intros p Hp; apply Hidx; now right).
      rewrite Hdata1. destruct (Hidx a) as (? & ? & ?); [now left|].
      rewrite !list_lookup_insert_ne by lia. reflexivity.
Qed.

(** X7.  When [quantize] returns, the quantized image has the size of the
    RGB image and three 8-bit channels, every pixel's cluster is an index
    of the palette, and the pixel carries the colour of that palette entry. *)
Theorem quantize_paints_palette (imageData : ImageData) (numColors : Z)
    (res : QuantizeResult) (rgbMat : Mat) :
  cvtColorKeepsBytes →
  Forall byte (pixels imageData) →
  quantize imageData numColors = Normal res →
  cvtColor (matFromImageData imageData) COLOR_RGBA2RGB = Normal rgbMat →
  (rows (quantized res) = rows rgbMat ∧ cols (quantized res) = cols rgbMat
   ∧ channels (quantized res) = 3%nat ∧ depth (quantized res) = CV_8U)
  ∧ ∀ p, (p < rows rgbMat * cols rgbMat)%nat →
      ∃ entry,
        index (palette res) (intAt (labels res) p 0) = Some entry
        ∧ pixelChannel (quantized res) p 0 = r (rgb entry)
        ∧ pixelChannel (quantized res) p 1 = g (rgb entry)
        ∧ pixelChannel (quantized res) p 2 = b (rgb entry).
Proof.
  intros Hcvt Hbytes Hq Hrgb.
  pose proof Hq as Hq'.
  apply quantize_Normal in Hq'
    as (rgbMat' & lab & lbls & centers & Hrgb' & _ & _ & HK & Hl & Hpal & Hpaint).
  rewrite Hrgb in Hrgb'. injection Hrgb' as <-. subst lbls.
  destruct (decide (cols rgbMat = 0)%nat) as [Hzero|Hpos].
  { rewrite Hzero, Nat.mul_0_r in Hpaint. cbn [seq forEach] in Hpaint.
    injection Hpaint as <-. cbn [rows cols channels depth zeros].
    split; [now repeat split|]. intros p Hp. rewrite Hzero in Hp. lia. }
  destruct (forEach_paintPixel rgbMat (labels res) (palette res)
              (seq 0 (rows rgbMat * cols rgbMat))
              (zeros (rows rgbMat) (cols rgbMat) CV_8U 3) (quantized res))
    as [(Hr & Hc & Hch & Hd & _) [Hpix _]]; trivial; [lia | |].
  { apply Forall_forall. intros p Hp. apply elem_of_seq in Hp.
    cbn [zeros data]. rewrite length_replicate. lia. }
  cbn [zeros rows cols channels depth] in Hr, Hc, Hch, Hd.
  split; [now repeat split|].
  intros p Hp. destruct (Hpix p) as (entry & Hentry & H0 & H1 & H2).
  { apply elem_of_seq. lia. }
  exists entry. split; [exact Hentry|].
  assert (byte (r (rgb entry)) ∧ byte (g (rgb entry)) ∧ byte (b (rgb entry)))
    as (Hbr & Hbg & Hbb).
  { unfold index in Hentry. destruct (decide (intAt (labels res) p 0 < 0)); [discriminate|].
    destruct (palette_entry _ _ _ _ _ Hq Hentry)
      as (rgbMat' & Hrgb' & _ & _ & Hcolour & _).
    rewrite Hcolour. apply average_byte.
    exact (Hcvt (matFromImageData imageData) _ _ Hbytes Hrgb'). }
  unfold pixelChannel. rewrite Hch.
  replace (p * 3 + 0)%nat with (3 * p)%nat by lia.
  replace (p * 3 + 1)%nat with (3 * p + 1)%nat by lia.
  replace (p * 3 + 2)%nat with (3 * p + 2)%nat by lia.
  rewrite H0, H1, H2. cbn [zeros depth wrap default]. unfold Js.uint8, byte in *.
  repeat split; apply Z.mod_small; lia.
Qed.

End QuantizedImage.

Section QuantizedImageOnFixture.
Import Cv ColorQuantizer QuantizerSpec Samples.

Lemma checkerboard_three :
  quantize (cv := Fixture.cv) Fixture.checkerboard 3 = Normal Fixture.checkerboardThree.
Proof. vm_compute. reflexivity. Qed.

Lemma quantize_empty_cluster_witness :
  mkEntry 3 (mkRgb 128 128 128) "#808080" "Gray"
  = {| id := Z.of_nat 2 + 1; rgb := mkRgb 128 128 128; hex := "#808080"; name := "Gray" |}.
Proof.
  exact (quantize_empty_cluster (cv := Fixture.cv) Fixture.checkerboard 3
           Fixture.checkerboardThree 2 (mkEntry 3 (mkRgb 128 128 128) "#808080" "Gray")
           (mkMat 3 3 3 CV_8U (Fixture.dropAlpha (pixels Fixture.checkerboard)))
           checkerboard_three eq_refl eq_refl eq_refl).
Defined.

Lemma quantize_paints_palette_witness :
  channels (quantized Fixture.checkerboardQuantization) = 3%nat.
Proof.
  exact (proj1 (proj2 (proj2 (proj1
           (quantize_paints_palette (cv := Fixture.cv) Fixture.checkerboard 2
              Fixture.checkerboardQuantization
              (mkMat 3 3 3 CV_8U (Fixture.dropAlpha (pixels Fixture.checkerboard)))
              fixture_cvtColorKeepsBytes checkerboard_bytes checkerboard_quantization
              eq_refl))))).
Defined.

End QuantizedImageOnFixture.

(** ** Progress and failure of a run *)

Section ProcessReports.
Import Cv WatershedProcessor PipelineSpec.
Context `{cv : OpenCV}.
Context (preprocessImage : ImageData → Z → Completion ImageData).


(** The reports before the last one were taken by the callback. *)
Ltac reports_taken :=
  let report := fresh "report" in
  let Hin := fresh "Hin" in
  intros report Hin;
  repeat (apply elem_of_cons in Hin as [->|Hin]; [cbn [percent message]; assumption|]);
  now apply elem_of_nil in Hin.

(** A branch of [process] in which a stage threw. *)
Ltac stage_threw :=
  cbn [reports outcome app removelast];
  split; [now eexists|]; split; [reports_taken|];
  split; [split; [intros [? [=]] | intros [[=] _]]
         | intros _; split; [intros [? [=]] | intros [=]]].

(** A branch of [process] in which the callback threw. *)
Ltac callback_threw H :=
  cbn [reports outcome app removelast];
  split; [now eexists|]; split; [reports_taken|];
  split; [split; [intros [? [=]]
                 | let E1 := fresh in let E2 := fresh in
                   intros [E1 E2];
                   first [discriminate E1 | discriminate E2
                         | rewrite H in E2; discriminate E2]]
         | let Hq := fresh in intros Hq; rewrite Hq in H; discriminate H].

(** X8.  The reports of a run are an initial part of the six reports of a
    complete run, in their order.  The callback returned from every report
    but possibly the last one.  The run returns exactly when it has made
    all six reports and the callback has returned from the sixth; with a
    callback that always returns, or none, exactly when it has made all
    six. *)
Theorem process_progress (self : Processor) (imageData : ImageData) (options : Options)
    (onProgress : option (Progress → Completion unit)) :
  let run := process preprocessImage self imageData options onProgress in
  let complete :=
    [mkProgress 0 "Preprocessing image..."; mkProgress 20 "Quantizing colors...";
     mkProgress 40 "Creating markers..."; mkProgress 60 "Applying watershed...";
     mkProgress 80 "Extracting regions..."; mkProgress 100 "Complete!"] in
  reports run `prefix_of` complete
  ∧ (∀ report, report ∈ removelast (reports run) →
       updateProgress onProgress (percent report) (message report) = Normal tt)
  ∧ ((∃ result, outcome run = Normal result)
     ↔ reports run = complete
       ∧ updateProgress onProgress 100 "Complete!" = Normal tt)
  ∧ (returns onProgress →
     ((∃ result, outcome run = Normal result) ↔ reports run = complete)).
Proof.
  cbv zeta. unfold process.
  destruct ready; cbn [negb].
  2: { cbn [reports outcome removelast]. split; [apply prefix_nil|].
       split; [intros report Hin; now apply elem_of_nil in Hin|].
       split; [split; [intros [? [=]] | intros [[=] _]]
              | intros _; split; [intros [? [=]] | intros [=]]]. }
  cbv zeta.
  destruct (updateProgress onProgress 0 _) as [[]|e] eqn:H0; [|callback_threw H0].
  destruct (preprocessImage imageData _) as [preprocessed|e]; [|stage_threw].
  destruct (updateProgress onProgress 20 _) as [[]|e] eqn:H20; [|callback_threw H20].
  destruct (ColorQuantizer.quantize preprocessed _) as [quantization|e]; [|stage_threw].
  destruct (updateProgress onProgress 40 _) as [[]|e] eqn:H40; [|callback_threw H40].
  destruct (createMarkers self _ _ _ _) as [[markers self']|e]; [|stage_threw].
  destruct (updateProgress onProgress 60 _) as [[]|e] eqn:H60; [|callback_threw H60].
  destruct (applyWatershed _ markers) as [watershedMap|e]; [|stage_threw].
  destruct (updateProgress onProgress 80 _) as [[]|e] eqn:H80; [|callback_threw H80].
  destruct (extractRegions self' watershedMap _ _ _) as [found|e]; [|stage_threw].
  destruct (updateProgress onProgress 100 _) as [[]|e] eqn:H100; [|callback_threw H100].
  cbn [reports outcome app removelast]. split; [now exists []|].
  split; [reports_taken|].
  split; [split; [now intros _ | eauto] | intros _; split; [reflexivity | eauto]].
Qed.


(** A run whose quantization fails. *)
Lemma process_quantize_Throw (self : Processor) (imageData preprocessed : ImageData)
    (options : Options) (onProgress : option (Progress → Completion unit))
    (e : Thrown) :
  returns onProgress →
  ready = true →
  preprocessImage imageData (default 1024 (maxSize options)) = Normal preprocessed →
  ColorQuantizer.quantize preprocessed (default 14 (colorCount options)) = Throw e →
  process preprocessImage self imageData options onProgress
  = mkRun self
      [mkProgress 0 "Preprocessing image..."; mkProgress 20 "Quantizing colors..."]
      (Throw (Error ("Color quantization failed: " +:+ toString e))).
Proof.
  intros Hquiet Hready Hpre Hq. unfold process. rewrite Hready. cbn [negb]. cbv zeta.
  rewrite !Hquiet, Hpre, Hq. reflexivity.
Qed.

Lemma process_any_processor (self other : Processor)
    (imageData : ImageData) (options : Options)
    (onProgress : option (Progress → Completion unit)) :
  let run := process preprocessImage self imageData options onProgress in
  outcome run = outcome (process preprocessImage other imageData options onProgress)
  ∧ reports run = reports (process preprocessImage other imageData options onProgress).
Proof.
  cbv zeta. unfold process.
  destruct ready; cbn [negb]; [|now repeat split].
  cbv zeta.
  destruct (updateProgress onProgress 0 _) as [[]|e]; [|now repeat split].
  destruct (preprocessImage imageData _) as [preprocessed|e]; [|now repeat split].
  destruct (updateProgress onProgress 20 _) as [[]|e]; [|now repeat split].
  destruct (ColorQuantizer.quantize preprocessed _) as [quantization|e];
    [|now repeat split].
  destruct (updateProgress onProgress 40 _) as [[]|e]; [|now repeat split].
  unfold createMarkers.
  destruct (buildMarkers _ _ _ _) as [st|e]; cbn [mbind completion_bind Js.bind];
    [|now repeat split].
  destruct (updateProgress onProgress 60 _) as [[]|e]; [|now repeat split].
  destruct (applyWatershed _ _) as [watershedMap|e]; [|now repeat split].
  destruct (updateProgress onProgress 80 _) as [[]|e]; [|now repeat split].
  unfold extractRegions. cbn [_markerToColor].
  destruct (forEach _ _ _) as [found|e]; [|now repeat split].
  destruct (updateProgress onProgress 100 _) as [[]|e]; now repeat split.
Qed.

(** X10.  A run does not depend on what the processor went through before:
    with the same callback its outcome and its reports are the same on
    every processor, and it leaves [quantizer], [currentStep] and
    [totalSteps] as they were. *)
Theorem process_ignores_processor_state (self other : Processor)
    (imageData : ImageData) (options : Options)
    (onProgress : option (Progress → Completion unit)) :
  let run := process preprocessImage self imageData options onProgress in
  outcome run = outcome (process preprocessImage other imageData options onProgress)
  ∧ reports run = reports (process preprocessImage other imageData options onProgress)
  ∧ quantizer (processor run) = quantizer self
  ∧ currentStep (processor run) = currentStep self
  ∧ totalSteps (processor run) = totalSteps self.
Proof.
  cbv zeta.
  destruct (process_any_processor self other imageData options onProgress)
    as [Hout Hreports].
  cbv zeta in Hout, Hreports. split; [exact Hout|]. split; [exact Hreports|].
  unfold process.
  destruct ready; cbn [negb]; [|now repeat split].
  cbv zeta.
  destruct (updateProgress onProgress 0 _) as [[]|e]; [|now repeat split].
  destruct (preprocessImage imageData _) as [preprocessed|e]; [|now repeat split].
  destruct (updateProgress onProgress 20 _) as [[]|e]; [|now repeat split].
  destruct (ColorQuantizer.quantize preprocessed _) as [quantization|e];
    [|now repeat split].
  destruct (updateProgress onProgress 40 _) as [[]|e]; [|now repeat split].
  unfold createMarkers.
  destruct (buildMarkers _ _ _ _) as [st|e]; cbn [mbind completion_bind Js.bind];
    [|now repeat split].
  destruct (updateProgress onProgress 60 _) as [[]|e]; [|now repeat split].
  destruct (applyWatershed _ _) as [watershedMap|e]; [|now repeat split].
  destruct (updateProgress onProgress 80 _) as [[]|e]; [|now repeat split].
  unfold extractRegions. cbn [_markerToColor].
  destruct (forEach _ _ _) as [found|e]; [|now repeat split].
  destruct (updateProgress onProgress 100 _) as [[]|e]; now repeat split.
Qed.

End ProcessReports.

Section WatershedStage.
Import Cv WatershedProcessor PipelineSpec.
Context `{cv : OpenCV}.

Lemma quantized_shape (imageData : ImageData) (numColors : Z)
    (res : ColorQuantizer.QuantizeResult) :
  ColorQuantizer.quantize imageData numColors = Normal res →
  channels (ColorQuantizer.quantized res) = 3%nat
  ∧ depth (ColorQuantizer.quantized res) = CV_8U.
Proof.
  intros Hq. apply quantize_Normal in Hq
    as (rgbMat & lab & lbls & centers & _ & _ & _ & _ & _ & _ & Hpaint).
  revert Hpaint.
  apply (forEach_preserves (λ q, channels q = 3%nat ∧ depth q = CV_8U)).
  - intros q p q' [Hch Hd]. unfold ColorQuantizer.paintPixel. cbv zeta.
    destruct (ColorQuantizer.index _ _); [|discriminate]. intros [= <-].
    cbn [store channels depth]. now split.
  - now split.
Qed.

(** X11.  On the quantized image and the markers of a run, the watershed
    stage converts nothing: it hands [cv.watershed] the quantized image and
    the markers as they are, and fails only if that call does, with
    'cv.watershed failed: ...'. *)
Theorem applyWatershed_in_run (self self' : Processor) (imageData : ImageData)
    (numColors : Z) (complexity : string) (res : ColorQuantizer.QuantizeResult)
    (markers : Mat) :
  ColorQuantizer.quantize imageData numColors = Normal res →
  createMarkers self (ColorQuantizer.quantized res) (ColorQuantizer.labels res)
    numColors complexity = Normal (markers, self') →
  applyWatershed (ColorQuantizer.quantized res) markers
  = rethrow (watershed (ColorQuantizer.quantized res) markers)
      (λ e, Error ("cv.watershed failed: " +:+ toString e)).
Proof.
  intros Hq Hm. destruct (quantized_shape _ _ _ Hq) as [Hch _].
  apply createMarkers_Normal in Hm as (st & Hbuild & -> & _).
  destruct (buildMarkers_shape _ _ _ _ _ Hbuild) as (_ & _ & Hdepth).
  unfold applyWatershed. rewrite Hch.
  destruct (decide (3%nat = 4%nat)) as [|_]; [discriminate|].
  destruct (decide (3%nat = 3%nat)) as [_|Hn]; [|now contradiction Hn].
  cbn [rethrow mbind completion_bind Js.bind].
  destruct (decide (depth (WatershedProcessor.markers st) ≠ CV_32S)) as [Hne|_];
    [contradiction|].
  reflexivity.
Qed.

End WatershedStage.

Section Regions.
Import Cv WatershedProcessor PipelineSpec.
Context `{cv : OpenCV}.

Lemma uniqueLabels_NoDup (watershedMap : Mat) : NoDup (uniqueLabels watershedMap).
Proof.
  unfold uniqueLabels. rewrite forPixels_scan.
  assert (∀ (l : list (nat * nat)) (acc : list Z),
            NoDup acc →
            NoDup (foldl (λ set p,
                            let label := intAt watershedMap (fst p) (snd p) in
                            if decide (label > 0) then setAdd label set else set) acc l))
    as Hfold.
  { induction l as [|p l IH]; intros acc Hacc; cbn [foldl]; [exact Hacc|].
    apply IH. cbv zeta. destruct (decide (_ > 0)); [|exact Hacc].
    unfold setAdd. destruct (decide (_ ∈ acc)) as [|Hnew]; [exact Hacc|].
    apply NoDup_app. split; [exact Hacc|]. split; [|apply NoDup_singleton].
    intros v Hv Hin. apply list_elem_of_singleton in Hin. now subst. }
  apply Hfold. constructor.
Qed.

Lemma omap_ids (f : Z → option Region) (labels : list Z) :
  (∀ label r, f label = Some r → id r = label) →
  map id (omap f labels) `sublist_of` labels.
Proof.
  intros Hid. induction labels as [|label labels IH]; cbn [omap list_omap map].
  - constructor.
  - destruct (f label) as [r|] eqn:E; cbn [map].
    + rewrite (Hid _ _ E). now constructor.
    + now constructor.
Qed.

(** The place of a pixel in the scan. *)
Lemma row_lookup (y s w n : nat) (p : nat * nat) :
  (seq s w ≫= λ x, [(y, x)]) !! n = Some p → p = (y, (s + n)%nat) ∧ (n < w)%nat.
Proof.
  revert s n. induction w as [|w IH]; intros s n; cbn [seq mbind list_bind app].
  - rewrite lookup_nil. discriminate.
  - destruct n as [|n]; cbn [lookup list_lookup].
    + intros [= <-]. split; [f_equal; lia | lia].
    + intros H. apply IH in H as [-> Hn]. split; [f_equal; lia | lia].
Qed.

Lemma row_length (y s w : nat) : length (seq s w ≫= λ x, [(y, x)]) = w.
Proof.
  revert s. induction w as [|w IH]; intros s; cbn [seq mbind list_bind app length];
    [reflexivity|]. now rewrite IH.
Qed.

Lemma scan_S (height width : nat) :
  scan (S height) width = scan height width ++ (seq 0 width ≫= λ x, [(height, x)]).
Proof.
  unfold scan. rewrite seq_S, bind_app. f_equal. cbn [mbind list_bind Nat.add].
  apply app_nil_r.
Qed.

Lemma scan_length (height width : nat) : length (scan height width) = (height * width)%nat.
Proof.
  induction height as [|h IH]; [reflexivity|].
  rewrite scan_S, length_app, IH, row_length. lia.
Qed.

Lemma scan_lookup (height width n y x : nat) :
  scan height width !! n = Some (y, x) →
  (y < height)%nat ∧ (x < width)%nat ∧ n = (y * width + x)%nat.
Proof.
  induction height as [|h IH].
  - unfold scan. cbn [seq mbind list_bind]. rewrite lookup_nil. discriminate.
  - rewrite scan_S. intros H. apply lookup_app_Some in H as [H|[Hge H]].
    + apply IH in H. lia.
    + rewrite scan_length in Hge, H. apply row_lookup in H as [[= -> ->] Hlt]. lia.
Qed.

Lemma lookup_map {A B} (f : A → B) (l : list A) (i : nat) :
  map f l !! i = f <$> l !! i.
Proof.
  revert i. induction l as [|a l IH]; intros [|i]; cbn [map]; try reflexivity. apply IH.
Qed.

(** A list inside another keeps the order of its elements. *)
Lemma sublist_order {A} (l1 l2 : list A) (i j : nat) (a b : A) :
  l1 `sublist_of` l2 → (i < j)%nat → l1 !! i = Some a → l1 !! j = Some b →
  ∃ i' j', (i' < j')%nat ∧ l2 !! i' = Some a ∧ l2 !! j' = Some b.
Proof.
  intros Hsub. revert i j. induction Hsub as [|x l1 l2 Hsub IH|x l1 l2 Hsub IH];
    intros i j Hij Hi Hj.
  - now rewrite lookup_nil in Hi.
  - destruct j as [|j]; [lia|]. destruct i as [|i]; cbn [lookup list_lookup] in Hi, Hj.
    + assert (b ∈ l2) as Hb
        by (apply (elem_of_sublist l1); [now apply (list_elem_of_lookup_2 _ j) | exact Hsub]).
      apply list_elem_of_lookup_1 in Hb as [k Hk]. exists 0%nat, (S k). split; [lia|].
      split; [exact Hi | exact Hk].
    + destruct (IH i j ltac:(lia) Hi Hj) as (i' & j' & Hlt & Hi' & Hj').
      exists (S i'), (S j'). split; [lia|]. split; [exact Hi' | exact Hj'].
  - destruct (IH i j Hij Hi Hj) as (i' & j' & Hlt & Hi' & Hj').
    exists (S i'), (S j'). split; [lia|]. split; [exact Hi' | exact Hj'].
Qed.

(** The set of labels keeps them by first occurrence: of two labels the
    earlier one has a pixel that the scan visits before every pixel of
    the later one. *)
Lemma uniqueLabels_order (watershedMap : Mat) (i j : nat) (a b : Z) :
  (i < j)%nat →
  uniqueLabels watershedMap !! i = Some a →
  uniqueLabels watershedMap !! j = Some b →
  ∃ y1 x1, (y1 < rows watershedMap)%nat ∧ (x1 < cols watershedMap)%nat
           ∧ intAt watershedMap y1 x1 = a
           ∧ ∀ y x, (y < rows watershedMap)%nat → (x < cols watershedMap)%nat →
                    intAt watershedMap y x = b →
                    (y1 < y)%nat ∨ (y1 = y ∧ (x1 < x)%nat).
Proof.
  intros Hij Hi Hj.
  set (step := λ (set : list Z) (p : nat * nat),
                 let label := intAt watershedMap (fst p) (snd p) in
                 if decide (label > 0) then setAdd label set else set).
  assert (∀ l : list (nat * nat),
            (∀ c, c ∈ foldl step [] l
                  → ∃ n p, l !! n = Some p ∧ intAt watershedMap (fst p) (snd p) = c)
            ∧ (∀ c p, c > 0 → p ∈ l → intAt watershedMap (fst p) (snd p) = c
                      → c ∈ foldl step [] l)
            ∧ ∀ i j a b, (i < j)%nat → foldl step [] l !! i = Some a →
                foldl step [] l !! j = Some b →
                ∃ n1 p1, l !! n1 = Some p1 ∧ intAt watershedMap (fst p1) (snd p1) = a
                         ∧ ∀ n2 p2, l !! n2 = Some p2 →
                                    intAt watershedMap (fst p2) (snd p2) = b →
                                    (n1 < n2)%nat) as Hfold.
  { induction l as [|q l (IHin & IHall & IHord)] using rev_ind.
    - cbn [foldl]. split; [intros c Hc; now apply elem_of_nil in Hc|].
      split; [intros c p _ Hp; now apply elem_of_nil in Hp|].
      intros i0 j0 a0 b0 _ H0. now rewrite lookup_nil in H0.
    - rewrite foldl_snoc. set (res := foldl step [] l) in *.
      assert (∀ n p, l !! n = Some p → (l ++ [q]) !! n = Some p) as Hkeep
        by (intros n p Hn; now apply lookup_app_l_Some).
      assert (∀ i0 j0 a0 b0, (i0 < j0)%nat → res !! i0 = Some a0 → res !! j0 = Some b0 →
                ∃ n1 p1, (l ++ [q]) !! n1 = Some p1
                         ∧ intAt watershedMap (fst p1) (snd p1) = a0
                         ∧ ∀ n2 p2, (l ++ [q]) !! n2 = Some p2 →
                                    intAt watershedMap (fst p2) (snd p2) = b0 →
                                    (n1 < n2)%nat) as Hold.
      { intros i0 j0 a0 b0 Hlt H1 H2.
        destruct (IHord i0 j0 a0 b0 Hlt H1 H2) as (n1 & p1 & Hn1 & Hp1 & Hbefore).
        exists n1, p1. split; [now apply Hkeep|]. split; [exact Hp1|].
        intros n2 p2 Hn2 Hp2. apply lookup_app_Some in Hn2 as [Hn2|[Hge _]].
        - now apply (Hbefore n2 p2).
        - apply lookup_lt_Some in Hn1. lia. }
      assert (∀ c, c ∈ res → ∃ n p, (l ++ [q]) !! n = Some p
                                     ∧ intAt watershedMap (fst p) (snd p) = c) as Hin
        by (intros c Hc; destruct (IHin c Hc) as (n & p & Hn & Hp); exists n, p;
            split; [now apply Hkeep | exact Hp]).
      unfold step. cbv zeta.
      destruct (decide (intAt watershedMap (fst q) (snd q) > 0)) as [Hpos|Hnpos].
      + unfold setAdd.
        destruct (decide (intAt watershedMap (fst q) (snd q) ∈ res)) as [Hseen|Hnew].
        * split; [exact Hin|]. split; [|exact Hold].
          intros c p Hc Hp Hlab. apply elem_of_app in Hp as [Hp|Hp].
          -- now apply (IHall c p).
          -- apply list_elem_of_singleton in Hp as ->. now rewrite <- Hlab.
        * split; [|split].
          -- intros c Hc. apply elem_of_app in Hc as [Hc|Hc]; [now apply Hin|].
             apply list_elem_of_singleton in Hc as ->. exists (length l), q.
             split; [|reflexivity]. rewrite lookup_app_r by lia.
             now rewrite Nat.sub_diag.
          -- intros c p Hc Hp Hlab. apply elem_of_app. apply elem_of_app in Hp as [Hp|Hp].
             ++ left. now apply (IHall c p).
             ++ right. apply list_elem_of_singleton in Hp as ->.
                apply list_elem_of_singleton. now symmetry.
          -- intros i0 j0 a0 b0 Hlt H1 H2.
             apply lookup_app_Some in H2 as [H2|[Hge H2]].
             ++ apply Hold with i0 j0; trivial.
                apply lookup_app_Some in H1 as [H1|[Hge1 _]]; [exact H1|].
                apply lookup_lt_Some in H2. lia.
             ++ apply list_lookup_singleton_Some in H2 as [Hj0 <-].
                apply lookup_app_Some in H1 as [H1|[Hge1 H1]].
                2:{ apply list_lookup_singleton_Some in H1 as [? _]. lia. }
                destruct (IHin a0 (list_elem_of_lookup_2 _ _ _ H1))
                  as (n1 & p1 & Hn1 & Hp1).
                exists n1, p1. split; [now apply Hkeep|]. split; [exact Hp1|].
                intros n2 p2 Hn2 Hp2.
                apply lookup_app_Some in Hn2 as [Hn2|[Hge2 _]].
                ** contradiction Hnew. apply (IHall _ p2); trivial.
                   now apply (list_elem_of_lookup_2 _ n2).
                ** apply lookup_lt_Some in Hn1. lia.
      + split; [exact Hin|]. split; [|exact Hold].
        intros c p Hc Hp Hlab. apply elem_of_app in Hp as [Hp|Hp].
        * now apply (IHall c p).
        * apply list_elem_of_singleton in Hp as ->. lia. }
  unfold uniqueLabels in Hi, Hj. rewrite forPixels_scan in Hi, Hj.
  destruct (Hfold (scan (rows watershedMap) (cols watershedMap)))
    as (_ & _ & Hord).
  destruct (Hord i j a b Hij Hi Hj) as (n1 & [y1 x1] & Hn1 & Hp1 & Hbefore).
  apply scan_lookup in Hn1 as Hat. destruct Hat as (Hy1 & Hx1 & ->).
  exists y1, x1. split; [exact Hy1|]. split; [exact Hx1|]. split; [exact Hp1|].
  intros y x Hy Hx Hlab.
  assert ((y, x) ∈ scan (rows watershedMap) (cols watershedMap)) as Hp
    by now apply elem_of_scan.
  apply list_elem_of_lookup_1 in Hp as [n2 Hn2].
  pose proof (Hbefore n2 (y, x) Hn2 Hlab) as Hlt.
  apply scan_lookup in Hn2 as (_ & _ & ->). nia.
Qed.

(** X12.  The regions [extractRegions] returns carry distinct positive
    labels of the label map, and they are ordered by the first occurrence
    of their labels in the row-by-row scan of the map: of two regions the
    one that comes first in the list has a pixel which lies, rows from the
    top and each row from the left, before every pixel of the other one.
    The boundary label -1 and the label 0 give no region. *)
Theorem extractRegions_ids (self : Processor) (watershedMap quantized : Mat)
    (palette : list ColorQuantizer.PaletteEntry) (minRegionSize : Z)
    (found : list Region) :
  extractRegions self watershedMap quantized palette minRegionSize = Normal found →
  map id found `sublist_of` uniqueLabels watershedMap
  ∧ NoDup (map id found)
  ∧ (∀ r, r ∈ found →
      id r > 0
      ∧ ∃ y x, (y < rows watershedMap)%nat ∧ (x < cols watershedMap)%nat
               ∧ intAt watershedMap y x = id r)
  ∧ ∀ i j r1 r2, (i < j)%nat → found !! i = Some r1 → found !! j = Some r2 →
      ∃ y1 x1, (y1 < rows watershedMap)%nat ∧ (x1 < cols watershedMap)%nat
               ∧ intAt watershedMap y1 x1 = id r1
               ∧ ∀ y x, (y < rows watershedMap)%nat → (x < cols watershedMap)%nat →
                        intAt watershedMap y x = id r2 →
                        (y1 < y)%nat ∨ (y1 = y ∧ (x1 < x)%nat).
Proof.
  intros Hrun. apply extractRegions_Normal in Hrun as [-> _].
  assert (map id (omap (regionFor (default ∅ (_markerToColor self)) watershedMap palette
                          minRegionSize) (uniqueLabels watershedMap))
            `sublist_of` uniqueLabels watershedMap) as Hsub.
  { apply omap_ids. intros label r Hr. now apply regionFor_Some in Hr as [Hid _]. }
  split; [exact Hsub|]. split; [|split].
  - exact (sublist_NoDup _ _ (uniqueLabels_NoDup watershedMap) Hsub).
  - intros r Hr. apply list_elem_of_omap in Hr as (label & Hlabel & Hsome).
    apply regionFor_Some in Hsome as [-> _].
    now apply elem_of_uniqueLabels in Hlabel.
  - intros i j r1 r2 Hij Hi Hj.
    destruct (sublist_order _ _ i j (id r1) (id r2) Hsub Hij) as (i' & j' & Hlt & Hi' & Hj').
    + now rewrite lookup_map, Hi.
    + now rewrite lookup_map, Hj.
    + exact (uniqueLabels_order watershedMap i' j' (id r1) (id r2) Hlt Hi' Hj').
Qed.

(** X13.  Whatever the colour map holds, the [colorId] of a region is at
    least 1; with a non-empty palette it is an index of the palette and
    the region carries that palette entry, and with an empty palette it is
    1 and the region carries no colour. *)
Theorem extractRegions_colour (self : Processor) (watershedMap quantized : Mat)
    (palette : list ColorQuantizer.PaletteEntry) (minRegionSize : Z)
    (found : list Region) (r : Region) :
  extractRegions self watershedMap quantized palette minRegionSize = Normal found →
  r ∈ found →
  1 ≤ colorId r
  ∧ color r = ColorQuantizer.index palette (colorId r - 1)
  ∧ (palette ≠ [] → colorId r ≤ Z.of_nat (length palette) ∧ is_Some (color r))
  ∧ (palette = [] → colorId r = 1 ∧ color r = None).
Proof.
  intros Hrun Hr. apply extractRegions_Normal in Hrun as [-> _].
  apply list_elem_of_omap in Hr as (label & _ & Hsome).
  apply regionFor_Some in Hsome as (_ & _ & Hid & Hcolor & _).
  assert (1 ≤ colorId r
          ∧ (palette ≠ [] → colorId r ≤ Z.of_nat (length palette))
          ∧ (palette = [] → colorId r = 1)) as (Hlow & Hhigh & Hnone).
  { rewrite Hid. unfold resolveColor. cbv zeta.
    destruct (decide (_ ∨ _)) as [Hout|Hin].
    - split; [lia|]. split; [|reflexivity]. intros Hne.
      destruct palette; [contradiction | cbn [length]; lia].
    - split; [lia|]. split; [lia|]. intros ->. cbn [length] in Hin. lia. }
  split; [exact Hlow|]. split; [exact Hcolor|]. split.
  - intros Hne. split; [now apply Hhigh|]. rewrite Hcolor.
    unfold ColorQuantizer.index. destruct (decide (colorId r - 1 < 0)); [lia|].
    apply lookup_lt_is_Some. specialize (Hhigh Hne). lia.
  - intros ->. split; [now apply Hnone|]. rewrite Hcolor.
    unfold ColorQuantizer.index. destruct (decide _); [reflexivity|].
    apply lookup_nil.
Qed.

End Regions.

Section RunsOnFixture.
Import Cv WatershedProcessor PipelineSpec.

Lemma checkerboard_no_clusters :
  ColorQuantizer.quantize (cv := Fixture.cv) Fixture.checkerboard 0
  = Throw (Error "K-Means clustering failed: 6636200").
Proof. vm_compute. reflexivity. Qed.


(** A run whose quantization throws stops at the second report. *)
Example process_checkerboard_no_clusters :
  process (cv := Fixture.cv) Fixture.preprocessImage new Fixture.checkerboard
    (mkOptions (Some 0) None None None) None
  = mkRun new
      [mkProgress 0 "Preprocessing image..."; mkProgress 20 "Quantizing colors..."]
      (Throw (Error ("Color quantization failed: "
                     +:+ toString (Error "K-Means clustering failed: 6636200")))).
Proof.
  exact (process_quantize_Throw (cv := Fixture.cv) Fixture.preprocessImage new
           Fixture.checkerboard Fixture.checkerboard (mkOptions (Some 0) None None None)
           None _ (λ _ _, eq_refl) eq_refl eq_refl checkerboard_no_clusters).
Qed.

Lemma applyWatershed_in_run_witness :
  applyWatershed (cv := Fixture.cv)
    (ColorQuantizer.quantized Fixture.checkerboardQuantization)
    (markers Fixture.checkerboardMarkers)
  = rethrow (watershed (OpenCV := Fixture.cv)
               (ColorQuantizer.quantized Fixture.checkerboardQuantization)
               (markers Fixture.checkerboardMarkers))
      (λ e, Error ("cv.watershed failed: " +:+ toString e)).
Proof.
  exact (applyWatershed_in_run (cv := Fixture.cv) new (mkProcessor tt 0 5 (Some ∅))
           Fixture.checkerboard 2 "low" Fixture.checkerboardQuantization
           (markers Fixture.checkerboardMarkers)
           checkerboard_quantization checkerboard_createMarkers).
Defined.

Lemma extractRegions_ids_witness :
  ∃ found,
    extractRegions (cv := Fixture.cv) Fixture.twoToneProcessor Fixture.twoToneWatershed
      Fixture.twoToneRgb Fixture.twoGreys 4 = Normal found
    ∧ NoDup (map id found).
Proof.
  assert (∃ found,
            extractRegions (cv := Fixture.cv) Fixture.twoToneProcessor
              Fixture.twoToneWatershed Fixture.twoToneRgb Fixture.twoGreys 4
            = Normal found) as [found Hrun] by run_to_Normal.
  exists found. split; [exact Hrun|].
  exact (proj1 (proj2 (extractRegions_ids (cv := Fixture.cv) Fixture.twoToneProcessor
                         Fixture.twoToneWatershed Fixture.twoToneRgb Fixture.twoGreys 4
                         found Hrun))).
Defined.

Lemma extractRegions_colour_witness :
  ∃ found r,
    extractRegions (cv := Fixture.cv) new Fixture.twoToneWatershed
      Fixture.twoToneRgb Fixture.twoGreys 4 = Normal found
    ∧ r ∈ found ∧ 1 ≤ colorId r.
Proof.
  assert (∃ found,
            extractRegions (cv := Fixture.cv) new
              Fixture.twoToneWatershed Fixture.twoToneRgb Fixture.twoGreys 4
            = Normal found) as [found Hrun] by run_to_Normal.
  destruct found as [|r rest] eqn:E.
  - exfalso.
    apply (f_equal (λ c, match c with Normal l => length l | Throw _ => 0%nat end)) in Hrun.
    vm_compute in Hrun. discriminate Hrun.
  - exists (r :: rest), r. split; [exact Hrun|].
    assert (r ∈ r :: rest) as Hin by apply list_elem_of_here.
    split; [exact Hin|].
    exact (proj1 (extractRegions_colour (cv := Fixture.cv) new Fixture.twoToneWatershed
                    Fixture.twoToneRgb Fixture.twoGreys 4 (r :: rest) r Hrun Hin)).
Defined.

End RunsOnFixture.

(** ** What the user sees of [generate] *)

Section GenerateFeedback.
Import Cv WatershedProcessor.
Context `{cv : OpenCV}.
Context (preprocessImage : ImageData → Z → Completion ImageData).
Context (image : Type).
Context (getImageData : image → Z → Completion ImageData).
Context (render : ProcessResult → App.Settings → Completion unit).

(** X14.  Without an image [generate] does nothing.  With one it always
    ends with the loading overlay hidden and exactly one toast, and it
    never touches the image or the settings.  The toast is the success
    toast only when the run returned regions and rendering them succeeded.
    The stored result is replaced as soon as the run returns, also when
    rendering then fails, and is kept when the run fails. *)
Theorem generate_feedback (st : App.State image) :
  let shown := App.generate preprocessImage image getImageData render st in
  match App.currentImage image st with
  | None => shown = App.mkShown image st [] []
  | Some img =>
      App.loadingOverlayHidden image (App.state image shown) = true
      ∧ App.currentImage image (App.state image shown) = Some img
      ∧ App.settings image (App.state image shown) = App.settings image st
      ∧ (∃ toast,
           App.toasts image shown = [toast]
           ∧ toast ∈ [App.mkToast "Error generating paint-by-numbers" "error" 3000;
                      App.mkToast
                        "No regions detected. Try different settings or a different image."
                        "warning" 5000;
                      App.mkToast "Paint-by-numbers generated successfully!" "success" 3000]
           ∧ (App.kind toast = "success" ↔
              ∃ imageData result,
                getImageData img (App.maxSize (App.settings image st)) = Normal imageData
                ∧ outcome (process preprocessImage new imageData
                             (App.optionsOf (App.settings image st))
                             (Some App.showProgress)) = Normal result
                ∧ regions result ≠ []
                ∧ render result (App.settings image st) = Normal tt))
      ∧ App.currentResult image (App.state image shown)
        = match getImageData img (App.maxSize (App.settings image st)) with
          | Normal imageData =>
              match outcome (process preprocessImage new imageData
                               (App.optionsOf (App.settings image st))
                               (Some App.showProgress)) with
              | Normal result => Some result
              | Throw _ => App.currentResult image st
              end
          | Throw _ => App.currentResult image st
          end
  end.
Proof.
  cbv zeta. unfold App.generate.
  destruct (App.currentImage image st) as [img|] eqn:Himg; [|reflexivity].
  destruct (getImageData img _) as [imageData|e] eqn:Hdata.
  2: { cbn [App.state App.toasts App.loadingOverlayHidden App.currentImage App.settings
              App.currentResult].
       repeat split; trivial. eexists. split; [reflexivity|].
       split; [apply list_elem_of_here|]. cbn [App.kind].
       split; [discriminate | intros (? & ? & [=] & _)]. }
  destruct (outcome (process preprocessImage new imageData _ _)) as [result|e] eqn:Hrun.
  2: { cbn [App.state App.toasts App.loadingOverlayHidden App.currentImage App.settings
              App.currentResult].
       repeat split; trivial. eexists. split; [reflexivity|].
       split; [apply list_elem_of_here|]. cbn [App.kind].
       split; [discriminate | intros (? & ? & [= <-] & Hr & _)].
       rewrite Hrun in Hr. discriminate Hr. }
  destruct (decide (length (regions result) = 0%nat)) as [Hnone|Hsome].
  { cbn [App.state App.toasts App.loadingOverlayHidden App.currentImage App.settings
           App.currentResult].
    repeat split; trivial. eexists. split; [reflexivity|].
    split; [apply list_elem_of_further, list_elem_of_here|]. cbn [App.kind].
    split; [discriminate | intros (? & ? & [= <-] & Hr & Hne & _)].
    rewrite Hrun in Hr. injection Hr as <-.
    destruct (regions result); [now contradiction Hne | discriminate Hnone]. }
  destruct (render result _) as [[]|e] eqn:Hrender.
  - cbn [App.state App.toasts App.loadingOverlayHidden App.currentImage App.settings
           App.currentResult].
    repeat split; trivial. eexists. split; [reflexivity|].
    split; [do 2 apply list_elem_of_further; apply list_elem_of_here|]. cbn [App.kind].
    split; [intros _ | reflexivity].
    exists imageData, result. repeat split; trivial.
    intros Hnil. rewrite Hnil in Hsome. now contradiction Hsome.
  - cbn [App.state App.toasts App.loadingOverlayHidden App.currentImage App.settings
           App.currentResult].
    repeat split; trivial. eexists. split; [reflexivity|].
    split; [apply list_elem_of_here|]. cbn [App.kind].
    split; [discriminate | intros (? & ? & [= <-] & Hr & _ & Hren)].
    rewrite Hrun in Hr. injection Hr as <-. rewrite Hrender in Hren. discriminate Hren.
Qed.

End GenerateFeedback.

(** ** The documents the generator writes *)

Section Documents.
Import Cv Dom SVGDocument.

Lemma children_setAttribute (name value : string) (el : Node) :
  children (setAttribute name value el) = children el.
Proof. now destruct el. Qed.

Lemma children_appendChild (tag : string) (attributes : list (string * string))
    (childNodes : list Node) (child : Node) :
  children (appendChild child (Element tag attributes childNodes)) = childNodes ++ [child].
Proof. reflexivity. Qed.

(** A loop that appends one child per turn. *)
Lemma children_foldl_appendChild {A} (make : A → Node) (l : list A) (tag : string)
    (attributes : list (string * string)) (childNodes : list Node) :
  foldl (λ el a, appendChild (make a) el) (Element tag attributes childNodes) l
  = Element tag attributes (childNodes ++ map make l).
Proof.
  revert childNodes. induction l as [|a l IH]; intros childNodes; cbn [foldl map].
  - now rewrite app_nil_r.
  - cbn [appendChild]. rewrite IH, <- app_assoc. reflexivity.
Qed.

Lemma children_foldl_appendChild_pairs {A B} (make : A → B → Node) (l : list (A * B))
    (tag : string) (attributes : list (string * string)) (childNodes : list Node) :
  foldl (λ el '(a, b), appendChild (make a b) el) (Element tag attributes childNodes) l
  = Element tag attributes (childNodes ++ map (λ p, make (fst p) (snd p)) l).
Proof.
  rewrite <- (children_foldl_appendChild (λ p, make (fst p) (snd p))).
  apply foldl_ext. now intros el [a b].
Qed.

Lemma map_imap {A B C} (f : nat → A → B) (g : B → C) (l : list A) :
  map g (imap f l) = imap (λ i x, g (f i x)) l.
Proof.
  revert f. induction l as [|x l IH]; intros f; [reflexivity|].
  cbn [imap map]. f_equal. apply IH.
Qed.

Lemma columns_range (palette : list ColorQuantizer.PaletteEntry) :
  palette ≠ [] → 1 ≤ columns palette ≤ 4.
Proof.
  intros Hne. unfold columns. destruct palette; [contradiction|]. cbn [length]. lia.
Qed.

Lemma Qfloor_quotient (a b : Z) : Qfloor (inject_Z a / inject_Z b) = a / b.
Proof. symmetry. apply Zdiv_Qdiv. Qed.

Lemma Qceiling_quotient (a b : Z) : Qceiling (inject_Z a / inject_Z b) = - (- a / b).
Proof.
  unfold Qceiling. f_equal. rewrite <- Qfloor_quotient. apply Qfloor_comp.
  rewrite inject_Z_opp. unfold Qdiv. ring.
Qed.

Lemma itemX_eq (c : Z) (i : nat) :
  0 < c → itemX c i = (Z.of_nat i `mod` c) * 190 + 10.
Proof.
  intros Hc. unfold itemX, itemWidth, padding. cbv zeta.
  rewrite Z.rem_mod_nonneg by lia. lia.
Qed.

Lemma itemY_eq (c : Z) (i : nat) : itemY c i = (Z.of_nat i / c) * 50 + 10.
Proof.
  unfold itemY, itemHeight, padding. cbv zeta. rewrite Qfloor_quotient. lia.
Qed.

(** X15.  The legend of a non-empty palette has one item per palette entry,
    after the background, in the order of the palette.  Every item lies
    inside the picture, at least the padding away from its edges, and two
    items are at least the padding apart. *)
Theorem legend_layout (palette : list ColorQuantizer.PaletteEntry) :
  palette ≠ [] →
  ∃ height background,
    legendHeight palette = Int height
    ∧ children (legendDocument palette)
      = background
        :: imap (λ index color,
                   legendItem (itemX (columns palette) index)
                     (itemY (columns palette) index) color) palette
    ∧ (∀ i, (i < length palette)%nat →
         padding ≤ itemX (columns palette) i
         ∧ itemX (columns palette) i + itemWidth + padding ≤ legendWidth palette
         ∧ padding ≤ itemY (columns palette) i
         ∧ itemY (columns palette) i + itemHeight + padding ≤ height)
    ∧ (∀ i j, (i < length palette)%nat → (j < length palette)%nat → i ≠ j →
         itemX (columns palette) i + itemWidth + padding ≤ itemX (columns palette) j
         ∨ itemX (columns palette) j + itemWidth + padding ≤ itemX (columns palette) i
         ∨ itemY (columns palette) i + itemHeight + padding ≤ itemY (columns palette) j
         ∨ itemY (columns palette) j + itemHeight + padding ≤ itemY (columns palette) i).
Proof.
  intros Hne. pose proof (columns_range palette Hne) as Hc.
  set (c := columns palette) in *. set (n := Z.of_nat (length palette)).
  assert (c ≤ n) as Hcn by (unfold c, columns, n; lia).
  exists ((- (- n / c)) * itemHeight + (- (- n / c) + 1) * padding). eexists.
  split; [|split; [|split]].
  - unfold legendHeight, rows. fold c.
    destruct (decide (c = 0)) as [|_]; [lia|]. now rewrite Qceiling_quotient.
  - unfold legendDocument. cbv zeta. cbn [setAttribute createElementNS appendChild].
    rewrite (children_foldl_appendChild_pairs
               (λ index color, legendItem (itemX c index) (itemY c index) color)).
    cbn [children app]. f_equal.
    apply (map_imap pair
             (λ p, legendItem (itemX c (fst p)) (itemY c (fst p)) (snd p))).
  - intros i Hi. rewrite itemX_eq, itemY_eq by lia.
    unfold legendWidth, itemWidth, itemHeight, padding. fold c.
    pose proof (Z.mod_pos_bound (Z.of_nat i) c ltac:(lia)).
    assert (0 ≤ Z.of_nat i / c) by (apply Z.div_pos; lia).
    assert (Z.of_nat i / c + 1 ≤ - (- n / c)).
    { assert (Z.of_nat i / c < - (- n / c)); [|lia].
      apply Z.div_lt_upper_bound; [lia|].
      pose proof (Z.mul_div_le (- n) c ltac:(lia)). unfold n in *. nia. }
    nia.
  - intros i j Hi Hj Hij. rewrite !itemX_eq, !itemY_eq by lia.
    unfold itemWidth, itemHeight, padding.
    pose proof (Z.div_mod (Z.of_nat i) c ltac:(lia)).
    pose proof (Z.div_mod (Z.of_nat j) c ltac:(lia)).
    destruct (decide (Z.of_nat i `mod` c = Z.of_nat j `mod` c)) as [Hcol|Hcol].
    + assert (Z.of_nat i / c ≠ Z.of_nat j / c) by nia. lia.
    + lia.
Qed.

Lemma legend_layout_witness :
  ∃ height, legendHeight Fixture.twoGreys = Int height.
Proof.
  destruct (legend_layout Fixture.twoGreys ltac:(discriminate))
    as (height & _ & Hheight & _).
  now exists height.
Defined.

End Documents.

Section Drawing.
Import Cv Dom SVGDocument WatershedProcessor.
Context `{cv : OpenCV}.
Context (numberToString : Q → string).
Context (doubleToString : double → string).
Context (serializeToString : Node → string).

#[local] Abbreviation style := (λ (fill : string) (lineWidth : Q),
  [("fill", fill); ("stroke", "#000000"); ("strokeWidth", numberToString lineWidth);
   ("strokeLinejoin", "round"); ("strokeLinecap", "round")]).

#[local] Abbreviation drawRegion := (λ (showColors : bool) (lineWidth : Q)
    (group : Node) (region : Region),
  fill ← fillOf showColors region;
  Normal (appendChild (createRegionPath region (style fill lineWidth)) group)).

(** The attributes of a region's path: the style keys in kebab case. *)
Lemma createRegionPath_attributes (region : Region) (fill : string) (lineWidth : Q) :
  createRegionPath region (style fill lineWidth)
  = Element "path"
      [("d", SVGGenerator.contourToPathData (contour region)); ("fill", fill);
       ("stroke", "#000000"); ("stroke-width", numberToString lineWidth);
       ("stroke-linejoin", "round"); ("stroke-linecap", "round")] [].
Proof. reflexivity. Qed.

Lemma fillOf_Normal (showColors : bool) (region : Region) :
  (showColors = true → is_Some (color region)) →
  fillOf showColors region
  = Normal (if showColors then from_option ColorQuantizer.hex "" (color region)
            else "none").
Proof.
  unfold fillOf. destruct showColors; [|reflexivity].
  intros Hsome. destruct (Hsome eq_refl) as [entry ->]. reflexivity.
Qed.

Lemma drawRegions_Normal (showColors : bool) (lineWidth : Q) (regions : list Region)
    (tag : string) (attributes : list (string * string)) (childNodes : list Node) :
  (showColors = true → ∀ r, r ∈ regions → is_Some (color r)) →
  forEach (drawRegion showColors lineWidth) (Element tag attributes childNodes) regions
  = Normal (Element tag attributes
              (childNodes
               ++ map (λ r, createRegionPath r
                              (style (if showColors
                                      then from_option ColorQuantizer.hex "" (color r)
                                      else "none") lineWidth))
                    regions)).
Proof.
  revert childNodes. induction regions as [|r regions IH]; intros childNodes Hcol;
    cbn [forEach map].
  - now rewrite app_nil_r.
  - rewrite fillOf_Normal by (intros Hs; apply (Hcol Hs); apply list_elem_of_here).
    cbn [mbind completion_bind Js.bind appendChild].
    rewrite IH by (intros Hs r' Hr'; apply (Hcol Hs); now apply list_elem_of_further).
    now rewrite <- app_assoc.
Qed.

Lemma drawRegions_Throw (lineWidth : Q) (regions : list Region) (group : Node)
    (r : Region) :
  r ∈ regions → color r = None →
  ∃ e, forEach (drawRegion true lineWidth) group regions = Throw e.
Proof.
  intros Hin Hnone. revert group.
  induction regions as [|r' regions IH]; intros group; [now apply elem_of_nil in Hin|].
  cbn [forEach].
  destruct (fillOf true r') as [fill|e] eqn:Hfill; cbn [mbind completion_bind Js.bind];
    [|eauto].
  apply elem_of_cons in Hin as [-> | Hin]; [|now apply IH].
  unfold fillOf in Hfill. rewrite Hnone in Hfill. discriminate Hfill.
Qed.

(** X16.  [generateSVG] never looks at the palette, and it throws in one
    case only: colours are to be shown and a region has no colour. *)
Theorem generateSVG_returns (regions : list Region)
    (palette palette' : list ColorQuantizer.PaletteEntry) (options : SVGDocument.Options) :
  generateSVG numberToString doubleToString serializeToString regions palette options
  = generateSVG numberToString doubleToString serializeToString regions palette' options
  ∧ ((∃ svg, generateSVG numberToString doubleToString serializeToString regions palette
               options = Normal svg)
     ↔ (default false (showColors options) = true →
        ∀ r, r ∈ regions → is_Some (color r))).
Proof.
  split; [reflexivity|]. unfold generateSVG, svgDocument. cbv zeta. split.
  - intros [svg Hsvg] Hshow r Hr.
    destruct (color r) as [entry|] eqn:Hcolor; [eauto|]. exfalso.
    rewrite Hshow in Hsvg.
    destruct (drawRegions_Throw (default (3 # 2)%Q (lineWidth options)) regions
                (setAttribute "id" "regions" (createElementNS "g")) r Hr Hcolor)
      as [e He].
    rewrite He in Hsvg. discriminate Hsvg.
  - intros Hcol. cbn [setAttribute createElementNS setNamed].
    rewrite drawRegions_Normal by exact Hcol.
    cbn [mbind completion_bind Js.bind]. eauto.
Qed.

(** X17.  The regions [extractRegions] returns for a non-empty palette can
    always be drawn, with or without colours. *)
Theorem generateSVG_of_extracted (self : Processor) (watershedMap quantized : Mat)
    (palette : list ColorQuantizer.PaletteEntry) (minRegionSize : Z)
    (found : list Region) (options : SVGDocument.Options) :
  extractRegions self watershedMap quantized palette minRegionSize = Normal found →
  palette ≠ [] →
  ∃ svg, generateSVG numberToString doubleToString serializeToString found palette
           options = Normal svg.
Proof.
  intros Hrun Hne. unfold generateSVG, svgDocument. cbv zeta.
  cbn [setAttribute createElementNS setNamed].
  rewrite drawRegions_Normal; [cbn [mbind completion_bind Js.bind]; eauto|].
  intros _ r Hr.
  apply extractRegions_Normal in Hrun as [-> _].
  apply list_elem_of_omap in Hr as (label & _ & Hsome).
  apply regionFor_Some in Hsome as (_ & _ & Hid & -> & _).
  unfold ColorQuantizer.index.
  assert (1 ≤ colorId r ≤ Z.of_nat (length palette)) as Hrange.
  { rewrite Hid. unfold resolveColor. cbv zeta.
    destruct (decide (_ ∨ _)); [|lia]. destruct palette; [contradiction|].
    cbn [length]. lia. }
  destruct (decide (colorId r - 1 < 0)); [lia|]. apply lookup_lt_is_Some. lia.
Qed.

(** X18.  The picture [generateSVG] serializes is an [svg] element with
    the namespace, the width and the height of the options and the view
    box "0 0 width height".  Its children are: the background, a [rect] of
    that width and height filled with the background colour of the
    options, white if none is given; then the group [regions] with one
    path per region in the order of the regions, each with the region's
    outline as [d], its fill, and a black stroke of the line width of the
    options (1.5 if none is given) with round joins and caps; then, unless
    numbers are switched off, the group [numbers] with one label per
    region. *)
Theorem svgDocument_structure (regions : list Region)
    (palette : list ColorQuantizer.PaletteEntry) (options : SVGDocument.Options) (svg : Node) :
  svgDocument numberToString doubleToString regions palette options = Normal svg →
  ∃ paths labels,
    svg
    = Element "svg"
        [("xmlns", "http://www.w3.org/2000/svg");
         ("width", pretty (SVGDocument.width options));
         ("height", pretty (SVGDocument.height options));
         ("viewBox", "0 0 " +:+ pretty (SVGDocument.width options) +:+ " "
                     +:+ pretty (SVGDocument.height options))]
        (Element "rect"
           [("width", pretty (SVGDocument.width options));
            ("height", pretty (SVGDocument.height options));
            ("fill", default "#ffffff" (backgroundColor options))] []
         :: Element "g" [("id", "regions")] paths
         :: (if default true (showNumbers options)
             then [Element "g" [("id", "numbers")] labels] else []))
    ∧ labels = map (numberLabel doubleToString (default 12 (numberSize options))) regions
    ∧ length paths = length regions
    ∧ ∀ i r, regions !! i = Some r →
        ∃ fill,
          paths !! i
          = Some (Element "path"
                    [("d", SVGGenerator.contourToPathData (contour r)); ("fill", fill);
                     ("stroke", "#000000");
                     ("stroke-width",
                      numberToString (default (3 # 2)%Q (lineWidth options)));
                     ("stroke-linejoin", "round"); ("stroke-linecap", "round")] [])
          ∧ fillOf (default false (showColors options)) r = Normal fill.
Proof.
  unfold svgDocument. cbv zeta. cbn [setAttribute createElementNS setNamed].
  repeat (destruct (decide _) as [Heq|_]; [discriminate Heq|]).
  intros Hsvg.
  assert (default false (showColors options) = true →
          ∀ r, r ∈ regions → is_Some (color r)) as Hcol.
  { intros Hshow r Hr. destruct (color r) as [entry|] eqn:Hcolor; [eauto|]. exfalso.
    rewrite Hshow in Hsvg.
    destruct (drawRegions_Throw (default (3 # 2)%Q (lineWidth options)) regions
                (Element "g" [("id", "regions")] []) r Hr Hcolor) as [e He].
    rewrite He in Hsvg. discriminate Hsvg. }
  rewrite drawRegions_Normal in Hsvg by exact Hcol.
  cbn [mbind completion_bind Js.bind app] in Hsvg.
  rewrite (children_foldl_appendChild
             (numberLabel doubleToString (default 12 (numberSize options)))) in Hsvg.
  injection Hsvg as <-.
  eexists _, _. split.
  { destruct (default true (showNumbers options)); cbn [appendChild app]; reflexivity. }
  split; [reflexivity|]. split; [now rewrite length_map|].
  intros i r Hr. eexists. split.
  - change (map ?f ?l) with (f <$> l). rewrite list_lookup_fmap, Hr.
    cbn [fmap option_fmap option_map]. now rewrite createRegionPath_attributes.
  - now apply fillOf_Normal; intros Hs; apply (Hcol Hs), (list_elem_of_lookup_2 _ i).
Qed.

End Drawing.

Section DrawingOnFixture.
Import Cv Dom SVGDocument WatershedProcessor.

Lemma generateSVG_of_extracted_witness :
  ∃ found svg,
    extractRegions (cv := Fixture.cv) Fixture.twoToneProcessor Fixture.twoToneWatershed
      Fixture.twoToneRgb Fixture.twoGreys 4 = Normal found
    ∧ generateSVG (cv := Fixture.cv) Js.toFixed2 Js.toFixed2 (λ _, "<svg/>") found
        Fixture.twoGreys (SVGDocument.mkOptions 8 6 None None None (Some true) None)
      = Normal svg.
Proof.
  assert (∃ found,
            extractRegions (cv := Fixture.cv) Fixture.twoToneProcessor
              Fixture.twoToneWatershed Fixture.twoToneRgb Fixture.twoGreys 4
            = Normal found) as [found Hrun] by run_to_Normal.
  destruct (generateSVG_of_extracted (cv := Fixture.cv) Js.toFixed2 Js.toFixed2
              (λ _, "<svg/>") Fixture.twoToneProcessor Fixture.twoToneWatershed
              Fixture.twoToneRgb Fixture.twoGreys 4 found
              (SVGDocument.mkOptions 8 6 None None None (Some true) None) Hrun ltac:(discriminate))
    as [svg Hsvg].
  exists found, svg. split; [exact Hrun | exact Hsvg].
Defined.

Lemma svgDocument_structure_witness :
  ∃ svg paths labels,
    svgDocument (cv := Fixture.cv) Js.toFixed2 Js.toFixed2 Fixture.twoGreyRegions
      Fixture.twoGreys
      (SVGDocument.mkOptions 8 6 (Some true) (Some 9) (Some 2%Q) (Some true)
         (Some "#fafafa"))
    = Normal svg
    ∧ svg
      = Element "svg"
          [("xmlns", "http://www.w3.org/2000/svg"); ("width", "8"); ("height", "6");
           ("viewBox", "0 0 8 6")]
          [Element "rect" [("width", "8"); ("height", "6"); ("fill", "#fafafa")] [];
           Element "g" [("id", "regions")] paths;
           Element "g" [("id", "numbers")] labels]
    ∧ length paths = 2%nat.
Proof.
  assert (∃ svg,
            svgDocument (cv := Fixture.cv) Js.toFixed2 Js.toFixed2 Fixture.twoGreyRegions
              Fixture.twoGreys
              (SVGDocument.mkOptions 8 6 (Some true) (Some 9) (Some 2%Q) (Some true)
                 (Some "#fafafa"))
            = Normal svg) as [svg Hsvg] by (eexists; reflexivity).
  destruct (svgDocument_structure (cv := Fixture.cv) Js.toFixed2 Js.toFixed2
              Fixture.twoGreyRegions Fixture.twoGreys
              (SVGDocument.mkOptions 8 6 (Some true) (Some 9) (Some 2%Q) (Some true)
                 (Some "#fafafa")) svg Hsvg)
    as (paths & labels & Hdoc & _ & Hlen & _).
  exists svg, paths, labels. split; [exact Hsvg|]. split; [exact Hdoc | exact Hlen].
Defined.

(** The picture of these two regions, with colours and numbers; the line
    width and the centroids are printed with two decimals here. *)
Example svgDocument_twoGreyRegions :
  svgDocument (cv := Fixture.cv) Js.toFixed2 Js.toFixed2 Fixture.twoGreyRegions
    Fixture.twoGreys
    (SVGDocument.mkOptions 8 6 (Some true) (Some 9) (Some 2%Q) (Some true) (Some "#fafafa"))
  = Normal
      (Element "svg"
         [("xmlns", "http://www.w3.org/2000/svg"); ("width", "8"); ("height", "6");
          ("viewBox", "0 0 8 6")]
         [Element "rect" [("width", "8"); ("height", "6"); ("fill", "#fafafa")] [];
          Element "g" [("id", "regions")]
            [Element "path"
               [("d", "M 0 0 C 1.00 -1.00, 6.00 -1.00, 6 0 C 6.00 1.00, 1.00 6.00, 0 6 C -1.00 6.00, -1.00 1.00, 0 0 Z");
                ("fill", "#0a0a0a"); ("stroke", "#000000"); ("stroke-width", "2.00");
                ("stroke-linejoin", "round"); ("stroke-linecap", "round")] [];
             Element "path"
               [("d", "M 2 3 L 7 3 Z");
                ("fill", "#c8c8c8"); ("stroke", "#000000"); ("stroke-width", "2.00");
                ("stroke-linejoin", "round"); ("stroke-linecap", "round")] []];
          Element "g" [("id", "numbers")]
            [Element "text"
               [("x", "2.00"); ("y", "2.00"); ("font-size", "9"); ("font-weight", "bold");
                ("text-anchor", "middle"); ("dominant-baseline", "middle");
                ("fill", "#666666"); ("font-family", "Arial, sans-serif")] [Text "1"];
             Element "text"
               [("x", "5.00"); ("y", "3.00"); ("font-size", "9"); ("font-weight", "bold");
                ("text-anchor", "middle"); ("dominant-baseline", "middle");
                ("fill", "#666666"); ("font-family", "Arial, sans-serif")] [Text "2"]]]).
Proof. vm_compute. reflexivity. Qed.

End DrawingOnFixture.

(** ** The batch queue *)

Section BatchQueue.
Import Cv BatchProcessor BatchSpec.

Lemma itemAt_heap (b b' : Batch) (ref : nat) :
  heap b' !! ref = heap b !! ref → itemAt b' ref = itemAt b ref.
Proof. unfold itemAt. now intros ->. Qed.

Lemma addFile_spec (b : Batch) (f : File) :
  wellFormed b →
  wellFormed (addFile b f)
  ∧ items (addFile b f)
    = items b ++ (if isImage f then [mkItem f Pending None Null] else [])
  ∧ results (addFile b f) = results b
  ∧ (∀ ref, (ref < length (heap b))%nat → itemAt (addFile b f) ref = itemAt b ref)
  ∧ isProcessing (addFile b f) = isProcessing b
  ∧ currentIndex (addFile b f) = currentIndex b.
Proof.
  intros (Hdup & Hqueue & Hresults). unfold addFile.
  destruct (isImage f).
  2: { split; [now repeat split|]. rewrite app_nil_r. now repeat split. }
  assert (∀ ref, (ref < length (heap b))%nat →
            itemAt (mkBatch (heap b ++ [mkItem f Pending None Null])
                      (queue b ++ [length (heap b)]) (results b) (isProcessing b)
                      (currentIndex b)) ref
            = itemAt b ref) as Hold.
  { intros ref Href. apply itemAt_heap. cbn [heap]. now apply lookup_app_l. }
  split; [|split; [|now repeat split]].
  - unfold wellFormed. cbn [queue heap results]. rewrite length_app. cbn [length].
    split; [|split].
    + apply NoDup_app. split; [exact Hdup|]. split; [|apply NoDup_singleton].
      intros ref Hin Hnew. apply list_elem_of_singleton in Hnew. subst ref.
      rewrite Forall_forall in Hqueue. specialize (Hqueue _ Hin). lia.
    + apply Forall_app. split.
      * eapply Forall_impl; [exact Hqueue|]. intros ref Href. cbn in Href. lia.
      * apply Forall_singleton. lia.
    + eapply Forall_impl; [exact Hresults|]. intros ref Href. cbn in Href. lia.
  - unfold items. cbn [queue]. rewrite fmap_app. f_equal.
    + apply list_fmap_ext. intros i ref Hi. apply Hold.
      rewrite Forall_forall in Hqueue. apply Hqueue. now apply (list_elem_of_lookup_2 _ i).
    + cbn [fmap list_fmap]. unfold itemAt. cbn [heap].
      now rewrite list_lookup_middle.
Qed.

(** X19.  [addFiles] queues the files whose type starts with 'image/', in
    their order, behind the items already queued, each as a pending item
    without result or error.  It leaves the queued items and the results
    as they are, and does so while a batch is being processed as well. *)
Theorem addFiles_appends (files : list File) (b : Batch) :
  wellFormed b →
  wellFormed (addFiles files b)
  ∧ items (addFiles files b)
    = items b
      ++ map (λ f, mkItem f Pending None Null) (filter (λ f, isImage f = true) files)
  ∧ results (addFiles files b) = results b
  ∧ itemAt (addFiles files b) <$> results b = itemAt b <$> results b
  ∧ isProcessing (addFiles files b) = isProcessing b
  ∧ currentIndex (addFiles files b) = currentIndex b.
Proof.
  unfold addFiles. revert b. induction files as [|f files IH]; intros b Hwf; cbn [foldl].
  - split; [exact Hwf|]. split; [symmetry; apply app_nil_r | now repeat split].
  - destruct (addFile_spec b f Hwf) as (Hwf1 & Hitems1 & Hres1 & Hold1 & Hp1 & Hc1).
    destruct (IH (addFile b f) Hwf1) as (Hwf2 & Hitems2 & Hres2 & Hold2 & Hp2 & Hc2).
    split; [exact Hwf2|]. split; [|split; [congruence|split; [|split; congruence]]].
    + rewrite Hitems2, Hitems1, <- app_assoc. f_equal. rewrite filter_cons.
      destruct (isImage f) eqn:Himg.
      * destruct (decide (true = true)) as [_|Hn]; [reflexivity | now contradiction Hn].
      * destruct (decide (false = true)) as [|_]; [discriminate | reflexivity].
    + rewrite Hres1 in Hold2. rewrite Hold2. apply list_fmap_ext. intros i ref Hi.
      apply Hold1. destruct Hwf as (_ & _ & Hresults).
      rewrite Forall_forall in Hresults. apply Hresults.
      now apply (list_elem_of_lookup_2 _ i).
Qed.

Lemma addFiles_appends_witness :
  items (addFiles [mkFile "a.png" "image/png" 10; mkFile "b.txt" "text/plain" 3] new)
  = [mkItem (mkFile "a.png" "image/png" 10) Pending None Null].
Proof.
  refine (proj1 (proj2 (addFiles_appends
            [mkFile "a.png" "image/png" 10; mkFile "b.txt" "text/plain" 3] new _))).
  split; [constructor|]. split; constructor.
Defined.

(** X20.  Outside of processing, [removeItem] takes the item at the index
    out of the queue and keeps everything else: the other items in their
    order, the heap, and the results, which still hold a completed item
    that has left the queue.  An index past the end removes nothing, a
    negative index counts from the end, and one below minus the length
    removes the first item. *)
Theorem removeItem_splice (index : Z) (b : Batch) :
  wellFormed b →
  isProcessing b = false →
  ∃ b',
    removeItem index b = Normal b'
    ∧ wellFormed b'
    ∧ heap b' = heap b ∧ results b' = results b
    ∧ isProcessing b' = false ∧ currentIndex b' = currentIndex b
    ∧ (0 ≤ index < Z.of_nat (length (queue b)) →
       items b' = delete (Z.to_nat index) (items b))
    ∧ (Z.of_nat (length (queue b)) ≤ index → items b' = items b)
    ∧ (- Z.of_nat (length (queue b)) ≤ index < 0 →
       items b' = delete (Z.to_nat (Z.of_nat (length (queue b)) + index)) (items b))
    ∧ (index < - Z.of_nat (length (queue b)) → items b' = delete 0%nat (items b)).
Proof.
  intros (Hdup & Hqueue & Hresults) Hidle. unfold removeItem. rewrite Hidle.
  eexists. split; [reflexivity|]. cbn [heap results isProcessing currentIndex queue].
  split.
  { unfold wellFormed. cbn [queue heap results]. split; [|split].
    - exact (sublist_NoDup _ _ Hdup (sublist_delete _ _)).
    - now apply Forall_delete.
    - exact Hresults. }
  split; [reflexivity|]. split; [reflexivity|]. split; [reflexivity|].
  split; [reflexivity|].
  assert (∀ k, items (mkBatch (heap b) (delete k (queue b)) (results b) false
                        (currentIndex b))
               = delete k (items b)) as Hitems.
  { intros k. unfold items. cbn [queue]. rewrite <- list_fmap_delete.
    apply list_fmap_ext. intros i ref _. now apply itemAt_heap. }
  rewrite Hitems. unfold spliceStart.
  split; [|split; [|split]]; intros Hindex.
  - destruct (decide (index < 0)); [lia|]. do 2 f_equal. lia.
  - destruct (decide (index < 0)); [lia|].
    replace (Z.to_nat (Z.min index (Z.of_nat (length (queue b)))))
      with (length (items b)) by (unfold items; rewrite length_fmap; lia).
    rewrite delete_take_drop, take_ge, drop_ge by lia. apply app_nil_r.
  - destruct (decide (index < 0)); [|lia]. do 2 f_equal. lia.
  - destruct (decide (index < 0)); [|lia]. do 2 f_equal. lia.
Qed.

Lemma removeItem_splice_witness :
  ∃ b',
    removeItem (-1)
      (addFiles [mkFile "a.png" "image/png" 10; mkFile "b.jpg" "image/jpeg" 3] new)
    = Normal b'
    ∧ items b' = [mkItem (mkFile "a.png" "image/png" 10) Pending None Null].
Proof.
  destruct (removeItem_splice (-1)
              (addFiles [mkFile "a.png" "image/png" 10; mkFile "b.jpg" "image/jpeg" 3] new))
    as (b' & Hrun & _ & _ & _ & _ & _ & _ & _ & Hneg & _).
  - split; [|split]; cbn [addFiles foldl addFile isImage type String.prefix new heap
                           queue results app length].
    + apply NoDup_cons. split; [|apply NoDup_singleton].
      intros Hin. apply list_elem_of_singleton in Hin. discriminate Hin.
    + repeat constructor.
    + constructor.
  - reflexivity.
  - exists b'. split; [exact Hrun|]. rewrite Hneg by (cbn; lia). reflexivity.
Defined.

(** X21.  The numbers [getStatus] reports for the four states add up to the
    length of the queue. *)
Theorem getStatus_partition (b : Batch) :
  Report.total (getStatus b)
  = (Report.completed (getStatus b) + Report.processing (getStatus b)
     + Report.pending (getStatus b) + Report.errors (getStatus b))%nat.
Proof.
  unfold getStatus, count. cbn [Report.total Report.completed Report.processing
                                 Report.pending Report.errors].
  induction (queue b) as [|ref refs IH]; [reflexivity|].
  rewrite !filter_cons. cbn [length]. rewrite IH.
  destruct (status (itemAt b ref)); repeat case_decide; try congruence;
    cbn [length]; lia.
Qed.

Lemma dotFree_dot (stem rest : string) : dotFree (stem +:+ String "." rest) = false.
Proof.
  induction stem as [|c stem IH].
  - reflexivity.
  - rewrite append_cons. cbn [dotFree]. rewrite IH. apply andb_false_r.
Qed.

Lemma baseName_dotFree (name : string) : dotFree name = true → baseName name = name.
Proof.
  induction name as [|c name IH]; cbn [dotFree baseName]; [reflexivity|].
  intros H. apply andb_prop in H as [Hc Hrest].
  destruct (Ascii.eqb c "."); [discriminate Hc|]. cbn [andb]. now rewrite IH.
Qed.

(** X22.  The base name of a file name is the name without its last
    extension: what follows the last dot is cut off together with the dot,
    provided something follows it.  A name without a dot, and a name that
    ends in a dot, are their own base names. *)
Theorem baseName_extension (stem extension : string) :
  dotFree extension = true →
  (extension ≠ "" → baseName (stem +:+ String "." extension) = stem)
  ∧ baseName extension = extension
  ∧ baseName (stem +:+ ".") = stem +:+ ".".
Proof.
  intros Hfree. split; [|split].
  - intros Hne. induction stem as [|c stem IH].
    + rewrite append_nil_l. cbn [baseName]. rewrite Hfree.
      destruct extension; [now contradiction Hne | reflexivity].
    + rewrite append_cons. cbn [baseName].
      rewrite dotFree_dot, andb_false_r. now rewrite IH.
  - now apply baseName_dotFree.
  - induction stem as [|c stem IH].
    + reflexivity.
    + rewrite append_cons. cbn [baseName].
      rewrite dotFree_dot, andb_false_r. now rewrite IH.
Qed.

Lemma baseName_extension_witness : baseName ("holiday.photo" +:+ ".png") = "holiday.photo".
Proof. exact (proj1 (baseName_extension "holiday.photo" "png" eq_refl) ltac:(discriminate)). Defined.

End BatchQueue.

(** ** Processing a batch *)

Section BatchRun.
Import Cv BatchProcessor BatchSpec.
Context `{cv : OpenCV}.
Context (preprocessImage : ImageData → Z → Completion ImageData).
Context (image : Type).
Context (loadImageFromFile : File → Completion image).
Context (getImageData : image → Z → Completion ImageData).
Context (numberToString : Q → string).
Context (doubleToString : double → string).
Context (serializeToString : Dom.Node → string).

#[local] Abbreviation attempt' :=
  (attempt preprocessImage image loadImageFromFile getImageData numberToString
     doubleToString serializeToString).
#[local] Abbreviation turn' :=
  (turn preprocessImage image loadImageFromFile getImageData numberToString
     doubleToString serializeToString).
#[local] Abbreviation turns' :=
  (turns preprocessImage image loadImageFromFile getImageData numberToString
     doubleToString serializeToString).
#[local] Abbreviation processBatch' :=
  (processBatch preprocessImage image loadImageFromFile getImageData numberToString
     doubleToString serializeToString).
#[local] Abbreviation rendered' :=
  (rendered preprocessImage image loadImageFromFile getImageData numberToString
     doubleToString serializeToString).
#[local] Abbreviation settled' :=
  (settled preprocessImage image loadImageFromFile getImageData numberToString
     doubleToString serializeToString).

(** Callbacks that return whenever they are called. *)
#[local] Abbreviation quiet := (λ (onItemComplete : option (Item → nat → Completion unit)),
  ∀ callback, onItemComplete = Some callback → ∀ it i, callback it i = Normal tt).
#[local] Abbreviation hushed :=
  (λ (onProgress : option (ProgressEvent → Completion unit)),
     ∀ listener, onProgress = Some listener → ∀ event, listener event = Normal tt).

Lemma relay_returns (onProgress : option (ProgressEvent → Completion unit))
    (i total : nat) :
  hushed onProgress → PipelineSpec.returns (Some (relay onProgress i total)).
Proof.
  intros Hhushed percent message. cbn [WatershedProcessor.updateProgress]. unfold relay.
  destruct onProgress as [listener|]; [now apply Hhushed | reflexivity].
Qed.

Lemma notify_batch (onItemComplete : option (Item → nat → Completion unit))
    (ref i : nat) (t : Trace) :
  batch (snd (notify onItemComplete ref i t)) = batch t
  ∧ processor (snd (notify onItemComplete ref i t)) = processor t.
Proof. unfold notify. now destruct onItemComplete. Qed.

Lemma notify_quiet (onItemComplete : option (Item → nat → Completion unit))
    (ref i : nat) (t : Trace) :
  quiet onItemComplete → fst (notify onItemComplete ref i t) = Normal tt.
Proof.
  intros Hquiet. unfold notify. destruct onItemComplete as [callback|]; [|reflexivity].
  cbn [fst]. now apply Hquiet.
Qed.

Lemma itemAt_update (ref : nat) (f : Item → Item) (t : Trace) :
  (ref < length (heap (batch t)))%nat →
  itemAt (batch (update ref f t)) ref = f (itemAt (batch t) ref).
Proof.
  intros Href. unfold itemAt, update. cbn [batch heap].
  rewrite list_lookup_alter_eq.
  destruct (lookup_lt_is_Some_2 _ _ Href) as [it ->]. reflexivity.
Qed.

Lemma alter_alter {A} (f g : A → A) (i : nat) (l : list A) :
  alter f i (alter g i l) = alter (λ x, f (g x)) i l.
Proof.
  revert i. induction l as [|x l IH]; intros [|i]; cbn; [reflexivity..|].
  f_equal. apply IH.
Qed.

(** The [try] block on an item in the heap, when the callback returns:
    it comes to what the file comes to on its own. *)
Lemma attempt_quiet (options : Options)
    (onItemComplete : option (Item → nat → Completion unit))
    (onProgress : option (ProgressEvent → Completion unit)) (ref i : nat) (t : Trace) :
  quiet onItemComplete →
  hushed onProgress →
  (ref < length (heap (batch t)))%nat →
  let it := itemAt (batch t) ref in
  match rendered' options (file it) with
  | Normal r =>
      fst (attempt' options onItemComplete onProgress ref i t) = Normal tt
      ∧ batch (snd (attempt' options onItemComplete onProgress ref i t))
        = mkBatch
            (alter (λ it, mkItem (file it) Completed (Some r) (error it)) ref
               (heap (batch t)))
            (queue (batch t)) (results (batch t) ++ [ref]) (isProcessing (batch t))
            (currentIndex (batch t))
  | Throw e =>
      fst (attempt' options onItemComplete onProgress ref i t) = Throw e
      ∧ batch (snd (attempt' options onItemComplete onProgress ref i t))
        = mkBatch
            (alter (λ it, mkItem (file it) Processing (result it) (error it)) ref
               (heap (batch t)))
            (queue (batch t)) (results (batch t)) (isProcessing (batch t))
            (currentIndex (batch t))
  end.
Proof.
  intros Hquiet Hhushed Href. cbv zeta. unfold attempt, rendered. cbv zeta.
  set (t1 := update ref (λ it, mkItem (file it) Processing (result it) (error it)) t).
  pose proof (notify_quiet onItemComplete ref i t1 Hquiet) as Hcall.
  pose proof (notify_batch onItemComplete ref i t1) as [Hbatch Hproc].
  destruct (notify onItemComplete ref i t1) as [called t2]. cbn [fst snd] in *.
  subst called.
  assert (file (itemAt (batch t1) ref) = file (itemAt (batch t) ref)) as Hfile.
  { unfold t1. now rewrite itemAt_update. }
  rewrite Hbatch, Hfile.
  destruct (loadImageFromFile (file (itemAt (batch t) ref))) as [img|e];
    cbn [mbind completion_bind Js.bind fst snd]; [|split; [reflexivity|]; rewrite ?Hbatch; reflexivity].
  destruct (getImageData img _) as [imageData|e];
    cbn [mbind completion_bind Js.bind fst snd]; [|split; [reflexivity|]; rewrite ?Hbatch; reflexivity].
  match goal with
  | |- context [WatershedProcessor.process preprocessImage (processor t2) imageData
                  (pipeline options) ?listener] =>
      destruct (process_any_processor preprocessImage (processor t2)
                  WatershedProcessor.new imageData (pipeline options) listener)
        as [Hout _];
      cbv zeta in Hout;
      rewrite (process_returns preprocessImage WatershedProcessor.new imageData
                 (pipeline options) listener (relay_returns _ _ _ Hhushed)) in Hout;
      rewrite <- Hout
  end.
  destruct (WatershedProcessor.outcome _) as [res|e];
    cbn [mbind completion_bind Js.bind fst snd batch]; [|split; [reflexivity|]; rewrite ?Hbatch; reflexivity].
  destruct (SVGDocument.generateSVG _ _ _ _ _ _) as [svg|e];
    cbn [mbind completion_bind Js.bind fst snd batch]; [|split; [reflexivity|]; rewrite ?Hbatch; reflexivity].
  match goal with
  | |- fst (notify _ _ _ ?t3) = _ ∧ _ =>
      pose proof (notify_quiet onItemComplete ref i t3 Hquiet) as Hcall3;
      pose proof (notify_batch onItemComplete ref i t3) as [Hbatch3 _]
  end.
  split; [exact Hcall3|]. rewrite Hbatch3. cbn [batch update heap queue results
                                                 isProcessing currentIndex].
  rewrite ?Hbatch. unfold t1. cbn [batch update heap queue results isProcessing
                                    currentIndex].
  f_equal. rewrite alter_alter. apply list_alter_ext; [|reflexivity].
  intros it _. reflexivity.
Qed.

(** One turn of the loop, when the callback returns. *)
Lemma turn_quiet (options : Options)
    (onItemComplete : option (Item → nat → Completion unit))
    (onProgress : option (ProgressEvent → Completion unit)) (ref i : nat) (t : Trace) :
  quiet onItemComplete →
  hushed onProgress →
  (ref < length (heap (batch t)))%nat →
  fst (turn' options onItemComplete onProgress ref i t) = Normal tt
  ∧ batch (snd (turn' options onItemComplete onProgress ref i t))
    = mkBatch (alter (settled' options) ref (heap (batch t))) (queue (batch t))
        (results (batch t)
         ++ (if fulfilled (rendered' options (file (itemAt (batch t) ref)))
             then [ref] else []))
        (isProcessing (batch t)) (i + 1).
Proof.
  intros Hquiet Hhushed Href. unfold turn.
  pose proof (attempt_quiet options onItemComplete onProgress ref i t Hquiet Hhushed Href)
    as Hattempt.
  cbv zeta in Hattempt.
  destruct (attempt' options onItemComplete onProgress ref i t) as [tried t1].
  cbn [fst snd] in *.
  assert (alter (settled' options) ref (heap (batch t))
          = alter (λ it, match rendered' options (file (itemAt (batch t) ref)) with
                         | Normal r => mkItem (file it) Completed (Some r) (error it)
                         | Throw e => mkItem (file it) Failed (result it) (messageOf e)
                         end) ref (heap (batch t))) as Hsettled.
  { apply list_alter_ext; [|reflexivity]. intros it Hit. unfold settled, itemAt.
    rewrite Hit. reflexivity. }
  rewrite Hsettled.
  destruct (rendered' options (file (itemAt (batch t) ref))) as [r|e];
    destruct Hattempt as [-> Hbatch]; cbn [fulfilled fst snd batch].
  - rewrite Hbatch. cbn [heap queue results isProcessing]. now split.
  - match goal with
    | |- context [notify _ _ _ ?t2] =>
        pose proof (notify_quiet onItemComplete ref i t2 Hquiet) as Hcall;
        pose proof (notify_batch onItemComplete ref i t2) as [Hbatch2 _];
        destruct (notify onItemComplete ref i t2) as [caught t3]
    end.
    cbn [fst snd] in *. subst caught. cbn [fst snd batch].
    rewrite Hbatch2. cbn [update batch heap queue results isProcessing].
    rewrite Hbatch. cbn [heap queue results isProcessing].
    split; [reflexivity|]. rewrite app_nil_r. f_equal.
    rewrite alter_alter. apply list_alter_ext; [|reflexivity].
    intros it _. reflexivity.
Qed.

Lemma settled_file (options : Options) (it : Item) :
  file (settled' options it) = file it.
Proof. unfold settled. now destruct (rendered' options (file it)). Qed.

Lemma alter_settled_file (options : Options) (heap0 : list Item) (ref ref' : nat) :
  file (default (mkItem (mkFile "" "" 0) Pending None Null)
          (alter (settled' options) ref heap0 !! ref'))
  = file (default (mkItem (mkFile "" "" 0) Pending None Null) (heap0 !! ref')).
Proof.
  destruct (decide (ref = ref')) as [->|Hne].
  - rewrite list_lookup_alter_eq. destruct (heap0 !! ref'); [|reflexivity].
    apply settled_file.
  - now rewrite list_lookup_alter_ne.
Qed.

(** The loop, when the callback returns. *)
Lemma turns_quiet (options : Options)
    (onItemComplete : option (Item → nat → Completion unit))
    (onProgress : option (ProgressEvent → Completion unit)) (refs : list nat)
    (i : nat) (t : Trace) :
  quiet onItemComplete →
  hushed onProgress →
  Forall (λ ref, (ref < length (heap (batch t)))%nat) refs →
  fst (turns' options onItemComplete onProgress refs i t) = Normal tt
  ∧ batch (snd (turns' options onItemComplete onProgress refs i t))
    = mkBatch (foldl (λ h ref, alter (settled' options) ref h) (heap (batch t)) refs)
        (queue (batch t))
        (results (batch t)
         ++ filter (λ ref, fulfilled (rendered' options (file (itemAt (batch t) ref)))
                           = true) refs)
        (isProcessing (batch t))
        (if decide (refs = []) then currentIndex (batch t) else (i + length refs)%nat).
Proof.
  intros Hquiet Hhushed. revert i t.
  induction refs as [|ref refs IH]; intros i t Hrefs; cbn [turns foldl].
  - cbn [fst snd]. split; [reflexivity|]. rewrite filter_nil, app_nil_r.
    now destruct (batch t).
  - apply Forall_cons in Hrefs as [Href Hrefs].
    destruct (turn_quiet options onItemComplete onProgress ref i t Hquiet Hhushed Href)
      as [Hdone Hbatch].
    destruct (turn' options onItemComplete onProgress ref i t) as [done t1].
    cbn [fst snd] in *.
    subst done.
    destruct (IH (i + 1)%nat t1) as [Hrest Hbatch'].
    { rewrite Hbatch. cbn [heap]. rewrite length_alter. exact Hrefs. }
    split; [exact Hrest|]. rewrite Hbatch'. rewrite Hbatch.
    cbn [heap queue results isProcessing currentIndex]. f_equal.
    + rewrite <- app_assoc. f_equal. rewrite filter_cons.
      assert (filter
                (λ ref0, fulfilled
                           (rendered' options
                              (file (itemAt
                                       (mkBatch (alter (settled' options) ref (heap (batch t)))
                                          (queue (batch t))
                                          (results (batch t)
                                           ++ (if fulfilled
                                                    (rendered' options
                                                       (file (itemAt (batch t) ref)))
                                               then [ref] else []))
                                          (isProcessing (batch t)) (i + 1)) ref0)))
                         = true) refs
              = filter (λ ref0, fulfilled (rendered' options (file (itemAt (batch t) ref0)))
                                = true) refs) as ->.
      { apply list_filter_iff. intros ref0. unfold itemAt at 1. cbn [heap].
        rewrite alter_settled_file. reflexivity. }
      destruct (fulfilled (rendered' options (file (itemAt (batch t) ref)))).
      * destruct (decide (true = true)) as [_|Hn]; [reflexivity | now contradiction Hn].
      * destruct (decide (false = true)) as [|_]; [discriminate | reflexivity].
    + destruct (decide (ref :: refs = [])) as [|_]; [discriminate|].
      destruct (decide (refs = [])) as [->|_]; cbn [length]; lia.
Qed.

Lemma length_foldl_alter {A} (f : A → A) (refs : list nat) (l : list A) :
  length (foldl (λ h r, alter f r h) l refs) = length l.
Proof.
  revert l. induction refs as [|r refs IH]; intros l; cbn [foldl]; [reflexivity|].
  now rewrite IH, length_alter.
Qed.

Lemma foldl_alter_lookup (f : Item → Item) (refs : list nat) (heap0 : list Item)
    (ref : nat) :
  NoDup refs →
  foldl (λ h r, alter f r h) heap0 refs !! ref
  = if decide (ref ∈ refs) then f <$> heap0 !! ref else heap0 !! ref.
Proof.
  revert heap0. induction refs as [|r refs IH]; intros heap0 Hdup; cbn [foldl].
  - destruct (decide (ref ∈ [])) as [Hin|_]; [now apply elem_of_nil in Hin | reflexivity].
  - apply NoDup_cons in Hdup as [Hr Hdup]. rewrite IH by exact Hdup.
    destruct (decide (ref = r)) as [->|Hne].
    + destruct (decide (r ∈ refs)) as [|_]; [contradiction|].
      destruct (decide (r ∈ r :: refs)) as [_|Hn]; [|exfalso; apply Hn; left].
      apply list_lookup_alter_eq.
    + rewrite list_lookup_alter_ne by congruence.
      destruct (decide (ref ∈ refs)) as [Hin|Hout].
      * destruct (decide (ref ∈ r :: refs)) as [_|Hn]; [reflexivity|].
        exfalso. apply Hn. now right.
      * destruct (decide (ref ∈ r :: refs)) as [Hin|_]; [|reflexivity].
        apply elem_of_cons in Hin as [->|Hin]; contradiction.
Qed.

(** X23.  With callbacks that return whenever they are called (or
    without them), and with no other handler running while it waits,
    [processBatch] on an idle processor is fulfilled with the results and
    leaves the processor idle, the index at the length of the queue and
    the queue as it was.  Every queued item ends up as its file comes to
    on its own, whatever was processed before it on the shared processor:
    completed with its result, or failed with the message of what was
    thrown and the result it had.  The results are the completed items in
    the order of the queue, and no other item is touched. *)
Theorem processBatch_settles (options : Options)
    (onItemComplete : option (Item → nat → Completion unit))
    (onProgress : option (ProgressEvent → Completion unit)) (b : Batch) :
  wellFormed b →
  isProcessing b = false →
  (∀ callback, onItemComplete = Some callback → ∀ it i, callback it i = Normal tt) →
  (∀ listener, onProgress = Some listener → ∀ event, listener event = Normal tt) →
  let settledBatch := batch (snd (processBatch' options onItemComplete onProgress b)) in
  fst (processBatch' options onItemComplete onProgress b) = Normal (results settledBatch)
  ∧ isProcessing settledBatch = false
  ∧ currentIndex settledBatch
    = (if decide (queue b = []) then 0%nat else length (queue b))
  ∧ queue settledBatch = queue b
  ∧ results settledBatch
    = filter (λ ref, fulfilled (rendered' options (file (itemAt b ref))) = true) (queue b)
  ∧ (∀ ref, ref ∈ queue b → itemAt settledBatch ref = settled' options (itemAt b ref))
  ∧ (∀ ref, ref ∉ queue b → itemAt settledBatch ref = itemAt b ref)
  ∧ wellFormed settledBatch.
Proof.
  intros (Hdup & Hqueue & Hresults) Hidle Hquiet Hhushed. cbv zeta.
  unfold processBatch. rewrite Hidle. cbv zeta. cbn [heap queue].
  destruct (turns_quiet options onItemComplete onProgress (queue b) 0
              (mkTrace (mkBatch (heap b) (queue b) [] true 0) WatershedProcessor.new [] [])
              Hquiet Hhushed Hqueue) as [Hdone Hbatch].
  destruct (turns' options onItemComplete onProgress (queue b) 0 _) as [done t].
  cbn [fst snd] in *.
  subst done. cbn [fst snd batch]. rewrite Hbatch.
  cbn [batch heap queue results isProcessing currentIndex app].
  assert (∀ ref, itemAt (mkBatch (heap b) (queue b) [] true 0) ref = itemAt b ref)
    as Hsame by reflexivity.
  split; [reflexivity|]. split; [reflexivity|]. split.
  { destruct (decide (queue b = [])); reflexivity. }
  split; [reflexivity|]. split.
  { apply list_filter_iff. intros ref. now rewrite Hsame. }
  split; [|split].
  - intros ref Hin. unfold itemAt. cbn [heap].
    rewrite foldl_alter_lookup by exact Hdup.
    destruct (decide (ref ∈ queue b)) as [_|]; [|contradiction].
    rewrite Forall_forall in Hqueue.
    destruct (lookup_lt_is_Some_2 _ _ (Hqueue _ Hin)) as [it ->]. reflexivity.
  - intros ref Hout. unfold itemAt. cbn [heap].
    rewrite foldl_alter_lookup by exact Hdup.
    destruct (decide (ref ∈ queue b)) as [|_]; [contradiction | reflexivity].
  - unfold wellFormed. cbn [queue heap results]. rewrite length_foldl_alter.
    split; [exact Hdup|]. split; [exact Hqueue|].
    apply Forall_forall. intros ref Hin. apply list_elem_of_filter in Hin as [_ Hin].
    rewrite Forall_forall in Hqueue. now apply Hqueue.
Qed.

Lemma attempt_isProcessing (options : Options)
    (onItemComplete : option (Item → nat → Completion unit))
    (onProgress : option (ProgressEvent → Completion unit)) (ref i : nat) (t : Trace) :
  isProcessing (batch (snd (attempt' options onItemComplete onProgress ref i t)))
  = isProcessing (batch t).
Proof.
  unfold attempt. cbv zeta.
  set (t1 := update ref (λ it, mkItem (file it) Processing (result it) (error it)) t).
  pose proof (notify_batch onItemComplete ref i t1) as [Hbatch _].
  destruct (notify onItemComplete ref i t1) as [called t2]. cbn [snd] in Hbatch.
  assert (isProcessing (batch t2) = isProcessing (batch t)) as Hflag
    by now rewrite Hbatch.
  destruct called as [[]|e]; [|exact Hflag].
  destruct (loadImageFromFile _) as [img|e]; [|exact Hflag].
  destruct (getImageData img _) as [imageData|e]; [|exact Hflag].
  destruct (WatershedProcessor.outcome _) as [res|e]; [|exact Hflag].
  destruct (SVGDocument.generateSVG _ _ _ _ _ _) as [svg|e]; [|exact Hflag].
  match goal with
  | |- context [notify _ _ _ ?t3] =>
      pose proof (notify_batch onItemComplete ref i t3) as [Hbatch3 _]
  end.
  rewrite Hbatch3. exact Hflag.
Qed.

Lemma turn_isProcessing (options : Options)
    (onItemComplete : option (Item → nat → Completion unit))
    (onProgress : option (ProgressEvent → Completion unit)) (ref i : nat) (t : Trace) :
  isProcessing (batch (snd (turn' options onItemComplete onProgress ref i t)))
  = isProcessing (batch t).
Proof.
  unfold turn.
  pose proof (attempt_isProcessing options onItemComplete onProgress ref i t) as Hflag.
  destruct (attempt' options onItemComplete onProgress ref i t) as [tried t1]. cbn [snd] in Hflag.
  destruct tried as [[]|e].
  - exact Hflag.
  - match goal with
    | |- context [notify _ _ _ ?t2] =>
        pose proof (notify_batch onItemComplete ref i t2) as [Hbatch2 _];
        destruct (notify onItemComplete ref i t2) as [caught t3]
    end.
    cbn [snd] in Hbatch2.
    destruct caught as [[]|e']; cbn [snd batch isProcessing]; rewrite Hbatch2; exact Hflag.
Qed.

Lemma turns_isProcessing (options : Options)
    (onItemComplete : option (Item → nat → Completion unit))
    (onProgress : option (ProgressEvent → Completion unit)) (refs : list nat)
    (i : nat) (t : Trace) :
  isProcessing (batch (snd (turns' options onItemComplete onProgress refs i t)))
  = isProcessing (batch t).
Proof.
  revert i t. induction refs as [|ref refs IH]; intros i t; cbn [turns]; [reflexivity|].
  pose proof (turn_isProcessing options onItemComplete onProgress ref i t) as Hflag.
  destruct (turn' options onItemComplete onProgress ref i t) as [[[]|e] t1]; cbn [snd] in *.
  - now rewrite IH.
  - exact Hflag.
Qed.

Lemma processBatch_busy (options : Options)
    (onItemComplete : option (Item → nat → Completion unit))
    (onProgress : option (ProgressEvent → Completion unit)) (b : Batch) :
  isProcessing b = true →
  fst (processBatch' options onItemComplete onProgress b)
  = Throw (Error "Batch processing already in progress").
Proof. intros Hbusy. unfold processBatch. now rewrite Hbusy. Qed.

(** X24.  If [processBatch] is rejected on a processor that was idle, the
    processor is left marked as processing: from then on [clear],
    [removeItem] and [processBatch] all throw. *)
Theorem processBatch_rejected_stays_busy (options : Options)
    (onItemComplete : option (Item → nat → Completion unit))
    (onProgress : option (ProgressEvent → Completion unit)) (b : Batch) (e : Thrown)
    (index : Z) :
  isProcessing b = false →
  fst (processBatch' options onItemComplete onProgress b) = Throw e →
  let busy := batch (snd (processBatch' options onItemComplete onProgress b)) in
  isProcessing busy = true
  ∧ clear busy = Throw (Error "Cannot clear queue while processing")
  ∧ removeItem index busy = Throw (Error "Cannot remove item while processing")
  ∧ fst (processBatch' options onItemComplete onProgress busy)
    = Throw (Error "Batch processing already in progress").
Proof.
  intros Hidle. cbv zeta.
  assert (fst (processBatch' options onItemComplete onProgress b) = Throw e →
          isProcessing (batch (snd (processBatch' options onItemComplete onProgress b))) = true)
    as Hbusy.
  { unfold processBatch at 1 2. rewrite Hidle. cbv zeta. cbn [heap queue].
    pose proof (turns_isProcessing options onItemComplete onProgress (queue b) 0
                  (mkTrace (mkBatch (heap b) (queue b) [] true 0)
                     WatershedProcessor.new [] [])) as Hflag.
    destruct (turns' options onItemComplete onProgress (queue b) 0 _) as [[[]|e'] t];
      cbn [fst snd] in *; [discriminate|]. intros _. exact Hflag. }
  intros Hthrow. specialize (Hbusy Hthrow).
  split; [exact Hbusy|]. unfold clear, removeItem. rewrite Hbusy.
  split; [reflexivity|]. split; [reflexivity|]. now apply processBatch_busy.
Qed.

End BatchRun.

Section BatchRunOnFixture.
Import Cv BatchProcessor BatchSpec.

Example processBatch_photo :
  status
  <$> items (batch (snd (processBatch (cv := Fixture.cv) Fixture.preprocessImage ImageData
                           BatchFixture.readable Fixture.getImageData Js.toFixed2
                           Js.toFixed2 (λ _, "<svg/>") BatchFixture.options None None
                           (addFiles [BatchFixture.photo; BatchFixture.notes] new))))
  = [Completed].
Proof. vm_compute. reflexivity. Qed.

(** What a progress callback throws fails the item it was told about. *)
Example processBatch_impatient :
  let after :=
    batch (snd (processBatch (cv := Fixture.cv) Fixture.preprocessImage ImageData
                  BatchFixture.readable Fixture.getImageData Js.toFixed2 Js.toFixed2
                  (λ _, "<svg/>") BatchFixture.options None
                  (Some BatchFixture.impatient)
                  (addFiles [BatchFixture.photo; BatchFixture.notes] new))) in
  status <$> items after = [Failed]
  ∧ error <$> items after = [Message "cancelled"]
  ∧ results after = [].
Proof. vm_compute. repeat split. Qed.

Lemma processBatch_settles_witness :
  let run :=
    processBatch (cv := Fixture.cv) Fixture.preprocessImage ImageData
      BatchFixture.readable Fixture.getImageData Js.toFixed2 Js.toFixed2
      (λ _, "<svg/>") BatchFixture.options (Some BatchFixture.noted)
      (Some BatchFixture.heard)
      (addFiles [BatchFixture.photo; BatchFixture.notes] new) in
  fst run = Normal (results (batch (snd run)))
  ∧ isProcessing (batch (snd run)) = false.
Proof.
  destruct (processBatch_settles (cv := Fixture.cv) Fixture.preprocessImage
              ImageData BatchFixture.readable Fixture.getImageData
              Js.toFixed2 Js.toFixed2 (λ _, "<svg/>") BatchFixture.options
              (Some BatchFixture.noted) (Some BatchFixture.heard)
              (addFiles [BatchFixture.photo; BatchFixture.notes] new))
    as (Hdone & Hidle & _).
  - split; [|split]; cbn.
    + apply NoDup_singleton.
    + repeat constructor.
    + constructor.
  - reflexivity.
  - intros callback [= <-] it i. reflexivity.
  - intros listener [= <-] event. reflexivity.
  - split; [exact Hdone | exact Hidle].
Defined.

Lemma processBatch_rejected_stays_busy_witness :
  isProcessing
    (batch (snd (processBatch (cv := Fixture.cv) Fixture.preprocessImage ImageData
                   BatchFixture.unreadable Fixture.getImageData Js.toFixed2 Js.toFixed2
                   (λ _, "<svg/>") BatchFixture.options (Some BatchFixture.strict) None
                   (addFiles [BatchFixture.photo] new))))
  = true.
Proof.
  refine (proj1 (processBatch_rejected_stays_busy (cv := Fixture.cv)
                   Fixture.preprocessImage ImageData BatchFixture.unreadable
                   Fixture.getImageData Js.toFixed2 Js.toFixed2 (λ _, "<svg/>")
                   BatchFixture.options (Some BatchFixture.strict) None
                   (addFiles [BatchFixture.photo] new) (Js.Error "item failed") 0
                   eq_refl _)).
  vm_compute. reflexivity.
Defined.

End BatchRunOnFixture.

(** ** The nearest palette colour *)

Section ClosestColour.
Import Cv ColorQuantizer WatershedProcessor Samples.
Context {number : Type}.
Context (Math_sqrt : Z → number).
Context (lessThan : number → number → bool).

Lemma squaredDistance_range (color : Rgb) (entry : PaletteEntry) :
  byteColor color → byteColor (rgb entry) →
  0 ≤ squaredDistance color entry ≤ 195075.
Proof.
  unfold byteColor, byte, squaredDistance. intros (Hr & Hg & Hb) (Hr' & Hg' & Hb').
  assert (∀ x y, 0 ≤ x ≤ 255 → 0 ≤ y ≤ 255 → 0 ≤ (x - y) ^ 2 ≤ 65025) as Hsq.
  { intros x y Hx Hy. rewrite Z.pow_2_r.
    pose proof (Z.square_nonneg (x - y)).
    pose proof (Z.mul_nonneg_nonneg (255 - (x - y)) (255 + (x - y))). lia. }
  pose proof (Hsq _ _ Hr Hr'). pose proof (Hsq _ _ Hg Hg'). pose proof (Hsq _ _ Hb Hb').
  lia.
Qed.

(** What the loop holds after the entries [seen]. *)
Lemma closest_so_far (color : Rgb) (seen : list PaletteEntry) :
  rootsOrdered Math_sqrt lessThan →
  byteColor color →
  Forall (λ entry, byteColor (rgb entry)) seen →
  let best := foldl (closer Math_sqrt lessThan color) (None, 1) (imap pair seen) in
  (seen = [] ∧ best = (None, 1))
  ∨ ∃ entry,
      fst best = Some (Math_sqrt (squaredDistance color entry))
      ∧ 1 ≤ snd best
      ∧ seen !! Z.to_nat (snd best - 1) = Some entry
      ∧ ∀ j other, seen !! j = Some other →
          squaredDistance color entry ≤ squaredDistance color other
          ∧ (squaredDistance color other = squaredDistance color entry →
             snd best - 1 ≤ Z.of_nat j).
Proof.
  intros Hroots Hcolor. cbv zeta.
  induction seen as [|x seen IH] using rev_ind; intros Hbytes; [now left|].
  right. apply Forall_app in Hbytes as [Hseen Hx]. apply Forall_cons in Hx as [Hx _].
  rewrite imap_app, foldl_app. cbn [imap foldl]. rewrite Nat.add_0_r.
  pose proof (squaredDistance_range color x Hcolor Hx) as Hdx.
  destruct (IH Hseen) as [[-> _] | (entry & Hmin & Hid & Hlook & Hbest)].
  - unfold closer. cbn [fst snd imap foldl length]. exists x.
    split; [reflexivity|]. split; [lia|]. split; [reflexivity|].
    intros [|j] other; [|discriminate]. intros [= <-]. split; lia.
  - set (best := foldl (closer Math_sqrt lessThan color) (None, 1) (imap pair seen)) in *.
    assert (byteColor (rgb entry)) as Hentry.
    { rewrite Forall_forall in Hseen. apply Hseen.
      now apply (list_elem_of_lookup_2 _ (Z.to_nat (snd best - 1))). }
    pose proof (squaredDistance_range color entry Hcolor Hentry) as Hde.
    pose proof (lookup_lt_Some _ _ _ Hlook) as Hlt.
    unfold closer. cbn [fst snd]. rewrite Hmin.
    destruct (lessThan _ _) eqn:Hless.
    + apply (Hroots _ _ Hdx Hde) in Hless. cbn [fst snd]. exists x.
      split; [reflexivity|]. split; [lia|]. split.
      { replace (Z.to_nat (Z.of_nat (length seen) + 1 - 1)) with (length seen) by lia.
        apply list_lookup_middle. reflexivity. }
      intros j other Hother. destruct (decide (j < length seen)%nat) as [Hj|Hj].
      * rewrite lookup_app_l in Hother by exact Hj.
        destruct (Hbest j other Hother) as [Hle _]. split; lia.
      * apply lookup_lt_Some in Hother as Hjlt. rewrite length_app in Hjlt.
        cbn [length] in Hjlt. replace j with (length seen) in * by lia.
        rewrite list_lookup_middle in Hother by reflexivity. injection Hother as <-.
        split; lia.
    + assert (squaredDistance color entry ≤ squaredDistance color x) as Hle.
      { destruct (Z.lt_ge_cases (squaredDistance color x) (squaredDistance color entry))
          as [Hlt'|Hge]; [|exact Hge].
        apply (Hroots _ _ Hdx Hde) in Hlt'. congruence. }
      exists entry. rewrite Hmin. split; [reflexivity|]. split; [exact Hid|]. split.
      { rewrite lookup_app_l by exact Hlt. exact Hlook. }
      intros j other Hother. destruct (decide (j < length seen)%nat) as [Hj|Hj].
      * rewrite lookup_app_l in Hother by exact Hj. exact (Hbest j other Hother).
      * apply lookup_lt_Some in Hother as Hjlt. rewrite length_app in Hjlt.
        cbn [length] in Hjlt. replace j with (length seen) in * by lia.
        rewrite list_lookup_middle in Hother by reflexivity. injection Hother as <-.
        split; [exact Hle|]. intros _. lia.
Qed.

(** X25.  For colours made of bytes, [findClosestColor] returns the number
    (index + 1) of a palette colour at the least distance from the given
    colour, and among several such the first; for an empty palette it
    returns 1. *)
Theorem findClosestColor_nearest (color : Rgb) (palette : list PaletteEntry) :
  rootsOrdered Math_sqrt lessThan →
  byteColor color →
  Forall (λ entry, byteColor (rgb entry)) palette →
  let closestId := findClosestColor Math_sqrt lessThan color palette in
  (palette = [] → closestId = 1)
  ∧ (palette ≠ [] →
     ∃ entry,
       1 ≤ closestId ≤ Z.of_nat (length palette)
       ∧ palette !! Z.to_nat (closestId - 1) = Some entry
       ∧ ∀ j other, palette !! j = Some other →
           squaredDistance color entry ≤ squaredDistance color other
           ∧ (squaredDistance color other = squaredDistance color entry →
              closestId - 1 ≤ Z.of_nat j)).
Proof.
  intros Hroots Hcolor Hbytes. cbv zeta. unfold findClosestColor.
  destruct (closest_so_far color palette Hroots Hcolor Hbytes)
    as [[-> Hbest] | (entry & _ & Hid & Hlook & Hmin)].
  - split; [reflexivity | intros Hne; now contradiction Hne].
  - split; [intros ->; discriminate Hlook|]. intros _. exists entry.
    apply lookup_lt_Some in Hlook as Hlt. split; [lia|]. now split.
Qed.

End ClosestColour.

Section ClosestColourOnFixture.
Import Cv ColorQuantizer WatershedProcessor Samples.

Lemma roots_ordered : rootsOrdered Roots.Math_sqrt Roots.lessThan.
Proof.
  intros a b Ha Hb. unfold Roots.Math_sqrt, Roots.lessThan. rewrite Z.ltb_lt. split.
  - intros Hlt. destruct (Z.lt_ge_cases a b) as [|Hge]; [assumption|]. exfalso.
    assert (Z.sqrt (b * 2 ^ 40) ≤ Z.sqrt (a * 2 ^ 40)); [|lia].
    apply Z.sqrt_le_mono. lia.
  - intros Hlt.
    pose proof (Z.sqrt_spec (a * 2 ^ 40) ltac:(lia)) as [Hlow Hhigh].
    set (s := Z.sqrt (a * 2 ^ 40)) in *.
    assert (0 ≤ s) by apply Z.sqrt_nonneg.
    assert (s < 2 ^ 39).
    { destruct (Z.lt_ge_cases s (2 ^ 39)) as [|Hbig]; [assumption|]. exfalso.
      assert (2 ^ 39 * 2 ^ 39 ≤ s * s) by nia. lia. }
    assert ((s + 1) * (s + 1) ≤ b * 2 ^ 40) as Hnext by nia.
    apply Z.sqrt_le_square in Hnext; lia.
Qed.

Lemma findClosestColor_nearest_witness :
  let closestId := findClosestColor Roots.Math_sqrt Roots.lessThan (mkRgb 190 190 190)
                     Fixture.twoGreys in
  ∃ entry,
    1 ≤ closestId ≤ 2
    ∧ Fixture.twoGreys !! Z.to_nat (closestId - 1) = Some entry
    ∧ ∀ j other, Fixture.twoGreys !! j = Some other →
        squaredDistance (mkRgb 190 190 190) entry
        ≤ squaredDistance (mkRgb 190 190 190) other
        ∧ (squaredDistance (mkRgb 190 190 190) other
           = squaredDistance (mkRgb 190 190 190) entry →
           closestId - 1 ≤ Z.of_nat j).
Proof.
  refine (proj2 (findClosestColor_nearest Roots.Math_sqrt Roots.lessThan
                   (mkRgb 190 190 190) Fixture.twoGreys roots_ordered _ _) _).
  - unfold byteColor, byte. cbn. lia.
  - repeat constructor; cbn; lia.
  - discriminate.
Defined.

Example findClosestColor_greys :
  findClosestColor Roots.Math_sqrt Roots.lessThan (mkRgb 190 190 190) Fixture.twoGreys = 2.
Proof. vm_compute. reflexivity. Qed.

End ClosestColourOnFixture.

(** ** Seeds and colours *)

Section Seeds.
Import Cv WatershedProcessor PipelineSpec MarkerInvariant Contract Morphology.
Context `{cv : OpenCV}.

(** X26.  A seed of [createMarkers] lies on pixels of its own colour only:
    where the marker image holds a positive id, the colour map sends the
    id to the cluster label of that very pixel plus one, and the label is
    one of 0 .. K-1.  Erosion and component labelling never set a pixel
    that the mask of the colour has clear, so no seed reaches a pixel of
    another colour. *)
Theorem createMarkers_seed_colour (self self' : Processor)
    (quantized labels markers : Mat) (numColors : Z) (complexity : string) :
  componentLabelsInRange → erodeShrinks → componentsInsideMask →
  createMarkers self quantized labels numColors complexity = Normal (markers, self') →
  (∀ st, buildMarkers quantized labels numColors complexity = Normal st →
         nextLabel st ≤ 2 ^ 31) →
  ∃ colorMap,
    _markerToColor self' = Some colorMap
    ∧ ∀ y x, (y < rows quantized)%nat → (x < cols quantized)%nat →
        intAt markers y x > 0 →
        0 ≤ intAt labels (y * cols quantized + x) 0 < numColors
        ∧ colorMap !! intAt markers y x
          = Some (intAt labels (y * cols quantized + x) 0 + 1).
Proof.
  intros Hcc Herode Hinside Hrun Hfit.
  apply createMarkers_Normal in Hrun as (st & Hbuild & -> & ->).
  pose proof (buildMarkers_builtUpTo _ _ _ _ _ Hcc Hbuild (Hfit st Hbuild)) as Hinv.
  exists (markerToColor st). split; [reflexivity|]. intros y x Hy Hx Hpos.
  destruct Hinv as (_ & Hok & Hmap & _ & _ & _ & _ & Hpix).
  destruct (Hpix y x Hy Hx) as [Hz|(c & Hc & Hcomp & Heq)]; [lia|].
  destruct (Hok c Hc) as (n & colorLabels & E).
  destruct (components_names _ _ _ _ _ _ _ E) as [Hn Hl].
  destruct (components_range _ _ _ _ _ _ _ Hcc E) as [_ Hrange].
  rewrite Hl in Hcomp, Heq.
  rewrite (component_inside_colour _ _ _ _ _ _ _ y x Herode Hinside E Hy Hx Hcomp).
  split; [lia|]. rewrite Heq. apply Hmap.
  exists c, (intAt colorLabels y x). split; [exact Hc|].
  split; [|now split]. specialize (Hrange y x). rewrite Hn. lia.
Qed.

End Seeds.

Section SeedsOnFixture.
Import Cv WatershedProcessor Contract Morphology.

Lemma twoTone_seeds :
  createMarkers (cv := Fixture.cv) new Fixture.twoToneRgb Fixture.twoToneLabels 2 "extreme"
  = Normal (Fixture.twoToneMarkers, Fixture.twoToneProcessor).
Proof. vm_compute. reflexivity. Qed.

Lemma createMarkers_seed_colour_witness :
  ∃ colorMap,
    _markerToColor Fixture.twoToneProcessor = Some colorMap
    ∧ ∀ y x, (y < rows Fixture.twoToneRgb)%nat → (x < cols Fixture.twoToneRgb)%nat →
        intAt Fixture.twoToneMarkers y x > 0 →
        0 ≤ intAt Fixture.twoToneLabels (y * cols Fixture.twoToneRgb + x) 0 < 2
        ∧ colorMap !! intAt Fixture.twoToneMarkers y x
          = Some (intAt Fixture.twoToneLabels (y * cols Fixture.twoToneRgb + x) 0 + 1).
Proof.
  exact (createMarkers_seed_colour (cv := Fixture.cv) new Fixture.twoToneProcessor
           Fixture.twoToneRgb Fixture.twoToneLabels Fixture.twoToneMarkers 2 "extreme"
           fixture_componentLabelsInRange fixture_erodeShrinks
           fixture_componentsInsideMask twoTone_seeds twoTone_markers_fit).
Defined.

End SeedsOnFixture.

(** ** The batch run of the application *)

Section AppBatchRun.
Import Cv BatchProcessor BatchSpec AppBatch AppBatchSpec.
Context `{cv : OpenCV}.
Context (preprocessImage : ImageData → Z → Completion ImageData).
Context (image : Type).
Context (loadImageFromFile : File → Completion image).
Context (getImageData : image → Z → Completion ImageData).
Context (download : image → WatershedProcessor.ProcessResult → App.Settings → string
                    → Completion unit).

#[local] Abbreviation turn' :=
  (AppBatch.turn preprocessImage image loadImageFromFile getImageData download).
#[local] Abbreviation processBatch' :=
  (AppBatch.processBatch preprocessImage image loadImageFromFile getImageData download).
#[local] Abbreviation failure' :=
  (failure preprocessImage image loadImageFromFile getImageData download).
#[local] Abbreviation closed' :=
  (closed preprocessImage image loadImageFromFile getImageData download).

Lemma filter_ext_elem {A} (P Q : A → Prop) `{!∀ x, Decision (P x), !∀ x, Decision (Q x)}
    (l : list A) :
  (∀ x, x ∈ l → P x ↔ Q x) → filter P l = filter Q l.
Proof.
  induction l as [|a l IH]; intros Hiff; [reflexivity|].
  rewrite !filter_cons.
  rewrite IH by (intros x Hx; apply Hiff; now right).
  destruct (decide (P a)) as [Hp|Hn]; destruct (decide (Q a)) as [Hq|Hnq];
    try reflexivity; exfalso.
  - apply Hnq, (Hiff a); [left | exact Hp].
  - apply Hn, (Hiff a); [left | exact Hq].
Qed.

(** One turn of the loop on an item in the heap: the item comes to what
    its file comes to on its own, and one of the counters steps. *)
Lemma turn_closes (settings : App.Settings) (t : Tally) (ref : nat) :
  (ref < length (heap (batchProcessor t)))%nat →
  let found := failure' settings (file (itemAt (batchProcessor t) ref)) in
  batchProcessor (turn' settings t ref)
  = assign ref (closed' settings) (batchProcessor t)
  ∧ completed (turn' settings t ref)
    = (completed t + if found is None then 1 else 0)%nat
  ∧ errors (turn' settings t ref)
    = (errors t + if found is None then 0 else 1)%nat.
Proof.
  intros Href. cbv zeta.
  destruct (lookup_lt_is_Some_2 _ _ Href) as [it Hit].
  assert (itemAt (batchProcessor t) ref = it) as Hat by (unfold itemAt; now rewrite Hit).
  assert (∀ s message,
            assign ref (λ it, mkItem (file it) s (result it) message)
              (assign ref (λ it, mkItem (file it) Processing (result it) (error it))
                 (batchProcessor t))
            = assign ref (λ it, mkItem (file it) s (result it) message)
                (batchProcessor t)) as Hmsg.
  { intros s message. unfold assign. cbn [heap queue results isProcessing currentIndex].
    f_equal. rewrite alter_alter. apply list_alter_ext; [|reflexivity].
    intros it' _. reflexivity. }
  assert (assign ref (λ it, mkItem (file it) Completed (result it) (error it))
            (assign ref (λ it, mkItem (file it) Processing (result it) (error it))
               (batchProcessor t))
          = assign ref (λ it, mkItem (file it) Completed (result it) (error it))
              (batchProcessor t)) as Hdone.
  { unfold assign. cbn [heap queue results isProcessing currentIndex].
    f_equal. rewrite alter_alter. apply list_alter_ext; [|reflexivity].
    intros it' _. reflexivity. }
  assert (assign ref (closed' settings) (batchProcessor t)
          = assign ref
              (λ it', match failure' settings (file it) with
                      | None => mkItem (file it') Completed (result it') (error it')
                      | Some message => mkItem (file it') Failed (result it') message
                      end) (batchProcessor t)) as Hclosed.
  { unfold assign. f_equal. apply list_alter_ext; [|reflexivity].
    intros it' Hit'. rewrite Hit in Hit'. injection Hit' as <-. reflexivity. }
  rewrite Hclosed, Hat. unfold turn. cbv zeta.
  assert (file (itemAt
                  (assign ref (λ it, mkItem (file it) Processing (result it) (error it))
                     (batchProcessor t)) ref) = file it) as Hfile.
  { unfold itemAt, assign. cbn [heap]. rewrite list_lookup_alter_eq, Hit. reflexivity. }
  rewrite Hfile, Hat. unfold failure.
  destruct (loadImageFromFile (file it)) as [img|e];
    cbn [batchProcessor completed errors]; [|now rewrite Hmsg].
  destruct (getImageData img _) as [imageData|e];
    cbn [batchProcessor completed errors]; [|now rewrite Hmsg].
  destruct (process_any_processor preprocessImage (processor t) WatershedProcessor.new
              imageData (App.optionsOf settings) (Some App.showProgress)) as (Hout & _).
  cbv zeta in Hout. rewrite <- Hout.
  destruct (WatershedProcessor.outcome _) as [res|e];
    cbn [batchProcessor completed errors]; [|now rewrite Hmsg].
  destruct (decide (length (WatershedProcessor.regions res) = 0%nat)) as [_|_];
    cbn [batchProcessor completed errors]; [now rewrite Hmsg|].
  destruct (download img res settings _) as [[]|e];
    cbn [batchProcessor completed errors]; [now rewrite Hdone | now rewrite Hmsg].
Qed.

Lemma closed_file (settings : App.Settings) (it : Item) :
  file (closed' settings it) = file it.
Proof. unfold closed. now destruct (failure' settings (file it)). Qed.

Lemma assign_closed_file (settings : App.Settings) (b : Batch) (ref ref' : nat) :
  file (itemAt (assign ref (closed' settings) b) ref') = file (itemAt b ref').
Proof.
  unfold itemAt, assign. cbn [heap]. destruct (decide (ref = ref')) as [->|Hne].
  - rewrite list_lookup_alter_eq. destruct (heap b !! ref'); [|reflexivity].
    apply closed_file.
  - now rewrite list_lookup_alter_ne.
Qed.

(** The loop over the queue. *)
Lemma turns_close (settings : App.Settings) (refs : list nat) (t : Tally) :
  Forall (λ ref, (ref < length (heap (batchProcessor t)))%nat) refs →
  let b := batchProcessor t in
  let after := foldl (turn' settings) t refs in
  batchProcessor after
  = mkBatch (foldl (λ h ref, alter (closed' settings) ref h) (heap b) refs) (queue b)
      (results b) (isProcessing b) (currentIndex b)
  ∧ completed after
    = (completed t
       + length (filter (λ ref, failure' settings (file (itemAt b ref)) = None) refs))%nat
  ∧ errors after
    = (errors t
       + length (filter (λ ref, is_Some (failure' settings (file (itemAt b ref))))
                   refs))%nat.
Proof.
  revert t. induction refs as [|ref refs IH]; intros t Hrefs; cbv zeta; cbn [foldl].
  - rewrite !filter_nil. cbn [length]. rewrite !Nat.add_0_r.
    split; [now destruct (batchProcessor t) | now split].
  - apply Forall_cons in Hrefs as [Href Hrefs].
    destruct (turn_closes settings t ref Href) as (Hb & Hc & He). cbv zeta in Hc, He.
    destruct (IH (turn' settings t ref)) as (Hb' & Hc' & He').
    { rewrite Hb. unfold assign. cbn [heap]. rewrite length_alter. exact Hrefs. }
    cbv zeta in Hb', Hc', He'. rewrite Hb', Hc', He', Hc, He, Hb.
    assert (∀ P : option ErrorField → Prop, ∀ (dec : ∀ o, Decision (P o)),
              filter (λ r, P (failure' settings
                                (file (itemAt (assign ref (closed' settings)
                                                 (batchProcessor t)) r)))) refs
              = filter (λ r, P (failure' settings (file (itemAt (batchProcessor t) r))))
                  refs) as Hsame.
    { intros P dec. apply list_filter_iff. intros r. now rewrite assign_closed_file. }
    rewrite (Hsame (λ o, o = None) _), (Hsame is_Some _).
    split; [reflexivity|]. rewrite !filter_cons.
    destruct (failure' settings (file (itemAt (batchProcessor t) ref))) as [message|]
      eqn:Hfound.
    + destruct (decide (Some message = None)) as [|_]; [discriminate|].
      destruct (decide (is_Some (Some message))) as [_|Hn];
        [|exfalso; apply Hn; now exists message].
      cbn [length]. split; lia.
    + destruct (decide (None = None)) as [_|]; [|contradiction].
      destruct (decide (is_Some (@None ErrorField))) as [[? Hs]|_]; [discriminate Hs|].
      cbn [length]. split; lia.
Qed.

Lemma closed_status (settings : App.Settings) (it : Item) :
  (status (closed' settings it) = Completed ↔ failure' settings (file it) = None)
  ∧ (status (closed' settings it) = Failed ↔ is_Some (failure' settings (file it))).
Proof.
  unfold closed. destruct (failure' settings (file it)) as [message|]; cbn [status].
  - split; split; intros H; try discriminate H; try reflexivity. now exists message.
  - split; split; intros H; try discriminate H; try reflexivity.
    destruct H as [? H]. discriminate H.
Qed.

Lemma length_filter_None_Some {A B} (f : A → option B) (l : list A) :
  (length (filter (λ a, f a = None) l) + length (filter (λ a, is_Some (f a)) l))%nat
  = length l.
Proof.
  induction l as [|a l IH]; [reflexivity|]. rewrite !filter_cons.
  destruct (f a) as [v|].
  - destruct (decide (Some v = None)) as [|_]; [discriminate|].
    destruct (decide (is_Some (Some v))) as [_|Hn]; [|exfalso; apply Hn; now exists v].
    cbn [length]. lia.
  - destruct (decide (None = None)) as [_|]; [|contradiction].
    destruct (decide (is_Some (@None B))) as [[? Hs]|_]; [discriminate Hs|].
    cbn [length]. lia.
Qed.

(** X27.  The batch run of the application, when no other handler runs
    while it waits, deals with every queued item: each ends up as its
    file comes to on its own, whatever was processed before it on the
    shared processor: completed, or in error with the message of what was
    thrown, with 'No regions detected' when the pipeline found no region.  The counters are the numbers of completed
    and of failed items of the queue and add up to its length; the one
    toast is a success when no item failed and a warning otherwise.  On
    an empty queue nothing happens and no toast is shown.  The queue, the
    results and the busy flag of the batch processor stay as they were. *)
Theorem processBatch_tally (settings : App.Settings) (b : Batch) :
  wellFormed b →
  let t := fst (processBatch' settings b) in
  let toasts := snd (processBatch' settings b) in
  let after := batchProcessor t in
  (queue b = [] → after = b ∧ toasts = [])
  ∧ (∀ ref, ref ∈ queue b → itemAt after ref = closed' settings (itemAt b ref))
  ∧ (∀ ref, ref ∉ queue b → itemAt after ref = itemAt b ref)
  ∧ queue after = queue b ∧ results after = results b
  ∧ isProcessing after = isProcessing b
  ∧ completed t = count Completed after
  ∧ errors t = count Failed after
  ∧ (completed t + errors t = length (queue b))%nat
  ∧ (queue b ≠ [] →
     ∃ toast, toasts = [toast] ∧ App.duration toast = 5000
              ∧ App.kind toast = (if decide (errors t = 0%nat) then "success"
                                  else "warning")).
Proof.
  intros (Hdup & Hqueue & Hresults). cbv zeta. unfold processBatch.
  destruct (decide (length (queue b) = 0%nat)) as [Hempty|Hsome];
    cbn [fst snd batchProcessor completed errors].
  - apply length_zero_iff_nil in Hempty. unfold count. rewrite Hempty.
    split; [now split|]. split; [intros ref Hin; now apply elem_of_nil in Hin|].
    split; [reflexivity|]. repeat (split; [reflexivity|]).
    intros Hne. now contradiction Hne.
  - destruct (turns_close settings (queue b) (mkTally b WatershedProcessor.new 0 0) Hqueue)
      as (Hb & Hc & He).
    cbv zeta in Hb, Hc, He. cbn [batchProcessor completed errors] in Hb, Hc, He.
    set (t := foldl (turn' settings) (mkTally b WatershedProcessor.new 0 0) (queue b)) in *.
    assert (∀ ref, ref ∈ queue b →
              itemAt (batchProcessor t) ref = closed' settings (itemAt b ref)) as Hitems.
    { intros ref Hin. rewrite Hb. unfold itemAt. cbn [heap].
      rewrite foldl_alter_lookup by exact Hdup.
      destruct (decide (ref ∈ queue b)) as [_|]; [|contradiction].
      rewrite Forall_forall in Hqueue.
      destruct (lookup_lt_is_Some_2 _ _ (Hqueue _ Hin)) as [it ->]. reflexivity. }
    split; [intros Hq; rewrite Hq in Hsome; now contradiction Hsome|].
    split; [exact Hitems|]. split.
    { intros ref Hout. rewrite Hb. unfold itemAt. cbn [heap].
      rewrite foldl_alter_lookup by exact Hdup.
      destruct (decide (ref ∈ queue b)) as [|_]; [contradiction | reflexivity]. }
    split; [now rewrite Hb|]. split; [now rewrite Hb|]. split; [now rewrite Hb|].
    assert (queue (batchProcessor t) = queue b) as Hq by now rewrite Hb.
    split; [|split; [|split]].
    + rewrite Hc. unfold count. rewrite Hq. cbn [Nat.add]. f_equal.
      apply filter_ext_elem. intros ref Hin. rewrite (Hitems ref Hin).
      symmetry. apply closed_status.
    + rewrite He. unfold count. rewrite Hq. cbn [Nat.add]. f_equal.
      apply filter_ext_elem. intros ref Hin. rewrite (Hitems ref Hin).
      symmetry. apply closed_status.
    + rewrite Hc, He. cbn [Nat.add]. apply length_filter_None_Some.
    + intros _. eexists. split; [reflexivity|].
      destruct (decide (errors t = 0%nat)); cbn [App.duration App.kind]; now split.
Qed.

End AppBatchRun.

Section AppBatchRunOnFixture.
Import Cv BatchProcessor BatchSpec AppBatch.

(** A download that goes through. *)
#[local] Abbreviation saved :=
  (λ (_ : ImageData) (_ : WatershedProcessor.ProcessResult (cv := Fixture.cv))
     (_ : App.Settings) (_ : string), Normal tt).

Lemma processBatch_tally_witness :
  let run := AppBatch.processBatch (cv := Fixture.cv) Fixture.preprocessImage ImageData
               BatchFixture.readable Fixture.getImageData saved
               Fixture.checkerboardSettings
               (addFiles [BatchFixture.photo; BatchFixture.notes] new) in
  (completed (fst run) + errors (fst run)
   = length (queue (addFiles [BatchFixture.photo; BatchFixture.notes] new)))%nat.
Proof.
  destruct (processBatch_tally (cv := Fixture.cv) Fixture.preprocessImage ImageData
              BatchFixture.readable Fixture.getImageData saved
              Fixture.checkerboardSettings
              (addFiles [BatchFixture.photo; BatchFixture.notes] new))
    as (_ & _ & _ & _ & _ & _ & _ & _ & Hsum & _).
  - split; [|split]; cbn.
    + apply NoDup_singleton.
    + repeat constructor.
    + constructor.
  - exact Hsum.
Defined.

(** The checkerboard at complexity low has no region: its item ends in
    error, and the toast is the warning. *)
Example processBatch_checkerboard :
  let run := AppBatch.processBatch (cv := Fixture.cv) Fixture.preprocessImage ImageData
               BatchFixture.readable Fixture.getImageData saved
               Fixture.checkerboardSettings
               (addFiles [BatchFixture.photo; BatchFixture.notes] new) in
  (status <$> items (batchProcessor (fst run)) = [Failed])
  ∧ (error <$> items (batchProcessor (fst run)) = [Message "No regions detected"])
  ∧ snd run = [App.mkToast "Done: 0 downloaded, 1 failed." "warning" 5000].
Proof. vm_compute. repeat split. Qed.

End AppBatchRunOnFixture.

(** ** The batch processor of the application *)

Section AppSession.
Import Cv BatchProcessor BatchSpec AppBatch AppBatchSpec.
Context `{cv : OpenCV}.
Context (preprocessImage : ImageData → Z → Completion ImageData).
Context (image : Type).
Context (loadImageFromFile : File → Completion image).
Context (getImageData : image → Z → Completion ImageData).
Context (download : image → WatershedProcessor.ProcessResult → App.Settings → string
                    → Completion unit).

#[local] Abbreviation perform' :=
  (perform preprocessImage image loadImageFromFile getImageData download).
#[local] Abbreviation session' :=
  (session preprocessImage image loadImageFromFile getImageData download).

Lemma dormant_addFiles (files : list File) (b : Batch) :
  dormant b → dormant (addFiles files b).
Proof.
  unfold addFiles. revert b. induction files as [|f files IH]; intros b Hb; cbn [foldl];
    [exact Hb|].
  apply IH. destruct Hb as (Hwf & Hidle & Hres & Hidx & Hnone).
  destruct (addFile_spec b f Hwf) as (Hwf1 & _ & Hres1 & _ & Hp1 & Hc1).
  split; [exact Hwf1|]. split; [congruence|]. split; [congruence|].
  split; [congruence|]. unfold addFile. destruct (isImage f); [|exact Hnone].
  cbn [heap]. apply Forall_app. split; [exact Hnone|]. now repeat constructor.
Qed.

Lemma Forall_foldl_alter {A} (P : A → Prop) (f : A → A) (refs : list nat) (l : list A) :
  (∀ x, P x → P (f x)) → Forall P l → Forall P (foldl (λ h r, alter f r h) l refs).
Proof.
  intros Hf. revert l. induction refs as [|r refs IH]; intros l Hl; cbn [foldl];
    [exact Hl|].
  apply IH. apply Forall_alter; [exact Hl|]. intros x _ Hx. now apply Hf.
Qed.

Lemma dormant_processBatch (settings : App.Settings) (b : Batch) :
  dormant b →
  dormant (batchProcessor
             (fst (processBatch preprocessImage image loadImageFromFile getImageData
                     download settings b))).
Proof.
  intros Hb. unfold processBatch.
  destruct (decide (length (queue b) = 0%nat)) as [_|_]; cbn [fst batchProcessor];
    [exact Hb|].
  destruct Hb as ((Hdup & Hqueue & Hresults) & Hidle & Hres & Hidx & Hnone).
  destruct (turns_close preprocessImage image loadImageFromFile getImageData download
              settings (queue b) (mkTally b WatershedProcessor.new 0 0) Hqueue)
    as (Hafter & _).
  cbv zeta in Hafter. cbn [batchProcessor] in Hafter. rewrite Hafter.
  unfold dormant, wellFormed. cbn [heap queue results isProcessing currentIndex].
  rewrite length_foldl_alter.
  split; [now repeat split|]. split; [exact Hidle|]. split; [exact Hres|].
  split; [exact Hidx|]. apply Forall_foldl_alter; [|exact Hnone].
  intros it Hit. unfold closed. now destruct (failure _ _ _ _ _ _ _).
Qed.

Lemma dormant_perform (b : Batch) (a : Action) :
  dormant b → ∃ b', perform' b a = Normal b' ∧ dormant b'.
Proof.
  intros Hb. destruct a as [files|index| |settings]; cbn [perform].
  - eexists. split; [reflexivity|]. now apply dormant_addFiles.
  - destruct Hb as ((Hdup & Hqueue & Hresults) & Hidle & Hres & Hidx & Hnone).
    unfold removeItem. rewrite Hidle. eexists. split; [reflexivity|].
    unfold dormant, wellFormed. cbn [heap queue results isProcessing currentIndex].
    split; [|now repeat split]. split; [|split; [now apply Forall_delete | exact Hresults]].
    exact (sublist_NoDup _ _ Hdup (sublist_delete _ _)).
  - destruct Hb as ((Hdup & Hqueue & Hresults) & Hidle & Hres & Hidx & Hnone).
    unfold clear. rewrite Hidle. eexists. split; [reflexivity|].
    unfold dormant, wellFormed. cbn [heap queue results isProcessing currentIndex].
    split; [|now repeat split]. split; [constructor|]. split; constructor.
  - eexists. split; [reflexivity|]. now apply dormant_processBatch.
Qed.

(** X28.  Whatever sequence of its batch handlers the application runs,
    each to its end, on the batch processor it created: no handler
    throws, so [removeItem] and [clear] never refuse; the processor is
    never marked as processing, its results stay empty and its index at 0;
    no item ever gets a result; and no item is queued twice.  The batch run
    of the application never sets the busy flag that the two guards
    test. *)
Theorem session_dormant (actions : list Action) :
  ∃ b,
    session' actions = Normal b
    ∧ isProcessing b = false
    ∧ results b = []
    ∧ currentIndex b = 0%nat
    ∧ Forall (λ it, result it = None) (heap b)
    ∧ wellFormed b.
Proof.
  unfold session.
  assert (∀ b, dormant b → ∃ b', forEach perform' b actions = Normal b' ∧ dormant b')
    as Hrun.
  { induction actions as [|a actions IH]; intros b Hb; cbn [forEach].
    - now exists b.
    - destruct (dormant_perform b a Hb) as (b1 & -> & Hb1).
      cbn [mbind completion_bind Js.bind]. now apply IH. }
  destruct (Hrun new) as (b & Hb & Hwf & Hidle & Hres & Hidx & Hnone).
  { unfold dormant, wellFormed. cbn. repeat split; constructor. }
  exists b. split; [exact Hb|]. split; [exact Hidle|]. split; [exact Hres|].
  split; [exact Hidx|]. split; [exact Hnone | exact Hwf].
Qed.

End AppSession.

Section AppSessionOnFixture.
Import Cv BatchProcessor BatchSpec AppBatch.

(** Two files are dropped, the batch is run, the one queued item is
    removed and the queue is cleared: the item stays in error, without a
    result, and nothing is queued. *)
Example session_checkerboard :
  session (cv := Fixture.cv) Fixture.preprocessImage ImageData BatchFixture.readable
    Fixture.getImageData
    (λ (_ : ImageData) (_ : WatershedProcessor.ProcessResult (cv := Fixture.cv))
       (_ : App.Settings) (_ : string), Normal tt)
    [HandleFileSelect [BatchFixture.photo; BatchFixture.notes];
     ProcessBatch Fixture.checkerboardSettings; RemoveBatchItem 0; ClearBatch]
  = Normal (mkBatch
              [mkItem BatchFixture.photo Failed None (Message "No regions detected")]
              [] [] false 0).
Proof. vm_compute. reflexivity. Qed.

End AppSessionOnFixture.

(** ** The bounding box of a region *)

Section BoundingBoxes.
Import Cv RegionExtractor.
Context `{cv : OpenCV}.
Context (number : Type).
Context (calculatePerimeter : list SVGGenerator.Point → number).
Context (compactnessOf : double → number → number).

(** The box after the points of a non-empty contour: finite, around every
    point, and touched by a point on each side. *)
Lemma stretch_box (contour : list SVGGenerator.Point) :
  contour ≠ [] →
  ∃ x0 y0 x1 y1,
    foldl stretch (mkBox Infinity Infinity NegInfinity NegInfinity) contour
    = mkBox (Finite x0) (Finite y0) (Finite x1) (Finite y1)
    ∧ Forall (λ p, x0 ≤ SVGGenerator.px p ≤ x1 ∧ y0 ≤ SVGGenerator.py p ≤ y1) contour
    ∧ Exists (λ p, SVGGenerator.px p = x0) contour
    ∧ Exists (λ p, SVGGenerator.py p = y0) contour
    ∧ Exists (λ p, SVGGenerator.px p = x1) contour
    ∧ Exists (λ p, SVGGenerator.py p = y1) contour.
Proof.
  induction contour as [|p contour IH] using rev_ind; intros Hne;
    [now contradiction Hne|].
  rewrite foldl_app. cbn [foldl].
  destruct contour as [|q contour].
  - cbn [foldl]. unfold stretch. cbn [minX minY maxX maxY Math_min Math_max].
    exists (SVGGenerator.px p), (SVGGenerator.py p), (SVGGenerator.px p),
      (SVGGenerator.py p).
    split; [reflexivity|]. split; [repeat constructor; lia|].
    repeat split; now constructor.
  - destruct (IH ltac:(discriminate)) as (x0 & y0 & x1 & y1 & -> & Hall & Hx0 & Hy0 & Hx1 & Hy1).
    unfold stretch. cbn [minX minY maxX maxY Math_min Math_max].
    exists (Z.min x0 (SVGGenerator.px p)), (Z.min y0 (SVGGenerator.py p)),
      (Z.max x1 (SVGGenerator.px p)), (Z.max y1 (SVGGenerator.py p)).
    split; [reflexivity|]. split.
    { apply Forall_app. split.
      - eapply Forall_impl; [exact Hall|]. cbn beta. intros r Hr. lia.
      - repeat constructor; lia. }
    repeat split; apply Exists_app.
    + destruct (Z.min_spec x0 (SVGGenerator.px p)) as [[_ ->]|[_ ->]];
        [now left | right; now constructor].
    + destruct (Z.min_spec y0 (SVGGenerator.py p)) as [[_ ->]|[_ ->]];
        [now left | right; now constructor].
    + destruct (Z.max_spec x1 (SVGGenerator.px p)) as [[_ ->]|[_ ->]];
        [right; now constructor | now left].
    + destruct (Z.max_spec y1 (SVGGenerator.py p)) as [[_ ->]|[_ ->]];
        [right; now constructor | now left].
Qed.

(** X29.  The bounding box of [getRegionStats] is the least box around
    the contour: every point of a non-empty contour lies in it, each of
    its four sides passes through a point of the contour, and [width] and
    [height] are the differences of its sides, never negative.  For an
    empty contour the box keeps the infinities it starts from, and [width]
    and [height] are -Infinity. *)
Theorem getRegionStats_boundingBox (region : WatershedProcessor.Region) :
  let contour := WatershedProcessor.contour region in
  let stats := getRegionStats number calculatePerimeter compactnessOf region in
  match contour with
  | [] =>
      boundingBox number stats = mkBox Infinity Infinity NegInfinity NegInfinity
      ∧ width number stats = NegInfinity
      ∧ height number stats = NegInfinity
  | _ =>
      ∃ x0 y0 x1 y1,
        boundingBox number stats = mkBox (Finite x0) (Finite y0) (Finite x1) (Finite y1)
        ∧ Forall (λ p, x0 ≤ SVGGenerator.px p ≤ x1 ∧ y0 ≤ SVGGenerator.py p ≤ y1)
            contour
        ∧ Exists (λ p, SVGGenerator.px p = x0) contour
        ∧ Exists (λ p, SVGGenerator.py p = y0) contour
        ∧ Exists (λ p, SVGGenerator.px p = x1) contour
        ∧ Exists (λ p, SVGGenerator.py p = y1) contour
        ∧ width number stats = Finite (x1 - x0) ∧ 0 ≤ x1 - x0
        ∧ height number stats = Finite (y1 - y0) ∧ 0 ≤ y1 - y0
  end.
Proof.
  cbv zeta. unfold getRegionStats. cbv zeta. cbn [boundingBox width height].
  destruct (WatershedProcessor.contour region) as [|p contour] eqn:Hcontour.
  - cbn [foldl minX minY maxX maxY minus]. now repeat split.
  - destruct (stretch_box (p :: contour) ltac:(discriminate))
      as (x0 & y0 & x1 & y1 & Hbox & Hall & Hx0 & Hy0 & Hx1 & Hy1).
    rewrite Hbox. cbn [minX minY maxX maxY minus].
    exists x0, y0, x1, y1. apply Forall_cons in Hall as Hp. destruct Hp as [Hp _].
    repeat split; try assumption; lia.
Qed.

End BoundingBoxes.
